(* ===== verification/_CoqProject ===== *)
-Q . S2P
Prelude.v
Effects.v
Regex.v
Go.v
Duration.v
Json.v
Api.v
DeepCopy.v
Manager.v
Calls.v
Scheme.v
TestUtils.v
Catalog.v
CatalogTemplates.v
Controller.v
ControllerFacts.v
ControllerStatus.v
ControllerRest.v
ControllerIdempotent.v
ControllerLiveness.v
ControllerSchema.v
ControllerObjects.v
Capacity.v
Provisioning.v
TokenStore.v
Metrics.v
ConvexClient.v
Runnable.v
RunnableCalls.v
RunnableFacts.v
Claims.v
Termination.v
Gateway.v
Proxy.v
PodExec.v
Server.v
ServerFacts.v
Cluster.v
Operator.v
Fleet.v
EndToEnd.v
Main.v
MainFacts.v
WorkQueue.v
Shared.v
SharedFacts.v
SharedLoop.v
Access.v
Etcd.v
Concrete.v
Witnesses.v
ServerWitnesses.v
SharedWitnesses.v
FleetWitness.v
Informed.v
OperatorWitnesses.v
Memory.v
