(* ===== verification/Prelude.v ===== *)
(** * ai-cloud-operator, verified

    The operator runs workloads from a small catalog (nginx, browsers, a desktop) as
    custom resources of a Kubernetes cluster, on behalf of a control plane called
    Convex.  This library models its Go code and proves what makes it correct.

    ** The program and its parts

    - [api/v1alpha1]: the custom resource [Workload].
    - [internal/catalog]: the templates, their parameters and operations.
    - [internal/controller]: the reconciler, which turns a Workload into a Deployment
      and a Service, keeps its status and tells Convex about it.
    - [internal/provisioning]: creating, redeploying, suspending, deleting Workloads.
    - [internal/convexclient]: the HTTP client of Convex and the runnable that
      registers, sends heartbeats, claims requests and executes pending operations.
    - [internal/capacity], [internal/metrics]: what the cluster offers and uses.
    - [internal/tokenstore], [internal/workloadns] and the key store of
      [internal/gateway]: state kept in Secrets, and the workload namespace.
    - [internal/api], the rest of [internal/gateway], [internal/podexec]: the inbound
      HTTP API, its two authentications, the reverse proxy, commands in pods.
    - [cmd/main.go]: the wiring.
    - [test/utils]: helpers of the end-to-end tests.

    ** Files

    Foundations:
    - [Prelude]: results of fallible functions, machine integers, sums.
    - [Effects]: programs as trees of calls to the environment, with their runs
      ([exec], [run]), reasoning about all runs ([wp], [safe], [guarded]), linking of
      a component with the implementation of its interface ([link]), budgets of calls
      ([within]) and pools of concurrent programs ([pool_step], [pool_run]).
    - [Regex], [Go], [Duration], [Json]: regular expressions, what is used of the Go
      language and standard library (errors, strings, float64, interface values,
      [time.ParseDuration]), JSON documents.
    - [Api], [Manager], [Calls]: the Kubernetes objects with the fields the code uses,
      what is handed to controller-runtime at start-up, and the environment, one
      constructor per operation the code asks of the world.
    - [DeepCopy]: api/v1alpha1/zz_generated.deepcopy.go, over a heap of Go values in
      which pointers and slices are addresses; [Scheme]: groupversion_info.go and the
      [init] functions, which register the API types.

    Components (definitions named as in the source; theorems in the same file or in
    the files whose name starts with the component's):
    - [Catalog], [CatalogTemplates]: catalog/registry.go and types.go; browser.go,
      nginx.go, firefox.go, chrome.go and webtop.go.
    - [Controller], [ControllerFacts], [ControllerStatus], [ControllerRest],
      [ControllerIdempotent], [ControllerLiveness], [ControllerSchema],
      [ControllerObjects]: controller/workload_controller.go.
      [Reconcile] is the whole handler; its parts [ensureFinalizer], [reconcileLive],
      [apply] and [observe] are consecutive pieces of its body.  [ControllerSchema] has
      the validation markers of the status in api/v1alpha1/workload_types.go.
    - [Capacity], [Provisioning], [Metrics]: capacity/tracker.go,
      provisioning/creator.go, metrics/collector.go and reporter.go.
    - [TokenStore]: tokenstore.go, gateway/keystore.go and workloadns/ensure.go.
    - [ConvexClient]: convexclient/client.go, with the JSON encoding of the catalog
      that [Hash] is taken of, and OPERATOR_TAGS of cmd/main.go.
    - [Runnable], [RunnableCalls], [RunnableFacts]: convexclient/runnable.go and
      enrollment.go; [Claims]: the accounts of the loop, what uses up a claim; [Termination]: the
      budgets of a heartbeat and of a reconciliation.
    - [Gateway], [Proxy]: gateway/token.go; gateway/proxy.go and page.go.
    - [PodExec]: podexec/exec.go.
    - [Server], [ServerFacts]: api/server.go and apierror.go.
    - [TestUtils]: test/utils/utils.go, over an environment of its own (processes,
      variables, files).

    The operator as a whole:
    - [Main], [MainFacts]: cmd/main.go and SetupWithManager of the controller.
    - [Operator]: the interfaces the reconciler and the server are wired with,
      implemented by the HTTP client of the runnable.
    - [WorkQueue]: workers that take keys from the controller's queue, which the
      informers fill as the watches of [SetupWithManager] say.
    - [Shared], [SharedFacts], [SharedLoop]: the tokens of the runnable behind their
      read-write mutex, and the heartbeat loop, reconciliations, requests and reports
      as goroutines over that memory.
    - [Access]: the API server of [Main] with the runnable behind it.
    - [Cluster]: reconciliations, requests, heartbeat loops and reports running at once
      on one cluster, with other clients of the API server in between.
    - [EndToEnd]: one request from its claim to the report that it is active.
    - [Fleet]: any number of operators, each with its tasks, in front of one Convex.
    - [Etcd], [Concrete], [Witnesses], [ServerWitnesses], [SharedWitnesses], [FleetWitness],
      [Informed], [OperatorWitnesses], [Memory]: instances of all parameters, an API server as a log
      of revisions, a cluster with caches and a queue, the Kubernetes types in memory,
      an executable environment, and every theorem with hypotheses at a concrete input.

    ** How code is modelled

    Pure functions are functions.  Code with effects is a [program]: calls with
    arbitrary answers, so a theorem about all runs covers every behaviour of the
    cluster, of Convex, of the clock and of concurrent writers.  Objects that a Go
    function updates through a pointer are passed along explicitly; after a
    successful update the code goes on with the object the API server returned.
    Fallible functions return [result goerr]; errors keep their wrapping, so that
    [errors.Is] is a function.  A run-time panic is the error [EPanic]: on the comparison
    of interface values, which [catalog_never_panics] rules out, and of
    [time.NewTicker], which [nonpositive_interval_fatal] shows to be possible.  Integers of fixed
    width wrap ([int64]); [float64] is the binary64 format of the Standard Library;
    a nil map that the code tells from an empty one is an [option].  Logging, contexts
    and timeouts are left out: a call that times out is one that answers with an
    error.

    Most components are modelled one run at a time.  Some files add what that leaves
    out.  In [Cluster], [WorkQueue] and [Fleet] programs interleave call by call on one
    cluster or in front of one Convex, and [WorkQueue] may kill and restart the operator
    at any call (elsewhere a program that is never scheduled again stands for that).
    In [Shared] the operations on the mutex and on the tokens are steps of their own
    and an assignment of the tokens takes two, with the tokens torn in between;
    [loop_refines_Start] brings the loop back to the sequential [Start].  In [DeepCopy]
    aliasing is explicit.

    Third-party code is a parameter with named, documented laws: [GoStd] (formatting
    of numbers and times, the JSON codec of configurations, regular expressions of
    parameters), [GoNet] (URL parsing, the hash of the encoded catalog), [KubeLib]
    (helpers of apimachinery and controller-runtime; of the transition times only that
    setting a condition to what it is changes nothing), [GatewayCodec] (HMAC-SHA256,
    base64, the JSON codec of the cookie), [PageTemplate] (html/template) and, for
    [Cluster] and [WorkQueue], [KubeApi] (the API server: optimistic concurrency,
    finalizers, resource versions, reads from a cache), [Informers] (caches that
    follow the API server event by event and notify of changes) and [WorkQueue] (an
    added key stays pending until a worker takes it, one worker per key), for the
    replicas in [TokenStore] the API server of Secrets ([SecretApi]: a create never
    overwrites, and may fail with or without having taken effect), for [Fleet] the
    contract of Convex ([Leases]: only an open request is granted, a grant closes it,
    a retryable report or Convex itself opens it again), for [Scheme] the scheme of
    apimachinery, and for [DeepCopy] the deep copies of the Kubernetes types inside a
    Workload. [Concrete], [Etcd], [Informed], [Witnesses], [FleetWitness], [Scheme]
    and [Memory] instantiate all of them. What other clients of the API server do is
    not restricted by these laws; a theorem that needs them to leave an object alone
    (the Secret of the signing key, the Deployment and Service under the name of one
    Workload) says so as a condition on the run.

    All definitions are total and executable.  Loops are structural over lists;
    the only loops without an end, the ticker loops of the runnable and the reporter,
    take the number of ticks before the context is cancelled as an argument, and their
    theorems hold for every number.  The one function with fuel is the loop of
    [ParseDuration]: each round consumes a character, so the length of the text is
    enough ([parse_loop_total]).

    ** What is proved

    - Reconciler: the finalizer leaves an object only after Convex confirmed its
      removal; terminal failures are reported only with a cause, conflicts never; a
      workload that cannot be scheduled is deleted only after its claim was given
      back; the status is that of the Deployment; notifications are repeated until
      acknowledged; and the reconciler goes quiet only when nothing is left to do.
      Conversely one undisturbed reconciliation settles a workload; every status it
      writes satisfies the schema of the resource; its calls are bounded; and run again
      on its own result it changes nothing.
      The Deployment and Service it writes fit together and belong to one workload.
      Linked with the HTTP client, these are statements about Convex's answers; under
      every interleaving of the operator's tasks with other clients, which may do
      anything, the operator itself never takes the finalizer off without confirmation.
    - Controller as a whole: no change is lost.  Whenever queue and workers are done
      with a key and the caches are up to date, the objects in the cluster and the
      status are what the specification of the Workload asks for, or it is being
      deleted and the operator has let it go; kills and restarts do not change that.
    - Goroutines: they neither deadlock nor leave the mutex locked; the loop behaves as
      its sequential model; and no interleaving opens the management API without a
      token that was read from or written to the token Secret.
    - Claims and operations: no claim is dropped, none is used twice, a request is
      provisioned once in a whole fleet unless it is opened again, a claimed request
      becomes a workload that is reported active under its id, capacity is never overcommitted
      within a tick, operations do what was asked, tokens in memory are current, and a
      heartbeat is bounded work whatever Convex offers.
    - Start-up: the components are wired to one namespace, with the persisted secrets;
      nothing is read through a cache that does not run yet; the manager is started only
      with everything registered; the management API of the result is closed until the
      operator is registered, and then opens only with the issued token.
    - Provisioning and catalog: what is accepted renders; [ResolveParams] is
      characterised completely; templates render consistent objects whose commands
      contain no parameter; estimates are exact.
    - Server and gateway: neither route group can be used without its credential; a
      relayed request has a valid session and goes to that workload; a one-time token
      is always put to Convex; commands run only in pods of the named workload.
    - Deep copies: equal in value, and isolated from the original.
    - Stores, metrics, capacity: round trips, agreement of replicas on one key, sums
      exact modulo 2^64.

    ** Not modelled

    Third-party code behind the calls (controller-runtime, client-go, net/http), the
    parsing of the command line, logging, the delay after which a requeued key comes
    back, and an informer that lists anew after it lost its watch, which can skip events.

    ** Continuation

    Every component of the repository is modelled; only constructors and accessors that
    pass a field on, and [Tracker.Start], which just waits for its context to end, have
    no definition of their own.  What remains are deeper theorems:
    progress of the whole system under fair scheduling, and the interplay with the
    code of Convex, which is in another repository. *)

From stdpp Require Export base gmap strings list option fin_maps pretty.
From Stdlib Require Export ZArith Lia.

(** ** Results of fallible Go functions

    A Go function returning [(T, error)] is modelled by [result E T]. *)
Inductive result (E A : Type) : Type :=
| Ok (a : A)
| Err (e : E).

Arguments Ok {E A} a.
Arguments Err {E A} e.

Definition is_ok {E A} (r : result E A) : bool :=
  match r with Ok _ => true | Err _ => false end.

Definition result_bind {E A B} (r : result E A) (f : A → result E B) : result E B :=
  match r with Ok a => f a | Err e => Err e end.

Declare Scope go_scope.
Delimit Scope go_scope with go.

Notation "'try' x <- r ;; k" := (result_bind r (fun x => k))
  (at level 100, x binder, r at next level, right associativity) : go_scope.

(** ** Machine integers

    [int32] and [int64] arithmetic wraps around in two's complement. *)
Definition wrap_signed (w : Z) (z : Z) : Z :=
  (z + 2 ^ (w - 1)) `mod` 2 ^ w - 2 ^ (w - 1).

Definition int32 (z : Z) : Z := wrap_signed 32 z.
Definition int64 (z : Z) : Z := wrap_signed 64 z.

Definition in_int32 (z : Z) : Prop := (- 2 ^ 31 ≤ z < 2 ^ 31)%Z.
Definition in_int64 (z : Z) : Prop := (- 2 ^ 63 ≤ z < 2 ^ 63)%Z.

#[export] Instance in_int32_dec z : Decision (in_int32 z).
Proof. unfold in_int32. apply _. Defined.

#[export] Instance in_int64_dec z : Decision (in_int64 z).
Proof. unfold in_int64. apply _. Defined.

Lemma wrap_signed_small w z :
  (0 < w)%Z → (- 2 ^ (w - 1) ≤ z < 2 ^ (w - 1))%Z → wrap_signed w z = z.
Proof.
  intros Hw Hz. unfold wrap_signed.
  assert (2 ^ w = 2 * 2 ^ (w - 1))%Z as Hp.
  { replace w with (Z.succ (w - 1))%Z at 1 by lia. rewrite Z.pow_succ_r; lia. }
  rewrite Z.mod_small; lia.
Qed.

(** Wrapping once at the end is the same as wrapping at every step. *)
Lemma wrap_signed_add_l w a b : wrap_signed w (wrap_signed w a + b) = wrap_signed w (a + b).
Proof.
  unfold wrap_signed. f_equal.
  replace ((a + 2 ^ (w - 1)) `mod` 2 ^ w - 2 ^ (w - 1) + b + 2 ^ (w - 1))%Z
    with ((a + 2 ^ (w - 1)) `mod` 2 ^ w + b)%Z by lia.
  rewrite Zplus_mod_idemp_l. f_equal. lia.
Qed.

Lemma int64_add_l a b : int64 (int64 a + b) = int64 (a + b).
Proof. apply wrap_signed_add_l. Qed.

Lemma int64_add_r a b : int64 (a + int64 b) = int64 (a + b).
Proof. rewrite Z.add_comm, int64_add_l. f_equal. lia. Qed.

(** A sum over a list, of exact integers. *)
Definition zsum {A} (f : A → Z) (l : list A) : Z := foldr (λ x acc, (f x + acc)%Z) 0%Z l.

Lemma zsum_app {A} (f : A → Z) l1 l2 : zsum f (l1 ++ l2) = (zsum f l1 + zsum f l2)%Z.
Proof. induction l1 as [|x l1 IH]; simpl; lia. Qed.

Lemma int64_small z : in_int64 z → int64 z = z.
Proof. intros Hz. apply wrap_signed_small; [lia | exact Hz]. Qed.
