(* ===== verification/Effects.v ===== *)
(** * Effects: programs that call their environment

    Everything the operator does beyond computing (reading and writing
    Kubernetes objects, notifying Convex, reading the clock) goes through calls
    whose outcome it does not control.  A component is modelled as a [prog]: a
    well-founded tree of calls.  [exec p tr x] says that [p] can make exactly the
    calls of the trace [tr], receiving the answers recorded there, and return
    [x]; since the answers are arbitrary, a theorem about every [exec] holds for
    every behaviour of the cluster, of Convex and of concurrent actors.  [run]
    executes a program against a concrete environment. *)

From S2P Require Import Prelude.

Section Prog.
Context {C : Type} {R : C → Type}.

Inductive prog (X : Type) : Type :=
| Ret (x : X)
| Vis (c : C) (k : R c → prog X).

Definition event : Type := { c : C & R c }.

Fixpoint exec {X} (p : prog X) (tr : list event) (x : X) : Prop :=
  match p with
  | Ret _ y => tr = [] ∧ x = y
  | Vis _ c k => ∃ r tr', tr = existT c r :: tr' ∧ exec (k r) tr' x
  end.

Fixpoint prog_bind {X Y} (p : prog X) (f : X → prog Y) : prog Y :=
  match p with
  | Ret _ x => f x
  | Vis _ c k => Vis Y c (λ r, prog_bind (k r) f)
  end.

Definition perform (c : C) : prog (R c) := Vis _ c (λ r, Ret _ r).

(** [wp h p Q]: after the history [h], every run of [p] ends with a history and
    a result that satisfy [Q]. *)
Fixpoint wp {X} (h : list event) (p : prog X) (Q : list event → X → Prop) : Prop :=
  match p with
  | Ret _ x => Q h x
  | Vis _ c k => ∀ r, wp (h ++ [existT c r]) (k r) Q
  end.

(** Calls of an interface replaced by the programs that implement them. *)
Fixpoint link {X} (impl : ∀ c, prog (R c)) (p : prog X) : prog X :=
  match p with
  | Ret _ x => Ret X x
  | Vis _ c k => prog_bind (impl c) (λ r, link impl (k r))
  end.

(** Running against an environment: a handler with a state. *)
Fixpoint run {S X} (hdl : ∀ c, S → R c * S) (p : prog X) (s : S) : X * S * list event :=
  match p with
  | Ret _ x => (x, s, [])
  | Vis _ c k =>
      let '(r, s') := hdl c s in
      let '(x, s'', tr) := run hdl (k r) s' in
      (x, s'', existT c r :: tr)
  end.

(** [safe ok h p]: before each call [p] makes, [ok] holds of the history so far
    and of the call.  [guarded] is the same demand on a recorded trace. *)
Fixpoint safe {X} (ok : list event → C → Prop) (h : list event) (p : prog X) : Prop :=
  match p with
  | Ret _ _ => True
  | Vis _ c k => ok h c ∧ ∀ r, safe ok (h ++ [existT c r]) (k r)
  end.

Fixpoint guarded (ok : list event → C → Prop) (h tr : list event) : Prop :=
  match tr with
  | [] => True
  | e :: tr => ok h (projT1 e) ∧ guarded ok (h ++ [e]) tr
  end.

(** [within gain n p]: [p] makes at most [n] calls, and as many more as the answers it
    receives allow. *)
Fixpoint within {X} (gain : event → nat) (n : nat) (p : prog X) : Prop :=
  match p with
  | Ret _ _ => True
  | Vis _ c k => ∃ m, n = S m ∧ ∀ r, within gain (m + gain (existT c r)) (k r)
  end.

(** *** Several programs on one environment

    [srv c s r s'] says that the environment in state [s] may answer [c] with [r]
    and go to [s'].  A step lets one program of the pool make its next call. *)
Inductive pool_step {S X} (srv : ∀ c, S → R c → S → Prop) :
    list (prog X) * S → list (prog X) * S → Prop :=
| pool_step_at ts1 c k ts2 s r s' :
    srv c s r s' → pool_step srv (ts1 ++ Vis X c k :: ts2, s) (ts1 ++ k r :: ts2, s').

(** A schedule names the program that moves next; a handler answers its call. *)
Fixpoint pool_run {S X} (hdl : ∀ c, S → R c * S) (sched : list nat) (ts : list (prog X)) (s : S)
    : list (prog X) * S :=
  match sched with
  | [] => (ts, s)
  | i :: sched =>
      match ts !! i with
      | Some (Vis _ c k) =>
          let '(r, s') := hdl c s in pool_run hdl sched (<[i := k r]> ts) s'
      | _ => pool_run hdl sched ts s
      end
  end.

(** [always le srv Q s p]: started in state [s], with other programs moving the
    state upwards in [le] between its calls, [p] moves it upwards itself and returns
    only what satisfies [Q] in every later state. *)
Fixpoint always {S X} (le : S → S → Prop) (srv : ∀ c, S → R c → S → Prop)
    (Q : S → X → Prop) (s : S) (p : prog X) : Prop :=
  match p with
  | Ret _ x => ∀ s', le s s' → Q s' x
  | Vis _ c k => ∀ s', le s s' → ∀ r s'', srv c s' r s'' → le s' s'' ∧ always le srv Q s'' (k r)
  end.

End Prog.

Arguments prog {C} R X.
Arguments Ret {C R X} x.
Arguments Vis {C R X} c k.
Arguments event {C} R.
Arguments perform {C R} c.

Declare Scope prog_scope.
Delimit Scope prog_scope with prog.

Notation "x <- p ;; q" := (prog_bind p (fun x => q))
  (at level 100, p at next level, right associativity) : prog_scope.
Notation "p ;; q" := (prog_bind p (fun _ => q))
  (at level 100, right associativity) : prog_scope.

(** Lemmas [safe (λ _, P) h p]: the calls a component makes. *)
Create HintDb effects.

Section ProgLemmas.
Context {C : Type} {R : C → Type}.
Implicit Types (h tr : list (event R)).

Lemma wp_exec {X} h (p : prog R X) Q :
  wp h p Q ↔ ∀ tr x, exec p tr x → Q (h ++ tr) x.
Proof.
  revert h. induction p as [x|c k IH]; intros h; simpl; split.
  - intros HQ tr y [-> ->]. by rewrite app_nil_r.
  - intros H. rewrite <- (app_nil_r h). by apply H.
  - intros H tr x (r & tr' & -> & He).
    rewrite cons_middle, app_assoc. by apply (IH r).
  - intros H r. apply IH. intros tr x He.
    rewrite <- app_assoc. apply H. by exists r, tr.
Qed.

(** The way a theorem about all runs is proved: from the empty history. *)
Lemma wp_sound {X} (p : prog R X) Q tr x :
  wp [] p Q → exec p tr x → Q tr x.
Proof. intros Hw He. by apply (proj1 (wp_exec [] p Q) Hw). Qed.

Lemma wp_mono {X} h (p : prog R X) (Q Q' : list (event R) → X → Prop) :
  (∀ h' x, Q h' x → Q' h' x) → wp h p Q → wp h p Q'.
Proof. revert h. induction p; simpl; eauto. Qed.

(** What holds of every history and result holds after any run. *)
Lemma wp_trivial {X} h (p : prog R X) (Q : list (event R) → X → Prop) :
  (∀ h' x, Q h' x) → wp h p Q.
Proof. intros HQ. revert h. induction p; simpl; eauto. Qed.

Lemma wp_bind {X Y} h (p : prog R X) (f : X → prog R Y) Q :
  wp h (prog_bind p f) Q ↔ wp h p (λ h' y, wp h' (f y) Q).
Proof. revert h. induction p as [|c k IH]; intros h; simpl; [done|]. by setoid_rewrite IH. Qed.

Lemma exec_bind {X Y} (p : prog R X) (f : X → prog R Y) tr y :
  exec (prog_bind p f) tr y ↔
  ∃ tr1 tr2 x, tr = tr1 ++ tr2 ∧ exec p tr1 x ∧ exec (f x) tr2 y.
Proof.
  revert tr. induction p as [x|c k IH]; intros tr; simpl; split.
  - intros H. by exists [], tr, x.
  - intros (tr1 & tr2 & x' & -> & [-> ->] & He). done.
  - intros (r & tr' & -> & Hk). apply IH in Hk as (tr1 & tr2 & x & -> & H1 & H2).
    exists (existT c r :: tr1), tr2, x. naive_solver.
  - intros (tr1 & tr2 & x & -> & (r & tr' & -> & H1) & H2).
    exists r, (tr' ++ tr2). split; [done|]. apply IH. by exists tr', tr2, x.
Qed.

Lemma safe_guarded {X} ok h (p : prog R X) tr x :
  safe ok h p → exec p tr x → guarded ok h tr.
Proof.
  revert h tr. induction p as [y|c k IH]; intros h tr; simpl.
  - by intros _ [-> _].
  - intros [Hc Hk] (r & tr' & -> & He). simpl. eauto.
Qed.

Lemma safe_perform ok h (c : C) : ok h c → safe ok h (perform (R := R) c).
Proof. simpl. auto. Qed.

Lemma safe_bind {X Y} ok h (p : prog R X) (f : X → prog R Y) :
  safe ok h (prog_bind p f) ↔ safe ok h p ∧ wp h p (λ h' y, safe ok h' (f y)).
Proof.
  revert h. induction p as [x|c k IH]; intros h; simpl; [naive_solver|].
  setoid_rewrite IH. naive_solver.
Qed.

(** A program whose calls are all allowed outright is safe after any history. *)
Lemma safe_mono {X} (ok ok' : list (event R) → C → Prop) h (p : prog R X) :
  (∀ h' c, ok h' c → ok' h' c) → safe ok h p → safe ok' h p.
Proof. intros Hok. revert h. induction p; simpl; naive_solver. Qed.

Lemma safe_and {X} (ok ok' : list (event R) → C → Prop) h (p : prog R X) :
  safe ok h p → safe ok' h p → safe (λ h c, ok h c ∧ ok' h c) h p.
Proof. revert h. induction p; simpl; naive_solver. Qed.

(** ... and what is allowed from a history on stays allowed in its extensions. *)
Lemma safe_from {X} (P : C → Prop) (ok : list (event R) → C → Prop) h (p : prog R X) :
  (∀ ext c, P c → ok (h ++ ext) c) → safe (λ _, P) h p → safe ok h p.
Proof.
  revert h. induction p as [x|c k IH]; intros h Hok; simpl; [done|]. intros [Hc Hk]. split.
  - rewrite <- (app_nil_r h). by apply Hok.
  - intros r. apply IH; [|done]. intros ext c' Hc'. rewrite <- app_assoc. by apply Hok.
Qed.

(** The history after a run is the history before it, extended by allowed calls. *)
Lemma wp_extends {X} (P : C → Prop) h (p : prog R X) :
  safe (λ _, P) h p →
  wp h p (λ h' _, ∃ ext, h' = h ++ ext ∧ Forall (λ e, P (projT1 e)) ext).
Proof.
  intros Hs. apply wp_exec. intros tr x He. exists tr. split; [done|].
  pose proof (safe_guarded _ _ _ _ _ Hs He) as Hg. clear Hs He.
  revert h Hg. induction tr as [|e tr IH]; intros h; simpl; [done|].
  intros [He Hg]. constructor; eauto.
Qed.

Lemma wp_history {X} h (p : prog R X) : wp h p (λ h' _, ∃ ext, h' = h ++ ext).
Proof. apply wp_exec. eauto. Qed.

Lemma wp_and {X} h (p : prog R X) (Q Q' : list (event R) → X → Prop) :
  wp h p Q → wp h p Q' → wp h p (λ h' x, Q h' x ∧ Q' h' x).
Proof. revert h. induction p; simpl; eauto. Qed.

(** For a claim about the runs whose events all satisfy [P]: the events so far may be
    assumed to, and after one that does not nothing is left to show. *)
Lemma wp_spoiled {X} (P : event R → Prop) h (p : prog R X) (Q : list (event R) → X → Prop) :
  ¬ Forall P h → wp h p (λ h' x, Forall P h' → Q h' x).
Proof. intros Hn. eapply wp_mono; [|apply wp_history]. intros h' x [ext ->]. rewrite Forall_app. naive_solver. Qed.

Lemma wp_so_far {X} (P : event R → Prop) h (p : prog R X) (Q : list (event R) → X → Prop) :
  (Forall P h → wp h p (λ h' x, Forall P h' → Q h' x)) → wp h p (λ h' x, Forall P h' → Q h' x).
Proof.
  intros Hp. apply wp_exec. intros tr x He Hall. pose proof Hall as [Hh _]%Forall_app.
  exact (proj1 (wp_exec _ _ _) (Hp Hh) tr x He Hall).
Qed.

Lemma Forall_last (P : event R → Prop) h e : Forall P (h ++ [e]) → P e.
Proof. rewrite Forall_app, Forall_singleton. tauto. Qed.

(** Every call of a run satisfies what all calls of the program satisfy. *)
Lemma safe_exec {X} (P : C → Prop) (p : prog R X) tr x :
  safe (λ _, P) [] p → exec p tr x → Forall (λ e, P (projT1 e)) tr.
Proof.
  intros Hs He. destruct (proj1 (wp_exec _ _ _) (wp_extends _ _ _ Hs) _ _ He) as (ext & Heq & HF).
  simpl in Heq. by subst.
Qed.

(** *** Budgets *)

Lemma within_mono {X} gain n m (p : prog R X) : within gain n p → n ≤ m → within gain m p.
Proof.
  revert n m. induction p as [x|c k IH]; intros n m; simpl; [done|]. intros (n' & -> & Hk) Hle.
  destruct m as [|m']; [lia|]. exists m'. split; [done|]. intros r. eapply IH; [apply Hk|lia].
Qed.

Lemma within_bind {X Y} gain n m (p : prog R X) (f : X → prog R Y) :
  within gain n p → (∀ x, within gain m (f x)) → within gain (n + m) (prog_bind p f).
Proof.
  revert n. induction p as [x|c k IH]; intros n; simpl.
  - intros _ Hf. eapply within_mono; [apply Hf|lia].
  - intros (n' & -> & Hk) Hf. exists (n' + m). split; [done|]. intros r.
    eapply within_mono; [by apply IH|lia].
Qed.

Lemma within_length {X} gain n (p : prog R X) tr x :
  within gain n p → exec p tr x → length tr ≤ n + sum_list_with gain tr.
Proof.
  revert n tr. induction p as [y|c k IH]; intros n tr; simpl.
  - intros _ [-> _]. simpl. lia.
  - intros (m & -> & Hk) (r & tr' & -> & He). simpl. specialize (IH r _ _ (Hk r) He). lia.
Qed.

(** Every program runs to completion, and a run is an execution. *)
Lemma run_exec {S X} (hdl : ∀ c, S → R c * S) (p : prog R X) s x s' tr :
  run hdl p s = (x, s', tr) → exec p tr x.
Proof.
  revert s tr. induction p as [y|c k IH]; intros s tr; simpl; [naive_solver|].
  destruct (hdl c s) as [r s1] eqn:Hh.
  destruct (run hdl (k r) s1) as [[y s2] tr'] eqn:Hr.
  intros [= <- <- <-]. eauto.
Qed.

(** Simulation: a property of all calls carries over from a program to the program
    linked with an implementation, along a relation [sim] between the histories
    that the implementation of each call keeps up. *)
Lemma link_safe {X} (impl : ∀ c, prog R (R c)) (ok ok' : list (event R) → C → Prop)
    (sim : list (event R) → list (event R) → Prop) (p : prog R X) h h' :
  (∀ h h' c, sim h h' → ok h c →
     safe ok' h' (impl c) ∧ wp h' (impl c) (λ h'' r, sim (h ++ [existT c r]) h'')) →
  sim h h' → safe ok h p → safe ok' h' (link impl p).
Proof.
  intros Himpl. revert h h'. induction p as [x|c k IH]; intros h h' Hsim; simpl; [done|].
  intros [Hc Hk]. destruct (Himpl h h' c Hsim Hc) as [Hs Hw]. apply safe_bind. split; [done|].
  eapply wp_mono; [|exact Hw]. simpl. eauto.
Qed.

(** A scheduled run is one of the interleavings. *)
Lemma pool_run_steps {S X} (srv : ∀ c, S → R c → S → Prop) (hdl : ∀ c, S → R c * S) :
  (∀ c s, srv c s (hdl c s).1 (hdl c s).2) →
  ∀ sched (ts : list (prog R X)) s, rtc (pool_step srv) (ts, s) (pool_run hdl sched ts s).
Proof.
  intros Hsrv sched. induction sched as [|i sched IH]; intros ts s; simpl; [done|].
  destruct (ts !! i) as [[x|c k]|] eqn:Hi; [done| |done].
  specialize (Hsrv c s). destruct (hdl c s) as [r s']. simpl in Hsrv.
  eapply rtc_l; [|apply IH].
  rewrite <- (take_drop_middle ts i _ Hi) at 1.
  rewrite insert_take_drop by (by eapply lookup_lt_Some). by apply pool_step_at.
Qed.

(** A run of a linked program is a run of the program, each of whose calls was answered
    by a run of its implementation. *)
Lemma link_exec {X} (impl : ∀ c, prog R (R c)) (p : prog R X) tr x :
  exec (link impl p) tr x →
  ∃ tr', exec p tr' x ∧ Forall (λ e, ∃ sub, exec (impl (projT1 e)) sub (projT2 e)) tr'.
Proof.
  revert tr. induction p as [y|c k IH]; intros tr; simpl; [intros [-> ->]; by exists []|].
  intros (tr1 & tr2 & r & -> & Hi & (tr' & He & HF)%IH)%exec_bind.
  exists (existT c r :: tr'). split; [by exists r, tr'|]. constructor; [by exists tr1|done].
Qed.

(** Programs are finite trees, so no pool runs for ever. *)
Definition pool_descent {S X} (srv : ∀ c, S → R c → S → Prop) (ts' ts : list (prog R X)) : Prop :=
  ∃ s s', pool_step srv (ts, s) (ts', s').

Definition is_child {X} (p' p : prog R X) : Prop :=
  match p with Ret _ => False | Vis c k => ∃ r, p' = k r end.

Lemma pool_descent_inv {S X} (srv : ∀ c, S → R c → S → Prop) (ts' : list (prog R X)) p ts :
  pool_descent srv ts' (p :: ts) →
  (∃ p', is_child p' p ∧ ts' = p' :: ts) ∨ ∃ ts2, pool_descent srv ts2 ts ∧ ts' = p :: ts2.
Proof.
  intros (s & s' & Hstep). inversion Hstep as [ts1 c k ts2 s0 r s1 Hsrv Heq1 Heq2].
  destruct ts1 as [|p1 ts1]; simpl in *; injection Heq1 as Hp Hts; subst.
  - left. exists (k r). split; [by exists r|done].
  - right. eexists. split; [|done]. exists s, s'. by constructor.
Qed.

Lemma pool_descent_cons {S X} (srv : ∀ c, S → R c → S → Prop) (p : prog R X) ts :
  Acc (pool_descent srv) ts → Acc (pool_descent srv) (p :: ts).
Proof.
  revert ts. induction p as [x|c k IHp]; intros ts; induction 1 as [ts Hts IH]; constructor;
    intros ts' [(p' & Hc & ->)|(ts2 & Hd & ->)]%pool_descent_inv; try (by apply IH); [done|].
  destruct Hc as [r ->]. apply IHp. by constructor.
Qed.

Lemma pool_terminates {S X} (srv : ∀ c, S → R c → S → Prop) (ts : list (prog R X)) :
  Acc (pool_descent srv) ts.
Proof.
  induction ts as [|p ts IH]; [|by apply pool_descent_cons].
  constructor. intros ts' (s & s' & Hstep). inversion Hstep as [[|]]; done.
Qed.

Section Pool.
Context {S X : Type} (le : S → S → Prop) `{!PreOrder le}.
Context (srv : ∀ c, S → R c → S → Prop) (Q : S → X → Prop).

Lemma always_mono s s' (p : prog R X) : le s s' → always le srv Q s p → always le srv Q s' p.
Proof.
  intros Hle. destruct p as [x|c k]; simpl; intros Ha s1 Hs1; [|intros r s2]; apply Ha; by etrans.
Qed.

(** The final state is a later one. *)
Lemma always_later (Q' : S → X → Prop) s0 s (p : prog R X) :
  (∀ s' x, le s0 s' → Q s' x → Q' s' x) → le s0 s → always le srv Q s p → always le srv Q' s p.
Proof.
  intros HQ. revert s. induction p as [x|c k IH]; intros s Hle; simpl.
  - intros Ha s' Hs'. apply HQ; [by etrans|auto].
  - intros Ha s1 Hs1 r s2 Hsrv. destruct (Ha s1 Hs1 r s2 Hsrv) as [Hle2 Hk]. split; [done|].
    apply IH; [|done]. by do 2 (etrans; [eassumption|]).
Qed.

Lemma always_bind {Y} s (p : prog R Y) (f : Y → prog R X) :
  always le srv (λ s' y, always le srv Q s' (f y)) s p → always le srv Q s (prog_bind p f).
Proof.
  revert s. induction p as [y|c k IH]; intros s; simpl; [by intros Ha; apply Ha|].
  intros Ha s1 Hs1 r s2 Hsrv. destruct (Ha s1 Hs1 r s2 Hsrv). auto.
Qed.

(** What each program of a pool guarantees on its own, the pool guarantees. *)
Lemma pool_always ts s ts' s' :
  rtc (pool_step srv) (ts, s) (ts', s') →
  Forall (always le srv Q s) ts → Forall (always le srv Q s') ts'.
Proof.
  intros Hsteps. remember (ts, s) as p eqn:Hp. remember (ts', s') as p' eqn:Hp'.
  revert ts s Hp. induction Hsteps as [|p q p' Hstep _ IH]; intros ts s ->; [by simplify_eq|].
  inversion Hstep as [ts1 c k ts2 s0 r s1 Hsrv Heq1 Heq2]; simplify_eq.
  rewrite Forall_app, Forall_cons. intros (H1 & Hk & H2).
  destruct (Hk s ltac:(done) r s1 Hsrv) as [Hle Hnext].
  assert (∀ l, Forall (always le srv Q s) l → Forall (always le srv Q s1) l) as Hmono.
  { intros l Hl. eapply Forall_impl; [exact Hl|]. intros p. by apply always_mono. }
  eapply IH; [done|done|]. rewrite Forall_app, Forall_cons. split_and!; auto.
Qed.
End Pool.

End ProgLemmas.

(** Symbolic execution of a program goal [wp h p Q] or [safe ok h p]: introduce
    the answer of each call and split on what the program tests. *)
Ltac prog_step :=
  lazymatch goal with
  | |- wp _ (prog_bind _ _) _ => rewrite wp_bind
  | |- wp _ (perform _) _ => simpl
  | |- wp _ (Vis _ _) _ => simpl
  | |- wp _ (Ret _) _ => simpl
  | |- wp _ (match ?x with _ => _ end) _ => destruct x eqn:?
  | |- safe _ _ (prog_bind _ _) => rewrite safe_bind; split
  | |- safe _ _ (perform _) => apply safe_perform
  | |- safe _ _ (Vis _ _) => simpl
  | |- safe _ _ (Ret _) => exact I
  | |- safe _ _ (match ?x with _ => _ end) => destruct x eqn:?
  | |- _ ∧ ∀ _, safe _ _ _ => split
  | |- _ ∧ ∀ _, _ ∧ ∀ _, safe _ _ _ => split
  | |- ∀ _, _ ∧ ∀ _, safe _ _ _ => intros ?
  | |- ∀ _, wp _ _ _ => intros ?
  | |- ∀ _, safe _ _ _ => intros ?
  end.

Ltac prog_run := repeat prog_step.

(** For goals about the kinds of calls only: results and histories do not matter,
    and the components called are dealt with by their [effects] hints. *)
Ltac prog_calls :=
  repeat (prog_run; try solve [done | auto with effects]; try (apply wp_trivial; intros)).
