(* ===== verification/Regex.v ===== *)
(** * Regex: anchored regular expressions

    The fragment of package [regexp] the operator compiles itself: character
    classes, concatenation, [*] and [?] between [^] and [$], over ASCII classes.
    [matches] is the executable matcher (Brzozowski derivatives) and [lang] the
    language it decides. *)

From S2P Require Import Prelude.

Inductive regex :=
| RNone
| REps
| RClass (p : Ascii.ascii → bool)
| RSeq (r1 r2 : regex)
| RAlt (r1 r2 : regex)
| RStar (r : regex).

Definition ROpt (r : regex) : regex := RAlt r REps.

Fixpoint nullable (r : regex) : bool :=
  match r with
  | RNone => false
  | REps => true
  | RClass _ => false
  | RSeq r1 r2 => nullable r1 && nullable r2
  | RAlt r1 r2 => nullable r1 || nullable r2
  | RStar _ => true
  end.

Fixpoint deriv (a : Ascii.ascii) (r : regex) : regex :=
  match r with
  | RNone => RNone
  | REps => RNone
  | RClass p => if p a then REps else RNone
  | RSeq r1 r2 =>
      if nullable r1 then RAlt (RSeq (deriv a r1) r2) (deriv a r2)
      else RSeq (deriv a r1) r2
  | RAlt r1 r2 => RAlt (deriv a r1) (deriv a r2)
  | RStar r => RSeq (deriv a r) (RStar r)
  end.

Fixpoint matches (r : regex) (s : string) : bool :=
  match s with
  | EmptyString => nullable r
  | String a s => matches (deriv a r) s
  end.

Inductive lang : regex → string → Prop :=
| lang_eps : lang REps ""
| lang_class p a : p a = true → lang (RClass p) (String a "")
| lang_seq r1 r2 s1 s2 : lang r1 s1 → lang r2 s2 → lang (RSeq r1 r2) (s1 +:+ s2)
| lang_alt_l r1 r2 s : lang r1 s → lang (RAlt r1 r2) s
| lang_alt_r r1 r2 s : lang r2 s → lang (RAlt r1 r2) s
| lang_star_nil r : lang (RStar r) ""
| lang_star_cons r a s1 s2 :
    lang r (String a s1) → lang (RStar r) s2 → lang (RStar r) (String a s1 +:+ s2).

#[local] Hint Constructors lang : core.
#[local] Arguments String.append !_ _ /.

Lemma lang_seq_inv r1 r2 s :
  lang (RSeq r1 r2) s → ∃ s1 s2, s = s1 +:+ s2 ∧ lang r1 s1 ∧ lang r2 s2.
Proof. inversion 1; subst; eauto 10. Qed.

Lemma lang_star_inv r s :
  lang (RStar r) s →
  s = "" ∨ ∃ a s1 s2, s = String a s1 +:+ s2 ∧ lang r (String a s1) ∧ lang (RStar r) s2.
Proof. inversion 1; subst; eauto 10. Qed.

Lemma nullable_spec r : nullable r = true ↔ lang r "".
Proof.
  induction r as [| |p|r1 IH1 r2 IH2|r1 IH1 r2 IH2|r IH]; simpl.
  - split; [done|inversion 1].
  - split; auto.
  - split; [done|inversion 1].
  - rewrite andb_true_iff, IH1, IH2. split.
    + intros [H1 H2]. exact (lang_seq _ _ "" "" H1 H2).
    + intros ([|] & [|] & Hs & ? & ?)%lang_seq_inv; done.
  - rewrite orb_true_iff, IH1, IH2. split; [naive_solver|].
    inversion 1; subst; auto.
  - split; auto.
Qed.

Lemma deriv_spec a r s : lang (deriv a r) s ↔ lang r (String a s).
Proof.
  revert s. induction r as [| |p|r1 IH1 r2 IH2|r1 IH1 r2 IH2|r IH]; intros s; simpl.
  - split; inversion 1.
  - split; inversion 1.
  - destruct (p a) eqn:Hp; split; inversion 1; subst; eauto. congruence.
  - assert (lang (RSeq (deriv a r1) r2) s → lang (RSeq r1 r2) (String a s)) as Hl.
    { intros (s1 & s2 & -> & H1%IH1 & H2)%lang_seq_inv. exact (lang_seq _ _ _ _ H1 H2). }
    assert (∀ s1 s2, String a s = String a s1 +:+ s2 → lang r1 (String a s1) → lang r2 s2 →
              lang (RSeq (deriv a r1) r2) s) as Hr.
    { intros s1 s2 [= ->] H1%IH1 H2. by constructor. }
    destruct (nullable r1) eqn:Hn.
    + apply nullable_spec in Hn. split.
      * inversion 1; subst; [by apply Hl|]. apply (lang_seq _ _ "" _ Hn). by apply IH2.
      * intros ([|b s1] & s2 & Hs & H1 & H2)%lang_seq_inv; simpl in Hs.
        -- apply lang_alt_r, IH2. by rewrite Hs.
        -- injection Hs as <- ->. apply lang_alt_l. by apply (Hr s1 s2).
    + split; [apply Hl|].
      intros ([|b s1] & s2 & Hs & H1 & H2)%lang_seq_inv; simpl in Hs.
      * apply nullable_spec in H1. congruence.
      * injection Hs as <- ->. by apply (Hr s1 s2).
  - split; inversion 1; subst; first [apply lang_alt_l; apply IH1; done
                                     |apply lang_alt_r; apply IH2; done].
  - split.
    + intros (s1 & s2 & -> & H1%IH & H2)%lang_seq_inv. exact (lang_star_cons _ _ _ _ H1 H2).
    + intros [?|(b & s1 & s2 & Hs & H1 & H2)]%lang_star_inv; [done|].
      simpl in Hs. injection Hs as <- ->. constructor; [by apply IH|done].
Qed.

(** The matcher decides the language. *)
Lemma matches_lang r s : matches r s = true ↔ lang r s.
Proof.
  revert r. induction s as [|a s IH]; intros r; simpl; [apply nullable_spec|].
  by rewrite IH, deriv_spec.
Qed.
