(* ===== verification/Go.v ===== *)
(** * Go: the parts of the language and its standard library the operator uses

    Errors and their wrapping, [any] values as [encoding/json] decodes them,
    [float64] (IEEE binary64, as [spec_float]) with its comparisons and
    conversions, and the string functions.  Go strings are byte strings, which is
    what Rocq's [string] is.  Formatting and codecs whose text no component
    inspects are collected in the class [GoStd]. *)

From Stdlib Require Export SpecFloat.
From S2P Require Import Prelude.

(** ** Errors *)

(** The package-level [errors.New] / [fmt.Errorf] values that the code compares
    by identity.  The two [unknown template] sentinels of [internal/controller]
    and [internal/provisioning] are distinct values with the same text. *)
Inductive sentinel :=
| ErrUnauthorized
| ErrLifecycleStale
| ErrUnknownTemplate
| ErrInvalidConfig
| errImageRequired
| errUnknownTemplate
| ErrMalformedToken
| ErrInvalidSignature
| ErrScopeMismatch
| ErrExpired
| ErrServerClosed.

(** What [apierrors.IsNotFound], [IsAlreadyExists] and [IsConflict] can tell
    apart about an error of the Kubernetes client. *)
Inductive status_kind := SNotFound | SAlreadyExists | SConflict | SOther.

Inductive goerr :=
| ENew (msg : string)
| ESentinel (s : sentinel)
| EStatus (k : status_kind) (msg : string)
| EWrap (pre : string) (e : goerr) (post : string)
| EPanic.

(** [EPanic] is not a Go error value: it stands for a run-time panic, which like
    an early return abandons the computation.  Two things raise it here: the comparison
    of interface values, which [Catalog.ResolveParams_no_panic] rules out for the
    templates of the catalog, and [time.NewTicker] on an interval that is not
    positive. *)

#[export] Instance sentinel_eq_dec : EqDecision sentinel.
Proof. solve_decision. Defined.

#[export] Instance status_kind_eq_dec : EqDecision status_kind.
Proof. solve_decision. Defined.

#[export] Instance goerr_eq_dec : EqDecision goerr.
Proof. solve_decision. Defined.

Definition sentinel_text (s : sentinel) : string :=
  match s with
  | ErrUnauthorized => "convex rejected credential"
  | ErrLifecycleStale => "workload not in an in-flight status"
  | ErrUnknownTemplate => "unknown template"
  | ErrInvalidConfig => "invalid config"
  | errImageRequired => "spec.image is required when spec.templateName is unset"
  | errUnknownTemplate => "unknown template"
  | ErrMalformedToken => "gateway: malformed token"
  | ErrInvalidSignature => "gateway: invalid signature"
  | ErrScopeMismatch => "gateway: token not valid for this workload"
  | ErrExpired => "gateway: token expired"
  | ErrServerClosed => "http: Server closed"
  end.

(** [err.Error()]. *)
Fixpoint Error (e : goerr) : string :=
  match e with
  | ENew msg => msg
  | ESentinel s => sentinel_text s
  | EStatus _ msg => msg
  | EWrap pre e post => pre +:+ Error e +:+ post
  | EPanic => "runtime error"
  end.

(** [fmt.Errorf("<pre>%w", err)]. *)
Definition wrapf (pre : string) (e : goerr) : goerr := EWrap pre e "".

(** [errors.Is(err, s)] for a sentinel [s]: identity along the [%w] chain. *)
Fixpoint errors_Is (e : goerr) (s : sentinel) : bool :=
  match e with
  | ESentinel s' => bool_decide (s' = s)
  | EWrap _ e _ => errors_Is e s
  | _ => false
  end.

Fixpoint status_of (e : goerr) : option status_kind :=
  match e with
  | EStatus k _ => Some k
  | EWrap _ e _ => status_of e
  | _ => None
  end.

Definition IsNotFound (e : goerr) : bool := bool_decide (status_of e = Some SNotFound).
Definition IsAlreadyExists (e : goerr) : bool := bool_decide (status_of e = Some SAlreadyExists).
Definition IsConflict (e : goerr) : bool := bool_decide (status_of e = Some SConflict).

(** ** Strings *)

(** [strings.TrimSpace]: the encodings of Unicode white space, stripped from both
    ends of the byte string. *)
Definition space1 (a : nat) : bool := (9 <=? a) && (a <=? 13) || (a =? 32).
Definition space2 (a b : nat) : bool := (a =? 194) && ((b =? 133) || (b =? 160)).
Definition space3 (a b c : nat) : bool :=
  (a =? 225) && (b =? 154) && (c =? 128) ||
  (a =? 226) && (b =? 128) &&
    ((128 <=? c) && (c <=? 138) || (c =? 168) || (c =? 169) || (c =? 175)) ||
  (a =? 226) && (b =? 129) && (c =? 159) ||
  (a =? 227) && (b =? 128) && (c =? 128).

Fixpoint trim_left (l : list Ascii.ascii) : list Ascii.ascii :=
  match l with
  | [] => []
  | a :: l1 =>
      let na := Ascii.nat_of_ascii a in
      if space1 na then trim_left l1 else
      match l1 with
      | [] => l
      | b :: l2 =>
          let nb := Ascii.nat_of_ascii b in
          if space2 na nb then trim_left l2 else
          match l2 with
          | [] => l
          | c :: l3 => if space3 na nb (Ascii.nat_of_ascii c) then trim_left l3 else l
          end
      end
  end.

(** The same from the right, on the reversed string. *)
Fixpoint trim_right_rev (l : list Ascii.ascii) : list Ascii.ascii :=
  match l with
  | [] => []
  | a :: l1 =>
      let na := Ascii.nat_of_ascii a in
      if space1 na then trim_right_rev l1 else
      match l1 with
      | [] => l
      | b :: l2 =>
          let nb := Ascii.nat_of_ascii b in
          if space2 nb na then trim_right_rev l2 else
          match l2 with
          | [] => l
          | c :: l3 => if space3 (Ascii.nat_of_ascii c) nb na then trim_right_rev l3 else l
          end
      end
  end.

Definition strings_TrimSpace (s : string) : string :=
  String.string_of_list_ascii
    (reverse (trim_right_rev (reverse (trim_left (String.list_ascii_of_string s))))).

(** [strings.Split(s, sep)] for a one-byte separator. *)
Fixpoint split_on (sep : Ascii.ascii) (s : string) : list string :=
  match s with
  | EmptyString => [""]
  | String a s =>
      if decide (a = sep) then "" :: split_on sep s
      else match split_on sep s with
           | [] => [String a ""]
           | w :: ws => String a w :: ws
           end
  end.

(** [strings.Join]. *)
Fixpoint strings_Join (l : list string) (sep : string) : string :=
  match l with
  | [] => ""
  | [s] => s
  | s :: l => s +:+ sep +:+ strings_Join l sep
  end.

(** [strings.CutPrefix]. *)
Fixpoint strings_CutPrefix (s prefix : string) {struct prefix} : option string :=
  match prefix, s with
  | EmptyString, _ => Some s
  | String a prefix, String b s => if decide (a = b) then strings_CutPrefix s prefix else None
  | String _ _, EmptyString => None
  end.

(** ** Floating point *)

Abbreviation float64 := spec_float (only parsing).

(** [float64(n)] for an integer [n]: round to nearest, ties to even. *)
Definition float64_of_Z (n : Z) : float64 := binary_normalize 53 1024 n 0 false.

Definition float64_lt (x y : float64) : bool := SFltb x y.
Definition float64_eq (x y : float64) : bool := SFeqb x y.

(** The integer part, fraction discarded; [None] for an infinity or a NaN. *)
Definition float64_trunc (x : float64) : option Z :=
  match x with
  | S754_zero _ => Some 0%Z
  | S754_infinity _ => None
  | S754_nan => None
  | S754_finite s m e =>
      let a := if (0 <=? e)%Z then (Z.pos m * 2 ^ e)%Z else (Z.pos m / 2 ^ (- e))%Z in
      Some (if s then (- a)%Z else a)
  end.

(** ** [any] values *)

(** The dynamic types that reach the operator: what [encoding/json] decodes into
    [any], plus the [int] and [int32] literals [asFloat64] and [paramInt32]
    accept. *)
#[warnings="-register-all"]
Inductive any :=
| ANil
| ABool (b : bool)
| AFloat (f : float64)
| AString (s : string)
| AInt (n : Z)
| AInt32 (n : Z)
| AList (l : list any)
| AMap (m : gmap string any).

(** [a == b] on interface values: [None] is Go's run-time panic, which happens
    exactly when both sides hold the same uncomparable dynamic type. *)
Definition any_eq (a b : any) : option bool :=
  match a, b with
  | ANil, ANil => Some true
  | ABool x, ABool y => Some (Bool.eqb x y)
  | AFloat x, AFloat y => Some (float64_eq x y)
  | AString x, AString y => Some (bool_decide (x = y))
  | AInt x, AInt y => Some (x =? y)%Z
  | AInt32 x, AInt32 y => Some (x =? y)%Z
  | AList _, AList _ => None
  | AMap _, AMap _ => None
  | _, _ => Some false
  end.

(** [m[k]] for a map with [any] values: a missing key reads as [nil]. *)
Definition any_index (m : gmap string any) (k : string) : any :=
  default ANil (m !! k).

(** ** Formatting and codecs

    [fmt_g] and [fmt_q] are the verbs [%g] and [%q]; [rfc3339] and [rfc3339nano]
    are [Time.UTC().Format] with those layouts (of a time in nanoseconds since the
    epoch); [json_marshal_config] / [json_unmarshal_config] are [json.Marshal] of
    a [map[string]any] and [json.Unmarshal] into one (a JSON [null] gives the
    empty map, which is what a nil map reads as); [regexp_MatchString] is
    [regexp.MatchString]; [float64_to_int32_oob] is the value of [int32(f)] for an
    [f] out of range, which the language leaves to the implementation. *)
Class GoStd := {
  fmt_g : float64 → string;
  fmt_q : string → string;
  rfc3339 : Z → string;
  rfc3339nano : Z → string;
  json_marshal_config : gmap string any → result goerr string;
  json_unmarshal_config : string → result goerr (gmap string any);
  regexp_MatchString : string → string → result goerr bool;
  float64_to_int32_oob : float64 → Z;
}.

(** [int32(f)]. *)
Definition float64_to_int32 `{!GoStd} (f : float64) : Z :=
  match float64_trunc f with
  | Some z => if decide (in_int32 z) then z else int32 (float64_to_int32_oob f)
  | None => int32 (float64_to_int32_oob f)
  end.

(** A finite binary64 number: canonical mantissa and exponent. *)
Definition float64_finite (f : float64) : bool :=
  match f with
  | S754_infinity _ | S754_nan => false
  | _ => valid_binary 53 1024 f
  end.

(** [utf8.ValidString].  The list holds the ranges in which the next bytes of a
    started encoding must lie. *)
Definition utf8_start (b : nat) : option (list (nat * nat)) :=
  let cont := (128, 191) in
  if b <=? 127 then Some []
  else if (194 <=? b) && (b <=? 223) then Some [cont]
  else if b =? 224 then Some [(160, 191); cont]
  else if b =? 237 then Some [(128, 159); cont]
  else if (225 <=? b) && (b <=? 239) then Some [cont; cont]
  else if b =? 240 then Some [(144, 191); cont; cont]
  else if (241 <=? b) && (b <=? 243) then Some [cont; cont; cont]
  else if b =? 244 then Some [(128, 143); cont; cont]
  else None.

Fixpoint utf8_valid_from (pending : list (nat * nat)) (s : string) : bool :=
  match s with
  | EmptyString => match pending with [] => true | _ => false end
  | String a s =>
      let b := Ascii.nat_of_ascii a in
      match pending with
      | (lo, hi) :: pending => (lo <=? b) && (b <=? hi) && utf8_valid_from pending s
      | [] => match utf8_start b with
              | Some pending => utf8_valid_from pending s
              | None => false
              end
      end
  end.

Definition utf8_ValidString (s : string) : bool := utf8_valid_from [] s.

(** A value as [encoding/json] decodes it: no [int] or [int32] anywhere, every
    number finite and every string valid UTF-8. *)
Fixpoint json_value (a : any) : bool :=
  match a with
  | AInt _ | AInt32 _ => false
  | AFloat f => float64_finite f
  | AString s => utf8_ValidString s
  | AList l => forallb json_value l
  | AMap m => map_fold (λ k v b, utf8_ValidString k && json_value v && b) true m
  | _ => true
  end.

Definition json_map (m : gmap string any) : Prop :=
  ∀ k v, m !! k = Some v → utf8_ValidString k = true ∧ json_value v = true.

(** The configuration survives [encoding/json]: it encodes, the encoding is not
    empty and decodes to the same values.  This is documented to hold of every map
    that JSON was decoded into ([json_map]). *)
Definition json_roundtrips `{!GoStd} (m : gmap string any) : Prop :=
  ∃ raw, json_marshal_config m = Ok raw ∧ raw ≠ "" ∧ json_unmarshal_config raw = Ok m.

(** Documented behaviour of the standard library that some theorems rely on: its
    errors are its own values, never a sentinel of the operator. *)
Class GoStdLaws `{!GoStd} : Prop := {
  json_unmarshal_foreign raw e s : json_unmarshal_config raw = Err e → errors_Is e s = false;
  regexp_foreign pat t e s : regexp_MatchString pat t = Err e → errors_Is e s = false;
}.

(** ** Facts about [float64] *)

Lemma digits2_pos_bound m : (Z.pos m < 2 ^ Z.pos (digits2_pos m))%Z.
Proof.
  induction m as [m IH|m IH|]; cbn [digits2_pos]; [| |reflexivity];
    rewrite Pos2Z.inj_succ, Z.pow_succ_r by lia; lia.
Qed.

(** A canonical mantissa has at most 53 bits. *)
Lemma valid_mantissa s m e :
  valid_binary 53 1024 (S754_finite s m e) = true → (Z.pos m < 2 ^ 53)%Z.
Proof.
  intros [Hc _]%andb_true_iff. apply Z.eqb_eq in Hc.
  unfold SpecFloat.fexp, SpecFloat.emin in Hc.
  pose proof (digits2_pos_bound m) as Hm.
  eapply Z.lt_le_trans; [exact Hm|]. apply Z.pow_le_mono_r; lia.
Qed.

(** A finite number that is not below 0 and not above 2^16 truncates into that
    range. *)
Lemma float64_trunc_16bit f :
  float64_finite f = true →
  float64_lt f (float64_of_Z 0) = false →
  float64_lt (float64_of_Z 65536) f = false →
  ∃ z, float64_trunc f = Some z ∧ (0 ≤ z ≤ 65536)%Z.
Proof.
  replace (float64_of_Z 0) with (S754_zero false) by reflexivity.
  replace (float64_of_Z 65536) with (S754_finite false 4503599627370496 (-36)) by reflexivity.
  destruct f as [b| | |[] m e]; [eexists; split; [done|lia]|done..|].
  intros Hf%(valid_mantissa false) _. unfold float64_lt, SFltb, SFcompare.
  intros Hlt.
  assert (e ≤ -36 ∧ (e = -36 → Z.pos m ≤ 2 ^ 52))%Z as [He Hm].
  { destruct (Z.compare_spec (-36) e) as [<-|?|?]; [|done|lia].
    split; [lia|]. intros _.
    change (Pos.compare_cont Eq 4503599627370496 m) with (4503599627370496 ?= m)%positive in Hlt.
    change (2 ^ 52)%Z with (Z.pos 4503599627370496).
    destruct (Pos.compare_spec 4503599627370496 m) as [<-|?|Hgt]; [done|done|].
    apply Pos2Z.pos_le_pos. by apply Pos.lt_le_incl. }
  eexists; split; [reflexivity|]. destruct (Z.leb_spec 0 e); [lia|].
  split; [apply Z.div_pos; lia|].
  destruct (Z.eq_dec e (-36)) as [->|Hne].
  - apply Z.div_le_upper_bound; [lia|]. specialize (Hm eq_refl). lia.
  - apply Z.div_le_upper_bound; [lia|].
    assert (2 ^ 37 ≤ 2 ^ (- e))%Z by (apply Z.pow_le_mono_r; lia). nia.
Qed.

(** ** Splitting and joining *)

Abbreviation chars := String.list_ascii_of_string.

Local Arguments String.append !_ _ /.

Definition free_of (sep : Ascii.ascii) (s : string) : Prop := sep ∉ chars s.

Lemma split_on_free sep s t : t ∈ split_on sep s → free_of sep t.
Proof.
  revert t. induction s as [|a s IH]; intros t; simpl.
  { intros ->%list_elem_of_singleton. unfold free_of. simpl. set_solver. }
  case_decide as Ha.
  - intros [->|Hin]%elem_of_cons; [unfold free_of; simpl; set_solver|auto].
  - destruct (split_on sep s) as [|w ws].
    + intros ->%list_elem_of_singleton. unfold free_of. simpl. set_solver.
    + intros [->|Hin]%elem_of_cons; [|apply IH; set_solver].
      pose proof (IH w ltac:(left)) as Hw. unfold free_of in *. simpl. set_solver.
Qed.

Lemma split_on_app sep s t : free_of sep s → split_on sep (s +:+ String sep t) = s :: split_on sep t.
Proof.
  unfold free_of. induction s as [|a s IH]; simpl; intros Hs; [by rewrite decide_True|].
  rewrite decide_False by set_solver. rewrite IH by set_solver. done.
Qed.

Lemma split_on_single sep s : free_of sep s → split_on sep s = [s].
Proof.
  unfold free_of. induction s as [|a s IH]; simpl; intros Hs; [done|].
  rewrite decide_False by set_solver. by rewrite IH by set_solver.
Qed.

(** Splitting undoes joining. *)
Lemma split_on_join sep l :
  l ≠ [] → Forall (free_of sep) l → split_on sep (strings_Join l (String sep "")) = l.
Proof.
  induction l as [|s l IH]; [done|]. intros _ [Hs Hl]%Forall_cons.
  destruct l as [|t l]; [by apply split_on_single|].
  change (strings_Join (s :: t :: l) (String sep "")) with (s +:+ String sep (strings_Join (t :: l) (String sep ""))).
  rewrite split_on_app by done. by rewrite IH.
Qed.

Lemma CutPrefix_spec s prefix r : strings_CutPrefix s prefix = Some r ↔ s = prefix +:+ r.
Proof.
  revert s. induction prefix as [|a p IH]; intros s; simpl.
  - change ("" +:+ r) with r. split; congruence.
  - change (String a p +:+ r) with (String a (p +:+ r)).
    destruct s as [|b s]; [split; congruence|].
    case_decide as Hd; [subst b; rewrite IH|]; split; congruence.
Qed.
