(* ===== verification/Duration.v ===== *)
(** * Duration: [time.ParseDuration]

    The parser behind HEARTBEAT_INTERVAL and METRICS_REPORT_INTERVAL: an optional
    sign and a sequence of decimal numbers with a unit, in nanoseconds, with the
    overflow checks of the standard library on its 64-bit accumulators. *)

From S2P Require Import Prelude.
From S2P Require Import Go.
From Stdlib Require Import Floats.SpecFloat.

Local Open Scope Z_scope.

Definition digit (a : Ascii.ascii) : option Z :=
  let n := Z.of_nat (Ascii.nat_of_ascii a) in
  if (48 <=? n) && (n <=? 57) then Some (n - 48) else None.

Definition is_dot (a : Ascii.ascii) : bool := bool_decide (Ascii.nat_of_ascii a = 46%nat).

(** [leadingInt]: the digits at the front and the rest; [None] on overflow. *)
Fixpoint leadingInt (x : Z) (s : string) : option (Z * string) :=
  match s with
  | EmptyString => Some (x, s)
  | String c s' =>
      match digit c with
      | None => Some (x, s)
      | Some n =>
          if 2 ^ 63 / 10 <? x then None
          else let x := x * 10 + n in
               if 2 ^ 63 <? x then None else leadingInt x s'
      end
  end.

(** [leadingFraction]: digits that would overflow are skipped. *)
Fixpoint leadingFraction (x : Z) (scale : float64) (overflow : bool) (s : string)
    : Z * float64 * string :=
  match s with
  | EmptyString => (x, scale, s)
  | String c s' =>
      match digit c with
      | None => (x, scale, s)
      | Some n =>
          if overflow then leadingFraction x scale overflow s'
          else if (2 ^ 63 - 1) / 10 <? x then leadingFraction x scale true s'
          else let y := x * 10 + n in
               if 2 ^ 63 <? y then leadingFraction x scale true s'
               else leadingFraction y (SFmul 53 1024 scale (float64_of_Z 10)) false s'
      end
  end.

(** The unit: everything up to a digit or a dot. *)
Fixpoint leadingUnit (s : string) : string * string :=
  match s with
  | EmptyString => (EmptyString, s)
  | String c s' =>
      if is_dot c || bool_decide (is_Some (digit c)) then (EmptyString, s)
      else let '(u, rest) := leadingUnit s' in (String c u, rest)
  end.

Definition unitMap (u : string) : option Z :=
  if decide (u = "ns") then Some 1
  else if decide (u = "us" ∨ u = "µs" ∨ u = "μs") then Some 1000
  else if decide (u = "ms") then Some 1000000
  else if decide (u = "s") then Some 1000000000
  else if decide (u = "m") then Some (60 * 1000000000)
  else if decide (u = "h") then Some (3600 * 1000000000)
  else None.

(** [uint64(float64(f) * (float64(unit) / scale))]. *)
Definition fraction_of (f unit : Z) (scale : float64) : Z :=
  default 0 (float64_trunc
    (SFmul 53 1024 (float64_of_Z f) (SFdiv 53 1024 (float64_of_Z unit) scale))).

(** The error values; their [quote] is written [fmt_q], with which it agrees on
    printable ASCII. *)
Section Errors.
Context `{!GoStd}.

Definition invalid_duration (orig : string) : goerr := ENew ("time: invalid duration " +:+ fmt_q orig).
Definition missing_unit (orig : string) : goerr := ENew ("time: missing unit in duration " +:+ fmt_q orig).
Definition unknown_unit (u orig : string) : goerr :=
  ENew ("time: unknown unit " +:+ fmt_q u +:+ " in duration " +:+ fmt_q orig).

(** The optional fraction: its digits and scale, whether there were any, the rest. *)
Definition parse_fraction (s : string) : Z * float64 * bool * string :=
  match s with
  | String c s' =>
      if is_dot c then
        let '(f, scale, rest) := leadingFraction 0 (float64_of_Z 1) false s' in
        (f, scale, negb (bool_decide (String.length rest = String.length s')), rest)
      else (0, float64_of_Z 1, false, s)
  | EmptyString => (0, float64_of_Z 1, false, s)
  end.

(** One number with its unit: its value in nanoseconds and the rest. *)
Definition parse_component (orig s : string) : result goerr (Z * string) :=
  match s with
  | EmptyString => Err (invalid_duration orig)
  | String c _ =>
      if negb (is_dot c || bool_decide (is_Some (digit c))) then Err (invalid_duration orig)
      else
        match leadingInt 0 s with
        | None => Err (invalid_duration orig)
        | Some (v, s1) =>
            let pre := negb (bool_decide (String.length s1 = String.length s)) in
            let '(f, scale, post, s2) := parse_fraction s1 in
            if negb pre && negb post then Err (invalid_duration orig)
            else
              let '(u, s3) := leadingUnit s2 in
              if decide (u = "") then Err (missing_unit orig)
              else
                match unitMap u with
                | None => Err (unknown_unit u orig)
                | Some unit =>
                    if 2 ^ 63 / unit <? v then Err (invalid_duration orig)
                    else
                      let v := v * unit in
                      let v := if 0 <? f then (v + fraction_of f unit scale) `mod` 2 ^ 64 else v in
                      if 2 ^ 63 <? v then Err (invalid_duration orig) else Ok (v, s3)
                end
        end
  end.

(** The loop.  Each round consumes at least the unit, so the length of the input is
    enough fuel ([parse_loop_total]). *)
Fixpoint parse_loop (fuel : nat) (orig : string) (d : Z) (s : string) : option (result goerr Z) :=
  match s with
  | EmptyString => Some (Ok d)
  | String _ _ =>
      match fuel with
      | O => None
      | S fuel =>
          match parse_component orig s with
          | Err e => Some (Err e)
          | Ok (v, s) =>
              let d := (d + v) `mod` 2 ^ 64 in
              if 2 ^ 63 <? d then Some (Err (invalid_duration orig)) else parse_loop fuel orig d s
          end
      end
  end.

Definition parse_sign (s : string) : bool * string :=
  match s with
  | String c s' =>
      if decide (Ascii.nat_of_ascii c = 45%nat) then (true, s')
      else if decide (Ascii.nat_of_ascii c = 43%nat) then (false, s')
      else (false, s)
  | EmptyString => (false, s)
  end.

Definition ParseDuration (orig : string) : result goerr Z :=
  let '(neg, s) := parse_sign orig in
  if decide (s = "0") then Ok 0
  else if decide (s = "") then Err (invalid_duration orig)
  else
    match parse_loop (String.length s) orig 0 s with
    | None => Err (invalid_duration orig)
    | Some (Err e) => Err e
    | Some (Ok d) =>
        if (neg : bool) then Ok (- d)
        else if 2 ^ 63 - 1 <? d then Err (invalid_duration orig) else Ok d
    end.

(** ** The loop never runs out of fuel, and the result is an [int64] *)
Lemma leadingInt_shorter x s v rest :
  leadingInt x s = Some (v, rest) → (String.length rest ≤ String.length s)%nat.
Proof.
  revert x. induction s as [|c s IH]; intros x; simpl; [by intros [= _ <-]|].
  destruct (digit c) as [n|]; [|by intros [= _ <-]].
  repeat case_match; [done|done|]. intros Hl. apply IH in Hl. simpl. lia.
Qed.

Lemma leadingFraction_shorter x scale o s f scale' rest :
  leadingFraction x scale o s = (f, scale', rest) → (String.length rest ≤ String.length s)%nat.
Proof.
  revert x scale o. induction s as [|c s IH]; intros x scale o; simpl; [by intros [= _ _ <-]|].
  destruct (digit c) as [n|]; [|by intros [= _ _ <-]].
  repeat case_match; intros Hl; apply IH in Hl; lia.
Qed.

Lemma leadingUnit_shorter s u rest :
  leadingUnit s = (u, rest) → (String.length u + String.length rest = String.length s)%nat.
Proof.
  revert u. induction s as [|c s IH]; intros u; simpl; [by intros [= <- <-]|].
  case_match; [by intros [= <- <-]|]. destruct (leadingUnit s) as [u' r'] eqn:Hu.
  intros [= <- <-]. simpl. rewrite <- (IH u'); done.
Qed.

Lemma parse_fraction_shorter s f scale post rest :
  parse_fraction s = (f, scale, post, rest) → (String.length rest ≤ String.length s)%nat.
Proof.
  unfold parse_fraction. destruct s as [|c s]; [by intros [= _ _ _ <-]|].
  case_match; [|by intros [= _ _ _ <-]].
  destruct (leadingFraction _ _ _ _) as [[f' sc'] r'] eqn:Hf. intros [= _ _ _ <-].
  apply leadingFraction_shorter in Hf. simpl. lia.
Qed.

Lemma parse_component_shorter orig s v rest :
  parse_component orig s = Ok (v, rest) → (String.length rest < String.length s)%nat.
Proof.
  unfold parse_component. destruct s as [|c s0]; [done|]. set (s := String c s0).
  case_match; [done|]. destruct (leadingInt 0 s) as [[v' s1]|] eqn:Hi; [|done].
  destruct (parse_fraction s1) as [[[f scale] post] s2] eqn:Hf. case_match; [done|].
  destruct (leadingUnit s2) as [u s3] eqn:Hu. destruct (decide (u = "")) as [Hne|Hne]; [done|].
  destruct (unitMap u); [|done]. repeat case_match; try done; intros [= _ <-];
    apply leadingInt_shorter in Hi; apply parse_fraction_shorter in Hf;
    apply leadingUnit_shorter in Hu; destruct u; simpl in *; try done; lia.
Qed.

Lemma parse_loop_total fuel orig d s :
  (String.length s ≤ fuel)%nat → is_Some (parse_loop fuel orig d s).
Proof.
  revert d s. induction fuel as [|fuel IH]; intros d [|c s] Hl; [by eexists|simpl in Hl; lia|by eexists|].
  cbn [parse_loop]. destruct (parse_component orig (String c s)) as [[v rest]|] eqn:Hc; [|by eexists].
  destruct (2 ^ 63 <? (d + v) `mod` 2 ^ 64); [by eexists|]. apply IH.
  apply parse_component_shorter in Hc. simpl in Hc, Hl. lia.
Qed.

End Errors.
