(* ===== verification/Json.v ===== *)
(** * Json: documents on the wire

    What [encoding/json] encodes a Go struct to and decodes one from, at the level
    of the JSON document: [omitempty], zero values for missing fields, [null] as
    no-op (as nil for a map, a slice or a pointer), a type mismatch as an error,
    unknown keys ignored, keys matched without regard to (ASCII) case and a repeated
    key resolved to its last occurrence.  The byte-level syntax is not modelled here,
    nor numbers a document cannot carry into a [float64]. *)

From S2P Require Import Prelude.
From S2P Require Import Go.

#[warnings="-register-all"]
Inductive json :=
| JNull
| JBool (b : bool)
| JInt (n : Z)
| JFloat (f : float64)
| JString (s : string)
| JArray (l : list json)
| JObject (kvs : list (string * json)).

(** ** Encoding *)
(** [`json:"k,omitempty"`] on a string, a bool, a pointer and a map. *)
Definition omitempty_string (k s : string) : list (string * json) :=
  if decide (s = "") then [] else [(k, JString s)].
Definition omitempty_bool (k : string) (b : bool) : list (string * json) :=
  if b then [(k, JBool true)] else [].
Definition omitempty_ptr {A} (k : string) (f : A → json) (o : option A) : list (string * json) :=
  match o with Some x => [(k, f x)] | None => [] end.

(** ** Decoding *)
Definition ascii_lower (a : Ascii.ascii) : Ascii.ascii :=
  let n := Ascii.nat_of_ascii a in
  if (65 <=? n) && (n <=? 90) then Ascii.ascii_of_nat (n + 32) else a.

Fixpoint string_lower (s : string) : string :=
  match s with
  | EmptyString => EmptyString
  | String a s => String (ascii_lower a) (string_lower s)
  end.

Definition same_key (k k' : string) : bool := bool_decide (string_lower k = string_lower k').

Definition decode_error : goerr := ENew "json: cannot unmarshal value".

(** A decoder updates the variable it decodes into, as [Decode(&out)] does. *)
Definition decoder (A : Type) : Type := A → json → result goerr A.

Definition decode_string : decoder string := λ cur j,
  match j with JNull => Ok cur | JString s => Ok s | _ => Err decode_error end.

(** Into a [uint64]: an integer in range. *)
Definition decode_uint64 : decoder Z := λ cur j,
  match j with
  | JNull => Ok cur
  | JInt n => if decide (0 ≤ n < 2 ^ 64)%Z then Ok n else Err decode_error
  | _ => Err decode_error
  end.

(** Into a pointer: [null] makes it nil, anything else is decoded into the variable
    pointed to, a fresh zero one when the pointer was nil. *)
Definition decode_ptr {A} (zero : A) (d : decoder A) : decoder (option A) := λ cur j,
  match j with
  | JNull => Ok None
  | _ => (try a <- d (default zero cur) j ;; Ok (Some a))%go
  end.

(** Decoding into [any]: numbers become [float64], and a repeated key of an
    object keeps its last value. *)
Fixpoint any_of_json (j : json) : any :=
  match j with
  | JNull => ANil
  | JBool b => ABool b
  | JInt n => AFloat (float64_of_Z n)
  | JFloat f => AFloat f
  | JString s => AString s
  | JArray l => AList (any_of_json <$> l)
  | JObject kvs => AMap (list_to_map (rev (prod_map id any_of_json <$> kvs)))
  end.

(** Decoding into a [map[string]any] variable: entries are added to it. *)
Definition decode_any_map : decoder (option (gmap string any)) := λ cur j,
  match j with
  | JNull => Ok None
  | JObject kvs =>
      Ok (Some (list_to_map (rev (prod_map id any_of_json <$> kvs)) ∪ default ∅ cur))
  | _ => Err decode_error
  end.

(** One field of a struct. *)
Definition field_decoder (S : Type) : Type := string * decoder S.

Definition decode_field {S A} (name : string) (get : S → A) (set : A → S → S)
    (d : decoder A) : field_decoder S :=
  (name, λ s j, try a <- d (get s) j ;; Ok (set a s))%go.

Fixpoint find_field {S} (k : string) (fs : list (field_decoder S)) : option (decoder S) :=
  match fs with
  | [] => None
  | (name, d) :: fs => if same_key k name then Some d else find_field k fs
  end.

Fixpoint decode_fields {S} (fs : list (field_decoder S)) (s : S)
    (kvs : list (string * json)) : result goerr S :=
  match kvs with
  | [] => Ok s
  | (k, v) :: kvs =>
      match find_field k fs with
      | None => decode_fields fs s kvs
      | Some d => (try s' <- d s v ;; decode_fields fs s' kvs)%go
      end
  end.

Definition decode_struct {S} (fs : list (field_decoder S)) : decoder S := λ s j,
  match j with
  | JNull => Ok s
  | JObject kvs => decode_fields fs s kvs
  | _ => Err decode_error
  end.

Fixpoint decode_elems {A} (zero : A) (d : decoder A) (l : list json) : result goerr (list A) :=
  match l with
  | [] => Ok []
  | j :: l => (try a <- d zero j ;; try r <- decode_elems zero d l ;; Ok (a :: r))%go
  end.

Definition decode_list {A} (zero : A) (d : decoder A) : decoder (list A) := λ _ j,
  match j with
  | JNull => Ok []
  | JArray l => decode_elems zero d l
  | _ => Err decode_error
  end.
