(* ===== verification/Api.v ===== *)
(** * Api: the objects the operator reads and writes

    [api/v1alpha1] (the Workload custom resource) with [internal/labels], and the
    Kubernetes objects of [k8s.io/api] with the fields the operator uses: metadata,
    containers, Deployments, Services, Pods, Nodes, Secrets and Namespaces.  A Go
    map with string keys is a [gmap] (a nil map reads like the empty one); a
    pointer is an [option]; an [int32]/[int64] is a [Z]; a [resource.Quantity] is
    the text it is serialised as; times are nanoseconds since the epoch. *)

From S2P Require Import Prelude.
From S2P Require Import Go.

(** ** [internal/labels] *)
Definition ManagedBy : string := "app.kubernetes.io/managed-by".
Definition ManagedByValue : string := "ai-cloud-operator".
Definition WorkloadID : string := "apps.aicloud.dev/workload-id".

(** ** Object metadata *)
Record NamespacedName := { nn_Namespace : string; nn_Name : string }.

#[export] Instance NamespacedName_eq_dec : EqDecision NamespacedName.
Proof. solve_decision. Defined.

Record OwnerReference := {
  or_Kind : string;
  or_Name : string;
  or_UID : string;
  or_Controller : bool;
}.

Record ObjectMeta := {
  om_Name : string;
  om_GenerateName : string;
  om_Namespace : string;
  om_UID : string;
  om_ResourceVersion : string;
  om_Generation : Z;
  om_Labels : gmap string string;
  om_Annotations : gmap string string;
  om_Finalizers : list string;
  om_OwnerReferences : list OwnerReference;
  om_DeletionTimestamp : option Z;
}.

(** A metadata literal that sets a name and a namespace only. *)
Definition named_meta (ns name : string) : ObjectMeta := {|
  om_Name := name; om_GenerateName := ""; om_Namespace := ns; om_UID := "";
  om_ResourceVersion := ""; om_Generation := 0; om_Labels := ∅;
  om_Annotations := ∅; om_Finalizers := []; om_OwnerReferences := [];
  om_DeletionTimestamp := None |}.

Definition meta_key (m : ObjectMeta) : NamespacedName :=
  {| nn_Namespace := om_Namespace m; nn_Name := om_Name m |}.

Definition meta_with_labels (m : ObjectMeta) (l : gmap string string) : ObjectMeta := {|
  om_Name := om_Name m; om_GenerateName := om_GenerateName m;
  om_Namespace := om_Namespace m; om_UID := om_UID m;
  om_ResourceVersion := om_ResourceVersion m; om_Generation := om_Generation m;
  om_Labels := l; om_Annotations := om_Annotations m;
  om_Finalizers := om_Finalizers m; om_OwnerReferences := om_OwnerReferences m;
  om_DeletionTimestamp := om_DeletionTimestamp m |}.

Definition meta_with_finalizers (m : ObjectMeta) (f : list string) : ObjectMeta := {|
  om_Name := om_Name m; om_GenerateName := om_GenerateName m;
  om_Namespace := om_Namespace m; om_UID := om_UID m;
  om_ResourceVersion := om_ResourceVersion m; om_Generation := om_Generation m;
  om_Labels := om_Labels m; om_Annotations := om_Annotations m;
  om_Finalizers := f; om_OwnerReferences := om_OwnerReferences m;
  om_DeletionTimestamp := om_DeletionTimestamp m |}.

(** ** Containers and volumes *)
Record EnvVar := { ev_Name : string; ev_Value : string; ev_ValueFrom : option string }.

Definition env_var (name value : string) : EnvVar :=
  {| ev_Name := name; ev_Value := value; ev_ValueFrom := None |}.

Record ContainerPort := { cp_Name : string; cp_ContainerPort : Z }.

Abbreviation Quantity := string (only parsing).

Record ResourceRequirements := {
  rr_Limits : gmap string Quantity;
  rr_Requests : gmap string Quantity;
}.

Definition no_resources : ResourceRequirements := {| rr_Limits := ∅; rr_Requests := ∅ |}.

Record Probe := {
  pr_FailureThreshold : Z;
  pr_InitialDelaySeconds : Z;
  pr_PeriodSeconds : Z;
  pr_TimeoutSeconds : Z;
  pr_HTTPGetPath : string;
  pr_HTTPGetPort : Z;
}.

Record VolumeMount := { vm_MountPath : string; vm_Name : string }.

Record Container := {
  c_Name : string;
  c_Image : string;
  c_Command : list string;
  c_Env : list EnvVar;
  c_Ports : list ContainerPort;
  c_LivenessProbe : option Probe;
  c_ReadinessProbe : option Probe;
  c_Resources : ResourceRequirements;
  c_VolumeMounts : list VolumeMount;
}.

(** Every volume of the catalog is an [EmptyDir]: its medium ("" by default) and
    its size limit. *)
Record Volume := {
  v_Name : string;
  v_EmptyDirMedium : string;
  v_EmptyDirSizeLimit : option Quantity;
}.

Record ServicePort := { sp_Name : string; sp_Port : Z; sp_TargetPort : Z }.

(** ** [api/v1alpha1]: the Workload resource *)
Record WorkloadSpec := {
  ws_TemplateName : string;
  ws_Image : string;
  ws_Replicas : option Z;
  ws_ContainerPort : Z;
  ws_Env : list EnvVar;
  ws_Subdomain : string;
  ws_UserID : string;
  ws_Config : option string;
  ws_Suspended : bool;
  ws_LastRedeployedAt : string;
}.

Record Condition := {
  co_Type : string;
  co_Status : string;
  co_ObservedGeneration : Z;
  co_LastTransitionTime : Z;
  co_Reason : string;
  co_Message : string;
}.

Record WorkloadStatus := {
  wst_Phase : string;
  wst_ReadyReplicas : Z;
  wst_ObservedGeneration : Z;
  wst_Conditions : list Condition;
}.

Definition PhaseDeploying : string := "Deploying".
Definition PhaseRunning : string := "Running".
Definition PhaseFailed : string := "Failed".
Definition PhaseStopped : string := "Stopped".

Definition ConditionTypeReady : string := "Ready".

Definition DefaultReplicas : Z := 1.

Definition ConditionTrue : string := "True".
Definition ConditionFalse : string := "False".

Record Workload := {
  w_Meta : ObjectMeta;
  w_Spec : WorkloadSpec;
  w_Status : WorkloadStatus;
}.

Definition w_Name (w : Workload) : string := om_Name (w_Meta w).
Definition w_Namespace (w : Workload) : string := om_Namespace (w_Meta w).
Definition w_UID (w : Workload) : string := om_UID (w_Meta w).
Definition w_Generation (w : Workload) : Z := om_Generation (w_Meta w).
Definition w_Labels (w : Workload) : gmap string string := om_Labels (w_Meta w).
Definition w_Key (w : Workload) : NamespacedName := meta_key (w_Meta w).

Definition empty_spec : WorkloadSpec := {|
  ws_TemplateName := ""; ws_Image := ""; ws_Replicas := None; ws_ContainerPort := 0;
  ws_Env := []; ws_Subdomain := ""; ws_UserID := ""; ws_Config := None;
  ws_Suspended := false; ws_LastRedeployedAt := "" |}.

Definition empty_status : WorkloadStatus := {|
  wst_Phase := ""; wst_ReadyReplicas := 0; wst_ObservedGeneration := 0;
  wst_Conditions := [] |}.

Definition w_with_meta (w : Workload) (m : ObjectMeta) : Workload :=
  {| w_Meta := m; w_Spec := w_Spec w; w_Status := w_Status w |}.
Definition w_with_spec (w : Workload) (s : WorkloadSpec) : Workload :=
  {| w_Meta := w_Meta w; w_Spec := s; w_Status := w_Status w |}.
Definition w_with_status (w : Workload) (s : WorkloadStatus) : Workload :=
  {| w_Meta := w_Meta w; w_Spec := w_Spec w; w_Status := s |}.

Definition status_with_conditions (s : WorkloadStatus) (cs : list Condition) : WorkloadStatus := {|
  wst_Phase := wst_Phase s; wst_ReadyReplicas := wst_ReadyReplicas s;
  wst_ObservedGeneration := wst_ObservedGeneration s; wst_Conditions := cs |}.

Definition w_with_conditions (w : Workload) (cs : list Condition) : Workload :=
  w_with_status w (status_with_conditions (w_Status w) cs).

(** ** Objects owned or read by the operator *)
Record Deployment := {
  d_Meta : ObjectMeta;
  d_Replicas : option Z;
  d_Selector : gmap string string;
  d_TemplateLabels : gmap string string;
  d_TemplateAnnotations : gmap string string;
  d_Containers : list Container;
  d_InitContainers : list Container;
  d_Volumes : list Volume;
  d_ReadyReplicas : Z;
}.

Definition empty_deployment (m : ObjectMeta) : Deployment := {|
  d_Meta := m; d_Replicas := None; d_Selector := ∅; d_TemplateLabels := ∅;
  d_TemplateAnnotations := ∅; d_Containers := []; d_InitContainers := [];
  d_Volumes := []; d_ReadyReplicas := 0 |}.

Record Service := {
  s_Meta : ObjectMeta;
  s_Type : string;
  s_Selector : gmap string string;
  s_Ports : list ServicePort;
}.

Definition empty_service (m : ObjectMeta) : Service :=
  {| s_Meta := m; s_Type := ""; s_Selector := ∅; s_Ports := [] |}.

Record PodCondition := {
  pc_Type : string;
  pc_Status : string;
  pc_LastTransitionTime : Z;
  pc_Reason : string;
  pc_Message : string;
}.

Record Pod := {
  p_Meta : ObjectMeta;
  p_NodeName : string;
  p_Phase : string;
  p_Conditions : list PodCondition;
}.

Record Node := { n_Name : string; n_Allocatable : gmap string Quantity }.

(** [Data] is an [option] because [tokenstore.Save] tests it against nil. *)
Record Secret := {
  sec_Meta : ObjectMeta;
  sec_Type : string;
  sec_Data : option (gmap string string);
}.

Record Namespace := { ns_Meta : ObjectMeta }.

(** [secret.Data[k]] as a string: a nil map or a missing key reads as "". *)
Definition secret_data (s : Secret) (k : string) : string :=
  default "" (default ∅ (sec_Data s) !! k).

(** ** Decidable equality *)
#[export] Instance OwnerReference_eq_dec : EqDecision OwnerReference.
Proof. solve_decision. Defined.
#[export] Instance ObjectMeta_eq_dec : EqDecision ObjectMeta.
Proof. solve_decision. Defined.
#[export] Instance EnvVar_eq_dec : EqDecision EnvVar.
Proof. solve_decision. Defined.
#[export] Instance ContainerPort_eq_dec : EqDecision ContainerPort.
Proof. solve_decision. Defined.
#[export] Instance ResourceRequirements_eq_dec : EqDecision ResourceRequirements.
Proof. solve_decision. Defined.
#[export] Instance Probe_eq_dec : EqDecision Probe.
Proof. solve_decision. Defined.
#[export] Instance VolumeMount_eq_dec : EqDecision VolumeMount.
Proof. solve_decision. Defined.
#[export] Instance Container_eq_dec : EqDecision Container.
Proof. solve_decision. Defined.
#[export] Instance Volume_eq_dec : EqDecision Volume.
Proof. solve_decision. Defined.
#[export] Instance ServicePort_eq_dec : EqDecision ServicePort.
Proof. solve_decision. Defined.
#[export] Instance WorkloadSpec_eq_dec : EqDecision WorkloadSpec.
Proof. solve_decision. Defined.
#[export] Instance Condition_eq_dec : EqDecision Condition.
Proof. solve_decision. Defined.
#[export] Instance WorkloadStatus_eq_dec : EqDecision WorkloadStatus.
Proof. solve_decision. Defined.
#[export] Instance Workload_eq_dec : EqDecision Workload.
Proof. solve_decision. Defined.
#[export] Instance Deployment_eq_dec : EqDecision Deployment.
Proof. solve_decision. Defined.
#[export] Instance Service_eq_dec : EqDecision Service.
Proof. solve_decision. Defined.
