(* ===== verification/DeepCopy.v ===== *)
(** * DeepCopy: the generated copies of the custom resource

    [api/v1alpha1/zz_generated.deepcopy.go], over an explicit Go heap.  A pointer is
    an address (nil: [None]), a slice is an address of an array with an offset and a
    length (nil: [None]), and a struct is a record whose pointer fields are addresses.
    [DeepCopyInto] takes the struct [*in] and gives the struct it leaves in [*out];
    a panic (a dereference of nil, an index out of range) is [None].

    The structs of [k8s.io] that a Workload is made of, and their own [DeepCopyInto],
    are parameters ([MemTypes], [DeepCopyable]); what is documented of the latter is
    the law [copies]: the copy denotes the same value, nothing that existed is
    written, and the copy can be read from freshly allocated cells alone. *)

From S2P Require Import Prelude.
From S2P Require Import Api.

(** ** The heap *)
Abbreviation loc := positive (only parsing).

(** Structs of apimachinery and of the core API as they lie in memory, and whatever
    cells their pointer fields refer to. *)
Class MemTypes := {
  MObjectMeta : Type;
  MListMeta : Type;
  MEnvVar : Type;
  MJSON : Type;
  MCondition : Type;
  MOther : Type;
}.

Record slice := { sl_array : loc; sl_offset : nat; sl_len : nat }.

Record TypeMeta := { tm_Kind : string; tm_APIVersion : string }.

Record MWorkloadSpec := {
  ms_TemplateName : string;
  ms_Image : string;
  ms_Replicas : option loc;
  ms_ContainerPort : Z;
  ms_Env : option slice;
  ms_Subdomain : string;
  ms_UserID : string;
  ms_Config : option loc;
  ms_Suspended : bool;
  ms_LastRedeployedAt : string;
}.

Record MWorkloadStatus := {
  mst_Phase : string;
  mst_ReadyReplicas : Z;
  mst_ObservedGeneration : Z;
  mst_Conditions : option slice;
}.

Record MWorkload `{MemTypes} := {
  mw_TypeMeta : TypeMeta;
  mw_ObjectMeta : MObjectMeta;
  mw_Spec : MWorkloadSpec;
  mw_Status : MWorkloadStatus;
}.

Record MWorkloadList `{MemTypes} := {
  ml_TypeMeta : TypeMeta;
  ml_ListMeta : MListMeta;
  ml_Items : option slice;
}.

Inductive cell `{MemTypes} :=
| CInt32 (z : Z)
| CJSON (j : MJSON)
| CEnvVars (a : list MEnvVar)
| CConditions (a : list MCondition)
| CWorkloads (a : list MWorkload)
| CWorkload (w : MWorkload)
| CWorkloadList (l : MWorkloadList)
| CWorkloadSpec (s : MWorkloadSpec)
| CWorkloadStatus (s : MWorkloadStatus)
| COther (o : MOther).

Abbreviation heap := (gmap loc cell) (only parsing).

(** A computation that reads and allocates; [None] is a panic. *)
Definition heapM `{MemTypes} (A : Type) : Type := heap → option (A * heap).

#[export] Instance heapM_ret `{MemTypes} : MRet heapM := λ A x h, Some (x, h).
#[export] Instance heapM_bind `{MemTypes} : MBind heapM := λ A B f m h,
  match m h with Some (x, h') => f x h' | None => None end.

(** The Go type stored in a cell. *)
Class Boxed `{MemTypes} (T : Type) := {
  box : T → cell;
  unbox : cell → option T;
  unbox_box x : unbox (box x) = Some x;
}.

#[export] Instance boxed_int32 `{MemTypes} : Boxed Z.
Proof. refine {| box := CInt32; unbox c := match c with CInt32 z => Some z | _ => None end |}; done. Defined.
#[export] Instance boxed_json `{MemTypes} : Boxed MJSON.
Proof. refine {| box := CJSON; unbox c := match c with CJSON z => Some z | _ => None end |}; done. Defined.
#[export] Instance boxed_envs `{MemTypes} : Boxed (list MEnvVar).
Proof. refine {| box := CEnvVars; unbox c := match c with CEnvVars z => Some z | _ => None end |}; done. Defined.
#[export] Instance boxed_conds `{MemTypes} : Boxed (list MCondition).
Proof. refine {| box := CConditions; unbox c := match c with CConditions z => Some z | _ => None end |}; done. Defined.
#[export] Instance boxed_items `{MemTypes} : Boxed (list MWorkload).
Proof. refine {| box := CWorkloads; unbox c := match c with CWorkloads z => Some z | _ => None end |}; done. Defined.
#[export] Instance boxed_workload `{MemTypes} : Boxed MWorkload.
Proof. refine {| box := CWorkload; unbox c := match c with CWorkload z => Some z | _ => None end |}; done. Defined.
#[export] Instance boxed_list `{MemTypes} : Boxed MWorkloadList.
Proof. refine {| box := CWorkloadList; unbox c := match c with CWorkloadList z => Some z | _ => None end |}; done. Defined.
#[export] Instance boxed_spec `{MemTypes} : Boxed MWorkloadSpec.
Proof. refine {| box := CWorkloadSpec; unbox c := match c with CWorkloadSpec z => Some z | _ => None end |}; done. Defined.
#[export] Instance boxed_status `{MemTypes} : Boxed MWorkloadStatus.
Proof. refine {| box := CWorkloadStatus; unbox c := match c with CWorkloadStatus z => Some z | _ => None end |}; done. Defined.

Section heap_ops.
  Context `{MemTypes} {T : Type} `{!Boxed T}.

(** [*p] *)
Definition load (p : loc) : heapM T := λ h,
  match h !! p with
  | Some c => match unbox c with Some x => Some (x, h) | None => None end
  | None => None
  end.

(** [*p = x] *)
Definition store (p : loc) (x : T) : heapM unit := λ h,
  match h !! p with Some _ => Some ((), <[p := box x]> h) | None => None end.

(** [new(T)] and [make([]T, n)] with their initial contents *)
Definition alloc (x : T) : heapM loc := λ h,
  let p := fresh (dom h) in Some (p, <[p := box x]> h).
End heap_ops.

Section slice_ops.
  Context `{MemTypes} {T : Type} `{!Boxed (list T)}.

(** [s[i]] *)
Definition index (s : slice) (i : nat) : heapM T := λ h,
  match load (sl_array s) h with
  | Some (xs, _) =>
      if decide (i < sl_len s)
      then match xs !! (sl_offset s + i) with Some x => Some (x, h) | None => None end
      else None
  | None => None
  end.

(** [s[i] = x] *)
Definition set_index (s : slice) (i : nat) (x : T) : heapM unit := λ h,
  match load (sl_array s) h with
  | Some (xs, _) =>
      if decide (i < sl_len s ∧ sl_offset s + i < length xs)
      then store (sl_array s) (<[sl_offset s + i := x]> xs) h
      else None
  | None => None
  end.
End slice_ops.

(** ** Denotation and copying

    [rep x v h]: the struct [x], with the cells of [h] behind its pointers, is the
    value [v]. *)
Class DeepCopyable `{MemTypes} (T V : Type) := {
  rep : T → V → heap → Prop;
  zero : T;
  DeepCopyInto : T → heapM T;
}.

(** What a copy promises. *)
Definition copies `{MemTypes} {T V : Type} (R : T → V → heap → Prop) (f : T → heapM T) : Prop :=
  ∀ x v h, R x v h → ∃ x' hn, f x h = Some (x', hn ∪ h) ∧ hn ##ₘ h ∧ R x' v hn.

Definition monotone `{MemTypes} {T V : Type} (R : T → V → heap → Prop) : Prop :=
  ∀ x v h h', h ⊆ h' → R x v h → R x v h'.

Class DeepCopyLaws `{MemTypes} (T V : Type) `{!DeepCopyable T V} : Prop := {
  rep_mono : monotone (T := T) (V := V) rep;
  copyInto_copies : copies (T := T) (V := V) rep DeepCopyInto;
}.

(** ** The generated functions *)
Section slices.
  Context `{MemTypes} {T V : Type} `{!Boxed (list T)} `{!DeepCopyable T V}.

(** The loop over [range *in]: element [i] of the source is copied into element [i]
    of the destination, from [i] on, with [k] elements to go. *)
Fixpoint copy_elements (src dst : slice) (i k : nat) : heapM unit :=
  match k with
  | 0 => mret ()
  | S k' =>
      x ← index src i;
      y ← DeepCopyInto x;
      set_index dst i y;;
      copy_elements src dst (S i) k'
  end.

(** A nil slice stays nil; another is made anew with the same length and filled. *)
Definition copy_slice (s : option slice) : heapM (option slice) :=
  match s with
  | None => mret None
  | Some src =>
      a ← alloc (replicate (sl_len src) zero);
      let dst := {| sl_array := a; sl_offset := 0; sl_len := sl_len src |} in
      copy_elements src dst 0 (sl_len src);;
      mret (Some dst)
  end.

Definition rep_slice (s : option slice) (vs : list V) (h : heap) : Prop :=
  match s with
  | None => vs = []
  | Some s => ∃ c xs, h !! sl_array s = Some c ∧ unbox c = Some xs ∧
      Forall2 (λ x v, rep x v h) (take (sl_len s) (drop (sl_offset s) xs)) vs ∧
      length vs = sl_len s
  end.
End slices.

Section pointers.
  Context `{MemTypes} {T V : Type} `{!Boxed T} `{!DeepCopyable T V}.

(** [if in == nil { return nil }; out := new(T); in.DeepCopyInto(out); return out] *)
Definition DeepCopy (p : option loc) : heapM (option loc) :=
  match p with
  | None => mret None
  | Some p =>
      out ← alloc zero;
      x ← load p;
      y ← DeepCopyInto x;
      store out y;;
      mret (Some out)
  end.

Definition rep_ptr (p : option loc) (v : option V) (h : heap) : Prop :=
  match p, v with
  | None, None => True
  | Some p, Some v => ∃ c x, h !! p = Some c ∧ unbox c = Some x ∧ rep x v h
  | _, _ => False
  end.
End pointers.

(** [int32] holds no pointer: [**out = **in] *)
#[export] Instance int32_copy `{MemTypes} : DeepCopyable Z Z := {|
  rep x v h := x = v; zero := 0%Z; DeepCopyInto x := mret x |}.

Class ResourceTypes `{MemTypes} := {
  LM : Type;
  copy_ObjectMeta :: DeepCopyable MObjectMeta ObjectMeta;
  copy_ListMeta :: DeepCopyable MListMeta LM;
  copy_EnvVar :: DeepCopyable MEnvVar EnvVar;
  copy_JSON :: DeepCopyable MJSON string;
  copy_Condition :: DeepCopyable MCondition Condition;
}.

Class ResourceLaws `{MemTypes} `{!ResourceTypes} : Prop := {
  laws_ObjectMeta :: DeepCopyLaws MObjectMeta ObjectMeta;
  laws_ListMeta :: DeepCopyLaws MListMeta LM;
  laws_EnvVar :: DeepCopyLaws MEnvVar EnvVar;
  laws_JSON :: DeepCopyLaws MJSON string;
  laws_Condition :: DeepCopyLaws MCondition Condition;
}.

Section resources.
  Context `{MemTypes} `{!ResourceTypes}.

(** [*out = *in] followed by the assignments to the three pointer fields *)
Definition spec_with (s : MWorkloadSpec) (r : option loc) (e : option slice) (c : option loc) :
    MWorkloadSpec := {|
  ms_TemplateName := ms_TemplateName s; ms_Image := ms_Image s; ms_Replicas := r;
  ms_ContainerPort := ms_ContainerPort s; ms_Env := e; ms_Subdomain := ms_Subdomain s;
  ms_UserID := ms_UserID s; ms_Config := c; ms_Suspended := ms_Suspended s;
  ms_LastRedeployedAt := ms_LastRedeployedAt s |}.

Definition WorkloadSpec_DeepCopyInto (s : MWorkloadSpec) : heapM MWorkloadSpec :=
  r ← DeepCopy (T := Z) (V := Z) (ms_Replicas s);
  e ← copy_slice (T := MEnvVar) (V := EnvVar) (ms_Env s);
  c ← DeepCopy (T := MJSON) (V := string) (ms_Config s);
  mret (spec_with s r e c).

Definition WorkloadStatus_DeepCopyInto (s : MWorkloadStatus) : heapM MWorkloadStatus :=
  cs ← copy_slice (T := MCondition) (V := Condition) (mst_Conditions s);
  mret {| mst_Phase := mst_Phase s; mst_ReadyReplicas := mst_ReadyReplicas s;
          mst_ObservedGeneration := mst_ObservedGeneration s; mst_Conditions := cs |}.

Definition rep_spec (s : MWorkloadSpec) (v : WorkloadSpec) (h : heap) : Prop :=
  ms_TemplateName s = ws_TemplateName v ∧ ms_Image s = ws_Image v ∧
  rep_ptr (T := Z) (ms_Replicas s) (ws_Replicas v) h ∧
  ms_ContainerPort s = ws_ContainerPort v ∧
  rep_slice (T := MEnvVar) (ms_Env s) (ws_Env v) h ∧
  ms_Subdomain s = ws_Subdomain v ∧ ms_UserID s = ws_UserID v ∧
  rep_ptr (T := MJSON) (ms_Config s) (ws_Config v) h ∧
  ms_Suspended s = ws_Suspended v ∧ ms_LastRedeployedAt s = ws_LastRedeployedAt v.

Definition rep_status (s : MWorkloadStatus) (v : WorkloadStatus) (h : heap) : Prop :=
  mst_Phase s = wst_Phase v ∧ mst_ReadyReplicas s = wst_ReadyReplicas v ∧
  mst_ObservedGeneration s = wst_ObservedGeneration v ∧
  rep_slice (T := MCondition) (mst_Conditions s) (wst_Conditions v) h.

(** [new(WorkloadSpec)], [new(WorkloadStatus)], [new(Workload)], [new(WorkloadList)] *)
Definition zero_spec : MWorkloadSpec := {|
  ms_TemplateName := ""; ms_Image := ""; ms_Replicas := None; ms_ContainerPort := 0;
  ms_Env := None; ms_Subdomain := ""; ms_UserID := ""; ms_Config := None;
  ms_Suspended := false; ms_LastRedeployedAt := "" |}.

Definition zero_status : MWorkloadStatus := {|
  mst_Phase := ""; mst_ReadyReplicas := 0; mst_ObservedGeneration := 0;
  mst_Conditions := None |}.

#[export] Instance spec_copy : DeepCopyable MWorkloadSpec WorkloadSpec := {|
  rep := rep_spec; zero := zero_spec; DeepCopyInto := WorkloadSpec_DeepCopyInto |}.
#[export] Instance status_copy : DeepCopyable MWorkloadStatus WorkloadStatus := {|
  rep := rep_status; zero := zero_status; DeepCopyInto := WorkloadStatus_DeepCopyInto |}.

Definition zero_type_meta : TypeMeta := {| tm_Kind := ""; tm_APIVersion := "" |}.

Definition zero_workload : MWorkload := {|
  mw_TypeMeta := zero_type_meta; mw_ObjectMeta := zero (V := ObjectMeta);
  mw_Spec := zero_spec; mw_Status := zero_status |}.

Definition Workload_DeepCopyInto (w : MWorkload) : heapM MWorkload :=
  m ← DeepCopyInto (V := ObjectMeta) (mw_ObjectMeta w);
  sp ← WorkloadSpec_DeepCopyInto (mw_Spec w);
  st ← WorkloadStatus_DeepCopyInto (mw_Status w);
  mret {| mw_TypeMeta := mw_TypeMeta w; mw_ObjectMeta := m; mw_Spec := sp; mw_Status := st |}.

(** A resource with its type: the value a [*Workload] in memory stands for. *)
Definition rep_workload (w : MWorkload) (v : TypeMeta * Workload) (h : heap) : Prop :=
  mw_TypeMeta w = v.1 ∧ rep (mw_ObjectMeta w) (w_Meta v.2) h ∧
  rep_spec (mw_Spec w) (w_Spec v.2) h ∧ rep_status (mw_Status w) (w_Status v.2) h.

#[export] Instance workload_copy : DeepCopyable MWorkload (TypeMeta * Workload) := {|
  rep := rep_workload; zero := zero_workload; DeepCopyInto := Workload_DeepCopyInto |}.

Definition WorkloadList_DeepCopyInto (l : MWorkloadList) : heapM MWorkloadList :=
  m ← DeepCopyInto (V := LM) (ml_ListMeta l);
  items ← copy_slice (T := MWorkload) (V := TypeMeta * Workload) (ml_Items l);
  mret {| ml_TypeMeta := ml_TypeMeta l; ml_ListMeta := m; ml_Items := items |}.

(** The value of a WorkloadList. *)
Record WorkloadList := {
  wl_TypeMeta : TypeMeta;
  wl_ListMeta : LM;
  wl_Items : list (TypeMeta * Workload);
}.

Definition rep_list (l : MWorkloadList) (v : WorkloadList) (h : heap) : Prop :=
  ml_TypeMeta l = wl_TypeMeta v ∧ rep (ml_ListMeta l) (wl_ListMeta v) h ∧
  rep_slice (T := MWorkload) (ml_Items l) (wl_Items v) h.

#[export] Instance list_copy : DeepCopyable MWorkloadList WorkloadList := {|
  rep := rep_list;
  zero := {| ml_TypeMeta := zero_type_meta; ml_ListMeta := zero (V := LM); ml_Items := None |};
  DeepCopyInto := WorkloadList_DeepCopyInto |}.

Definition Workload_DeepCopy : option loc → heapM (option loc) :=
  DeepCopy (T := MWorkload) (V := TypeMeta * Workload).
Definition WorkloadList_DeepCopy : option loc → heapM (option loc) :=
  DeepCopy (T := MWorkloadList) (V := WorkloadList).
Definition WorkloadSpec_DeepCopy : option loc → heapM (option loc) :=
  DeepCopy (T := MWorkloadSpec) (V := WorkloadSpec).
Definition WorkloadStatus_DeepCopy : option loc → heapM (option loc) :=
  DeepCopy (T := MWorkloadStatus) (V := WorkloadStatus).

(** [runtime.Object]: an interface value holding one of the two pointers. *)
Inductive Object :=
| OWorkload (p : option loc)
| OWorkloadList (p : option loc).

(** [if c := in.DeepCopy(); c != nil { return c }; return nil] *)
Definition Workload_DeepCopyObject (p : option loc) : heapM (option Object) :=
  c ← Workload_DeepCopy p;
  match c with Some _ => mret (Some (OWorkload c)) | None => mret None end.

Definition WorkloadList_DeepCopyObject (p : option loc) : heapM (option Object) :=
  c ← WorkloadList_DeepCopy p;
  match c with Some _ => mret (Some (OWorkloadList c)) | None => mret None end.

(** The method as it is dispatched on an interface value. *)
Definition DeepCopyObject (o : Object) : heapM (option Object) :=
  match o with
  | OWorkload p => Workload_DeepCopyObject p
  | OWorkloadList p => WorkloadList_DeepCopyObject p
  end.
End resources.

(** ** Lemmas on the heap *)
Lemma heapM_bind_eq `{MemTypes} {A B} (m : heapM A) (f : A → heapM B) h x h' :
  m h = Some (x, h') → (m ≫= f) h = f x h'.
Proof. unfold mbind, heapM_bind. by intros ->. Qed.

Lemma heapM_bind_inv `{MemTypes} {A B} (m : heapM A) (f : A → heapM B) h r :
  (m ≫= f) h = Some r → ∃ x h', m h = Some (x, h') ∧ f x h' = Some r.
Proof. unfold mbind, heapM_bind. destruct (m h) as [[x h']|]; naive_solver. Qed.

Ltac heapM_inv H :=
  let x := fresh "x" in let h := fresh "h" in let Hx := fresh "Hx" in
  apply heapM_bind_inv in H as (x & h & Hx & H).

Lemma load_eq `{MemTypes} {T} `{!Boxed T} p h c (x : T) :
  h !! p = Some c → unbox c = Some x → load p h = Some (x, h).
Proof. unfold load. by intros -> ->. Qed.

Lemma store_eq `{MemTypes} {T} `{!Boxed T} p h (x : T) :
  is_Some (h !! p) → store p x h = Some ((), <[p := box x]> h).
Proof. unfold store. by intros [? ->]. Qed.

Lemma alloc_eq `{MemTypes} {T} `{!Boxed T} (x : T) (h : heap) :
  ∃ p, h !! p = None ∧ alloc x h = Some (p, <[p := box x]> h).
Proof.
  exists (fresh (dom h)). split; [|done].
  apply not_elem_of_dom, is_fresh.
Qed.

Lemma monotone_forall2 `{MemTypes} {T V} (R : T → V → heap → Prop) h h' xs vs :
  monotone R → h ⊆ h' →
  Forall2 (λ x v, R x v h) xs vs → Forall2 (λ x v, R x v h') xs vs.
Proof. intros HR Hh Hf. eapply Forall2_impl; [exact Hf|]. intros ??. by apply HR. Qed.

Section copying_slices.
  Context `{MemTypes} {T V : Type} `{!Boxed (list T)} `{!DeepCopyable T V} `{!DeepCopyLaws T V}.

Lemma rep_slice_mono : monotone (T := option slice) (V := list V) rep_slice.
Proof.
  intros [s|] vs h h' Hh; [|done]. intros (c & xs & Hc & Hx & Hr & Hl).
  exists c, xs. split_and!; [by eapply lookup_weaken|done| |done].
  eapply monotone_forall2; [apply rep_mono|done|done].
Qed.

(** One round of the loop: element [i] of the destination becomes [y]. *)
Lemma set_index_eq a n (ys : list T) k h (y : T) :
  length ys + S k = n →
  set_index {| sl_array := a; sl_offset := 0; sl_len := n |} (length ys) y
    (<[a := box (ys ++ replicate (S k) zero)]> h) =
  Some ((), <[a := box ((ys ++ [y]) ++ replicate k zero)]> h).
Proof.
  intros Hn. unfold set_index. cbn [sl_array sl_offset sl_len].
  rewrite (load_eq _ _ _ (ys ++ replicate (S k) zero) (lookup_insert_eq _ _ _) (unbox_box _)).
  rewrite decide_True by (rewrite length_app, length_replicate; lia).
  rewrite store_eq by (rewrite lookup_insert_eq; eauto).
  rewrite insert_insert_eq. do 4 f_equal. simpl.
  rewrite <-(Nat.add_0_r (length ys)), insert_app_r. simpl. by rewrite <-app_assoc.
Qed.

Lemma index_eq src i h c (xs : list T) x :
  h !! sl_array src = Some c → unbox c = Some xs → i < sl_len src →
  xs !! (sl_offset src + i) = Some x → index src i h = Some (x, h).
Proof.
  intros Hc Hx Hi Hl. unfold index. rewrite (load_eq _ _ _ _ Hc Hx).
  by rewrite decide_True, Hl.
Qed.

Lemma take_S_drop {A} k n (xs : list A) y l :
  take (S k) (drop n xs) = y :: l → xs !! n = Some y ∧ take k (drop (S n) xs) = l.
Proof.
  intros Hy. assert (xs !! n = Some y) as Hn.
  { rewrite <-(Nat.add_0_r n), <-lookup_drop, <-(lookup_take_lt _ (S k)) by lia. by rewrite Hy. }
  split; [done|]. rewrite (drop_S _ _ _ Hn) in Hy. simpl in Hy. congruence.
Qed.

Lemma copy_elements_ok src a n c xs h0 :
  h0 !! sl_array src = Some c → unbox c = Some xs → h0 !! a = None →
  ∀ k i (ys : list T) vs0 vs hn, length ys = i → i + k = n → n ≤ sl_len src →
  length vs = k →
  Forall2 (λ x v, rep x v h0) (take k (drop (sl_offset src + i) xs)) vs →
  hn !! a = None → hn ##ₘ h0 → Forall2 (λ x v, rep x v hn) ys vs0 →
  ∃ ys' hn',
    copy_elements src {| sl_array := a; sl_offset := 0; sl_len := n |} i k
      (<[a := box (ys ++ replicate k zero)]> (hn ∪ h0)) =
      Some ((), <[a := box ys']> (hn' ∪ h0)) ∧
    hn' !! a = None ∧ hn' ##ₘ h0 ∧ length ys' = n ∧
    Forall2 (λ x v, rep x v hn') ys' (vs0 ++ vs).
Proof.
  intros Hc Hx Ha. induction k as [|k IH]; intros i ys vs0 vs hn Hi Hn Hsl Hk Hvs Hna Hd Hys.
  { destruct vs; [|done]. exists ys, hn. rewrite !app_nil_r. simpl. split_and!; auto; lia. }
  destruct vs as [|v vs]; [done|]. apply Forall2_cons_inv_r in Hvs as (x & l & Hxv & Hl & Heq).
  apply take_S_drop in Heq as [Hxi <-].
  pose proof (λ h Hs, rep_mono x v h0 h Hs Hxv) as Hmono.
  set (h := <[a := box (ys ++ replicate (S k) zero)]> (hn ∪ h0)).
  assert (h0 ⊆ h) as Hsub.
  { apply insert_subseteq_r; [done|]. by apply map_union_subseteq_r. }
  destruct (copyInto_copies x v h (Hmono h Hsub)) as (y & hx & Hcp & Hdx & Hy).
  assert (hx !! a = None) as Hxa.
  { eapply map_disjoint_Some_r; [exact Hdx|]. apply lookup_insert_eq. }
  assert (hx ##ₘ hn ∪ h0) as Hd'.
  { unfold h in Hdx. by apply map_disjoint_insert_r in Hdx as [_ ?]. }
  apply map_disjoint_union_r in Hd' as [Hdn Hd0].
  destruct (IH (S i) (ys ++ [y]) (vs0 ++ [v]) vs (hx ∪ hn)) as (ys' & hn' & Hrun & Hrest).
  - rewrite length_app. simpl. lia.
  - lia.
  - done.
  - by injection Hk.
  - by rewrite <-plus_n_Sm.
  - by apply lookup_union_None.
  - by apply map_disjoint_union_l.
  - apply Forall2_app.
    + eapply monotone_forall2; [apply rep_mono| |exact Hys]. by apply map_union_subseteq_r.
    + constructor; [|done]. eapply rep_mono; [|exact Hy]. apply map_union_subseteq_l.
  - exists ys', hn'. rewrite <-app_assoc in Hrest. split; [|done]. cbn [copy_elements].
    erewrite heapM_bind_eq; [|eapply index_eq; [by eapply lookup_weaken|done|lia|done]].
    rewrite (heapM_bind_eq _ _ _ _ _ Hcp). unfold h.
    rewrite <-(insert_union_r _ _ _ _ Hxa), (map_union_assoc hx hn h0), <-Hi.
    erewrite heapM_bind_eq; [|apply set_index_eq; lia]. by rewrite Hi.
Qed.

Lemma copy_slice_copies : copies (T := option slice) (V := list V) rep_slice copy_slice.
Proof.
  intros [s|] vs h Hr; [|exists None, ∅; rewrite map_empty_union; split_and!; [done|apply map_disjoint_empty_l|done]].
  destruct Hr as (c & xs & Hc & Hx & Hf & Hl). cbn [copy_slice].
  destruct (alloc_eq (replicate (sl_len s) (zero (T := T) (V := V))) h) as (a & Ha & Halloc).
  rewrite (heapM_bind_eq _ _ _ _ _ Halloc).
  destruct (copy_elements_ok s a (sl_len s) c xs h Hc Hx Ha (sl_len s) 0 [] [] vs ∅)
    as (ys & hn & Hrun & Hna & Hd & Hlen & Hys); rewrite ?Nat.add_0_r; auto.
  { apply map_disjoint_empty_l. }
  rewrite map_empty_union in Hrun. rewrite (heapM_bind_eq _ _ _ _ _ Hrun).
  eexists _, (<[a := box ys]> hn). rewrite insert_union_l. split_and!; [done| |].
  - by apply map_disjoint_insert_l_2.
  - eexists _, ys. cbn [sl_array sl_offset sl_len]. rewrite lookup_insert_eq, unbox_box, drop_0, take_ge by (by rewrite Hlen).
    split_and!; auto. eapply monotone_forall2; [apply rep_mono| |exact Hys].
    by apply insert_subseteq.
Qed.
Lemma copy_slice_shape s h s' h' :
  copy_slice (T := T) (V := V) s h = Some (s', h') → is_Some s' ↔ is_Some s.
Proof.
  destruct s as [s|]; cbn [copy_slice]; intros Hs.
  - heapM_inv Hs. heapM_inv Hs. injection Hs as <- _. split; eauto.
  - by injection Hs as <- _.
Qed.
End copying_slices.

(** Copies in sequence: with [hn] already allocated, the next copy enlarges it. *)
Lemma copies_step `{MemTypes} {T V} (R : T → V → heap → Prop) f x v h hn :
  copies R f → monotone R → R x v h → hn ##ₘ h →
  ∃ x' hn', f x (hn ∪ h) = Some (x', hn' ∪ h) ∧ hn' ##ₘ h ∧ hn ⊆ hn' ∧ R x' v hn'.
Proof.
  intros Hf HR Hx Hd.
  destruct (Hf x v (hn ∪ h)) as (x' & hx & Hrun & Hdx & Hx').
  { eapply HR; [|exact Hx]. by apply map_union_subseteq_r. }
  apply map_disjoint_union_r in Hdx as [Hdn Hdh].
  exists x', (hx ∪ hn). rewrite <-map_union_assoc. split_and!; [done| | |].
  - by apply map_disjoint_union_l.
  - by apply map_union_subseteq_r.
  - eapply HR; [|exact Hx']. apply map_union_subseteq_l.
Qed.

Lemma copies_start `{MemTypes} {T V} (R : T → V → heap → Prop) (f : T → heapM T) :
  (∀ x v h, R x v h → ∃ x' hn, f x (∅ ∪ h) = Some (x', hn ∪ h) ∧ hn ##ₘ h ∧ R x' v hn) →
  copies R f.
Proof.
  intros Hf x v h Hx. destruct (Hf x v h Hx) as (x' & hn & Hrun & ?).
  rewrite map_empty_union in Hrun. eauto.
Qed.

Section copying_pointers.
  Context `{MemTypes} {T V : Type} `{!Boxed T} `{!DeepCopyable T V} `{!DeepCopyLaws T V}.

Lemma rep_ptr_mono : monotone (T := option loc) (V := option V) rep_ptr.
Proof.
  intros [p|] [v|] h h' Hh; [|done..]. intros (c & x & Hc & Hx & Hr).
  exists c, x. split_and!; [by eapply lookup_weaken|done|by eapply rep_mono].
Qed.

Lemma DeepCopy_copies : copies (T := option loc) (V := option V) rep_ptr DeepCopy.
Proof.
  intros [p|] [v|] h Hr; try done;
    [|exists None, ∅; rewrite map_empty_union; split_and!; [done|apply map_disjoint_empty_l|done]].
  destruct Hr as (c & x & Hc & Hx & Hr). cbn [DeepCopy].
  destruct (alloc_eq (zero (T := T) (V := V)) h) as (a & Ha & Halloc).
  rewrite (heapM_bind_eq _ _ _ _ _ Halloc).
  assert (h ⊆ <[a := box zero]> h) as Hsub by (by apply insert_subseteq).
  erewrite heapM_bind_eq; [|eapply load_eq; [by eapply lookup_weaken|done]].
  destruct (copyInto_copies x v _ (rep_mono x v h _ Hsub Hr)) as (y & hn & Hcp & Hd & Hy).
  rewrite (heapM_bind_eq _ _ _ _ _ Hcp).
  apply map_disjoint_insert_r in Hd as [Hna Hd].
  rewrite <-(insert_union_r _ _ _ _ Hna).
  erewrite heapM_bind_eq; [|apply store_eq; rewrite lookup_insert_eq; eauto].
  rewrite insert_insert_eq, insert_union_l. eexists _, (<[a := box y]> hn). split_and!; [done| |].
  - by apply map_disjoint_insert_l_2.
  - exists (box y), y. rewrite lookup_insert_eq, unbox_box. split_and!; auto.
    eapply rep_mono; [|exact Hy]. by apply insert_subseteq.
Qed.
End copying_pointers.

#[export] Instance int32_laws `{MemTypes} : DeepCopyLaws Z Z.
Proof.
  constructor; [by intros x v h h' _|].
  intros x v h Hx. exists x, ∅. rewrite map_empty_union.
  split_and!; [done|apply map_disjoint_empty_l|done].
Qed.

(** Runs the next copy of a sequence of generated assignments. *)
Ltac copy_next Hcopies Hmono Hrep :=
  let y := fresh "y" in let hn := fresh "hn" in let Hrun := fresh "Hrun" in
  let Hd := fresh "Hd" in let Hsub := fresh "Hsub" in let Hy := fresh "Hy" in
  lazymatch goal with
  | Hd0 : map_disjoint ?h0 ?h |- _ =>
      destruct (copies_step _ _ _ _ h h0 Hcopies Hmono Hrep Hd0)
        as (y & hn & Hrun & Hd & Hsub & Hy);
      rewrite (heapM_bind_eq _ _ _ _ _ Hrun); clear Hd0
  end.

Section copying_resources.
  Context `{MemTypes} `{!ResourceTypes} `{!ResourceLaws}.

#[export] Instance spec_laws : DeepCopyLaws MWorkloadSpec WorkloadSpec.
Proof.
  constructor.
  - intros s v h h' Hh. unfold rep, spec_copy, rep_spec. intros. destruct_and!.
    split_and!; auto; [eapply rep_ptr_mono|eapply rep_slice_mono|eapply rep_ptr_mono]; eauto.
  - apply copies_start. intros s v h (? & ? & Hrep & ? & Henv & ? & ? & Hcfg & ? & ?).
    assert (∅ ##ₘ h) as Hd by apply map_disjoint_empty_l.
    cbn [DeepCopyInto spec_copy]. unfold WorkloadSpec_DeepCopyInto.
    copy_next (DeepCopy_copies (T := Z) (V := Z)) (rep_ptr_mono (T := Z) (V := Z)) Hrep.
    copy_next (copy_slice_copies (T := MEnvVar) (V := EnvVar))
      (rep_slice_mono (T := MEnvVar) (V := EnvVar)) Henv.
    copy_next (DeepCopy_copies (T := MJSON) (V := string))
      (rep_ptr_mono (T := MJSON) (V := string)) Hcfg.
    eexists _, hn1. split_and!; [done|done|]. split_and!; auto.
    + eapply rep_ptr_mono; [|done]. by etrans.
    + by eapply rep_slice_mono.
Qed.

#[export] Instance status_laws : DeepCopyLaws MWorkloadStatus WorkloadStatus.
Proof.
  constructor.
  - intros s v h h' Hh (? & ? & ? & Hc). split_and!; auto. by eapply rep_slice_mono.
  - apply copies_start. intros s v h (? & ? & ? & Hc).
    assert (∅ ##ₘ h) as Hd by apply map_disjoint_empty_l.
    cbn [DeepCopyInto status_copy]. unfold WorkloadStatus_DeepCopyInto.
    copy_next (copy_slice_copies (T := MCondition) (V := Condition))
      (rep_slice_mono (T := MCondition) (V := Condition)) Hc.
    eexists _, hn. split_and!; [done|done|]. by split_and!.
Qed.

#[export] Instance workload_laws : DeepCopyLaws MWorkload (TypeMeta * Workload).
Proof.
  constructor.
  - intros w v h h' Hh (? & Hm & Hsp & Hst).
    refine (conj _ (conj _ (conj _ _))); [done|by eapply rep_mono| |].
    + exact (rep_mono (T := MWorkloadSpec) _ _ _ _ Hh Hsp).
    + exact (rep_mono (T := MWorkloadStatus) _ _ _ _ Hh Hst).
  - apply copies_start. intros w v h (Ht & Hm & Hsp & Hst).
    assert (∅ ##ₘ h) as Hd by apply map_disjoint_empty_l.
    cbn [DeepCopyInto workload_copy]. unfold Workload_DeepCopyInto.
    copy_next (copyInto_copies (T := MObjectMeta) (V := ObjectMeta))
      (rep_mono (T := MObjectMeta) (V := ObjectMeta)) Hm.
    copy_next (copyInto_copies (T := MWorkloadSpec) (V := WorkloadSpec))
      (rep_mono (T := MWorkloadSpec) (V := WorkloadSpec)) Hsp.
    copy_next (copyInto_copies (T := MWorkloadStatus) (V := WorkloadStatus))
      (rep_mono (T := MWorkloadStatus) (V := WorkloadStatus)) Hst.
    eexists _, hn1. split_and!; [done|done|].
    refine (conj _ (conj _ (conj _ _))); [done| | |done].
    + eapply rep_mono; [|exact Hy]. by etrans.
    + exact (rep_mono (T := MWorkloadSpec) _ _ _ _ Hsub1 Hy0).
Qed.

#[export] Instance list_laws : DeepCopyLaws MWorkloadList WorkloadList.
Proof.
  constructor.
  - intros l v h h' Hh (? & Hm & Hi). split_and!; [done|by eapply rep_mono|by eapply rep_slice_mono].
  - apply copies_start. intros l v h (Ht & Hm & Hi).
    assert (∅ ##ₘ h) as Hd by apply map_disjoint_empty_l.
    cbn [DeepCopyInto list_copy]. unfold WorkloadList_DeepCopyInto.
    copy_next (copyInto_copies (T := MListMeta) (V := LM)) (rep_mono (T := MListMeta) (V := LM)) Hm.
    copy_next (copy_slice_copies (T := MWorkload) (V := TypeMeta * Workload))
      (rep_slice_mono (T := MWorkload) (V := TypeMeta * Workload)) Hi.
    eexists _, hn0. split_and!; [done|done|]. split_and!; [done|by eapply rep_mono|done].
Qed.

(** What an object in memory is: a resource, a list of them, or the nil pointer. *)
Inductive object_value :=
| VWorkload (v : TypeMeta * Workload)
| VWorkloadList (v : WorkloadList).

Definition rep_object (o : Object) (v : object_value) (h : heap) : Prop :=
  match o, v with
  | OWorkload p, VWorkload v => rep_ptr (T := MWorkload) p (Some v) h
  | OWorkloadList p, VWorkloadList v => rep_ptr (T := MWorkloadList) p (Some v) h
  | _, _ => False
  end.

Lemma rep_object_mono : monotone rep_object.
Proof. intros [p|p] [v|v] h h' Hh; simpl; try done; by apply rep_ptr_mono. Qed.

Lemma DeepCopyObject_copies o v h :
  rep_object o v h →
  ∃ o' hn, DeepCopyObject o h = Some (Some o', hn ∪ h) ∧ hn ##ₘ h ∧ rep_object o' v hn.
Proof.
  destruct o as [p|p], v as [v|v]; try done; intros Hr; simpl in Hr.
  - destruct (DeepCopy_copies p (Some v) h Hr) as ([p'|] & hn & Hrun & Hd & Hr'); [|done].
    exists (OWorkload (Some p')), hn. split_and!; auto. simpl.
    unfold Workload_DeepCopyObject. by erewrite heapM_bind_eq by exact Hrun.
  - destruct (DeepCopy_copies p (Some v) h Hr) as ([p'|] & hn & Hrun & Hd & Hr'); [|done].
    exists (OWorkloadList (Some p')), hn. split_and!; auto. simpl.
    unfold WorkloadList_DeepCopyObject. by erewrite heapM_bind_eq by exact Hrun.
Qed.

(** C33. A deep copy of an object of the operator's API (a Workload, or a list of
    Workloads) never panics and gives an object that denotes the same value and is
    isolated from the original: whatever is written later to memory that existed
    before the copy, the copy keeps its value, and whatever is written to memory that
    the copy allocated, the original keeps its value. *)
Theorem deep_copy_isolated o v h :
  rep_object o v h →
  ∃ o' h', DeepCopyObject o h = Some (Some o', h') ∧ rep_object o' v h' ∧
    (∀ h2 : heap, (∀ p, p ∉ dom h → h2 !! p = h' !! p) → rep_object o' v h2) ∧
    (∀ h2 : heap, (∀ p, p ∈ dom h → h2 !! p = h' !! p) → rep_object o v h2).
Proof.
  intros Hr. destruct (DeepCopyObject_copies o v h Hr) as (o' & hn & Hrun & Hd & Hr').
  exists o', (hn ∪ h). split_and!; [done| | |].
  - eapply rep_object_mono; [|exact Hr']. apply map_union_subseteq_l.
  - intros h2 Hh2. eapply rep_object_mono; [|exact Hr'].
    apply map_subseteq_spec. intros p c Hp. rewrite Hh2.
    + by apply lookup_union_Some_l.
    + apply not_elem_of_dom. by eapply map_disjoint_Some_l.
  - intros h2 Hh2. eapply rep_object_mono; [|exact Hr].
    apply map_subseteq_spec. intros p c Hp. rewrite Hh2 by (by eapply elem_of_dom_2).
    by apply lookup_union_Some_r.
Qed.

(** The nil pointer is copied to a nil interface, not to one holding a nil pointer. *)
Lemma deep_copy_nil h :
  DeepCopyObject (OWorkload None) h = Some (None, h) ∧
  DeepCopyObject (OWorkloadList None) h = Some (None, h).
Proof. done. Qed.

(** A nil slice of the original is nil in the copy, and an empty one is not: the copy
    is serialised as the original. *)
Lemma deep_copy_shape (w : MWorkload) h w' h' :
  Workload_DeepCopyInto w h = Some (w', h') →
  (is_Some (ms_Env (mw_Spec w')) ↔ is_Some (ms_Env (mw_Spec w))) ∧
  (is_Some (mst_Conditions (mw_Status w')) ↔ is_Some (mst_Conditions (mw_Status w))).
Proof.
  intros Hw. heapM_inv Hw. heapM_inv Hw. heapM_inv Hw. injection Hw as <- _.
  heapM_inv Hx0. heapM_inv Hx0. heapM_inv Hx0. injection Hx0 as <- _.
  heapM_inv Hx1. injection Hx1 as <- _. simpl.
  exact (conj (copy_slice_shape _ _ _ _ Hx3) (copy_slice_shape _ _ _ _ Hx0)).
Qed.
End copying_resources.
