(* ===== verification/Manager.v ===== *)
(** * Manager: what the operator hands to controller-runtime at start-up

    The options of [cmd/main.go] for the manager and its servers, the controller
    [SetupWithManager] of [internal/controller] describes, the request of
    [internal/podexec], and the steps of the start-up that a library performs and
    that may fail. *)

From S2P Require Import Prelude.

(** [tls.Config], as far as the options change it. *)
Record TLSConfig := { tls_NextProtos : list string }.

(** [webhook.Options]. *)
Record WebhookOptions := {
  wo_TLSOpts : list (TLSConfig → TLSConfig);
  wo_CertDir : string;
  wo_CertName : string;
  wo_KeyName : string;
}.

(** [metricsserver.Options]; [mo_FilterProvider] says whether requests go through
    [filters.WithAuthenticationAndAuthorization]. *)
Record MetricsOptions := {
  mo_BindAddress : string;
  mo_SecureServing : bool;
  mo_TLSOpts : list (TLSConfig → TLSConfig);
  mo_FilterProvider : bool;
  mo_CertDir : string;
  mo_CertName : string;
  mo_KeyName : string;
}.

(** [ctrl.Options]; [op_CacheDisableFor] are the kinds the client reads straight from
    the API server. *)
Record ManagerOptions := {
  op_CacheDisableFor : list string;
  op_Metrics : MetricsOptions;
  op_WebhookServer : WebhookOptions;
  op_HealthProbeBindAddress : string;
  op_LeaderElection : bool;
  op_LeaderElectionID : string;
}.

(** What [SetupWithManager] builds. *)
Record ControllerSpec := {
  cs_Name : string;
  cs_For : string;
  cs_Owns : list string;
  cs_MaxConcurrentReconciles : Z;
}.

(** What [mgr.Add] is given. *)
Inductive component := CapacityTracker | ConvexRunnable | MetricsReporter | ApiServer.

Inductive setup_step :=
| GetConfigOrDie
| NewManager (opts : ManagerOptions)
| NewForConfig
| TransportFor (nextProtos : list string)
| MgrAdd (c : component)
| CompleteController (spec : ControllerSpec)
| AddHealthzCheck (name : string)
| AddReadyzCheck (name : string)
| MgrStart
| ListenAndServe (addr : string) (readHeaderTimeout : Z)
| Shutdown (timeout : Z).

(** The exec subresource of a pod with its [PodExecOptions]. *)
Record ExecRequest := {
  ex_Namespace : string;
  ex_Name : string;
  ex_Container : string;
  ex_Command : list string;
  ex_Stdout : bool;
  ex_Stderr : bool;
}.
