(* ===== verification/Calls.v ===== *)
(** * Calls: the environment of the operator

    One constructor per operation the operator asks of the world: the
    controller-runtime client (reads and writes of Kubernetes objects), the
    interfaces it is wired with ([WorkloadNotifier], [GatewayVerifier], [TokenGetter]), the HTTP
    client, the kubelet proxy, pod exec, the file system, the clock, the random
    source and the start-up of the manager.  [answer c] is what comes back.  Nothing is assumed of the answers: a
    component is a [prog answer] and its theorems quantify over all of them.

    [CreateOrUpdate] of controllerutil receives the closure the code passes, so
    the closure itself (what the operator does to the object) stays in the model.

    The class [KubeLib] collects the pure functions of k8s.io/apimachinery and
    controller-runtime the code calls, and [KubeLibLaws] their documented
    behaviour. *)

From S2P Require Import Prelude.
From S2P Require Import Go.
From S2P Require Import Json.
From S2P Require Import Api.
From S2P Require Import Effects.
From S2P Require Import Manager.

(** [convexclient.WorkloadInfo]. *)
Record WorkloadInfo := {
  wi_Name : string;
  wi_Namespace : string;
  wi_TemplateName : string;
  wi_UserID : string;
  wi_Subdomain : string;
  wi_WorkloadID : string;
}.

Record HttpRequest := {
  rq_Method : string;
  rq_URL : string;
  rq_Headers : list (string * string);
  rq_Body : json;
}.

(** The body is [None] when it is not a JSON document. *)
Record HttpResponse := { rs_Status : Z; rs_Body : option json }.

(** [metrics.Sample]; the time is in nanoseconds since the epoch. *)
Record Sample := {
  sa_Name : string;
  sa_Metric : string;
  sa_Value : float64;
  sa_SampledAt : Z;
}.

(** A request handed to the reverse proxy: what the director made of it.  The query
    is a [url.Values]. *)
Record ProxyRequest := {
  px_Scheme : string;
  px_Host : string;
  px_Path : string;
  px_Query : gmap string (list string);
}.

Inductive call :=
(** The Kubernetes client. *)
| KGetWorkload (key : NamespacedName)
| KCreateWorkload (w : Workload)
| KUpdateWorkload (w : Workload)
| KStatusUpdateWorkload (w : Workload)
| KDeleteWorkload (key : NamespacedName)
| KCreateOrUpdateWorkload (w : Workload) (mutate : Workload → result goerr Workload)
| KCreateOrUpdateDeployment (d : Deployment) (mutate : Deployment → result goerr Deployment)
| KCreateOrUpdateService (s : Service) (mutate : Service → result goerr Service)
| KGetDeployment (key : NamespacedName)
| KGetService (key : NamespacedName)
| KListPods (ns : string) (matching : gmap string string)
| KListNodes
| KListDeployments (ns : string) (matching : gmap string string)
| KGetSecret (key : NamespacedName)
| KCreateSecret (s : Secret)
| KUpdateSecret (s : Secret)
| KCreateNamespace (n : Namespace)
| KPatchNamespace (n : Namespace)
(** The interfaces of internal/controller and internal/api, implemented by
    convexclient.Runnable. *)
| UpsertWorkload (info : WorkloadInfo)
| RemoveWorkload (name namespace : string)
| ReportLifecycle (name workloadID phase reason : string) (retryable : bool)
| VerifyGatewayToken (token namespace name : string)
| ReportMetrics (samples : list Sample)
(** [TokenGetter] of internal/api. *)
| CurrentToken
(** The kubelet's stats/summary through the API server's node proxy: the body, or
    [None] when it is not a JSON document. *)
| KNodeSummary (nodeName : string)
(** Everything else. *)
| HttpDo (req : HttpRequest)
(** The reverse proxy's round trip: the status and body it relays. *)
| ProxyDo (req : ProxyRequest)
| PodExec (namespace podName container : string) (command : list string)
(** client-go's SPDY executor, which implements it: building it, and the stream. *)
| NewSPDYExecutor (req : ExecRequest)
| SPDYStream (req : ExecRequest)
(** Start-up: steps of the libraries, and [url.Parse] of the API server's address
    (its scheme and host). *)
| Setup (step : setup_step)
| ParseHost (host : string)
| ReadFile (path : string)
| RandRead (n : nat)
| Now.

Definition answer (c : call) : Type :=
  match c with
  | KGetWorkload _ | KCreateWorkload _ | KUpdateWorkload _ | KStatusUpdateWorkload _
  | KCreateOrUpdateWorkload _ _ => result goerr Workload
  | KDeleteWorkload _ => result goerr unit
  | KCreateOrUpdateDeployment _ _ | KGetDeployment _ => result goerr Deployment
  | KCreateOrUpdateService _ _ | KGetService _ => result goerr Service
  | KListPods _ _ => result goerr (list Pod)
  | KListNodes => result goerr (list Node)
  | KListDeployments _ _ => result goerr (list Deployment)
  | KGetSecret _ | KCreateSecret _ | KUpdateSecret _ => result goerr Secret
  | KCreateNamespace _ | KPatchNamespace _ => result goerr unit
  | UpsertWorkload _ | RemoveWorkload _ _ | ReportLifecycle _ _ _ _ _ | ReportMetrics _ => option goerr
  | KNodeSummary _ => result goerr (option json)
  | VerifyGatewayToken _ _ _ => result goerr string
  | CurrentToken => string
  | HttpDo _ => result goerr HttpResponse
  | ProxyDo _ => result goerr (Z * string)
  | PodExec _ _ _ _ | SPDYStream _ => string * string * option goerr
  | NewSPDYExecutor _ | Setup _ => option goerr
  | ParseHost _ => result goerr (string * string)
  | ReadFile _ => result goerr string
  | RandRead _ => result goerr string
  | Now => Z
  end.

Abbreviation program := (prog answer).
Abbreviation trace := (list (event answer)).

Class KubeLib := {
  FindStatusCondition : list Condition → string → option Condition;
  SetStatusCondition : list Condition → Condition → list Condition;
  ContainsFinalizer : ObjectMeta → string → bool;
  AddFinalizer : ObjectMeta → string → ObjectMeta;
  RemoveFinalizer : ObjectMeta → string → ObjectMeta;
  SetControllerReference : Workload → ObjectMeta → result goerr ObjectMeta;
  IsDNS1123Label : string → list string;
  MilliValue : Quantity → Z;
  Value : Quantity → Z;
  (* the JSON decoding of corev1.EnvVar *)
  decode_EnvVar : decoder EnvVar;
}.

(** The documented behaviour the theorems rely on. *)
Class KubeLibLaws `{!KubeLib} : Prop := {
  (* meta.SetStatusCondition sets the condition of its type: status, reason,
     message and observed generation are the new ones. *)
  find_set_same cs c :
    ∃ c', FindStatusCondition (SetStatusCondition cs c) (co_Type c) = Some c' ∧
      co_Type c' = co_Type c ∧ co_Status c' = co_Status c ∧
      co_Reason c' = co_Reason c ∧ co_Message c' = co_Message c ∧
      co_ObservedGeneration c' = co_ObservedGeneration c;
  (* ... and no other condition changes. *)
  find_set_other cs c t :
    t ≠ co_Type c → FindStatusCondition (SetStatusCondition cs c) t = FindStatusCondition cs t;
  (* ... it adds no other entry, and keeps the types apart. *)
  set_elem cs c c' :
    c' ∈ SetStatusCondition cs c → c' ∈ cs ∨
      co_Type c' = co_Type c ∧ co_Status c' = co_Status c ∧
      co_Reason c' = co_Reason c ∧ co_Message c' = co_Message c ∧
      co_ObservedGeneration c' = co_ObservedGeneration c;
  set_types cs c : NoDup (co_Type <$> cs) → NoDup (co_Type <$> SetStatusCondition cs c);
  (* ... a condition that says the same already is left alone, transition time included. *)
  set_unchanged cs c c0 :
    FindStatusCondition cs (co_Type c) = Some c0 → co_Status c0 = co_Status c →
    co_Reason c0 = co_Reason c → co_Message c0 = co_Message c →
    co_ObservedGeneration c0 = co_ObservedGeneration c → SetStatusCondition cs c = cs;
  (* controllerutil.AddFinalizer and RemoveFinalizer. *)
  contains_add m f : ContainsFinalizer (AddFinalizer m f) f = true;
  contains_remove m f : ContainsFinalizer (RemoveFinalizer m f) f = false;
  add_finalizer_meta m f : ∃ fs, AddFinalizer m f = meta_with_finalizers m fs;
  remove_finalizer_meta m f : ∃ fs, RemoveFinalizer m f = meta_with_finalizers m fs;
  (* controllerutil.SetControllerReference touches the owner references only. *)
  controller_reference_meta w m m' :
    SetControllerReference w m = Ok m' →
    meta_with_labels m' (om_Labels m) = m' ∧ om_Name m' = om_Name m ∧
    om_Namespace m' = om_Namespace m ∧ om_UID m' = om_UID m;
  (* controllerutil.ContainsFinalizer looks the finalizer up in the metadata. *)
  contains_finalizer m f : ContainsFinalizer m f = bool_decide (f ∈ om_Finalizers m);
}.
