(* ===== verification/Scheme.v ===== *)
(** * Scheme: the types the operator's client knows

    [api/v1alpha1/groupversion_info.go], the [init] functions of workload_types.go and
    cmd/main.go.  They run before [main] and fill the scheme that the manager's client
    uses to tell which API endpoint a Go type belongs to; a type that is missing there
    makes every call with it fail.  [runtime.Scheme], [runtime.SchemeBuilder] and the
    registration of the built-in types are a parameter.

    [SchemeBuilder] is a package variable, and [AddToScheme] the method value
    [SchemeBuilder.AddToScheme], whose receiver is a pointer: it is bound to the variable
    and not to its value, so it runs what has been registered by the time it is called.
    Here the variable is passed along. *)

From S2P Require Import Prelude.
From S2P Require Import Effects.
From S2P Require Import Go.
From S2P Require Import Json.
From S2P Require Import Api.
From S2P Require Import Calls.

(** [schema.GroupVersion]. *)
Record group_version := { gv_Group : string; gv_Version : string }.

#[export] Instance group_version_eq_dec : EqDecision group_version.
Proof. solve_decision. Defined.

Class SchemeLib := {
  scheme : Type;
  NewScheme : scheme;
  scheme_builder : Type;
  NewSchemeBuilder : list (scheme → result goerr scheme) → scheme_builder;
  Builder_Register : scheme_builder → list (scheme → result goerr scheme) → scheme_builder;
  Builder_AddToScheme : scheme_builder → scheme → result goerr scheme;
  (* metav1.AddToGroupVersion, and Scheme.AddKnownTypes with the names of the types *)
  AddToGroupVersion : scheme → group_version → scheme;
  AddKnownTypes : scheme → group_version → list string → scheme;
  clientgo_AddToScheme : scheme → result goerr scheme;
  Recognizes : scheme → group_version → string → bool;
}.

Definition core_v1 : group_version := {| gv_Group := ""; gv_Version := "v1" |}.
Definition apps_v1 : group_version := {| gv_Group := "apps"; gv_Version := "v1" |}.

(** The built-in types the operator reads and writes. *)
Definition builtin_kinds : list (group_version * string) :=
  [(apps_v1, "Deployment"); (apps_v1, "DeploymentList"); (core_v1, "Service"); (core_v1, "PodList");
   (core_v1, "NodeList"); (core_v1, "Secret"); (core_v1, "Namespace")].

(** Functions run in order up to the first error. *)
Fixpoint run_all `{!SchemeLib} (fs : list (scheme → result goerr scheme)) (s : scheme) : result goerr scheme :=
  match fs with
  | [] => Ok s
  | f :: fs => result_bind (f s) (run_all fs)
  end.

Class SchemeLibLaws `{!SchemeLib} : Prop := {
  builder_new fs s : Builder_AddToScheme (NewSchemeBuilder fs) s = run_all fs s;
  builder_register b fs s :
    Builder_AddToScheme (Builder_Register b fs) s = result_bind (Builder_AddToScheme b s) (run_all fs);
  known_types s gv kinds k : k ∈ kinds → Recognizes (AddKnownTypes s gv kinds) gv k = true;
  known_types_keep s gv kinds gv' k :
    Recognizes s gv' k = true → Recognizes (AddKnownTypes s gv kinds) gv' k = true;
  group_version_keep s gv gv' k :
    Recognizes s gv' k = true → Recognizes (AddToGroupVersion s gv) gv' k = true;
  clientgo_kinds s s' gv k :
    clientgo_AddToScheme s = Ok s' → (gv, k) ∈ builtin_kinds → Recognizes s' gv k = true;
}.

Section Scheme.
Context `{!SchemeLib}.

Definition SchemeGroupVersion : group_version := {| gv_Group := "apps.aicloud.dev"; gv_Version := "v1alpha1" |}.

(** The variable as it is initialised, and after the [init] of workload_types.go. *)
Definition SchemeBuilder : scheme_builder :=
  NewSchemeBuilder [λ s, Ok (AddToGroupVersion s SchemeGroupVersion)].

Definition workload_types_init (builder : scheme_builder) : scheme_builder :=
  Builder_Register builder [λ s, Ok (AddKnownTypes s SchemeGroupVersion ["Workload"; "WorkloadList"])].

Definition AddToScheme (builder : scheme_builder) (s : scheme) : result goerr scheme :=
  Builder_AddToScheme builder s.

(** [utilruntime.Must] panics on an error. *)
Definition Must {A} (r : result goerr A) : result goerr A :=
  match r with Ok a => Ok a | Err _ => Err EPanic end.

(** The variable [scheme] of package main after its [init]. *)
Definition main_init (builder : scheme_builder) : result goerr scheme :=
  result_bind (Must (clientgo_AddToScheme NewScheme)) (λ s, Must (AddToScheme builder s)).

(** Go initialises the packages a package imports before the package itself. *)
Definition operator_scheme : result goerr scheme := main_init (workload_types_init SchemeBuilder).
End Scheme.

(** The type of the object a call of the Kubernetes client is made with. *)
Definition client_object (c : call) : option (group_version * string) :=
  match c with
  | KGetWorkload _ | KCreateWorkload _ | KUpdateWorkload _ | KStatusUpdateWorkload _ | KDeleteWorkload _
  | KCreateOrUpdateWorkload _ _ => Some (SchemeGroupVersion, "Workload")
  | KCreateOrUpdateDeployment _ _ | KGetDeployment _ => Some (apps_v1, "Deployment")
  | KListDeployments _ _ => Some (apps_v1, "DeploymentList")
  | KCreateOrUpdateService _ _ | KGetService _ => Some (core_v1, "Service")
  | KListPods _ _ => Some (core_v1, "PodList")
  | KListNodes => Some (core_v1, "NodeList")
  | KGetSecret _ | KCreateSecret _ | KUpdateSecret _ => Some (core_v1, "Secret")
  | KCreateNamespace _ | KPatchNamespace _ => Some (core_v1, "Namespace")
  | _ => None
  end.

(** Every call the operator makes through the Kubernetes client is made with a type the
    client knows: the initialisation of the packages ends without a panic whenever the
    built-in types register, and the scheme it leaves has the type of the object of
    every such call. *)
Theorem scheme_knows_client_types `{!SchemeLib, !SchemeLibLaws} s0 :
  clientgo_AddToScheme NewScheme = Ok s0 →
  ∃ s, operator_scheme = Ok s ∧
    ∀ c gv k, client_object c = Some (gv, k) → Recognizes s gv k = true.
Proof.
  intros Hb. unfold operator_scheme, main_init, AddToScheme, workload_types_init, SchemeBuilder.
  rewrite Hb. simpl. rewrite builder_register, builder_new. simpl. eexists. split; [done|].
  intros c gv k Hc.
  assert ((gv = SchemeGroupVersion ∧ k = "Workload") ∨ (gv, k) ∈ builtin_kinds) as [[-> ->]|Hin].
  { destruct c; simplify_eq/=; first [by left | right; unfold builtin_kinds; set_solver]. }
  - apply known_types. left.
  - by eapply known_types_keep, group_version_keep, clientgo_kinds.
Qed.

(** ** A scheme as the list of its types *)
Section Demo.

#[local] Instance list_scheme : SchemeLib := {|
  scheme := list (group_version * string);
  NewScheme := [];
  scheme_builder := list (list (group_version * string) → result goerr (list (group_version * string)));
  NewSchemeBuilder := id;
  Builder_Register := app;
  Builder_AddToScheme := λ fs s, foldl (λ r f, result_bind r f) (Ok s) fs;
  AddToGroupVersion := λ s _, s;
  AddKnownTypes := λ s gv kinds, ((gv,.) <$> kinds) ++ s;
  clientgo_AddToScheme := λ s, Ok (builtin_kinds ++ s);
  Recognizes := λ s gv k, bool_decide ((gv, k) ∈ s) |}.

Lemma foldl_run_all (fs : list (scheme → result goerr scheme)) r :
  foldl (λ r f, result_bind r f) r fs = result_bind r (run_all fs).
Proof.
  revert r. induction fs as [|f fs IH]; intros r; simpl; [by destruct r|]. rewrite IH. by destruct r.
Qed.

#[local] Instance list_scheme_laws : SchemeLibLaws.
Proof.
  split.
  - intros fs s. exact (foldl_run_all fs (Ok s)).
  - intros b fs s. simpl. rewrite foldl_app. apply foldl_run_all.
  - intros s gv kinds k Hk. apply bool_decide_eq_true. apply elem_of_app. left. by apply list_elem_of_fmap_2.
  - intros s gv kinds gv' k Hr. apply bool_decide_eq_true in Hr. apply bool_decide_eq_true. apply elem_of_app. by right.
  - done.
  - intros s s' gv k Hs Hin. assert (s' = builtin_kinds ++ s) as -> by (symmetry; by injection Hs).
    apply bool_decide_eq_true. apply elem_of_app. by left.
Qed.

Lemma scheme_knows_client_types_witness :
  ∃ s, operator_scheme = Ok s ∧ length s = 9 ∧ Recognizes s SchemeGroupVersion "Workload" = true.
Proof.
  destruct (@scheme_knows_client_types list_scheme list_scheme_laws builtin_kinds eq_refl) as (s & Hs & Hr). exists s.
  split; [exact Hs|]. split; [vm_compute in Hs; injection Hs as <-; reflexivity|].
  exact (Hr (KDeleteWorkload {| nn_Namespace := ""; nn_Name := "" |}) _ _ eq_refl).
Defined.
End Demo.
