(* ===== verification/TestUtils.v ===== *)
(** * TestUtils: the helpers of the end-to-end tests

    [test/utils/utils.go]: running commands, installing cert-manager, loading an image
    into a kind cluster, and [UncommentCode], which edits the scaffold's files.  They run
    outside the operator, so they have an environment of their own: the working
    directory, the environment variables, processes and files.  What they write to the
    Ginkgo log is left out. *)

From S2P Require Import Prelude.
From S2P Require Import Effects.
From S2P Require Import Go.

Local Open Scope prog_scope.
Local Arguments String.append !_ _ /.

Inductive ucall :=
| UGetwd
| UChdir (dir : string)
| UEnviron
| ULookupEnv (key : string)
(* [Cmd.CombinedOutput] of a command with these arguments, directory and environment *)
| UCombinedOutput (args : list string) (dir : string) (env : list string)
| UReadFile (filename : string)
| UWriteFile (filename content : string).

Definition uanswer (c : ucall) : Type :=
  match c with
  | UGetwd | UCombinedOutput _ _ _ => string * option goerr
  | UChdir _ | UWriteFile _ _ => option goerr
  | UEnviron => list string
  | ULookupEnv _ => option string
  | UReadFile _ => result goerr string
  end.

Abbreviation uprogram := (prog uanswer).

(** ** Strings *)

Definition newline : Ascii.ascii := Ascii.ascii_of_nat 10.
Definition carriage_return : Ascii.ascii := Ascii.ascii_of_nat 13.

(** [strings.Index]. *)
Fixpoint strings_Index (s target : string) : option nat :=
  match strings_CutPrefix s target with
  | Some _ => Some 0
  | None => match s with EmptyString => None | String _ s => S <$> strings_Index s target end
  end.

Definition strings_Contains (s target : string) : bool :=
  match strings_Index s target with Some _ => true | None => false end.

(** [strings.TrimPrefix]. *)
Definition strings_TrimPrefix (s prefix : string) : string := default s (strings_CutPrefix s prefix).

(** [strings.ReplaceAll(s, old, "")], for an [old] that is not empty: occurrences from left to
    right that do not overlap; [skip] characters of the current one are still to be left out. *)
Fixpoint remove_all (old : string) (skip : nat) (s : string) : string :=
  match s with
  | EmptyString => EmptyString
  | String a s' =>
      match skip with
      | S skip => remove_all old skip s'
      | O =>
          match strings_CutPrefix s old with
          | Some _ => remove_all old (String.length old - 1) s'
          | None => String a (remove_all old 0 s')
          end
      end
  end.

(** [s[:n]] and [s[n:]]. *)
Fixpoint string_take (n : nat) (s : string) : string :=
  match n, s with
  | S n, String a s => String a (string_take n s)
  | _, _ => EmptyString
  end.

Fixpoint string_drop (n : nat) (s : string) : string :=
  match n, s with
  | S n, String _ s => string_drop n s
  | _, _ => s
  end.

(** [bufio.Scanner] with [bufio.ScanLines]: the lines of the text without their ends
    ("\n" or "\r\n"); after the last newline there is a line only if there is text; a
    line that does not fit the buffer ends the scan. *)
Definition MaxScanTokenSize : Z := 65536.

Fixpoint drop_cr (s : string) : string :=
  match s with
  | EmptyString => EmptyString
  | String a s => if decide (a = carriage_return ∧ s = "") then EmptyString else String a (drop_cr s)
  end.

Fixpoint terminated_lines (ls : list string) : list string :=
  match ls with
  | [] => []
  | [l] => if decide (l = "") then [] else [l]
  | l :: ls => l :: terminated_lines ls
  end.

Fixpoint fitting_lines (ls : list string) : list string :=
  match ls with
  | [] => []
  | l :: ls =>
      if (MaxScanTokenSize <=? Z.of_nat (String.length l))%Z then [] else drop_cr l :: fitting_lines ls
  end.

Definition scan_lines (text : string) : list string :=
  fitting_lines (terminated_lines (split_on newline text)).

(** ** Commands *)

Definition certmanagerVersion : string := "v1.20.2".
Definition certmanagerURL : string :=
  "https://github.com/cert-manager/cert-manager/releases/download/" +:+ certmanagerVersion +:+ "/cert-manager.yaml".
Definition defaultKindBinary : string := "kind".
Definition defaultKindCluster : string := "kind".

Definition GetProjectDir : uprogram (string * option goerr) :=
  wd <- perform UGetwd ;;
  match wd.2 with
  | Some err => Ret (wd.1, Some (wrapf "failed to get current working directory: " err))
  | None => Ret (remove_all "/test/e2e" 0 wd.1, None)
  end.

Section TestUtils.
Context `{!GoStd}.

(** A command is its arguments, the first of them the program. *)
Definition Run (args : list string) : uprogram (string * option goerr) :=
  dir <- GetProjectDir ;;
  perform (UChdir dir.1) ;;
  environ <- perform UEnviron ;;
  let command := strings_Join args " " in
  out <- perform (UCombinedOutput args dir.1 (environ ++ ["GO111MODULE=on"])) ;;
  match out.2 with
  | Some err =>
      Ret (out.1, Some (wrapf (fmt_q command +:+ " failed with error " +:+ fmt_q out.1 +:+ ": ") err))
  | None => Ret (out.1, None)
  end.

Definition kubeSystemLeases : list string :=
  ["cert-manager-cainjector-leader-election"; "cert-manager-controller"].

Definition delete_lease (lease : string) : list string :=
  ["kubectl"; "delete"; "lease"; lease; "-n"; "kube-system"; "--ignore-not-found"; "--force"; "--grace-period=0"].

Fixpoint run_each (commands : list (list string)) : uprogram unit :=
  match commands with
  | [] => Ret tt
  | cmd :: commands => Run cmd ;; run_each commands
  end.

Definition UninstallCertManager : uprogram unit :=
  Run ["kubectl"; "delete"; "-f"; certmanagerURL] ;;
  run_each (delete_lease <$> kubeSystemLeases).

Definition wait_webhook : list string :=
  ["kubectl"; "wait"; "deployment.apps/cert-manager-webhook"; "--for"; "condition=Available";
   "--namespace"; "cert-manager"; "--timeout"; "5m"].

Definition InstallCertManager : uprogram (option goerr) :=
  applied <- Run ["kubectl"; "apply"; "-f"; certmanagerURL] ;;
  match applied.2 with
  | Some err => Ret (Some err)
  | None => waited <- Run wait_webhook ;; Ret waited.2
  end.

Definition GetNonEmptyLines (output : string) : list string :=
  filter (λ element, element ≠ "") (split_on newline output).

Definition certManagerCRDs : list string :=
  ["certificates.cert-manager.io"; "issuers.cert-manager.io"; "clusterissuers.cert-manager.io";
   "certificaterequests.cert-manager.io"; "orders.acme.cert-manager.io"; "challenges.acme.cert-manager.io"].

Definition mentions_crd (crdList : list string) : bool :=
  existsb (λ crd, existsb (λ line, strings_Contains line crd) crdList) certManagerCRDs.

Definition IsCertManagerCRDsInstalled : uprogram bool :=
  out <- Run ["kubectl"; "get"; "crds"] ;;
  match out.2 with
  | Some _ => Ret false
  | None => Ret (mentions_crd (GetNonEmptyLines out.1))
  end.

Definition LoadImageToKindClusterWithName (name : string) : uprogram (option goerr) :=
  cluster <- perform (ULookupEnv "KIND_CLUSTER") ;;
  kind <- perform (ULookupEnv "KIND") ;;
  out <- Run [default defaultKindBinary kind; "load"; "docker-image"; name; "--name";
              default defaultKindCluster cluster] ;;
  Ret out.2.

(** ** Editing *)

(** The text that replaces the target. *)
Definition uncommented (lines : list string) (prefix : string) : string :=
  strings_Join ((λ l, strings_TrimPrefix l prefix) <$> lines) (String newline "").

Definition UncommentCode (filename target prefix : string) : uprogram (option goerr) :=
  content <- perform (UReadFile filename) ;;
  match content with
  | Err err => Ret (Some (wrapf ("failed to read file " +:+ fmt_q filename +:+ ": ") err))
  | Ok content =>
      match strings_Index content target with
      | None => Ret (Some (ENew ("unable to find the code " +:+ fmt_q target +:+ " to be uncommented")))
      | Some idx =>
          match scan_lines target with
          | [] => Ret None
          | lines =>
              let out := string_take idx content +:+ uncommented lines prefix +:+
                         string_drop (idx + String.length target) content in
              written <- perform (UWriteFile filename out) ;;
              match written with
              | Some err => Ret (Some (wrapf ("failed to write file " +:+ fmt_q filename +:+ ": ") err))
              | None => Ret None
              end
          end
      end
  end.
End TestUtils.

(** ** Facts *)

Lemma take_drop_string n s : string_take n s +:+ string_drop n s = s.
Proof. revert s. induction n as [|n IH]; intros [|a s]; simpl; [done..|]. by rewrite IH. Qed.

Lemma drop_append a b : string_drop (String.length a) (a +:+ b) = b.
Proof. induction a as [|c a IH]; [by destruct b|done]. Qed.

Lemma take_append a b : string_take (String.length a) (a +:+ b) = a.
Proof. induction a as [|c a IH]; simpl; [done|by rewrite IH]. Qed.

Lemma drop_drop n m s : string_drop n (string_drop m s) = string_drop (m + n) s.
Proof. revert s. induction m as [|m IH]; intros s; [done|]. destruct s as [|a s]; [by destruct n|apply IH]. Qed.

(** The index is that of the first occurrence. *)
Lemma strings_Index_spec s t i :
  strings_Index s t = Some i →
  s = string_take i s +:+ t +:+ string_drop (i + String.length t) s ∧
  ∀ j, j < i → strings_CutPrefix (string_drop j s) t = None.
Proof.
  revert i. induction s as [|a s IH]; intros i; cbn [strings_Index].
  - destruct (strings_CutPrefix "" t) as [r|] eqn:Hc; [|done]. intros [= <-]. apply CutPrefix_spec in Hc.
    split; [|lia]. destruct t; [done|discriminate].
  - destruct (strings_CutPrefix (String a s) t) as [r|] eqn:Hc.
    + intros [= <-]. apply CutPrefix_spec in Hc. split; [|lia]. simpl string_take. simpl plus.
      rewrite Hc, drop_append. done.
    + destruct (strings_Index s t) as [i'|]; [|done]. intros [= <-]. destruct (IH i' eq_refl) as [Hs Hj]. split.
      * simpl. by rewrite <- Hs.
      * intros [|j] Hlt; [done|]. apply Hj. lia.
Qed.

Lemma strings_Index_found pre t post : ∃ i, strings_Index (pre +:+ t +:+ post) t = Some i.
Proof.
  induction pre as [|a pre [i IH]]; simpl.
  - destruct (t +:+ post) as [|b s] eqn:Hs; cbn [strings_Index].
    + rewrite (proj2 (CutPrefix_spec "" t post)) by done. eauto.
    + rewrite (proj2 (CutPrefix_spec (String b s) t post)) by done. eauto.
  - destruct (strings_CutPrefix _ t); [eauto|]. rewrite IH. simpl. eauto.
Qed.

(** A line that the scanner hands over as it is. *)
Definition plain_line (l : string) : Prop :=
  free_of newline l ∧ drop_cr l = l ∧ (Z.of_nat (String.length l) < MaxScanTokenSize)%Z.

Lemma terminated_lines_id ls : last ls ≠ Some "" → terminated_lines ls = ls.
Proof.
  induction ls as [|l ls IH]; [done|]. destruct ls as [|l' ls]; intros Hl.
  - simpl. rewrite decide_False; [done|]. simpl in Hl. congruence.
  - change (l :: terminated_lines (l' :: ls) = l :: l' :: ls). by rewrite IH.
Qed.

Lemma terminated_lines_end ls : ls ≠ [] → terminated_lines (ls ++ [""]) = ls.
Proof.
  induction ls as [|l ls IH]; [done|]. intros _. destruct ls as [|l' ls]; [done|].
  change (l :: terminated_lines ((l' :: ls) ++ [""]) = l :: l' :: ls). by rewrite IH.
Qed.

Lemma fitting_lines_id ls : Forall plain_line ls → fitting_lines ls = ls.
Proof.
  induction 1 as [|l ls (_ & Hcr & Hlen) _ IH]; [done|]. simpl.
  rewrite (proj2 (Z.leb_gt _ _) Hlen). by rewrite Hcr, IH.
Qed.

Lemma scan_join ls :
  ls ≠ [] → last ls ≠ Some "" → Forall plain_line ls → scan_lines (strings_Join ls (String newline "")) = ls.
Proof.
  intros Hne Hl Hp. unfold scan_lines. rewrite split_on_join; [|done|].
  - rewrite terminated_lines_id by done. by apply fitting_lines_id.
  - eapply Forall_impl; [exact Hp|]. by intros ? [].
Qed.

(** A target that ends in a newline is scanned as one that does not. *)
Lemma scan_join_newline ls :
  ls ≠ [] → Forall plain_line ls → scan_lines (strings_Join (ls ++ [""]) (String newline "")) = ls.
Proof.
  intros Hne Hp. unfold scan_lines. rewrite split_on_join; [|by destruct ls|].
  - rewrite terminated_lines_end by done. by apply fitting_lines_id.
  - apply Forall_app. split; [|by repeat constructor; apply not_elem_of_nil].
    eapply Forall_impl; [exact Hp|]. by intros ? [].
Qed.

Lemma trim_comment prefix l : strings_TrimPrefix (prefix +:+ l) prefix = l.
Proof. unfold strings_TrimPrefix. by rewrite (proj2 (CutPrefix_spec (prefix +:+ l) prefix l)). Qed.

Section Facts.
Context `{!GoStd}.

(** Lines with the comment prefix in front. *)
Definition commented (prefix : string) (ls : list string) : list string := (λ l, prefix +:+ l) <$> ls.

Lemma uncommented_commented prefix ls :
  uncommented (commented prefix ls) prefix = strings_Join ls (String newline "").
Proof.
  unfold uncommented, commented. rewrite <- list_fmap_compose. f_equal.
  rewrite <- (list_fmap_id ls) at 2. apply list_fmap_ext. intros i l _. apply trim_comment.
Qed.

Definition content_read (e : event uanswer) : option string :=
  match e with existT (UReadFile _) (Ok content) => Some content | _ => None end.

(** What [UncommentCode] does to a file that contains the target: one read and one write,
    in which the first occurrence is replaced. *)
Lemma UncommentCode_writes f target prefix content idx lines tr res :
  strings_Index content target = Some idx → scan_lines target = lines → lines ≠ [] →
  exec (UncommentCode f target prefix) tr res → head tr = Some (existT (UReadFile f) (Ok content)) →
  ∃ a : option goerr, tr = [existT (UReadFile f) (Ok content);
             existT (UWriteFile f (string_take idx content +:+ uncommented lines prefix +:+
                                   string_drop (idx + String.length target) content)) a] ∧
    (res = None ↔ a = None).
Proof.
  intros Hi Hl Hne (r & tr' & -> & He) Hh.
  apply (f_equal (λ o, o ≫= content_read)) in Hh. destruct r as [c|]; [|done].
  injection Hh as ->. cbn [prog_bind] in He. rewrite Hi, Hl in He.
  destruct lines as [|l lines]; [done|]. destruct He as (a & tr2 & -> & He). exists a.
  destruct a as [e|]; by destruct He as [-> ->].
Qed.

(** C40. Uncommenting undoes commenting: when a file contains lines that all carry the
    prefix, [UncommentCode] with these lines as the target reads the file and writes it
    once, with the prefix taken off every line of the first occurrence and every other
    byte as it was; it reports success exactly when the write succeeds. *)
Theorem UncommentCode_roundtrip f prefix ls pre post tr res :
  ls ≠ [] → last (commented prefix ls) ≠ Some "" → Forall plain_line (commented prefix ls) →
  let nl := String newline "" in
  let target := strings_Join (commented prefix ls) nl in
  (∀ j, j < String.length pre → strings_CutPrefix (string_drop j (pre +:+ target +:+ post)) target = None) →
  exec (UncommentCode f target prefix) tr res →
  head tr = Some (existT (UReadFile f) (Ok (pre +:+ target +:+ post))) →
  ∃ a : option goerr, tr = [existT (UReadFile f) (Ok (pre +:+ target +:+ post));
             existT (UWriteFile f (pre +:+ strings_Join ls nl +:+ post)) a] ∧ (res = None ↔ a = None).
Proof.
  intros Hne Hlast Hp nl target Hfirst He Hh.
  assert (scan_lines target = commented prefix ls) as Hscan by (apply scan_join; [by destruct ls|done|done]).
  destruct (strings_Index_found pre target post) as [idx Hi].
  pose proof (strings_Index_spec _ _ _ Hi) as [Hsplit Hbefore].
  assert (idx = String.length pre) as ->.
  { destruct (Nat.lt_trichotomy idx (String.length pre)) as [Hlt|[Heq|Hgt]]; [|done|].
    - exfalso. specialize (Hfirst idx Hlt).
      rewrite (proj2 (CutPrefix_spec _ target (string_drop (idx + String.length target) (pre +:+ target +:+ post)))) in Hfirst;
        [done|].
      apply (inj (String.append (string_take idx (pre +:+ target +:+ post)))).
      by rewrite take_drop_string.
    - exfalso. specialize (Hbefore _ Hgt). rewrite drop_append in Hbefore.
      by rewrite (proj2 (CutPrefix_spec _ target post)) in Hbefore. }
  destruct (UncommentCode_writes f target prefix _ _ _ tr res Hi Hscan) as (a & -> & Hres); [by destruct ls|done|done|].
  exists a. split; [|done]. rewrite take_append, <- drop_drop, !drop_append.
  by rewrite uncommented_commented.
Qed.

(** A newline at the end of the target is lost: the text after the target continues the
    last uncommented line. *)
Theorem UncommentCode_drops_newline f prefix ls content idx tr res :
  ls ≠ [] → Forall plain_line (commented prefix ls) →
  let nl := String newline "" in
  let target := strings_Join (commented prefix ls ++ [""]) nl in
  strings_Index content target = Some idx →
  exec (UncommentCode f target prefix) tr res → head tr = Some (existT (UReadFile f) (Ok content)) →
  ∃ a : option goerr, tr = [existT (UReadFile f) (Ok content);
             existT (UWriteFile f (string_take idx content +:+ strings_Join ls nl +:+
                                   string_drop (idx + String.length target) content)) a].
Proof.
  intros Hne Hp nl target Hi He Hh.
  assert (scan_lines target = commented prefix ls) as Hscan by (apply scan_join_newline; [by destruct ls|done]).
  destruct (UncommentCode_writes f target prefix _ _ _ tr res Hi Hscan) as (a & -> & _); [by destruct ls|done|done|].
  exists a. by rewrite uncommented_commented.
Qed.

(** The lines of a command's output that are not empty, in order. *)
Theorem GetNonEmptyLines_join ls :
  ls ≠ [] → Forall (free_of newline) ls →
  GetNonEmptyLines (strings_Join ls (String newline "")) = filter (λ l, l ≠ "") ls.
Proof. intros Hne Hf. unfold GetNonEmptyLines. by rewrite split_on_join. Qed.
End Facts.
