(* ===== verification/Catalog.v ===== *)
(** * Catalog: templates, parameters and their resolution

    [internal/catalog/types.go] and [registry.go]: the data a template declares,
    the two-pass parameter resolution ([ResolveParams]) with visibility and
    validation, the typed parameter readers the [Build] functions use, the lookup
    functions over a registry, and [EstimatedResources].  The templates themselves
    are in [CatalogTemplates]. *)

From S2P Require Import Prelude.
From S2P Require Import Go.
From S2P Require Import Json.
From S2P Require Import Api.
From S2P Require Import Effects.
From S2P Require Import Calls.

(** ** types.go *)
Inductive ParameterType :=
| ParameterTypeString
| ParameterTypeNumber
| ParameterTypeBoolean
| ParameterTypeSelect.

Inductive DataSourceKind :=
| DataSourceStatic
| DataSourceDynamic
| DataSourceSystem
| DataSourceFile
| DataSourceFileOptions.

Inductive FileDirection := DirectionUpload | DirectionDownload.

#[export] Instance DataSourceKind_eq_dec : EqDecision DataSourceKind.
Proof. solve_decision. Defined.

Record DataSource := {
  ds_Kind : DataSourceKind;
  ds_SourceKey : string;
  ds_Direction : option FileDirection;
  ds_SourceParam : string;
  ds_Group : string;
}.

Definition VisibilityEquals : string := "equals".
Definition VisibilityNotEquals : string := "notEquals".
Definition VisibilityOneOf : string := "oneOf".

Record Visibility := {
  vi_DependsOn : string;
  vi_Op : string;
  vi_Value : any;
  vi_Values : list any;
}.

Record Validation := {
  va_Required : bool;
  va_Min : option float64;
  va_Max : option float64;
  va_Regex : string;
  va_MaxLength : option Z;
}.

Definition no_validation : Validation := {|
  va_Required := false; va_Min := None; va_Max := None; va_Regex := ""; va_MaxLength := None |}.

Definition required : Validation := {|
  va_Required := true; va_Min := None; va_Max := None; va_Regex := ""; va_MaxLength := None |}.

Record SelectOption := { so_Value : string; so_Label : string }.

Record TemplateParameter := {
  pa_Key : string;
  pa_Label : string;
  pa_Description : string;
  pa_Type : ParameterType;
  pa_DataSource : DataSource;
  pa_Default : any;
  pa_Options : list SelectOption;
  pa_Visibility : option Visibility;
  pa_Validation : Validation;
}.

Record Rendered := {
  re_Containers : list Container;
  re_InitContainers : list Container;
  re_Volumes : list Volume;
  re_ServicePorts : list ServicePort;
}.

Definition empty_rendered : Rendered := {|
  re_Containers := []; re_InitContainers := []; re_Volumes := []; re_ServicePorts := [] |}.

Record PodRef := { pf_Namespace : string; pf_PodName : string }.

Inductive AdditionalInfoType := AdditionalInfoSecret | AdditionalInfoPlain.

Record AdditionalInfo := {
  ai_Name : string;
  ai_Type : AdditionalInfoType;
  ai_Value : any;
}.

Record FileResult := { fr_Type : string; fr_Label : string }.

Record OperationResult := {
  op_AdditionalInfo : list AdditionalInfo;
  op_File : option FileResult;
}.

Record Operation := {
  o_Key : string;
  o_Label : string;
  o_Description : string;
  o_Parameters : list TemplateParameter;
  o_Refreshable : bool;
  o_Run : PodRef → gmap string any → program (result goerr OperationResult);
}.

Record Entrypoint := { en_Name : string; en_Label : string }.

Record Template := {
  t_ID : string;
  t_Name : string;
  t_Description : string;
  t_Icon : string;
  t_Version : string;
  t_Parameters : list TemplateParameter;
  t_Entrypoints : list Entrypoint;
  t_Operations : list Operation;
  t_Build : gmap string any → result goerr Rendered;
}.

Section Catalog.
Context `{!GoStd, !KubeLib}.

(** [Requests.Cpu().MilliValue()] and [Requests.Memory().Value()]: a resource
    that is not listed counts as zero. *)
Definition Cpu_MilliValue (rl : gmap string Quantity) : Z :=
  default 0%Z (MilliValue <$> rl !! "cpu").
Definition Memory_Value (rl : gmap string Quantity) : Z :=
  default 0%Z (Value <$> rl !! "memory").

Fixpoint sum_requests (cs : list Container) (milliCPU memoryBytes : Z) : Z * Z :=
  match cs with
  | [] => (milliCPU, memoryBytes)
  | c :: cs =>
      sum_requests cs
        (int64 (milliCPU + Cpu_MilliValue (rr_Requests (c_Resources c))))
        (int64 (memoryBytes + Memory_Value (rr_Requests (c_Resources c))))
  end.

Definition EstimatedResources (t : Template) : Z * Z :=
  match t_Build t ∅ with
  | Err _ => (0, 0)%Z
  | Ok rendered => sum_requests (re_Containers rendered) 0 0
  end.

(** ** registry.go *)
Fixpoint Get_in (templates : list Template) (id : string) : option Template :=
  match templates with
  | [] => None
  | t :: ts => if decide (t_ID t = id) then Some t else Get_in ts id
  end.

Fixpoint find_operation (ops : list Operation) (key : string) : option Operation :=
  match ops with
  | [] => None
  | op :: ops => if decide (o_Key op = key) then Some op else find_operation ops key
  end.

Definition GetOperation (t : Template) (key : string) : option Operation :=
  find_operation (t_Operations t) key.

Definition asFloat64 (v : any) : option float64 :=
  match v with
  | AFloat n => Some n
  | AInt n => Some (float64_of_Z n)
  | AInt32 n => Some (float64_of_Z n)
  | _ => None
  end.

Definition any_eq_or_panic (a b : any) : result goerr bool :=
  match any_eq a b with Some r => Ok r | None => Err EPanic end.

(** [slices.Contains]. *)
Fixpoint any_contains (vs : list any) (v : any) : result goerr bool :=
  match vs with
  | [] => Ok false
  | x :: vs =>
      (try b <- any_eq_or_panic v x ;; if b then Ok true else any_contains vs v)%go
  end.

Definition evalVisibility (v : Visibility) (actual : any) : result goerr bool :=
  if decide (vi_Op v = VisibilityEquals) then any_eq_or_panic actual (vi_Value v)
  else if decide (vi_Op v = VisibilityNotEquals) then
    (try b <- any_eq_or_panic actual (vi_Value v) ;; Ok (negb b))%go
  else if decide (vi_Op v = VisibilityOneOf) then any_contains (vi_Values v) actual
  else Ok true.

Definition check_min (rule : Validation) (num : float64) : option goerr :=
  match va_Min rule with
  | Some m => if float64_lt num m then Some (ENew ("must be >= " +:+ fmt_g m)) else None
  | None => None
  end.

Definition check_max (rule : Validation) (num : float64) : option goerr :=
  match va_Max rule with
  | Some m => if float64_lt m num then Some (ENew ("must be <= " +:+ fmt_g m)) else None
  | None => None
  end.

Definition check_numeric (rule : Validation) (value : any) : option goerr :=
  if decide (is_Some (va_Min rule) ∨ is_Some (va_Max rule)) then
    match asFloat64 value with
    | Some num =>
        match check_min rule num with
        | Some e => Some e
        | None => check_max rule num
        end
    | None => None
    end
  else None.

Definition check_maxlength (rule : Validation) (s : string) : option goerr :=
  match va_MaxLength rule with
  | Some n =>
      if (n <? Z.of_nat (String.length s))%Z
      then Some (ENew ("must be at most " +:+ pretty n +:+ " characters")) else None
  | None => None
  end.

Definition check_regex (rule : Validation) (s : string) : option goerr :=
  if decide (va_Regex rule = "") then None
  else match regexp_MatchString (va_Regex rule) s with
       | Err e => Some (EWrap ("invalid validation regex " +:+ fmt_q (va_Regex rule) +:+ ": ") e "")
       | Ok false => Some (ENew ("must match pattern " +:+ fmt_q (va_Regex rule)))
       | Ok true => None
       end.

Definition check_textual (rule : Validation) (value : any) : option goerr :=
  if decide (is_Some (va_MaxLength rule) ∨ va_Regex rule ≠ "") then
    match value with
    | AString s =>
        match check_maxlength rule s with
        | Some e => Some e
        | None => check_regex rule s
        end
    | _ => None
    end
  else None.

(** [checkValidation]: the first violated constraint, if any. *)
Definition checkValidation (rule : Validation) (value : any) : option goerr :=
  match check_numeric rule value with
  | Some e => Some e
  | None => check_textual rule value
  end.

(** First pass of [ResolveParams]: defaults for the keys the caller left out. *)
Definition apply_default (resolved : gmap string any) (p : TemplateParameter) : gmap string any :=
  match resolved !! pa_Key p, pa_Default p with
  | Some _, _ => resolved
  | None, ANil => resolved
  | None, d => <[pa_Key p := d]> resolved
  end.

Definition apply_defaults (params : list TemplateParameter) (raw : gmap string any) : gmap string any :=
  foldl apply_default raw params.

Definition visible (p : TemplateParameter) (resolved : gmap string any) : result goerr bool :=
  match pa_Visibility p with
  | None => Ok true
  | Some v => evalVisibility v (any_index resolved (vi_DependsOn v))
  end.

(** [ok && v != nil && v != ""]. *)
Definition present (p : TemplateParameter) (resolved : gmap string any) : option any :=
  match resolved !! pa_Key p with
  | None => None
  | Some ANil => None
  | Some (AString "") => None
  | Some v => Some v
  end.

(** The body of the second pass, for one parameter. *)
Definition check_param (resolved : gmap string any) (p : TemplateParameter) : result goerr unit :=
  (try vis <- visible p resolved ;;
   if vis then
     match present p resolved with
     | None =>
         if va_Required (pa_Validation p)
         then Err (ENew ("missing required parameter " +:+ fmt_q (pa_Key p)))
         else Ok tt
     | Some v =>
         match checkValidation (pa_Validation p) v with
         | Some e => Err (EWrap ("parameter " +:+ fmt_q (pa_Key p) +:+ " invalid: ") e "")
         | None => Ok tt
         end
     end
   else Ok tt)%go.

Fixpoint check_params (resolved : gmap string any) (params : list TemplateParameter) : result goerr unit :=
  match params with
  | [] => Ok tt
  | p :: ps => (try _ <- check_param resolved p ;; check_params resolved ps)%go
  end.

Definition ResolveParams (params : list TemplateParameter) (raw : gmap string any)
    : result goerr (gmap string any) :=
  let resolved := apply_defaults params raw in
  (try _ <- check_params resolved params ;; Ok resolved)%go.

(** The typed readers. *)
Definition paramString (params : gmap string any) (key fallback : string) : string :=
  match params !! key with
  | Some (AString s) => if decide (s = "") then fallback else s
  | _ => fallback
  end.

Definition paramInt32 (params : gmap string any) (key : string) (fallback : Z) : Z :=
  match any_index params key with
  | AFloat v => float64_to_int32 v
  | AInt32 v => v
  | AInt v => int32 v
  | _ => fallback
  end.

Definition int32ToString (v : Z) : string := pretty v.

(** ** The specification of parameter resolution *)

(** A value Go can compare with [==] without a run-time panic. *)
Definition comparable (a : any) : bool :=
  match a with AList _ | AMap _ => false | _ => true end.

Definition visibility_comparable (v : Visibility) : bool :=
  comparable (vi_Value v) && forallb comparable (vi_Values v).

Definition params_comparable (ps : list TemplateParameter) : bool :=
  forallb (λ p, match pa_Visibility p with None => true | Some v => visibility_comparable v end) ps.

(** The default a list of parameters declares for a key: the first one. *)
Fixpoint first_default (ps : list TemplateParameter) (k : string) : option any :=
  match ps with
  | [] => None
  | p :: ps =>
      match pa_Default p with
      | ANil => first_default ps k
      | d => if decide (pa_Key p = k) then Some d else first_default ps k
      end
  end.

(** What the second pass demands of one parameter. *)
Definition satisfied (m : gmap string any) (p : TemplateParameter) : Prop :=
  visible p m = Ok false ∨
  (visible p m = Ok true ∧
   match present p m with
   | None => va_Required (pa_Validation p) = false
   | Some v => checkValidation (pa_Validation p) v = None
   end).

Lemma any_eq_comparable a b : comparable b = true → is_Some (any_eq a b).
Proof. destruct a, b; simpl; naive_solver. Qed.

Lemma any_eq_or_panic_comparable a b :
  comparable b = true → any_eq_or_panic a b ≠ Err EPanic.
Proof.
  intros [r Hr]%(any_eq_comparable a b). unfold any_eq_or_panic. by rewrite Hr.
Qed.

Lemma any_contains_no_panic vs v :
  forallb comparable vs = true → any_contains vs v ≠ Err EPanic.
Proof.
  induction vs as [|x vs IH]; simpl; [done|].
  intros [Hx Hvs]%andb_true_iff.
  pose proof (any_eq_or_panic_comparable v x Hx).
  destruct (any_eq_or_panic v x) as [[]|]; simpl; naive_solver.
Qed.

Lemma evalVisibility_no_panic v a :
  visibility_comparable v = true → evalVisibility v a ≠ Err EPanic.
Proof.
  intros [Hv Hvs]%andb_true_iff. unfold evalVisibility.
  pose proof (any_eq_or_panic_comparable a _ Hv).
  pose proof (any_contains_no_panic (vi_Values v) a Hvs).
  repeat case_decide; try done.
  destruct (any_eq_or_panic a (vi_Value v)); simpl; congruence.
Qed.

Lemma visible_no_panic p m :
  match pa_Visibility p with None => true | Some v => visibility_comparable v end = true →
  visible p m ≠ Err EPanic.
Proof.
  unfold visible. destruct (pa_Visibility p); [|done]. intros. by apply evalVisibility_no_panic.
Qed.

Lemma check_params_no_panic m ps :
  params_comparable ps = true → check_params m ps ≠ Err EPanic.
Proof.
  induction ps as [|p ps IH]; simpl; [done|].
  intros [Hp Hps]%andb_true_iff. specialize (IH Hps).
  pose proof (visible_no_panic p m Hp) as Hv.
  unfold check_param. destruct (visible p m) as [[]|e]; simpl; [|done|congruence].
  destruct (present p m); [destruct (checkValidation _ _)|destruct (va_Required _)]; done.
Qed.

Lemma check_param_ok m p : check_param m p = Ok tt ↔ satisfied m p.
Proof.
  unfold check_param, satisfied. destruct (visible p m) as [[]|e]; simpl.
  - destruct (present p m) as [v|]; [destruct (checkValidation _ v)|destruct (va_Required _)];
      naive_solver.
  - naive_solver.
  - naive_solver.
Qed.

Lemma check_params_ok m ps : check_params m ps = Ok tt ↔ ∀ p, p ∈ ps → satisfied m p.
Proof.
  induction ps as [|p ps IH]; simpl.
  - split; [set_solver|done].
  - setoid_rewrite elem_of_cons. pose proof (check_param_ok m p) as Hp.
    destruct (check_param m p) as [[]|e]; simpl; naive_solver.
Qed.

Lemma apply_default_lookup m p k :
  apply_default m p !! k =
    match m !! k with
    | Some v => Some v
    | None => first_default [p] k
    end.
Proof.
  unfold apply_default. simpl.
  destruct (m !! pa_Key p) eqn:Hm.
  - destruct (m !! k) eqn:Hk; [done|].
    case_match; try done; case_decide; congruence.
  - destruct (pa_Default p) eqn:Hd; first (by destruct (m !! k));
      (destruct (decide (pa_Key p = k)) as [<-|Hne];
       [rewrite lookup_insert_eq, Hm; done
       |rewrite lookup_insert_ne by done; by destruct (m !! k)]).
Qed.

Lemma apply_defaults_lookup ps raw k :
  apply_defaults ps raw !! k =
    match raw !! k with Some v => Some v | None => first_default ps k end.
Proof.
  unfold apply_defaults. revert raw.
  induction ps as [|p ps IH]; intros raw; simpl; [by destruct (raw !! k)|].
  rewrite IH, apply_default_lookup. simpl.
  destruct (raw !! k) as [v|]; [done|].
  destruct (pa_Default p); try done; by case_decide.
Qed.

Lemma apply_defaults_idemp ps raw :
  apply_defaults ps (apply_defaults ps raw) = apply_defaults ps raw.
Proof.
  apply map_eq. intros k. rewrite !apply_defaults_lookup.
  destruct (raw !! k); [done|]. by destruct (first_default ps k).
Qed.

Lemma ResolveParams_inv ps raw m :
  ResolveParams ps raw = Ok m → m = apply_defaults ps raw ∧ check_params m ps = Ok tt.
Proof.
  unfold ResolveParams. destruct (check_params _ _) as [[]|] eqn:Hc; simpl; naive_solver.
Qed.

(** The keys a caller supplied are never changed by resolution. *)
Lemma ResolveParams_keeps_raw ps raw m :
  ResolveParams ps raw = Ok m → raw ⊆ m.
Proof.
  intros [-> _]%ResolveParams_inv. apply map_subseteq_spec. intros k v Hk.
  by rewrite apply_defaults_lookup, Hk.
Qed.

Lemma ResolveParams_stable ps raw m :
  ResolveParams ps raw = Ok m → ResolveParams ps m = Ok m.
Proof.
  intros [-> Hc]%ResolveParams_inv. unfold ResolveParams.
  rewrite apply_defaults_idemp, Hc. done.
Qed.

(** The errors of parameter resolution are never sentinels of the operator. *)
Lemma any_contains_err vs v e : any_contains vs v = Err e → e = EPanic.
Proof.
  induction vs as [|x vs IH]; simpl; [done|]. unfold any_eq_or_panic.
  destruct (any_eq _ _) as [[]|]; simpl; naive_solver.
Qed.

Lemma visible_err p m e : visible p m = Err e → e = EPanic.
Proof.
  unfold visible, evalVisibility, any_eq_or_panic. destruct (pa_Visibility p) as [v|]; [|done].
  repeat case_decide; try done; try apply any_contains_err;
    destruct (any_eq _ _); simpl; naive_solver.
Qed.

Lemma checkValidation_foreign `{!GoStdLaws} rule v e s :
  checkValidation rule v = Some e → errors_Is e s = false.
Proof.
  unfold checkValidation, check_numeric, check_min, check_max, check_textual, check_maxlength, check_regex.
  intros Hc. repeat (case_match; simplify_eq/=; try done); by eapply regexp_foreign.
Qed.

Lemma check_params_foreign `{!GoStdLaws} m ps e s :
  check_params m ps = Err e → errors_Is e s = false.
Proof.
  induction ps as [|p ps IH]; simpl; [done|].
  destruct (check_param m p) as [[]|e'] eqn:Hp; simpl; [done|]. intros [= <-]. clear IH.
  unfold check_param in Hp. destruct (visible p m) as [[]|e''] eqn:Hv; simpl in Hp; [|done|].
  - destruct (present p m) as [v|]; [|by destruct (va_Required _); simplify_eq].
    destruct (checkValidation _ _) eqn:Hc; simplify_eq/=. by eapply checkValidation_foreign.
  - apply visible_err in Hv. by simplify_eq/=.
Qed.

Lemma ResolveParams_foreign `{!GoStdLaws} ps raw e s :
  ResolveParams ps raw = Err e → errors_Is e s = false.
Proof.
  unfold ResolveParams. destruct (check_params _ _) eqn:Hc; simpl; [done|].
  intros [= <-]. by eapply check_params_foreign.
Qed.

Lemma Get_in_spec ts id t :
  NoDup (t_ID <$> ts) → Get_in ts id = Some t ↔ t ∈ ts ∧ t_ID t = id.
Proof.
  induction ts as [|t' ts IH]; simpl; [set_solver|].
  intros [Hni Hnd]%NoDup_cons. rewrite elem_of_cons. case_decide as Heq; [|naive_solver].
  split; [naive_solver|]. intros [[->|Hin] Hid]; [done|].
  exfalso. apply Hni. rewrite Heq, <- Hid. by apply list_elem_of_fmap_2.
Qed.

Lemma ResolveParams_no_panic ps raw :
  params_comparable ps = true → ResolveParams ps raw ≠ Err EPanic.
Proof.
  intros Hps. unfold ResolveParams.
  pose proof (check_params_no_panic (apply_defaults ps raw) ps Hps).
  destruct (check_params _ _); simpl; congruence.
Qed.

(** C20. [ResolveParams] accepts exactly the configurations whose completion with
    the declared defaults satisfies every parameter: each one is hidden, or visible
    with a present value that passes its validation, or visible, absent and not
    required.  The result is that completion: the caller's values where given, the
    first declared default elsewhere. *)
Theorem ResolveParams_spec ps raw m :
  ResolveParams ps raw = Ok m ↔
  (∀ k, m !! k = match raw !! k with Some v => Some v | None => first_default ps k end) ∧
  (∀ p, p ∈ ps → satisfied m p).
Proof.
  split.
  - intros [-> Hc]%ResolveParams_inv. split; [apply apply_defaults_lookup|].
    by apply check_params_ok.
  - intros [Hm Hs]. assert (m = apply_defaults ps raw) as ->.
    { apply map_eq. intros k. by rewrite Hm, apply_defaults_lookup. }
    apply check_params_ok in Hs. unfold ResolveParams. by rewrite Hs.
Qed.

(** Resolution is idempotent and keeps every value the caller supplied:
    resolving an already resolved configuration succeeds and changes nothing. *)
Theorem ResolveParams_idempotent ps raw m :
  ResolveParams ps raw = Ok m → raw ⊆ m ∧ ResolveParams ps m = Ok m.
Proof. eauto using ResolveParams_keeps_raw, ResolveParams_stable. Qed.

End Catalog.
