(* ===== verification/CatalogTemplates.v ===== *)
(** * CatalogTemplates: nginx, firefox, chrome and webtop

    [internal/catalog/nginx.go], [firefox.go], [chrome.go], [webtop.go], the
    builders they share in [browser.go], and the registry over them
    ([registry.go]'s [templates], [List], [Get]).  [resource.MustParse] is the
    identity on the text a quantity is represented by. *)

From S2P Require Import Prelude.
From S2P Require Import Go.
From S2P Require Import Json.
From S2P Require Import Api.
From S2P Require Import Effects.
From S2P Require Import Calls.
From S2P Require Import Catalog.

(** The Go sources quote words inside raw string literals; here the double quote
    (code 34) is written as a single quote (code 39) and put back. *)
Fixpoint quoted (s : string) : string :=
  match s with
  | EmptyString => EmptyString
  | String a s =>
      String (if decide (Ascii.nat_of_ascii a = 39) then Ascii.ascii_of_nat 34 else a) (quoted s)
  end.

(** ** browser.go *)
Definition templateIDNginx : string := "nginx".
Definition templateIDFirefox : string := "firefox".
Definition templateIDChrome : string := "chrome".
Definition templateIDWebtop : string := "webtop".
Definition profileSourceKeyFirefox : string := "profiles_" +:+ templateIDFirefox.
Definition profileSourceKeyChrome : string := "profiles_" +:+ templateIDChrome.
Definition profileSourceKeyWebtop : string := "profiles_" +:+ templateIDWebtop.
Definition portNameHTTP : string := "http".
Definition portNameHTTPS : string := "https".
Definition entrypointLabelWeb : string := "Web".
Definition browserHTTPPort : Z := 3000.
Definition browserHTTPSPort : Z := 3001.
Definition dshmVolumeName : string := "dshm".
Definition browserConfigMountPath : string := "/config".
Definition configVolumeName : string := "config".
Definition envProfileDownloadURL : string := "PROFILE_DOWNLOAD_URL".
Definition envPUID : string := "PUID".
Definition envPGID : string := "PGID".
Definition envTZ : string := "TZ".
Definition linuxserverUID : string := "1000".
Definition linuxserverTimezone : string := "Etc/UTC".
Definition paramKeyLogLevel : string := "logLevel".
Definition logLevelInfo : string := "info".
Definition logLevelWarn : string := "warn".
Definition logLevelError : string := "error".
Definition paramKeyUploadURL : string := "uploadUrl".
Definition paramKeyRestoreProfile : string := "restoreProfile".
Definition paramKeyLabel : string := "label".
Definition paramKeyProfileName : string := "profileName".
Definition paramKeyProfileURL : string := "profileDownloadUrl".
Definition initialTemplateVersion : string := "1.0.0".

Definition static_source : DataSource := {|
  ds_Kind := DataSourceStatic; ds_SourceKey := ""; ds_Direction := None;
  ds_SourceParam := ""; ds_Group := "" |}.

Definition restore_requested : Visibility := {|
  vi_DependsOn := paramKeyRestoreProfile; vi_Op := VisibilityEquals;
  vi_Value := ABool true; vi_Values := [] |}.

Definition browserParameters (profileSourceKey : string) : list TemplateParameter := [
  {| pa_Key := paramKeyProfileName;
     pa_Label := "Profile name";
     pa_Description := "Identifies which saved profile to restore, if any.";
     pa_Type := ParameterTypeSelect;
     pa_DataSource := {| ds_Kind := DataSourceFileOptions; ds_SourceKey := ""; ds_Direction := None;
                         ds_SourceParam := ""; ds_Group := profileSourceKey |};
     pa_Default := ANil;
     pa_Options := [];
     pa_Visibility := Some restore_requested;
     pa_Validation := required |};
  {| pa_Key := paramKeyRestoreProfile;
     pa_Label := "Restore saved profile";
     pa_Description := "";
     pa_Type := ParameterTypeBoolean;
     pa_DataSource := static_source;
     pa_Default := ABool false;
     pa_Options := [];
     pa_Visibility := None;
     pa_Validation := no_validation |};
  {| pa_Key := paramKeyProfileURL;
     pa_Label := "Profile download URL (system)";
     pa_Description := "";
     pa_Type := ParameterTypeString;
     pa_DataSource := {| ds_Kind := DataSourceFile; ds_SourceKey := "";
                         ds_Direction := Some DirectionDownload;
                         ds_SourceParam := paramKeyProfileName; ds_Group := "" |};
     pa_Default := ANil;
     pa_Options := [];
     pa_Visibility := Some restore_requested;
     pa_Validation := no_validation |} ].

Definition restore_script (profilePath : string) : string :=
  quoted "set -e
PROFILE_DIR='/config/" +:+ profilePath +:+ quoted "'
mkdir -p '$PROFILE_DIR'
if [ -n '$PROFILE_DOWNLOAD_URL' ]; then
  echo 'Attempting profile restore from R2...'
  if wget -q -O /tmp/profile.tar.gz '$PROFILE_DOWNLOAD_URL'; then
    tar -xzf /tmp/profile.tar.gz -C /config
    rm -f /tmp/profile.tar.gz
    echo 'Profile restored successfully'
  else
    echo 'No existing profile found (or download failed), starting fresh'
    rm -f /tmp/profile.tar.gz
  fi
else
  echo 'No profile restore requested, starting fresh'
fi
chown -R 1000:1000 /config
chmod -R 755 /config
".

Definition restoreProfileInitContainer (profilePath profileDownloadURL : string) : Container := {|
  c_Name := "restore-profile";
  c_Image := "alpine:latest";
  c_Command := ["/bin/sh"; "-c"; restore_script profilePath];
  c_Env := [env_var envProfileDownloadURL profileDownloadURL];
  c_Ports := [];
  c_LivenessProbe := None;
  c_ReadinessProbe := None;
  c_Resources := no_resources;
  c_VolumeMounts := [{| vm_MountPath := browserConfigMountPath; vm_Name := configVolumeName |}] |}.

Definition backup_script : string := quoted "set -e
tar czf /tmp/backup.tar.gz -C /config '$1' || {
  rc=$?
  if [ '$rc' -gt 1 ]; then
    exit '$rc'
  fi
}
curl -sf -X PUT --upload-file /tmp/backup.tar.gz '$2'
rm -f /tmp/backup.tar.gz
".

Section Templates.
Context `{!GoStd, !KubeLib}.
Local Open Scope prog_scope.

Definition backup_command (profilePath uploadURL : string) : list string :=
  ["/bin/sh"; "-c"; backup_script; "sh"; profilePath; uploadURL].

Definition backup_result (label : string) : OperationResult := {|
  op_AdditionalInfo := [{| ai_Name := "result"; ai_Type := AdditionalInfoPlain;
                           ai_Value := AString "backup_state.success" |}];
  op_File := Some {| fr_Type := "browser_profile_backup"; fr_Label := label |} |}.

Definition backup_Run (profilePath containerName : string) (pod : PodRef)
    (params : gmap string any) : program (result goerr OperationResult) :=
  let uploadURL := paramString params paramKeyUploadURL "" in
  if decide (uploadURL = "") then Ret (Err (ENew "uploadUrl is required")) else
  r <- perform (PodExec (pf_Namespace pod) (pf_PodName pod) containerName
                  (backup_command profilePath uploadURL)) ;;
  match r with
  | (_, stderr, Some err) =>
      Ret (Err (EWrap "backup exec failed: " err (" (stderr: " +:+ stderr +:+ ")")))
  | (_, _, None) =>
      let label := paramString params paramKeyLabel "" in
      if decide (label = "") then
        now <- perform Now ;;
        Ret (Ok (backup_result ("Backup " +:+ rfc3339 now)))
      else Ret (Ok (backup_result label))
  end.

Definition backupStateFunction (profilePath containerName profileSourceKey : string) : Operation := {|
  o_Key := "backup_state";
  o_Label := "Backup profile";
  o_Description := "Tars the current browser profile and uploads it to R2 so it can be restored into a future deploy.";
  o_Refreshable := false;
  o_Parameters := [
    {| pa_Key := paramKeyLabel;
       pa_Label := "Backup name";
       pa_Description := "A name to identify this saved profile later, when restoring it into a future deploy.";
       pa_Type := ParameterTypeString;
       pa_DataSource := static_source;
       pa_Default := ANil; pa_Options := []; pa_Visibility := None;
       pa_Validation := no_validation |};
    {| pa_Key := paramKeyUploadURL;
       pa_Label := "Upload URL (system)";
       pa_Description := "";
       pa_Type := ParameterTypeString;
       pa_DataSource := {| ds_Kind := DataSourceFile; ds_SourceKey := "";
                           ds_Direction := Some DirectionUpload; ds_SourceParam := "";
                           ds_Group := profileSourceKey |};
       pa_Default := ANil; pa_Options := []; pa_Visibility := None;
       pa_Validation := required |} ];
  o_Run := backup_Run profilePath containerName |}.

Definition browserResources (cpu memRequest memLimit : string) : ResourceRequirements := {|
  rr_Limits := {[ "cpu" := cpu; "memory" := memLimit ]};
  rr_Requests := {[ "cpu" := cpu; "memory" := memRequest ]} |}.

Definition browserProbe (initialDelay : Z) : Probe := {|
  pr_FailureThreshold := 3; pr_InitialDelaySeconds := initialDelay;
  pr_PeriodSeconds := 10; pr_TimeoutSeconds := 5;
  pr_HTTPGetPath := "/"; pr_HTTPGetPort := browserHTTPPort |}.

Definition linuxserver_env : list EnvVar :=
  [env_var envPUID linuxserverUID; env_var envPGID linuxserverUID; env_var envTZ linuxserverTimezone].

Definition browser_ports : list ContainerPort :=
  [{| cp_ContainerPort := browserHTTPPort; cp_Name := portNameHTTP |};
   {| cp_ContainerPort := browserHTTPSPort; cp_Name := portNameHTTPS |}].

Definition browser_service_ports : list ServicePort :=
  [{| sp_Name := portNameHTTP; sp_Port := 80; sp_TargetPort := browserHTTPPort |}].

Definition config_mount : VolumeMount :=
  {| vm_MountPath := browserConfigMountPath; vm_Name := configVolumeName |}.
Definition dshm_mount : VolumeMount :=
  {| vm_MountPath := "/dev/shm"; vm_Name := dshmVolumeName |}.
Definition config_volume : Volume :=
  {| v_Name := configVolumeName; v_EmptyDirMedium := ""; v_EmptyDirSizeLimit := None |}.
Definition dshm_volume (limit : string) : Volume :=
  {| v_Name := dshmVolumeName; v_EmptyDirMedium := "Memory"; v_EmptyDirSizeLimit := Some limit |}.

Definition web_entrypoints : list Entrypoint :=
  [{| en_Name := portNameHTTP; en_Label := entrypointLabelWeb |}].

(** ** nginx.go *)
Definition Nginx_Build (params : gmap string any) : result goerr Rendered :=
  let logLevel := paramString params paramKeyLogLevel logLevelInfo in
  let workerConnections := paramInt32 params "workerConnections" 1024 in
  Ok {|
    re_Containers := [
      {| c_Env := [env_var "LOG_LEVEL" logLevel;
                   env_var "WORKER_CONNECTIONS" (int32ToString workerConnections)];
         c_Image := "nginxdemos/hello:latest";
         c_Name := templateIDNginx;
         c_Ports := [{| cp_ContainerPort := 80; cp_Name := portNameHTTP |}];
         c_Resources := {| rr_Requests := {[ "cpu" := "50m"; "memory" := "64Mi" ]};
                           rr_Limits := {[ "cpu" := "200m"; "memory" := "128Mi" ]} |};
         c_Command := []; c_LivenessProbe := None; c_ReadinessProbe := None;
         c_VolumeMounts := [] |} ];
    re_InitContainers := [];
    re_Volumes := [];
    re_ServicePorts := [{| sp_Name := portNameHTTP; sp_Port := 80; sp_TargetPort := 80 |}] |}.

Definition Nginx_Parameters : list TemplateParameter := [
  {| pa_Default := AString logLevelInfo;
     pa_Key := paramKeyLogLevel;
     pa_Label := "Log level";
     pa_Description := "";
     pa_Options := [{| so_Label := "Info"; so_Value := logLevelInfo |};
                    {| so_Label := "Warn"; so_Value := logLevelWarn |};
                    {| so_Label := "Error"; so_Value := logLevelError |}];
     pa_DataSource := static_source;
     pa_Type := ParameterTypeSelect;
     pa_Visibility := None;
     pa_Validation := no_validation |};
  {| pa_Default := AFloat (float64_of_Z 1024);
     pa_Description := "Passed through as an env var for illustration.";
     pa_Key := "workerConnections";
     pa_Label := "Worker connections";
     pa_Options := [];
     pa_DataSource := static_source;
     pa_Type := ParameterTypeNumber;
     pa_Visibility := None;
     pa_Validation := {| va_Required := false; va_Min := Some (float64_of_Z 0);
                         va_Max := Some (float64_of_Z 65536); va_Regex := "";
                         va_MaxLength := None |} |} ].

Definition Nginx : Template := {|
  t_Build := Nginx_Build;
  t_Description := "Simple nginx web server with hello world demo";
  t_Entrypoints := web_entrypoints;
  t_ID := templateIDNginx;
  t_Icon := "🌐";
  t_Name := "Nginx";
  t_Version := initialTemplateVersion;
  t_Parameters := Nginx_Parameters;
  t_Operations := [] |}.

(** ** firefox.go *)
Definition Firefox_Build (params : gmap string any) : result goerr Rendered :=
  let profileDownloadURL := paramString params paramKeyProfileURL "" in
  Ok {|
    re_Containers := [
      {| c_Env := linuxserver_env;
         c_Image := "linuxserver/firefox:latest";
         c_LivenessProbe := Some (browserProbe 30);
         c_Name := templateIDFirefox;
         c_Ports := browser_ports;
         c_ReadinessProbe := Some (browserProbe 15);
         c_Resources := browserResources "1000m" "1500Mi" "3Gi";
         c_VolumeMounts := [config_mount];
         c_Command := [] |} ];
    re_InitContainers := [restoreProfileInitContainer ".mozilla/firefox" profileDownloadURL];
    re_ServicePorts := browser_service_ports;
    re_Volumes := [config_volume] |}.

Definition Firefox : Template := {|
  t_Build := Firefox_Build;
  t_Operations := [backupStateFunction ".mozilla/firefox" templateIDFirefox profileSourceKeyFirefox];
  t_Description := "Full Firefox browser accessible via web interface";
  t_Entrypoints := web_entrypoints;
  t_ID := templateIDFirefox;
  t_Icon := "🦊";
  t_Name := "Firefox Browser";
  t_Version := "1.1.1";
  t_Parameters := browserParameters profileSourceKeyFirefox |}.

(** ** chrome.go *)
Definition Chrome_Build (params : gmap string any) : result goerr Rendered :=
  let profileDownloadURL := paramString params paramKeyProfileURL "" in
  Ok {|
    re_Containers := [
      {| c_Env := linuxserver_env;
         c_Image := "lscr.io/linuxserver/chrome:latest";
         c_LivenessProbe := Some (browserProbe 30);
         c_Name := templateIDChrome;
         c_Ports := browser_ports;
         c_ReadinessProbe := Some (browserProbe 15);
         c_Resources := browserResources "1000m" "1500Mi" "3Gi";
         c_VolumeMounts := [config_mount; dshm_mount];
         c_Command := [] |} ];
    re_InitContainers := [restoreProfileInitContainer ".config/google-chrome" profileDownloadURL];
    re_ServicePorts := browser_service_ports;
    re_Volumes := [config_volume; dshm_volume "4Gi"] |}.

Definition Chrome : Template := {|
  t_Build := Chrome_Build;
  t_Operations := [backupStateFunction ".config/google-chrome" templateIDChrome profileSourceKeyChrome];
  t_Description := "Full Chrome browser accessible via web interface";
  t_Entrypoints := web_entrypoints;
  t_ID := templateIDChrome;
  t_Icon := "🌐";
  t_Name := "Chrome Browser";
  t_Version := "1.1.1";
  t_Parameters := browserParameters profileSourceKeyChrome |}.

(** ** webtop.go *)
Definition flavor_option (value label : string) : SelectOption :=
  {| so_Value := value; so_Label := label |}.

Definition webtopFlavors : list SelectOption := [
  flavor_option "latest" "Alpine + XFCE (latest)";
  flavor_option "alpine-i3" "Alpine + i3";
  flavor_option "alpine-kde" "Alpine + KDE";
  flavor_option "alpine-mate" "Alpine + MATE";
  flavor_option "arch-i3" "Arch + i3";
  flavor_option "arch-kde" "Arch + KDE";
  flavor_option "arch-mate" "Arch + MATE";
  flavor_option "arch-xfce" "Arch + XFCE";
  flavor_option "debian-i3" "Debian + i3";
  flavor_option "debian-kde" "Debian + KDE";
  flavor_option "debian-mate" "Debian + MATE";
  flavor_option "debian-xfce" "Debian + XFCE";
  flavor_option "fedora-i3" "Fedora + i3";
  flavor_option "fedora-kde" "Fedora + KDE";
  flavor_option "fedora-mate" "Fedora + MATE";
  flavor_option "fedora-xfce" "Fedora + XFCE";
  flavor_option "ubuntu-i3" "Ubuntu + i3";
  flavor_option "ubuntu-kde" "Ubuntu + KDE";
  flavor_option "ubuntu-mate" "Ubuntu + MATE";
  flavor_option "ubuntu-xfce" "Ubuntu + XFCE" ].

Definition Webtop_Build (params : gmap string any) : result goerr Rendered :=
  let flavor := paramString params "flavor" "latest" in
  let profileDownloadURL := paramString params paramKeyProfileURL "" in
  Ok {|
    re_Containers := [
      {| c_Env := linuxserver_env;
         c_Image := "lscr.io/linuxserver/webtop:" +:+ flavor;
         c_LivenessProbe := Some (browserProbe 30);
         c_Name := templateIDWebtop;
         c_Ports := browser_ports;
         c_ReadinessProbe := Some (browserProbe 15);
         c_Resources := browserResources "1500m" "2Gi" "4Gi";
         c_VolumeMounts := [config_mount; dshm_mount];
         c_Command := [] |} ];
    re_InitContainers := [restoreProfileInitContainer "." profileDownloadURL];
    re_ServicePorts := browser_service_ports;
    re_Volumes := [config_volume; dshm_volume "1Gi"] |}.

Definition flavor_parameter : TemplateParameter := {|
  pa_Default := AString "latest";
  pa_Description := "Base OS and desktop environment combination.";
  pa_Key := "flavor";
  pa_Label := "Flavor";
  pa_Options := webtopFlavors;
  pa_DataSource := static_source;
  pa_Type := ParameterTypeSelect;
  pa_Visibility := None;
  pa_Validation := no_validation |}.

Definition Webtop : Template := {|
  t_Build := Webtop_Build;
  t_Operations := [backupStateFunction "." templateIDWebtop profileSourceKeyWebtop];
  t_Description := "Full Linux desktop environment accessible via web browser";
  t_Entrypoints := web_entrypoints;
  t_ID := templateIDWebtop;
  t_Icon := "🖥️";
  t_Name := "Webtop Desktop";
  t_Version := initialTemplateVersion;
  t_Parameters := [flavor_parameter] ++ browserParameters profileSourceKeyWebtop |}.

(** ** registry.go *)
Definition templates : list Template := [Nginx; Firefox; Chrome; Webtop].

Definition List : list Template := templates.

Definition Get (id : string) : option Template := Get_in templates id.

(** ** Well-formedness of what a template renders *)

Definition mounts_declared (r : Rendered) (c : Container) : bool :=
  forallb (λ m, bool_decide (vm_Name m ∈ v_Name <$> re_Volumes r)) (c_VolumeMounts c).

Definition port_targets (r : Rendered) (sp : ServicePort) : bool :=
  existsb (λ c, bool_decide (sp_TargetPort sp ∈ cp_ContainerPort <$> c_Ports c)) (re_Containers r).

(** Every entrypoint the template advertises is a service port of its own, every
    service port targets a port some container listens on, every mount names a
    declared volume, and names are unique where Kubernetes requires it. *)
Definition rendered_wf (t : Template) (r : Rendered) : bool :=
  forallb (λ e, bool_decide (en_Name e ∈ sp_Name <$> re_ServicePorts r)) (t_Entrypoints t) &&
  forallb (port_targets r) (re_ServicePorts r) &&
  forallb (mounts_declared r) (re_Containers r ++ re_InitContainers r) &&
  bool_decide (NoDup (sp_Name <$> re_ServicePorts r)) &&
  bool_decide (NoDup (v_Name <$> re_Volumes r)) &&
  bool_decide (NoDup (c_Name <$> (re_Containers r ++ re_InitContainers r))) &&
  bool_decide (t_Entrypoints t ≠ [] ∧ re_Containers r ≠ []).

(** Case analysis over the registry. *)
Lemma templates_cases (P : Template → Prop) :
  P Nginx → P Firefox → P Chrome → P Webtop → ∀ t, t ∈ templates → P t.
Proof. intros. unfold templates in *. set_solver. Qed.

Lemma templates_ids : NoDup (t_ID <$> templates).
Proof. apply (bool_decide_unpack _). vm_compute. exact I. Qed.

Lemma templates_comparable t : t ∈ templates → params_comparable (t_Parameters t) = true.
Proof. revert t. by apply templates_cases. Qed.

Lemma operations_comparable t o :
  t ∈ templates → o ∈ t_Operations t → params_comparable (o_Parameters o) = true.
Proof.
  revert t. apply (templates_cases (λ t, o ∈ t_Operations t → _)); simpl; set_solver.
Qed.

Lemma templates_build_total t params : t ∈ templates → ∃ r, t_Build t params = Ok r.
Proof. revert t. apply templates_cases; eexists; reflexivity. Qed.

(** ** Registry *)

(** [Get] is exact: it returns a template if and only if the registry lists
    that template under that ID, so lookups never depend on the registry order. *)
Theorem Get_exact id t : Get id = Some t ↔ t ∈ List ∧ t_ID t = id.
Proof. apply Get_in_spec, templates_ids. Qed.

(** No template or operation of the catalog can make [ResolveParams] panic on
    the comparison of interface values, whatever configuration it is given. *)
Theorem catalog_never_panics t raw :
  t ∈ templates →
  ResolveParams (t_Parameters t) raw ≠ Err EPanic ∧
  ∀ o, o ∈ t_Operations t → ResolveParams (o_Parameters o) raw ≠ Err EPanic.
Proof.
  intros Ht. split; [|intros o Ho]; apply ResolveParams_no_panic;
    eauto using templates_comparable, operations_comparable.
Qed.

(** ** Rendering *)

(** C34. [Build] succeeds for every parameter map, and what it renders is well
    formed: advertised entrypoints are routable service ports, service ports
    target container ports, volume mounts name declared volumes. *)
Theorem templates_build_wf t params :
  t ∈ templates → ∃ r, t_Build t params = Ok r ∧ rendered_wf t r = true.
Proof. revert t. apply templates_cases; eexists; (split; [reflexivity|]); reflexivity. Qed.

(** C35. The commands of all rendered containers are the same for every parameter
    map: no parameter value (the presigned profile URL in particular) is ever
    interpolated into a shell script. *)
Theorem build_commands_parameter_free t params params' r r' :
  t ∈ templates → t_Build t params = Ok r → t_Build t params' = Ok r' →
  c_Command <$> (re_Containers r ++ re_InitContainers r) =
  c_Command <$> (re_Containers r' ++ re_InitContainers r').
Proof.
  intros Ht. revert t Ht r r'.
  apply (templates_cases (λ t, ∀ r r', t_Build t params = Ok r → t_Build t params' = Ok r' → _));
    intros r r' [= <-] [= <-]; reflexivity.
Qed.

(** What a rendered pod requests: the sum of the requests of its containers. *)
Definition cpu_requested (r : Rendered) : Z :=
  zsum (λ c, default 0%Z (MilliValue <$> rr_Requests (c_Resources c) !! "cpu")) (re_Containers r).
Definition memory_requested (r : Rendered) : Z :=
  zsum (λ c, default 0%Z (Value <$> rr_Requests (c_Resources c) !! "memory")) (re_Containers r).

Lemma sum_requests_sum cs cpu mem :
  sum_requests cs (int64 cpu) (int64 mem) =
  (int64 (cpu + zsum (λ c, default 0%Z (MilliValue <$> rr_Requests (c_Resources c) !! "cpu")) cs),
   int64 (mem + zsum (λ c, default 0%Z (Value <$> rr_Requests (c_Resources c) !! "memory")) cs)).
Proof.
  revert cpu mem. induction cs as [|c cs IH]; intros cpu mem; simpl; [by rewrite !Z.add_0_r|].
  rewrite !int64_add_l, IH, !Z.add_assoc. done.
Qed.

Lemma estimate_of_empty t r :
  t_Build t ∅ = Ok r → EstimatedResources t = (int64 (cpu_requested r), int64 (memory_requested r)).
Proof. intros Hb. unfold EstimatedResources. rewrite Hb. apply (sum_requests_sum _ 0 0). Qed.

(** C36. The capacity estimate is exact.  For every template, of the catalog or not,
    [EstimatedResources] is the sum of the CPU and memory requests of all containers
    rendered from the empty parameter map, as int64, and zero when that fails to
    render; for the templates of the catalog it is the sum of the requests of the
    containers rendered from any parameter map. *)
Theorem EstimatedResources_exact t :
  (∀ r, t_Build t ∅ = Ok r →
     EstimatedResources t = (int64 (cpu_requested r), int64 (memory_requested r))) ∧
  (∀ e, t_Build t ∅ = Err e → EstimatedResources t = (0, 0)%Z) ∧
  (t ∈ templates → ∀ params r, t_Build t params = Ok r →
     EstimatedResources t = (int64 (cpu_requested r), int64 (memory_requested r))).
Proof.
  split_and!; [apply estimate_of_empty|intros e He; unfold EstimatedResources; by rewrite He|].
  intros Ht params. revert t Ht.
  apply (templates_cases (λ t, ∀ r, t_Build t params = Ok r → EstimatedResources t = _));
    intros r [= <-]; (etrans; [by eapply estimate_of_empty|]); reflexivity.
Qed.

(** A browser or desktop deploy that asks for a profile restore is accepted
    only when a profile was actually picked: a non-empty [profileName]. *)
Theorem restore_needs_profile k raw m :
  ResolveParams (browserParameters k) raw = Ok m →
  any_index m paramKeyRestoreProfile = ABool true →
  ∃ v, m !! paramKeyProfileName = Some v ∧ v ≠ ANil ∧ v ≠ AString "".
Proof.
  intros [_ Hc]%ResolveParams_inv Hr.
  apply check_params_ok with (p := nth 0 (browserParameters k) flavor_parameter) in Hc;
    [|simpl; set_solver].
  destruct Hc as [Hv|[_ Hp]].
  - unfold visible in Hv. simpl in Hv. rewrite Hr in Hv. done.
  - unfold present in Hp. simpl in Hp.
    destruct (m !! paramKeyProfileName) as [v|]; [|done].
    exists v. split; [done|]. destruct v as [| | |[]| | | |]; done.
Qed.

Lemma float64_1024 : float64_to_int32 (float64_of_Z 1024) = 1024%Z.
Proof. reflexivity. Qed.

(** Whatever JSON configuration an nginx workload is accepted with, the worker
    connection count it is started with lies in the declared range 0..65536: the
    float-to-int32 conversion is never taken outside what the language defines. *)
Theorem nginx_workers_in_range raw m :
  json_map raw →
  ResolveParams (t_Parameters Nginx) raw = Ok m →
  (0 ≤ paramInt32 m "workerConnections" 1024 ≤ 65536)%Z.
Proof.
  intros Hraw [-> Hc]%ResolveParams_inv.
  apply check_params_ok with (p := nth 1 Nginx_Parameters flavor_parameter) in Hc;
    [|simpl; set_solver].
  destruct Hc as [Hv|[_ Hp]]; [done|].
  unfold paramInt32, any_index, present in *. cbn [nth Nginx_Parameters pa_Key] in Hp.
  rewrite apply_defaults_lookup in *.
  destruct (raw !! "workerConnections") as [v|] eqn:Hk.
  2:{ change (first_default _ _) with (Some (AFloat (float64_of_Z 1024))).
      cbn -[float64_of_Z float64_to_int32]. rewrite float64_1024. lia. }
  apply Hraw, proj2 in Hk as Hj. cbn -[float64_to_int32].
  destruct v as [| |f|s|n|n| |]; try lia; try done.
  unfold checkValidation in Hp.
  destruct (check_numeric _ _) eqn:Hn; [done|]. clear Hp.
  unfold check_numeric in Hn. cbn [nth Nginx_Parameters pa_Validation asFloat64] in Hn.
  rewrite decide_True in Hn by (simpl; eauto).
  unfold check_min, check_max in Hn. simpl in Hn.
  destruct (float64_lt f _) eqn:Hlo; [done|].
  destruct (float64_lt _ f) eqn:Hhi; [done|].
  destruct (float64_trunc_16bit f Hj Hlo Hhi) as (z & Hz & ?).
  unfold float64_to_int32. rewrite Hz, decide_True; [lia|unfold in_int32; lia].
Qed.

(** Running [backup_state] executes at most one command, in the container of the
    template, with the constant script and the upload URL as a positional argument;
    it succeeds exactly when a URL was given and the command succeeded. *)
Theorem backup_Run_spec path cont pod params tr res :
  exec (backup_Run path cont pod params) tr res →
  let url := paramString params paramKeyUploadURL "" in
  (url = "" ∧ tr = [] ∧ res = Err (ENew "uploadUrl is required")) ∨
  (url ≠ "" ∧ ∃ out err e tr',
     tr = existT (PodExec (pf_Namespace pod) (pf_PodName pod) cont
                    (backup_command path url)) (out, err, e) :: tr' ∧
     (∀ ev, ev ∈ tr' → projT1 ev = Now) ∧
     (is_ok res = true ↔ e = None)).
Proof.
  intros He url. fold url in He.
  eapply (wp_sound _ (λ tr res, _ ∨ _)) in He; [exact He|]. clear He tr res.
  unfold backup_Run. fold url. case_decide as Hu; [by left|].
  simpl. intros [[out err] [e|]]; simpl.
  - right. split; [done|]. exists out, err, (Some e), []. repeat split; try done; set_solver.
  - case_decide as Hl; simpl.
    + intros now. right. split; [done|].
      exists out, err, None, [existT Now now]. repeat split; try done. set_solver.
    + right. split; [done|]. exists out, err, None, []. repeat split; try done; set_solver.
Qed.

End Templates.
