(* ===== verification/Controller.v ===== *)
(** * Controller: the Workload reconciler

    [internal/controller/workload_controller.go].  [Reconcile] and everything it
    calls, as programs over the environment of [Calls]: the finalizer protocol, the
    rendering of a Workload into a Deployment and a Service, the unschedulable
    check, the status computation and the Convex notifications with their
    retry conditions.  Log lines and context deadlines are not modelled (a deadline
    shows up as an error answer). *)

From S2P Require Import Prelude.
From S2P Require Import Effects.
From S2P Require Import Regex.
From S2P Require Import Go.
From S2P Require Import Json.
From S2P Require Import Api.
From S2P Require Import Calls.
From S2P Require Import Catalog.
From S2P Require Import CatalogTemplates.

Local Open Scope prog_scope.

(** ** Constants *)
Definition labelName : string := "app.kubernetes.io/name".
Definition labelInstance : string := "app.kubernetes.io/instance".
Definition labelUserID : string := "apps.aicloud.dev/user-id".

Definition conditionTypeConvexSynced : string := "ConvexSynced".
Definition conditionTypeConvexLifecycleSynced : string := "ConvexLifecycleSynced".

Definition reasonWorkloadSuspended : string := "WorkloadSuspended".
Definition reasonDeploymentReady : string := "DeploymentReady".
Definition reasonDeploymentProgressing : string := "DeploymentProgressing".
Definition reasonNotifyFailed : string := "NotifyFailed".
Definition reasonNotified : string := "Notified".
Definition reasonAlreadyResolved : string := "AlreadyResolved".
Definition reasonReconcileError : string := "ReconcileError".
Definition reasonInvalidSpec : string := "InvalidSpec".
Definition reasonUnknownTemplate : string := "UnknownTemplate".

Definition lifecyclePhaseActive : string := "active".
Definition lifecyclePhaseFailed : string := "failed".
Definition lifecyclePhaseStopped : string := "stopped".

Definition defaultContainerPort : Z := 8080.

Definition second : Z := 1000000000.
Definition statusRequeueInterval : Z := 10 * second.
Definition workloadFinalizer : string := "apps.aicloud.dev/workload-finalizer".
Definition unschedulableGracePeriod : Z := 3 * 60 * second.

(** [WorkloadReconciler]: whether a [WorkloadNotifier] is wired in. *)
Record WorkloadReconciler := { wr_ConvexClient : bool }.

(** [(ctrl.Result, error)]: the requested delay (0 for none) and the error. *)
Record ReconcileResult := { rc_RequeueAfter : Z; rc_Err : option goerr }.

Definition done_result : ReconcileResult := {| rc_RequeueAfter := 0; rc_Err := None |}.
Definition requeue_result : ReconcileResult :=
  {| rc_RequeueAfter := statusRequeueInterval; rc_Err := None |}.
Definition error_result (e : goerr) : ReconcileResult :=
  {| rc_RequeueAfter := 0; rc_Err := Some e |}.

(** ** Label values *)
Definition in_range (lo hi : nat) (a : Ascii.ascii) : bool :=
  (lo <=? Ascii.nat_of_ascii a) && (Ascii.nat_of_ascii a <=? hi).

(** [A-Za-z0-9] and [A-Za-z0-9._-]. *)
Definition alnum (a : Ascii.ascii) : bool :=
  in_range 65 90 a || in_range 97 122 a || in_range 48 57 a.
Definition label_char (a : Ascii.ascii) : bool :=
  alnum a || in_range 46 46 a || in_range 95 95 a || in_range 45 45 a.

Definition labelValueRe : regex :=
  RSeq (RClass alnum) (ROpt (RSeq (RStar (RClass label_char)) (RClass alnum))).

Definition maxLabelValueLen : nat := 63.

Definition sanitizeLabelValue (raw : string) : option string :=
  if decide (raw = "") then None
  else if decide (maxLabelValueLen < String.length raw) then None
  else if matches labelValueRe raw then Some raw else None.

(** ** Desired state *)
Definition desiredReplicaCount (workload : Workload) : Z :=
  if ws_Suspended (w_Spec workload) then 0
  else match ws_Replicas (w_Spec workload) with
       | Some n => n
       | None => DefaultReplicas
       end.

Definition selector_labels (workload : Workload) : gmap string string :=
  {[ labelName := w_Name workload;
     ManagedBy := ManagedByValue;
     labelInstance := w_UID workload ]}.

Definition object_labels (workload : Workload) : gmap string string :=
  match sanitizeLabelValue (ws_UserID (w_Spec workload)) with
  | Some v => <[labelUserID := v]> (selector_labels workload)
  | None => selector_labels workload
  end.

Definition legacyRendered (workload : Workload) : Rendered :=
  let containerPort :=
    if (ws_ContainerPort (w_Spec workload) =? 0)%Z then defaultContainerPort
    else ws_ContainerPort (w_Spec workload) in
  {| re_Containers := [
       {| c_Name := "workload";
          c_Image := ws_Image (w_Spec workload);
          c_Ports := [{| cp_Name := ""; cp_ContainerPort := containerPort |}];
          c_Env := ws_Env (w_Spec workload);
          c_Command := []; c_LivenessProbe := None; c_ReadinessProbe := None;
          c_Resources := no_resources; c_VolumeMounts := [] |} ];
     re_InitContainers := [];
     re_Volumes := [];
     re_ServicePorts := [{| sp_Name := "http"; sp_Port := containerPort;
                            sp_TargetPort := containerPort |}] |}.

Section Controller.
Context `{!GoStd, !KubeLib}.

Definition configToParams (config : option string) : result goerr (gmap string any) :=
  match config with
  | None => Ok ∅
  | Some raw => if decide (raw = "") then Ok ∅ else json_unmarshal_config raw
  end.

Definition render (workload : Workload) : result goerr Rendered :=
  let spec := w_Spec workload in
  if decide (ws_TemplateName spec = "") then
    if decide (ws_Image spec = "") then Err (ESentinel errImageRequired)
    else Ok (legacyRendered workload)
  else
    match Get (ws_TemplateName spec) with
    | None => Err (EWrap "" (ESentinel errUnknownTemplate) (" " +:+ fmt_q (ws_TemplateName spec)))
    | Some tmpl =>
        match configToParams (ws_Config spec) with
        | Err err => Err (wrapf "parsing config: " err)
        | Ok rawParams =>
            match ResolveParams (t_Parameters tmpl) rawParams with
            | Err err => Err (wrapf "resolving template parameters: " err)
            | Ok resolvedParams => t_Build tmpl resolvedParams
            end
        end
    end.

(** The condition reason of a render error. *)
Definition render_reason (err : goerr) : string :=
  if errors_Is err errImageRequired then reasonInvalidSpec
  else if errors_Is err errUnknownTemplate then reasonUnknownTemplate
  else reasonReconcileError.

(** The closures handed to [CreateOrUpdate]. *)
Definition mutate_deployment (workload : Workload) (selectorLabels objectLabels : gmap string string)
    (rendered : Rendered) (replicas : Z) (deployment : Deployment) : result goerr Deployment :=
  match SetControllerReference workload (meta_with_labels (d_Meta deployment) objectLabels) with
  | Err e => Err e
  | Ok meta =>
      Ok {| d_Meta := meta;
            d_Replicas := Some replicas;
            d_Selector := selectorLabels;
            d_TemplateLabels := objectLabels;
            d_TemplateAnnotations := d_TemplateAnnotations deployment;
            d_Containers := re_Containers rendered;
            d_InitContainers := re_InitContainers rendered;
            d_Volumes := re_Volumes rendered;
            d_ReadyReplicas := d_ReadyReplicas deployment |}
  end.

Definition mutate_service (workload : Workload) (selectorLabels objectLabels : gmap string string)
    (rendered : Rendered) (service : Service) : result goerr Service :=
  match SetControllerReference workload (meta_with_labels (s_Meta service) objectLabels) with
  | Err e => Err e
  | Ok meta =>
      Ok {| s_Meta := meta;
            s_Type := s_Type service;
            s_Selector := selectorLabels;
            s_Ports := re_ServicePorts rendered |}
  end.

Definition reconcileDeployment (workload : Workload) (selectorLabels objectLabels : gmap string string)
    (rendered : Rendered) : program (option goerr) :=
  let replicas := desiredReplicaCount workload in
  let deployment := empty_deployment (named_meta (w_Namespace workload) (w_Name workload)) in
  r <- perform (KCreateOrUpdateDeployment deployment
         (mutate_deployment workload selectorLabels objectLabels rendered replicas)) ;;
  match r with Ok _ => Ret None | Err err => Ret (Some err) end.

Definition reconcileService (workload : Workload) (selectorLabels objectLabels : gmap string string)
    (rendered : Rendered) : program (option goerr) :=
  let service := empty_service (named_meta (w_Namespace workload) (w_Name workload)) in
  r <- perform (KCreateOrUpdateService service
         (mutate_service workload selectorLabels objectLabels rendered)) ;;
  match r with Ok _ => Ret None | Err err => Ret (Some err) end.

(** ** Convex notifications *)
Definition notifyUpserted (r : WorkloadReconciler) (workload : Workload) : program (option goerr) :=
  if wr_ConvexClient r then
    perform (UpsertWorkload {|
      wi_Name := w_Name workload;
      wi_Namespace := w_Namespace workload;
      wi_Subdomain := ws_Subdomain (w_Spec workload);
      wi_TemplateName := ws_TemplateName (w_Spec workload);
      wi_UserID := ws_UserID (w_Spec workload);
      wi_WorkloadID := default "" (w_Labels workload !! WorkloadID) |})
  else Ret None.

Definition notifyLifecycle (r : WorkloadReconciler) (workload : Workload)
    (phase reason : string) (retryable : bool) : program (option goerr) :=
  if wr_ConvexClient r then
    perform (ReportLifecycle (w_Name workload) (default "" (w_Labels workload !! WorkloadID))
               phase reason retryable)
  else Ret None.

Definition notifyRemoved (r : WorkloadReconciler) (key : NamespacedName) : program (option goerr) :=
  if wr_ConvexClient r then perform (RemoveWorkload (nn_Name key) (nn_Namespace key))
  else Ret None.

(** A condition literal: the time of transition is set by [SetStatusCondition]. *)
Definition condition (type status : string) (generation : Z) (reason message : string) : Condition := {|
  co_Type := type; co_Status := status; co_ObservedGeneration := generation;
  co_LastTransitionTime := 0; co_Reason := reason; co_Message := message |}.

Definition set_condition (workload : Workload) (c : Condition) : Workload :=
  w_with_conditions workload (SetStatusCondition (wst_Conditions (w_Status workload)) c).

(** Whether the condition of type [t] says True for the current generation. *)
Definition already_synced (workload : Workload) (t : string) : bool :=
  match FindStatusCondition (wst_Conditions (w_Status workload)) t with
  | Some existing =>
      bool_decide (co_Status existing = ConditionTrue) &&
      (co_ObservedGeneration existing =? w_Generation workload)%Z
  | None => false
  end.

Definition syncConvex (r : WorkloadReconciler) (workload : Workload) : program (bool * Workload) :=
  if already_synced workload conditionTypeConvexSynced then Ret (true, workload) else
  err <- notifyUpserted r workload ;;
  match err with
  | Some e =>
      Ret (false, set_condition workload
        (condition conditionTypeConvexSynced ConditionFalse (w_Generation workload)
           reasonNotifyFailed (Error e)))
  | None =>
      Ret (true, set_condition workload
        (condition conditionTypeConvexSynced ConditionTrue (w_Generation workload)
           reasonNotified "Convex has this workload's current ownership info"))
  end.

Definition syncConvexLifecyclePhase (r : WorkloadReconciler) (workload : Workload) (phase : string)
    : program (bool * Workload) :=
  if already_synced workload conditionTypeConvexLifecycleSynced then Ret (true, workload) else
  err <- notifyLifecycle r workload phase "" false ;;
  match err with
  | None =>
      Ret (true, set_condition workload
        (condition conditionTypeConvexLifecycleSynced ConditionTrue (w_Generation workload)
           reasonNotified ("Convex has been told this workload is " +:+ phase)))
  | Some e =>
      if errors_Is e ErrLifecycleStale then
        Ret (true, set_condition workload
          (condition conditionTypeConvexLifecycleSynced ConditionTrue (w_Generation workload)
             reasonAlreadyResolved
             "Convex already reflects this workload's current phase from an earlier report"))
      else
        Ret (false, set_condition workload
          (condition conditionTypeConvexLifecycleSynced ConditionFalse (w_Generation workload)
             reasonNotifyFailed (Error e)))
  end.

(** ** Status *)
Definition status_observed (workload : Workload) (phase : string) (ready : Z) : Workload :=
  w_with_status workload {|
    wst_Phase := phase; wst_ReadyReplicas := ready;
    wst_ObservedGeneration := w_Generation workload;
    wst_Conditions := wst_Conditions (w_Status workload) |}.

Definition updateStatus (r : WorkloadReconciler) (workload : Workload) (deployment : Deployment)
    : program (bool * Workload) :=
  let desiredReplicas := desiredReplicaCount workload in
  let ready := d_ReadyReplicas deployment in
  if ws_Suspended (w_Spec workload) && (ready =? 0)%Z then
    res <- syncConvexLifecyclePhase r (status_observed workload PhaseStopped ready) lifecyclePhaseStopped ;;
    Ret (res.1, set_condition res.2
      (condition ConditionTypeReady ConditionFalse (w_Generation workload) reasonWorkloadSuspended
         "workload is intentionally stopped (spec.suspended=true)"))
  else if (0 <? desiredReplicas)%Z && (desiredReplicas <=? ready)%Z then
    res <- syncConvexLifecyclePhase r (status_observed workload PhaseRunning ready) lifecyclePhaseActive ;;
    Ret (res.1, set_condition res.2
      (condition ConditionTypeReady ConditionTrue (w_Generation workload) reasonDeploymentReady
         "backing Deployment has reached the desired ready replica count"))
  else
    Ret (true, set_condition (status_observed workload PhaseDeploying ready)
      (condition ConditionTypeReady ConditionFalse (w_Generation workload) reasonDeploymentProgressing
         (pretty ready +:+ "/" +:+ pretty desiredReplicas +:+ " replicas ready"))).

(** ** Failures *)
Definition setFailedWithReason (r : WorkloadReconciler) (workload : Workload) (reason : string)
    (reconcileErr : goerr) : program ReconcileResult :=
  let workload := set_condition
    (w_with_status workload {|
       wst_Phase := PhaseFailed;
       wst_ReadyReplicas := wst_ReadyReplicas (w_Status workload);
       wst_ObservedGeneration := w_Generation workload;
       wst_Conditions := wst_Conditions (w_Status workload) |})
    (condition ConditionTypeReady ConditionFalse (w_Generation workload) reason
       (Error reconcileErr)) in
  upd <- perform (KStatusUpdateWorkload workload) ;;
  let workload := match upd with Ok w => w | Err _ => workload end in
  notifyLifecycle r workload lifecyclePhaseFailed (Error reconcileErr) false ;;
  Ret (error_result reconcileErr).

Definition setFailed (r : WorkloadReconciler) (workload : Workload) (reconcileErr : goerr)
    : program ReconcileResult :=
  setFailedWithReason r workload reasonReconcileError reconcileErr.

(** ** Workloads this cluster can never schedule *)
Definition PodScheduled : string := "PodScheduled".
Definition PodReasonUnschedulable : string := "Unschedulable".

Definition unschedulable_condition (cond : PodCondition) : bool :=
  bool_decide (pc_Type cond = PodScheduled) &&
  bool_decide (pc_Status cond = ConditionFalse) &&
  bool_decide (pc_Reason cond = PodReasonUnschedulable).

Fixpoint stuck_conditions (conds : list PodCondition) (stuckMessage : string) : program string :=
  match conds with
  | [] => Ret stuckMessage
  | cond :: conds =>
      if unschedulable_condition cond then
        now <- perform Now ;;
        if (unschedulableGracePeriod <=? now - pc_LastTransitionTime cond)%Z
        then stuck_conditions conds (pc_Message cond)
        else stuck_conditions conds stuckMessage
      else stuck_conditions conds stuckMessage
  end.

Fixpoint stuck_pods (pods : list Pod) (stuckMessage : string) : program string :=
  match pods with
  | [] => Ret stuckMessage
  | pod :: pods =>
      msg <- stuck_conditions (p_Conditions pod) stuckMessage ;;
      stuck_pods pods msg
  end.

Definition checkUnschedulable (r : WorkloadReconciler) (workload : Workload)
    (selectorLabels : gmap string string) : program bool :=
  if ws_Suspended (w_Spec workload) || (desiredReplicaCount workload =? 0)%Z ||
     bool_decide (wst_Phase (w_Status workload) = PhaseRunning)
  then Ret false else
  listed <- perform (KListPods (w_Namespace workload) selectorLabels) ;;
  match listed with
  | Err _ => Ret false
  | Ok pods =>
      stuckMessage <- stuck_pods pods "" ;;
      if decide (stuckMessage = "") then Ret false else
      reported <- notifyLifecycle r workload lifecyclePhaseFailed
                    ("insufficient cluster capacity: " +:+ stuckMessage) true ;;
      match reported with
      | Some _ => Ret false
      | None =>
          deleted <- perform (KDeleteWorkload (w_Key workload)) ;;
          match deleted with
          | Ok _ => Ret true
          | Err err => if IsNotFound err then Ret true else Ret false
          end
      end
  end.

(** ** Deletion *)
Definition reconcileDelete (r : WorkloadReconciler) (workload : Workload) : program ReconcileResult :=
  if negb (ContainsFinalizer (w_Meta workload) workloadFinalizer) then Ret done_result else
  err <- notifyRemoved r (w_Key workload) ;;
  match err with
  | Some _ => Ret requeue_result
  | None =>
      upd <- perform (KUpdateWorkload
               (w_with_meta workload (RemoveFinalizer (w_Meta workload) workloadFinalizer))) ;;
      match upd with
      | Err err => Ret (error_result (wrapf "removing workload finalizer: " err))
      | Ok _ => Ret done_result
      end
  end.

(** ** The reconcile loop body *)

(** The finalizer step: the object to go on with, or the error. *)
Definition ensureFinalizer (workload : Workload) : program (result goerr Workload) :=
  if ContainsFinalizer (w_Meta workload) workloadFinalizer then Ret (Ok workload) else
  perform (KUpdateWorkload
    (w_with_meta workload (AddFinalizer (w_Meta workload) workloadFinalizer))).

(** From a rendered Workload to the end. *)
Definition observe (r : WorkloadReconciler) (req : NamespacedName) (workload : Workload)
    : program ReconcileResult :=
  synced <- syncConvex r workload ;;
  let convexSynced := synced.1 in
  got <- perform (KGetDeployment req) ;;
  match got with
  | Err err => Ret (error_result (wrapf "getting deployment for status: " err))
  | Ok deployment =>
      st <- updateStatus r synced.2 deployment ;;
      let lifecycleSynced := st.1 in
      upd <- perform (KStatusUpdateWorkload st.2) ;;
      match upd with
      | Err err => Ret (error_result (wrapf "updating workload status: " err))
      | Ok workload =>
          let settled :=
            bool_decide (wst_Phase (w_Status workload) = PhaseRunning) ||
            bool_decide (wst_Phase (w_Status workload) = PhaseStopped) in
          if negb settled || negb convexSynced || negb lifecycleSynced
          then Ret requeue_result else Ret done_result
      end
  end.

Definition apply (r : WorkloadReconciler) (req : NamespacedName) (workload : Workload)
    (rendered : Rendered) : program ReconcileResult :=
  let selectorLabels := selector_labels workload in
  let objectLabels := object_labels workload in
  derr <- reconcileDeployment workload selectorLabels objectLabels rendered ;;
  match derr with
  | Some err =>
      if IsConflict err then Ret (error_result err)
      else setFailed r workload (wrapf "reconciling deployment: " err)
  | None =>
      serr <- reconcileService workload selectorLabels objectLabels rendered ;;
      match serr with
      | Some err =>
          if IsConflict err then Ret (error_result err)
          else setFailed r workload (wrapf "reconciling service: " err)
      | None =>
          released <- checkUnschedulable r workload selectorLabels ;;
          if released : bool then Ret done_result else observe r req workload
      end
  end.

Definition reconcileLive (r : WorkloadReconciler) (req : NamespacedName) (workload : Workload)
    : program ReconcileResult :=
  match render workload with
  | Err err => setFailedWithReason r workload (render_reason err) (wrapf "rendering workload: " err)
  | Ok rendered => apply r req workload rendered
  end.

Definition Reconcile (r : WorkloadReconciler) (req : NamespacedName) : program ReconcileResult :=
  got <- perform (KGetWorkload req) ;;
  match got with
  | Err err =>
      if IsNotFound err then notifyRemoved r req ;; Ret done_result
      else Ret (error_result (wrapf "getting Workload: " err))
  | Ok workload =>
      match om_DeletionTimestamp (w_Meta workload) with
      | Some _ => reconcileDelete r workload
      | None =>
          fin <- ensureFinalizer workload ;;
          match fin with
          | Err err => Ret (error_result (wrapf "adding finalizer: " err))
          | Ok workload => reconcileLive r req workload
          end
      end
  end.

End Controller.
