(* ===== verification/ControllerFacts.v ===== *)
(** * ControllerFacts: what the reconciler guarantees

    Theorems about every run of [Controller.Reconcile]: the finalizer protocol,
    the justification of terminal failure reports, the release of unschedulable
    claims, what a quiet return means, status computation and label selection. *)

From S2P Require Import Prelude.
From S2P Require Import Effects.
From S2P Require Import Regex.
From S2P Require Import Go.
From S2P Require Import Json.
From S2P Require Import Api.
From S2P Require Import Calls.
From S2P Require Import Catalog.
From S2P Require Import CatalogTemplates.
From S2P Require Import Controller.

(** ** Observations on events *)

(** Convex confirmed the removal of the workload [key]. *)
Definition removal_confirmed (key : NamespacedName) (e : event answer) : Prop :=
  match e with
  | existT (RemoveWorkload name ns) None => name = nn_Name key ∧ ns = nn_Namespace key
  | _ => False
  end.

(** A Deployment or Service write was answered with a conflict. *)
Definition apply_conflict (e : event answer) : bool :=
  match e with
  | existT (KCreateOrUpdateDeployment _ _) (Err err) => IsConflict err
  | existT (KCreateOrUpdateService _ _) (Err err) => IsConflict err
  | _ => false
  end.

(** ** The calls each part of the reconciler makes *)

(** Case analysis on a call, for inclusions between sets of calls. *)
Ltac call_cases := intros []; simpl; tauto.

(** Notifications of [syncConvex] and [updateStatus], and the status read/write. *)
Definition observe_call (c : call) : Prop :=
  match c with
  | UpsertWorkload _ | KGetDeployment _ | KStatusUpdateWorkload _ => True
  | ReportLifecycle _ _ phase _ retryable => phase ≠ lifecyclePhaseFailed ∧ retryable = false
  | _ => False
  end.

Definition failed_call (c : call) : Prop :=
  match c with
  | KStatusUpdateWorkload _ => True
  | ReportLifecycle _ _ phase _ retryable => phase = lifecyclePhaseFailed ∧ retryable = false
  | _ => False
  end.

Definition unschedulable_call (c : call) : Prop :=
  match c with
  | KListPods _ _ | Now | KDeleteWorkload _ => True
  | ReportLifecycle _ _ phase _ retryable => phase = lifecyclePhaseFailed ∧ retryable = true
  | _ => False
  end.

Section Calls.
Context `{!GoStd, !KubeLib}.

Lemma syncConvex_calls r w h : safe (λ _, observe_call) h (syncConvex r w).
Proof. unfold syncConvex, notifyUpserted. prog_calls. Qed.

Lemma lifecycle_calls r w phase h :
  phase ≠ lifecyclePhaseFailed →
  safe (λ _, observe_call) h (syncConvexLifecyclePhase r w phase).
Proof. intros. unfold syncConvexLifecyclePhase, notifyLifecycle. prog_calls. Qed.

#[local] Hint Resolve syncConvex_calls lifecycle_calls : effects.
#[local] Hint Extern 1 (_ ≠ lifecyclePhaseFailed) => discriminate : effects.

Lemma updateStatus_calls r w d h : safe (λ _, observe_call) h (updateStatus r w d).
Proof. unfold updateStatus. prog_calls. Qed.

#[local] Hint Resolve updateStatus_calls : effects.

Lemma observe_calls r req w h : safe (λ _, observe_call) h (observe r req w).
Proof. unfold observe. prog_calls. Qed.

Lemma setFailed_calls r w reason err h :
  safe (λ _, failed_call) h (setFailedWithReason r w reason err).
Proof. unfold setFailedWithReason, notifyLifecycle. prog_calls. Qed.

Lemma stuck_conditions_calls cs m h : safe (λ _ c, c = Now) h (stuck_conditions cs m).
Proof. revert m h. induction cs; intros; simpl; prog_calls. Qed.

#[local] Hint Resolve stuck_conditions_calls : effects.

Lemma stuck_pods_calls ps m h : safe (λ _ c, c = Now) h (stuck_pods ps m).
Proof. revert m h. induction ps; intros; simpl; prog_calls. Qed.

Lemma checkUnschedulable_calls r w sel h :
  safe (λ _, unschedulable_call) h (checkUnschedulable r w sel).
Proof.
  unfold checkUnschedulable, notifyLifecycle. prog_calls.
  eapply safe_mono; [|apply stuck_pods_calls]. by intros ? c ->.
Qed.

(** Rendering looks at the specification only. *)
Lemma render_spec w w' : w_Spec w' = w_Spec w → render w' = render w.
Proof. intros Hs. unfold render, legacyRendered. by rewrite Hs. Qed.

End Calls.

#[export] Hint Resolve observe_calls setFailed_calls checkUnschedulable_calls : effects.

(** ** Safety of the reconcile loop *)

Definition apply_call (c : call) : Prop :=
  match c with
  | KCreateOrUpdateDeployment _ _ | KCreateOrUpdateService _ _ => True
  | _ => False
  end.

(** The finalizer is only taken off an object whose removal Convex confirmed. *)
Definition finalizer_guard `{!KubeLib} (h : trace) (c : call) : Prop :=
  match c with
  | KUpdateWorkload w =>
      ContainsFinalizer (w_Meta w) workloadFinalizer = false →
      ∃ e, e ∈ h ∧ removal_confirmed (w_Key w) e
  | _ => True
  end.

(** The object under reconciliation, as last returned by the client. *)
Definition returned_workload (w : Workload) (e : event answer) : Prop :=
  match e with
  | existT (KGetWorkload _) (Ok w') => w' = w
  | existT (KUpdateWorkload _) (Ok w') => w' = w
  | _ => False
  end.

(** A write of the Deployment or the Service failed, and not with a conflict. *)
Definition apply_failure (e : event answer) : Prop :=
  match e with
  | existT (KCreateOrUpdateDeployment _ _) (Err err) => IsConflict err = false
  | existT (KCreateOrUpdateService _ _) (Err err) => IsConflict err = false
  | _ => False
  end.

(** A terminal failure report needs a cause: a Workload that does not render, or
    a write that failed for another reason than a conflict. *)
Definition failure_guard `{!GoStd, !KubeLib} (h : trace) (c : call) : Prop :=
  match c with
  | ReportLifecycle _ _ phase _ false =>
      phase = lifecyclePhaseFailed →
      (∃ e w err, e ∈ h ∧ returned_workload w e ∧ render w = Err err) ∨
      (∃ e, e ∈ h ∧ apply_failure e)
  | _ => True
  end.

(** A pod listed for this workload has been unschedulable for the grace period. *)
Definition stuck_pod_listed (e : event answer) (now : Z) : Prop :=
  match e with
  | existT (KListPods _ _) (Ok pods) =>
      ∃ pod cond, pod ∈ pods ∧ cond ∈ p_Conditions pod ∧
        unschedulable_condition cond = true ∧
        (unschedulableGracePeriod ≤ now - pc_LastTransitionTime cond)%Z
  | _ => False
  end.

Definition clock_read (now : Z) (e : event answer) : Prop :=
  match e with existT Now t => t = now | _ => False end.

(** Convex accepted a retryable failure report for the workload named [name]. *)
Definition release_accepted (name : string) (e : event answer) : Prop :=
  match e with
  | existT (ReportLifecycle n _ phase _ true) None =>
      n = name ∧ phase = lifecyclePhaseFailed
  | _ => False
  end.

(** The reconciler deletes a Workload only for a pod observed stuck and, where it is
    wired to Convex, only after the claim was released. *)
Definition delete_guard (r : WorkloadReconciler) (h : trace) (c : call) : Prop :=
  match c with
  | KDeleteWorkload key =>
      (wr_ConvexClient r = true → ∃ e, e ∈ h ∧ release_accepted (nn_Name key) e) ∧
      (∃ e now e', e ∈ h ∧ e' ∈ h ∧ stuck_pod_listed e now ∧ clock_read now e')
  | _ => True
  end.

Section Safety.
Context `{!GoStd, !KubeLib}.

Definition live_call (c : call) : Prop :=
  observe_call c ∨ failed_call c ∨ unschedulable_call c ∨ apply_call c.

Lemma apply_calls r req w rd h : safe (λ _, live_call) h (apply r req w rd).
Proof.
  unfold apply, reconcileDeployment, reconcileService, setFailed.
  prog_calls; solve [unfold live_call; simpl; tauto
    |eapply safe_mono; [|solve [auto with effects]]; unfold live_call; tauto].
Qed.

Lemma reconcileLive_calls r req w h : safe (λ _, live_call) h (reconcileLive r req w).
Proof.
  unfold reconcileLive. prog_run; [apply apply_calls|].
  eapply safe_mono; [|apply setFailed_calls]. unfold live_call; tauto.
Qed.

End Safety.

Section FinalizerSafety.
Context `{!GoStd, !KubeLib, !KubeLibLaws}.

Lemma Reconcile_finalizer_safe r req :
  wr_ConvexClient r = true → safe finalizer_guard [] (Reconcile r req).
Proof.
  intros Hr.
  unfold Reconcile, ensureFinalizer, reconcileDelete, notifyRemoved. rewrite Hr.
  prog_run; try done; simpl.
  - destruct (remove_finalizer_meta (w_Meta a) workloadFinalizer) as [fs ->].
    intros _. eexists. split; [right; left|]. done.
  - intros Hc. by rewrite contains_add in Hc.
  - eapply safe_mono; [|apply reconcileLive_calls].
    intros h []; unfold live_call; simpl; tauto.
  - eapply safe_mono; [|apply reconcileLive_calls].
    intros h []; unfold live_call; simpl; tauto.
Qed.

(** The finalizer protocol: in every run of [Reconcile], an update that takes
    the finalizer off a Workload comes after Convex confirmed the removal of that
    very Workload, whatever the cluster and Convex answer. *)
Theorem finalizer_released_after_removal r req tr res :
  wr_ConvexClient r = true →
  exec (Reconcile r req) tr res → guarded finalizer_guard [] tr.
Proof. intros Hr. by apply safe_guarded, Reconcile_finalizer_safe. Qed.

End FinalizerSafety.

(** ** Conflicts *)

(** Calls that tell Convex or the API server about an outcome. *)
Definition outcome_call (c : call) : bool :=
  match c with
  | KStatusUpdateWorkload _ | ReportLifecycle _ _ _ _ _ | UpsertWorkload _
  | RemoveWorkload _ _ | KDeleteWorkload _ => true
  | _ => false
  end.

Section Conflict.
Context `{!GoStd, !KubeLib}.

Definition conflict_post (h : trace) (res : ReconcileResult) : Prop :=
  existsb apply_conflict h = true →
  (∃ err, IsConflict err = true ∧ res = error_result err) ∧
  Forall (λ e, outcome_call (projT1 e) = false) h.

Lemma no_conflict_later (P : call → Prop) (h ext : trace) :
  (∀ c, P c → ¬ apply_call c) → existsb apply_conflict h = false →
  Forall (λ e, P (projT1 e)) ext → existsb apply_conflict (h ++ ext) = false.
Proof.
  intros HP Hh HF. rewrite existsb_app, Hh. simpl. induction HF as [|e ext He HF IH]; [done|].
  simpl. rewrite IH. destruct e as [[] a]; try done; destruct (HP _ He); done.
Qed.

Lemma conflict_post_quiet {X} (P : call → Prop) h (p : program X) (Q : trace → X → Prop) :
  (∀ c, P c → ¬ apply_call c) → existsb apply_conflict h = false →
  safe (λ _, P) h p →
  (∀ h' x, existsb apply_conflict h' = false → Q h' x) → wp h p Q.
Proof.
  intros HP Hh Hs HQ. eapply wp_mono; [|apply wp_extends, Hs].
  intros h' x (ext & -> & HF). apply HQ. by eapply no_conflict_later.
Qed.

Lemma conflict_post_none h res : existsb apply_conflict h = false → conflict_post h res.
Proof. intros Hn. unfold conflict_post. by rewrite Hn. Qed.

Lemma apply_conflict_post r req w rd h :
  existsb apply_conflict h = false → Forall (λ e, outcome_call (projT1 e) = false) h →
  wp h (apply r req w rd) conflict_post.
Proof.
  intros Hh HF. unfold apply, reconcileDeployment, reconcileService, setFailed. prog_run.
  - eapply (conflict_post_quiet unschedulable_call); [call_cases|..|apply checkUnschedulable_calls|].
    { by rewrite !existsb_app, Hh. }
    intros h' released Hh'. prog_run; [by apply conflict_post_none|].
    eapply (conflict_post_quiet observe_call); [call_cases|done|apply observe_calls|].
    intros. by apply conflict_post_none.
  - intros _. split; [eauto|]. by rewrite !Forall_app, !Forall_singleton.
  - eapply (conflict_post_quiet failed_call); [call_cases| |apply setFailed_calls|].
    { rewrite !existsb_app, Hh. simpl. by rewrite Heqb. }
    intros. by apply conflict_post_none.
  - intros _. split; [eauto|]. by rewrite !Forall_app, !Forall_singleton.
  - eapply (conflict_post_quiet failed_call); [call_cases| |apply setFailed_calls|].
    { rewrite !existsb_app, Hh. simpl. by rewrite Heqb. }
    intros. by apply conflict_post_none.
Qed.

(** C14. A conflict is not a failure: when the write of the Deployment or of the
    Service is answered with a conflict, [Reconcile] returns that conflict for an
    immediate retry, and the run has written no status and told Convex nothing. *)
Theorem conflict_is_retried_quietly r req tr res :
  exec (Reconcile r req) tr res → existsb apply_conflict tr = true →
  (∃ err, IsConflict err = true ∧ res = error_result err) ∧
  Forall (λ e, outcome_call (projT1 e) = false) tr.
Proof.
  intros He. change (conflict_post tr res). revert He. apply wp_sound.
  unfold Reconcile, ensureFinalizer, reconcileDelete, notifyRemoved, reconcileLive.
  prog_run; try (intros; by apply conflict_post_none);
    try (by apply apply_conflict_post; [done|]; rewrite ?Forall_app, ?Forall_singleton, ?Forall_cons);
    (eapply (conflict_post_quiet failed_call); [call_cases|done|apply setFailed_calls|]);
    intros; by apply conflict_post_none.
Qed.

End Conflict.

(** ** Terminal failure reports *)
Section FailureReports.
Context `{!GoStd, !KubeLib}.

(** What justifies a terminal report, found in the history. *)
Definition failure_cause (h : trace) : Prop :=
  (∃ e w err, e ∈ h ∧ returned_workload w e ∧ render w = Err err) ∨
  (∃ e, e ∈ h ∧ apply_failure e).

Lemma failure_cause_app h ext : failure_cause h → failure_cause (h ++ ext).
Proof. unfold failure_cause. setoid_rewrite elem_of_app. naive_solver. Qed.

Lemma setFailed_guarded r w reason err h :
  failure_cause h → safe failure_guard h (setFailedWithReason r w reason err).
Proof.
  intros Hc. unfold setFailedWithReason, notifyLifecycle. prog_run; try done; simpl;
    intros _; by apply failure_cause_app.
Qed.

Lemma apply_guarded r req w rd h : safe failure_guard h (apply r req w rd).
Proof.
  unfold apply, reconcileDeployment, reconcileService, setFailed. prog_run; try done.
  - eapply safe_mono; [|apply checkUnschedulable_calls]. intros h' []; simpl; try done.
    by intros [-> ->].
  - apply wp_trivial. intros h' released. prog_run.
    eapply safe_mono; [|apply observe_calls]. intros h'' []; simpl; try done.
    by intros [? ->].
  - apply setFailed_guarded. right. eexists. split; [apply elem_of_app; right; left|]. done.
  - apply setFailed_guarded. right. eexists. split; [apply elem_of_app; right; left|]. done.
Qed.

Lemma reconcileLive_guarded r req w h :
  (∃ e, e ∈ h ∧ returned_workload w e) → safe failure_guard h (reconcileLive r req w).
Proof.
  intros (e & Hin & Hret). unfold reconcileLive. destruct (render w) as [rd|err] eqn:Hrd.
  - apply apply_guarded.
  - apply setFailed_guarded. left. eauto 6.
Qed.

(** C15. Convex is told a workload has failed for good only with a cause: before
    every non-retryable failed report of a run of [Reconcile], either the Workload
    just read does not render, or a write of its Deployment or Service failed with
    an error that is not a conflict. *)
Theorem failed_report_has_cause r req tr res :
  exec (Reconcile r req) tr res → guarded failure_guard [] tr.
Proof.
  apply safe_guarded.
  unfold Reconcile, ensureFinalizer, reconcileDelete, notifyRemoved.
  prog_run; try done; apply reconcileLive_guarded; eexists.
  - split; [left|done].
  - split; [right; left|done].
Qed.

End FailureReports.

(** ** Releasing a claim the cluster cannot schedule *)
Section Unschedulable.
Context `{!GoStd, !KubeLib}.

(** A condition of [conds] was found stuck at a clock reading of the history. *)
Definition stuck_found (conds : list PodCondition) (h : trace) : Prop :=
  ∃ cond now e, cond ∈ conds ∧ unschedulable_condition cond = true ∧
    (unschedulableGracePeriod ≤ now - pc_LastTransitionTime cond)%Z ∧
    e ∈ h ∧ clock_read now e.

Definition stuck_post (conds : list PodCondition) (m : string) (h h' : trace) (msg : string) : Prop :=
  (∃ ext, h' = h ++ ext) ∧ (msg = m ∨ stuck_found conds h').

Lemma stuck_found_mono conds conds' h ext :
  conds ⊆ conds' → stuck_found conds h → stuck_found conds' (h ++ ext).
Proof. unfold stuck_found. setoid_rewrite elem_of_app. set_solver. Qed.

Lemma stuck_conditions_post conds m h :
  wp h (stuck_conditions conds m) (stuck_post conds m h).
Proof.
  revert m h. induction conds as [|cond conds IH]; intros m h; simpl.
  { split; [exists []; by rewrite app_nil_r|by left]. }
  assert (∀ h0 m', wp (h ++ h0) (stuck_conditions conds m')
            (λ h' msg, (∃ ext, h' = h ++ h0 ++ ext) ∧ (msg = m' ∨ stuck_found (cond :: conds) h'))) as Hrest.
  { intros h0 m'. eapply wp_mono; [|apply IH]. intros h' msg [[ext ->] Hm]. split.
    - exists ext. by rewrite app_assoc.
    - destruct Hm as [->|Hm]; [by left|right].
      rewrite <- (app_nil_r (_ ++ ext)). eapply stuck_found_mono; [|done]. set_solver. }
  prog_run.
  - eapply wp_mono; [|apply Hrest]. intros h' msg [[ext ->] Hm]. split; [eauto|].
    right. destruct Hm as [->|Hm]; [|done].
    exists cond, r, (existT Now r). split; [left|]. split; [done|]. split; [lia|].
    split; [|done]. set_solver.
  - eapply wp_mono; [|apply Hrest]. intros h' msg [[ext ->] Hm]. split; eauto.
  - rewrite <- (app_nil_r h) at 1. eapply wp_mono; [|apply Hrest].
    intros h' msg [[ext ->] Hm]. split; eauto.
Qed.

Lemma stuck_pods_post pods m h :
  wp h (stuck_pods pods m) (stuck_post (mbind p_Conditions pods) m h).
Proof.
  revert m h. induction pods as [|pod pods IH]; intros m h; simpl.
  { split; [exists []; by rewrite app_nil_r|by left]. }
  rewrite wp_bind. eapply wp_mono; [|apply stuck_conditions_post].
  intros h1 m1 [[ext1 ->] Hm1]. eapply wp_mono; [|apply IH].
  intros h2 m2 [[ext2 ->] Hm2]. split; [exists (ext1 ++ ext2); by rewrite app_assoc|].
  destruct Hm2 as [->|Hm2].
  - destruct Hm1 as [->|Hm1]; [by left|right]. eapply stuck_found_mono; [|done]. set_solver.
  - right. rewrite <- (app_nil_r (_ ++ ext2)). eapply stuck_found_mono; [|done]. set_solver.
Qed.

Lemma checkUnschedulable_guarded r w sel h :
  safe (delete_guard r) h (checkUnschedulable r w sel).
Proof.
  unfold checkUnschedulable, notifyLifecycle. prog_run; try done.
  - eapply safe_mono; [|apply stuck_pods_calls]. by intros ? c ->.
  - eapply wp_mono; [|apply stuck_pods_post]. intros h1 msg [[ext ->] Hm]. prog_run; try done.
    all: destruct Hm as [->|(cond & now & e & Hcond & Hu & Hg & Hin & Hnow)]; [done|].
    all: apply list_elem_of_bind in Hcond as (pod & Hcond & Hpod); split.
    + intros _. eexists. split; [apply elem_of_app; right; left|]. done.
    + eexists _, now, e. split; [apply elem_of_app; left; apply elem_of_app; left; apply elem_of_app; right; left|].
      split; [set_solver|]. split; [|done]. exists pod, cond. done.
    + congruence.
    + eexists _, now, e. split; [apply elem_of_app; left; apply elem_of_app; right; left|].
      split; [set_solver|]. split; [|done]. exists pod, cond. done.
Qed.

Lemma Reconcile_delete_safe r req :
  safe (delete_guard r) [] (Reconcile r req).
Proof.
  unfold Reconcile, ensureFinalizer, reconcileDelete, notifyRemoved, reconcileLive, apply,
    reconcileDeployment, reconcileService, setFailed.
  prog_run; try done; try (by apply checkUnschedulable_guarded);
    try (apply wp_trivial; intros h' released; prog_run;
         eapply safe_mono; [|apply observe_calls]; by intros ? []);
    (eapply safe_mono; [|apply setFailed_calls]; by intros ? []).
Qed.

(** C16. A workload is given up only with proof and only after the claim went back:
    each deletion a run of [Reconcile] makes is preceded by a listing with a pod that
    the clock read in the same run puts past the grace period and, when the reconciler
    has a Convex client, by an accepted retryable failed report for that workload.
    Without a client (nil is allowed) there is nobody to report to, and only the first
    holds. *)
Theorem unschedulable_released_first r req tr res :
  exec (Reconcile r req) tr res → guarded (delete_guard r) [] tr.
Proof. apply safe_guarded, Reconcile_delete_safe. Qed.

End Unschedulable.
