(* ===== verification/ControllerStatus.v ===== *)
(** * ControllerStatus: what the status of a Workload means

    The status computation of [updateStatus], the acknowledgement protocol of
    [syncConvex] and [syncConvexLifecyclePhase] (the conditions are the only memory
    of what Convex has been told), and what it means that [Reconcile] returns
    without asking to be called again. *)

From S2P Require Import Prelude.
From S2P Require Import Effects.
From S2P Require Import Regex.
From S2P Require Import Go.
From S2P Require Import Json.
From S2P Require Import Api.
From S2P Require Import Calls.
From S2P Require Import Catalog.
From S2P Require Import CatalogTemplates.
From S2P Require Import Controller.
From S2P Require Import ControllerFacts.

Section Conditions.
Context `{!GoStd, !KubeLib, !KubeLibLaws}.

Lemma already_synced_set_same w t status reason msg :
  already_synced (set_condition w (condition t status (w_Generation w) reason msg)) t =
  bool_decide (status = ConditionTrue).
Proof.
  unfold already_synced, set_condition. simpl.
  destruct (find_set_same (wst_Conditions (w_Status w))
              (condition t status (w_Generation w) reason msg))
    as (c & Hf & _ & Hs & _ & _ & Hg). simpl in *.
  rewrite Hf, Hs, Hg. unfold w_Generation. simpl. by rewrite Z.eqb_refl, andb_true_r.
Qed.

Lemma already_synced_set_other w t c :
  t ≠ co_Type c → already_synced (set_condition w c) t = already_synced w t.
Proof.
  intros Ht. unfold already_synced, set_condition. simpl. by rewrite find_set_other.
Qed.

(** A run of either notification ends with the condition saying what happened, and
    changes nothing but that condition. *)
Definition only_condition (t : string) (w w' : Workload) : Prop :=
  w_Meta w' = w_Meta w ∧ w_Spec w' = w_Spec w ∧
  wst_Phase (w_Status w') = wst_Phase (w_Status w) ∧
  wst_ReadyReplicas (w_Status w') = wst_ReadyReplicas (w_Status w) ∧
  wst_ObservedGeneration (w_Status w') = wst_ObservedGeneration (w_Status w) ∧
  ∀ t', t' ≠ t → FindStatusCondition (wst_Conditions (w_Status w')) t' =
                 FindStatusCondition (wst_Conditions (w_Status w)) t'.

Lemma only_condition_set w c : only_condition (co_Type c) w (set_condition w c).
Proof. repeat split. intros t' Ht. simpl. by apply find_set_other. Qed.

Lemma only_condition_refl t w : only_condition t w w.
Proof. by repeat split. Qed.

Lemma only_condition_synced t t' w w' :
  t' ≠ t → only_condition t w w' → already_synced w' t' = already_synced w t'.
Proof.
  intros Ht (Hm & _ & _ & _ & _ & Hf). unfold already_synced, w_Generation.
  by rewrite Hf, Hm by done.
Qed.

Lemma sync_types_distinct : conditionTypeConvexSynced ≠ conditionTypeConvexLifecycleSynced.
Proof. discriminate. Qed.

Definition sync_post (t : string) (w : Workload) (res : bool * Workload) : Prop :=
  only_condition t w res.2 ∧ already_synced res.2 t = res.1.

Lemma syncConvex_post r w h :
  wp h (syncConvex r w) (λ _, sync_post conditionTypeConvexSynced w).
Proof.
  unfold syncConvex, sync_post. destruct (already_synced _ _) eqn:Ha; simpl.
  { split; [apply only_condition_refl|done]. }
  rewrite wp_bind. apply wp_trivial. intros ? [e|]; simpl;
    (split; [apply (only_condition_set w (condition conditionTypeConvexSynced _ _ _ _))
            |apply already_synced_set_same]).
Qed.

Lemma syncConvexLifecyclePhase_post r w phase h :
  wp h (syncConvexLifecyclePhase r w phase)
    (λ _, sync_post conditionTypeConvexLifecycleSynced w).
Proof.
  unfold syncConvexLifecyclePhase, sync_post. destruct (already_synced _ _) eqn:Ha; simpl.
  { split; [apply only_condition_refl|done]. }
  rewrite wp_bind. apply wp_trivial. intros ? [e|]; simpl; [destruct (errors_Is _ _)|]; simpl;
    (split; [apply (only_condition_set w (condition conditionTypeConvexLifecycleSynced _ _ _ _))
            |apply already_synced_set_same]).
Qed.

(** The notification of ownership is acknowledged once per generation: after
    any run of [syncConvex] the next run on its result makes no call exactly when
    the first one succeeded, and otherwise sends the same notification again. *)
Theorem syncConvex_retried_until_acknowledged r w tr ok w' tr' res' :
  wr_ConvexClient r = true →
  exec (syncConvex r w) tr (ok, w') →
  exec (syncConvex r w') tr' res' →
  if ok then tr' = [] ∧ res' = (true, w')
  else ∃ info a a', tr = [existT (UpsertWorkload info) (Some a)] ∧
                    tr' = [existT (UpsertWorkload info) a'].
Proof.
  intros Hr He He'. pose proof (wp_sound _ _ _ _ (syncConvex_post r w []) He) as [Hoc Hs].
  simpl in Hoc, Hs. unfold syncConvex in He'. rewrite Hs in He'. destruct ok; [by destruct He'|].
  unfold syncConvex, notifyUpserted in He. rewrite Hr in He.
  destruct (already_synced w _); [by destruct He|]. destruct He as ([e|] & ? & -> & He); [|by destruct He].
  destruct He as [-> _]. unfold notifyUpserted in He'. rewrite Hr in He'.
  destruct He' as (a' & tr2 & -> & He'). destruct Hoc as (Hm & Hsp & _).
  assert (tr2 = []) as -> by (simpl in *; destruct a'; by destruct He').
  unfold w_Name, w_Namespace, w_Labels. simpl in *. rewrite Hm, Hsp. eexists _, e, a'; split; reflexivity.
Qed.

(** The lifecycle report is acknowledged once per generation, a report Convex
    calls stale counting as acknowledged: the next run makes no call exactly when
    the first one was acknowledged, and otherwise sends the same report again. *)
Theorem lifecycle_retried_until_acknowledged r w phase tr ok w' tr' res' :
  wr_ConvexClient r = true →
  exec (syncConvexLifecyclePhase r w phase) tr (ok, w') →
  exec (syncConvexLifecyclePhase r w' phase) tr' res' →
  if ok then tr' = [] ∧ res' = (true, w')
  else ∃ n i e a', errors_Is e ErrLifecycleStale = false ∧
         tr = [existT (ReportLifecycle n i phase "" false) (Some e)] ∧
         tr' = [existT (ReportLifecycle n i phase "" false) a'].
Proof.
  intros Hr He He'. pose proof (wp_sound _ _ _ _ (syncConvexLifecyclePhase_post r w phase []) He) as [Hoc Hs].
  simpl in Hoc, Hs. unfold syncConvexLifecyclePhase in He'. rewrite Hs in He'. destruct ok; [by destruct He'|].
  unfold syncConvexLifecyclePhase, notifyLifecycle in He. rewrite Hr in He.
  destruct (already_synced w _); [by destruct He|]. destruct He as ([e|] & ? & -> & He); [|by destruct He].
  simpl in He. destruct (errors_Is e ErrLifecycleStale) eqn:Hst; [by destruct He|].
  destruct He as [-> _]. unfold notifyLifecycle in He'. rewrite Hr in He'.
  destruct He' as (a' & tr2 & -> & He'). destruct Hoc as (Hm & Hsp & _).
  assert (tr2 = []) as ->.
  { simpl in *. destruct a' as [e'|]; [destruct (errors_Is e' ErrLifecycleStale)|]; by destruct He'. }
  unfold w_Name, w_Labels. simpl in *. rewrite Hm. eexists _, _, e, a'; split; [done|split; reflexivity].
Qed.

End Conditions.

(** ** The computed status *)

(** What a status says, given the Deployment it was computed from. *)
Definition status_means `{!KubeLib} (w : Workload) (d : Deployment) (w' : Workload) : Prop :=
  let st := w_Status w' in
  let desired := desiredReplicaCount w in
  w_Meta w' = w_Meta w ∧ w_Spec w' = w_Spec w ∧
  wst_ReadyReplicas st = d_ReadyReplicas d ∧
  wst_ObservedGeneration st = w_Generation w ∧
  wst_Phase st ∈ [PhaseRunning; PhaseStopped; PhaseDeploying] ∧
  (wst_Phase st = PhaseRunning ↔ 0 < desired ≤ d_ReadyReplicas d)%Z ∧
  (wst_Phase st = PhaseStopped ↔ ws_Suspended (w_Spec w) = true ∧ d_ReadyReplicas d = 0%Z) ∧
  ∃ c, FindStatusCondition (wst_Conditions st) ConditionTypeReady = Some c ∧
    co_ObservedGeneration c = w_Generation w ∧
    (co_Status c = ConditionTrue ↔ wst_Phase st = PhaseRunning).

(** The lifecycle phase a report carries, for each phase of the status. *)
Definition reported_as (phase : string) : option string :=
  if decide (phase = PhaseRunning) then Some lifecyclePhaseActive
  else if decide (phase = PhaseStopped) then Some lifecyclePhaseStopped
  else None.

Definition reports_only (phase : option string) (c : call) : Prop :=
  match c with
  | ReportLifecycle _ _ p reason retryable =>
      phase = Some p ∧ reason = ""%string ∧ retryable = false
  | _ => False
  end.

Section Status.
Context `{!GoStd, !KubeLib, !KubeLibLaws}.

Lemma status_means_intro w d w1 phase status reason msg :
  only_condition conditionTypeConvexLifecycleSynced (status_observed w phase (d_ReadyReplicas d)) w1 →
  (phase = PhaseRunning ∧ (0 < desiredReplicaCount w ≤ d_ReadyReplicas d)%Z ∧ status = ConditionTrue ∨
   phase = PhaseStopped ∧ ws_Suspended (w_Spec w) = true ∧ d_ReadyReplicas d = 0%Z ∧ status = ConditionFalse ∨
   phase = PhaseDeploying ∧ ¬ (0 < desiredReplicaCount w ≤ d_ReadyReplicas d)%Z ∧
     ¬ (ws_Suspended (w_Spec w) = true ∧ d_ReadyReplicas d = 0%Z) ∧ status = ConditionFalse) →
  status_means w d (set_condition w1
    (condition ConditionTypeReady status (w_Generation w) reason msg)).
Proof.
  intros (Hm & Hsp & Hph & Hrd & Hog & _) Hcase.
  destruct (find_set_same (wst_Conditions (w_Status w1))
    (condition ConditionTypeReady status (w_Generation w) reason msg))
    as (c & Hf & _ & Hs & _ & _ & Hg).
  assert (ws_Suspended (w_Spec w) = true → desiredReplicaCount w = 0%Z) as Hsusp.
  { unfold desiredReplicaCount. by intros ->. }
  unfold status_means. simpl in *. rewrite Hm, Hsp, Hph, Hrd, Hog.
  do 4 (split; [done|]).
  destruct Hcase as [(-> & ? & ->)|[(-> & Hsu & ? & ->)|(-> & ? & ? & ->)]];
    (split; [set_solver|]); (split; [split; [done || lia|]|split; [split; [done|]|exists c; rewrite Hs]]);
    try done; try (specialize (Hsusp Hsu); lia).
  intros [??]. lia.
Qed.

Lemma updateStatus_post r w d h :
  wp h (updateStatus r w d) (λ _ res,
    status_means w d res.2 ∧
    already_synced res.2 conditionTypeConvexSynced = already_synced w conditionTypeConvexSynced ∧
    (wst_Phase (w_Status res.2) ≠ PhaseDeploying →
     already_synced res.2 conditionTypeConvexLifecycleSynced = res.1)).
Proof.
  unfold updateStatus.
  destruct (ws_Suspended _ && _) eqn:Hstop; [|destruct ((0 <? _)%Z && _) eqn:Hrun];
    rewrite ?wp_bind;
    try (eapply wp_mono; [|apply syncConvexLifecyclePhase_post]; intros h' [ok w1] [Hoc Hs]);
    simpl in *.
  - apply andb_true_iff in Hstop as [? ?%Z.eqb_eq]. split.
    + eapply status_means_intro; [exact Hoc|]. right; left. split_and!; done.
    + rewrite !already_synced_set_other by done.
      by rewrite (only_condition_synced conditionTypeConvexLifecycleSynced
                    conditionTypeConvexSynced _ _ sync_types_distinct Hoc).
  - apply andb_true_iff in Hrun as [? ?]. split.
    + eapply status_means_intro; [exact Hoc|]. left. split; [done|]. split; [lia|done].
    + rewrite !already_synced_set_other by done.
      by rewrite (only_condition_synced conditionTypeConvexLifecycleSynced
                    conditionTypeConvexSynced _ _ sync_types_distinct Hoc).
  - split; [|rewrite !already_synced_set_other by done; done].
    eapply status_means_intro; [apply only_condition_refl|]. right; right.
    split; [done|]. apply andb_false_iff in Hstop, Hrun.
    split; [lia|]. split; [|done]. intros [? ?]. destruct Hstop; [congruence|lia].
Qed.

Lemma updateStatus_reports r w d h :
  safe (λ _, reports_only (reported_as
    (if ws_Suspended (w_Spec w) && (d_ReadyReplicas d =? 0)%Z then PhaseStopped
     else if (0 <? desiredReplicaCount w)%Z && (desiredReplicaCount w <=? d_ReadyReplicas d)%Z
     then PhaseRunning else PhaseDeploying))) h (updateStatus r w d).
Proof.
  unfold updateStatus, syncConvexLifecyclePhase, notifyLifecycle.
  prog_run; try done; apply wp_trivial; intros; prog_run; done.
Qed.

(** C17. The status [updateStatus] computes is the state of the Deployment: phase
    Running exactly when a positive number of replicas is wanted and ready,
    Stopped exactly when the workload is suspended and nothing runs any more,
    Deploying otherwise; Ready is True exactly in phase Running; generation and
    replica count are the observed ones; metadata and spec are untouched; and the
    only report made is the lifecycle phase of that status. *)
Theorem updateStatus_spec r w d tr ok w' :
  exec (updateStatus r w d) tr (ok, w') →
  status_means w d w' ∧
  Forall (λ e, reports_only (reported_as (wst_Phase (w_Status w'))) (projT1 e)) tr.
Proof.
  intros He. pose proof (wp_sound _ _ _ _ (updateStatus_post r w d []) He) as (Hm & _).
  split; [done|]. eapply Forall_impl; [eapply safe_exec; [apply updateStatus_reports|exact He]|].
  destruct Hm as (_ & _ & _ & _ & Hin & Hrun & Hstop & _). simpl in *.
  destruct (ws_Suspended _ && _) eqn:Hs; [|destruct ((0 <? _)%Z && _) eqn:Hr]; intros e.
  - rewrite (proj2 Hstop); [done|]. apply andb_true_iff in Hs as [??%Z.eqb_eq]. done.
  - rewrite (proj2 Hrun); [done|]. apply andb_true_iff in Hr as [??]. lia.
  - destruct e as [[] ?]; simpl; try done. intros [? _]. discriminate.
Qed.

(** A workload asked to run zero replicas without being suspended never leaves
    Deploying and is never Ready. *)
Theorem zero_replicas_never_ready r w d tr ok w' :
  ws_Suspended (w_Spec w) = false → ws_Replicas (w_Spec w) = Some 0%Z →
  exec (updateStatus r w d) tr (ok, w') →
  wst_Phase (w_Status w') = PhaseDeploying ∧ tr = [].
Proof.
  intros Hs Hz He. unfold updateStatus, desiredReplicaCount in He. rewrite Hs, Hz in He.
  simpl in He. destruct He as [-> [= _ ->]]. done.
Qed.

(** ** Quiet returns *)

(** The API server stores the status it is given. *)
Definition status_stored (e : event answer) : Prop :=
  match e with
  | existT (KStatusUpdateWorkload w) (Ok w') => w_Status w' = w_Status w
  | _ => True
  end.

(** The reasons [Reconcile] has for not asking to be called again. *)
Definition absent (req : NamespacedName) (e : event answer) : Prop :=
  match e with
  | existT (KGetWorkload key) (Err err) => key = req ∧ IsNotFound err = true
  | _ => False
  end.

Definition deleted_without_finalizer (req : NamespacedName) (e : event answer) : Prop :=
  match e with
  | existT (KGetWorkload key) (Ok w) =>
      key = req ∧ om_DeletionTimestamp (w_Meta w) ≠ None ∧
      ContainsFinalizer (w_Meta w) workloadFinalizer = false
  | _ => False
  end.

Definition finalizer_removed (e : event answer) : Prop :=
  match e with
  | existT (KUpdateWorkload w) (Ok _) => ContainsFinalizer (w_Meta w) workloadFinalizer = false
  | _ => False
  end.

Definition claim_given_back (e : event answer) : Prop :=
  match e with
  | existT (KDeleteWorkload _) (Ok _) => True
  | existT (KDeleteWorkload _) (Err err) => IsNotFound err = true
  | _ => False
  end.

(** The status stored last is final: computed from the Deployment read in this run,
    Running or Stopped, and acknowledged by Convex at this generation. *)
Definition settled_status (h : trace) (e : event answer) : Prop :=
  match e with
  | existT (KStatusUpdateWorkload w) (Ok _) =>
      (∃ key d, existT (KGetDeployment key) (Ok d) ∈ h ∧ status_means w d w) ∧
      wst_Phase (w_Status w) ∈ [PhaseRunning; PhaseStopped] ∧
      already_synced w conditionTypeConvexSynced = true ∧
      already_synced w conditionTypeConvexLifecycleSynced = true
  | _ => False
  end.

Definition quiet_reason (req : NamespacedName) (h : trace) (e : event answer) : Prop :=
  absent req e ∨ deleted_without_finalizer req e ∨ finalizer_removed e ∨
  claim_given_back e ∨ settled_status h e.

Definition quiet_post (req : NamespacedName) (h : trace) (res : ReconcileResult) : Prop :=
  res = done_result → Forall status_stored h → ∃ e, e ∈ h ∧ quiet_reason req h e.

(** A trace whose last event is a reason. *)
Lemma quiet_post_last req h e res :
  quiet_reason req (h ++ [e]) e → quiet_post req (h ++ [e]) res.
Proof. intros Hq _ _. exists e. split; [set_solver|done]. Qed.

Lemma quiet_post_loud req h res : res ≠ done_result → quiet_post req h res.
Proof. by intros ? ?. Qed.

Lemma status_means_meta w1 w d w' :
  w_Meta w1 = w_Meta w → w_Spec w1 = w_Spec w → status_means w1 d w' → status_means w d w'.
Proof.
  intros Hm Hs. unfold status_means, desiredReplicaCount, w_Generation. by rewrite Hm, Hs.
Qed.

Lemma status_means_self w d w' : status_means w d w' → status_means w' d w'.
Proof. intros Hst. pose proof Hst as (Hm & Hs & _). by apply (status_means_meta w w' d w'). Qed.

Lemma settled_phase w :
  bool_decide (wst_Phase (w_Status w) = PhaseRunning) ||
  bool_decide (wst_Phase (w_Status w) = PhaseStopped) = true →
  wst_Phase (w_Status w) ∈ [PhaseRunning; PhaseStopped].
Proof. rewrite orb_true_iff, !bool_decide_eq_true. set_solver. Qed.

Lemma observe_quiet r req w h : wp h (observe r req w) (quiet_post req).
Proof.
  unfold observe. rewrite wp_bind. eapply wp_mono; [|apply syncConvex_post].
  intros h1 [cs w1] [Hoc1 Hs1]. prog_run; [|by apply quiet_post_loud].
  eapply wp_mono; [|apply wp_and; [apply updateStatus_post|
                      apply wp_extends, updateStatus_calls]].
  intros h2 [ls w2] [(Hst & Hcs & Hls) (ext & -> & _)]. prog_run; try (by apply quiet_post_loud).
  simpl in *. intros _ Hstored.
  apply Forall_app, proj2, Forall_inv in Hstored. simpl in Hstored. rewrite !orb_false_iff, !negb_false_iff in *.
  destruct Heqb as [[Hph ->] ->]. rewrite Hstored in *.
  exists (existT (KStatusUpdateWorkload w2) (Ok a0)). split; [set_solver|].
  do 4 right. apply settled_phase in Hph. split_and!.
  - exists req, a. split; [|by eapply status_means_self].
    rewrite !elem_of_app. left; left; right. left.
  - done.
  - by rewrite Hcs.
  - apply Hls. intros Heq. rewrite Heq in Hph. set_solver.
Qed.

Lemma checkUnschedulable_quiet r w sel h :
  wp h (checkUnschedulable r w sel) (λ h' released,
    released = true → ∃ e, e ∈ h' ∧ claim_given_back e).
Proof.
  unfold checkUnschedulable. prog_run; try done. apply wp_trivial. intros h1 msg. prog_run; try done.
  apply wp_trivial. intros h2 reported. prog_run; try done; intros _;
    (eexists; split; [apply elem_of_app; right; left|done]).
Qed.

Lemma setFailed_quiet r req w reason err h :
  wp h (setFailedWithReason r w reason err) (quiet_post req).
Proof.
  unfold setFailedWithReason. prog_run; apply wp_trivial; intros; by apply quiet_post_loud.
Qed.

Lemma apply_quiet r req w rd h : wp h (apply r req w rd) (quiet_post req).
Proof.
  unfold apply, reconcileDeployment, reconcileService, setFailed. prog_run;
    try apply setFailed_quiet; try (by apply quiet_post_loud).
  eapply wp_mono; [|apply checkUnschedulable_quiet]. intros h' released Hrel.
  destruct released; [|apply observe_quiet].
  intros _ _. destruct Hrel as (e & Hin & He); [done|]. exists e. split; [done|].
  do 3 right. by left.
Qed.

Lemma reconcileDelete_quiet r req w :
  om_DeletionTimestamp (w_Meta w) ≠ None →
  wp [existT (KGetWorkload req) (Ok w)] (reconcileDelete r w) (quiet_post req).
Proof.
  intros Hd. unfold reconcileDelete. destruct (ContainsFinalizer _ _) eqn:Hc; simpl.
  - rewrite wp_bind. apply wp_trivial. intros h [e|]; [by apply quiet_post_loud|].
    prog_run; [|by apply quiet_post_loud].
    apply quiet_post_last. do 2 right. left. apply contains_remove.
  - apply (quiet_post_last _ []). right; left. done.
Qed.

(** C3. [Reconcile] goes quiet only when there is nothing left to do: if it
    neither fails nor asks to be called again then, in that run, the Workload was
    gone, or it was being deleted and carries the finalizer no longer, or its
    unschedulable claim was given back and the object deleted, or the status it
    stored is final: computed from the Deployment just read, Running or Stopped,
    with ownership and lifecycle acknowledged by Convex at this generation. *)
Theorem quiet_means_settled r req tr :
  exec (Reconcile r req) tr done_result → Forall status_stored tr →
  ∃ e, e ∈ tr ∧ quiet_reason req tr e.
Proof.
  cut (wp [] (Reconcile r req) (quiet_post req)).
  { intros Hw He. by apply (wp_sound _ _ _ _ Hw He). }
  unfold Reconcile, ensureFinalizer, reconcileLive. prog_run;
    try apply apply_quiet; try apply setFailed_quiet; try (by apply quiet_post_loud).
  - apply reconcileDelete_quiet. congruence.
  - unfold notifyRemoved. destruct (wr_ConvexClient r); simpl; intros;
      intros _ _; (eexists; split; [left|by left]).
Qed.
End Status.
