(* ===== verification/ControllerRest.v ===== *)
(** * ControllerRest: what a reconciliation leaves behind

    A finer account of the quiet returns of [ControllerStatus]: for the version of the
    Workload that was read, either this run made a write that replaces that version, or
    every object of the workload was found or brought into its desired state.  It is
    what [WorkQueue] needs to tell a cluster at rest from one that is not. *)

From S2P Require Import Prelude.
From S2P Require Import Effects.
From S2P Require Import Go.
From S2P Require Import Json.
From S2P Require Import Api.
From S2P Require Import Calls.
From S2P Require Import Catalog.
From S2P Require Import CatalogTemplates.
From S2P Require Import Controller.
From S2P Require Import ControllerFacts.
From S2P Require Import ControllerStatus.

(** A write that, once it took effect, leaves no object like [w] under its name: other
    finalizers, the mark of deletion, or no object at all. *)
Definition supersedes (w : Workload) (e : event answer) : Prop :=
  match e with
  | existT (KUpdateWorkload w') (Ok _) =>
      w_Key w' = w_Key w ∧ om_Finalizers (w_Meta w') ≠ om_Finalizers (w_Meta w)
  | existT (KDeleteWorkload key) (Ok _) => key = w_Key w ∧ om_DeletionTimestamp (w_Meta w) = None
  | existT (KDeleteWorkload key) (Err err) => key = w_Key w ∧ IsNotFound err = true
  | _ => False
  end.

(** A call with its answer. *)
Abbreviation ev := (@existT call answer).

Section Rest.
Context `{!GoStd, !KubeLib, !KubeLibLaws}.

(** The Deployment and the Service were created or updated, with the closures for [w]. *)
Definition applied (w : Workload) (rd : Rendered) (h : trace) : Prop :=
  (∃ d1, ev (KCreateOrUpdateDeployment
       (empty_deployment (named_meta (w_Namespace w) (w_Name w)))
       (mutate_deployment w (selector_labels w) (object_labels w) rd (desiredReplicaCount w)))
     (Ok d1) ∈ h) ∧
  (∃ s1, ev (KCreateOrUpdateService
       (empty_service (named_meta (w_Namespace w) (w_Name w)))
       (mutate_service w (selector_labels w) (object_labels w) rd)) (Ok s1) ∈ h).

(** The status is final: computed from the Deployment [d], settled, acknowledged. *)
Definition final_status (w : Workload) (d : Deployment) (w' : Workload) : Prop :=
  status_means w d w' ∧ wst_Phase (w_Status w') ∈ [PhaseRunning; PhaseStopped] ∧
  already_synced w' conditionTypeConvexSynced = true ∧
  already_synced w' conditionTypeConvexLifecycleSynced = true.

Inductive rest_case (req : NamespacedName) (h : trace) : Prop :=
| rest_absent err :
    ev (KGetWorkload req) (Err err) ∈ h → IsNotFound err = true → rest_case req h
| rest_deleted w :
    ev (KGetWorkload req) (Ok w) ∈ h → om_DeletionTimestamp (w_Meta w) ≠ None →
    ContainsFinalizer (w_Meta w) workloadFinalizer = false → rest_case req h
| rest_written w e :
    ev (KGetWorkload req) (Ok w) ∈ h → e ∈ h → supersedes w e → rest_case req h
| rest_settled w rd d w2 w3 :
    ev (KGetWorkload req) (Ok w) ∈ h → om_DeletionTimestamp (w_Meta w) = None →
    ContainsFinalizer (w_Meta w) workloadFinalizer = true →
    render w = Ok rd → applied w rd h →
    ev (KGetDeployment req) (Ok d) ∈ h →
    ev (KStatusUpdateWorkload w2) (Ok w3) ∈ h → final_status w d w2 → rest_case req h.

Definition rest_post (req : NamespacedName) (h : trace) (res : ReconcileResult) : Prop :=
  res = done_result → Forall status_stored h → rest_case req h.

Lemma rest_loud req h res : res ≠ done_result → rest_post req h res.
Proof. by intros ? ?. Qed.

(** After a superseding write the rest of the run does not matter. *)
Lemma rest_written_wp {X} (p : program X) req w e h (Q : trace → X → Prop) :
  (∀ h' x, rest_case req h' → Q h' x) →
  ev (KGetWorkload req) (Ok w) ∈ h → e ∈ h → supersedes w e → wp h p Q.
Proof.
  intros HQ Hg He Hs. eapply wp_mono; [|apply wp_history]. intros h' x [ext ->]. apply HQ.
  eapply (rest_written _ _ w e); rewrite ?elem_of_app; auto.
Qed.

Lemma applied_app w rd h ext : applied w rd h → applied w rd (h ++ ext).
Proof. intros [[d Hd] [s Hs]]. split; eexists; apply elem_of_app; left; eauto. Qed.

Lemma observe_rest r req w rd h :
  ev (KGetWorkload req) (Ok w) ∈ h → om_DeletionTimestamp (w_Meta w) = None →
  ContainsFinalizer (w_Meta w) workloadFinalizer = true →
  render w = Ok rd → applied w rd h → wp h (observe r req w) (rest_post req).
Proof.
  intros Hg Hd Hc Hr Ha. unfold observe. rewrite wp_bind.
  eapply wp_mono; [|apply wp_and; [apply syncConvex_post|apply wp_history]].
  intros h1 [cs w1] [[Hoc1 Hs1] [ext1 ->]]. prog_run; [|by apply rest_loud].
  eapply wp_mono; [|apply wp_and; [apply updateStatus_post|apply wp_history]].
  intros h2 [ls w2] [(Hst & Hcs & Hls) [ext2 ->]]. prog_run; try (by apply rest_loud).
  simpl in *. intros _ Hstored.
  apply Forall_app, proj2, Forall_inv in Hstored. simpl in Hstored.
  rewrite !orb_false_iff, !negb_false_iff in *. destruct Heqb as [[Hph ->] ->].
  rewrite Hstored in *. apply settled_phase in Hph.
  eapply (rest_settled _ _ w rd a w2 a0); rewrite ?elem_of_app; eauto 7 using applied_app.
  - left; left; right. left.
  - right. left.
  - split_and!; [|done|by rewrite Hcs|].
    + destruct Hoc1 as (Hm & Hsp & _). by eapply status_means_meta.
    + apply Hls. intros Heq. rewrite Heq in Hph. set_solver.
Qed.

Lemma checkUnschedulable_rest r w sel h :
  om_DeletionTimestamp (w_Meta w) = None →
  wp h (checkUnschedulable r w sel) (λ h' released,
    (∃ ext, h' = h ++ ext) ∧ (released = true → ∃ e, e ∈ h' ∧ supersedes w e)).
Proof.
  intros Hd. apply wp_and; [apply wp_history|].
  unfold checkUnschedulable. prog_run; try done. apply wp_trivial. intros h1 msg. prog_run; try done.
  apply wp_trivial. intros h2 reported. prog_run; try done; intros _;
    (eexists; split; [apply elem_of_app; right; left|done]).
Qed.

Lemma setFailed_rest r req w reason err h :
  wp h (setFailedWithReason r w reason err) (rest_post req).
Proof.
  unfold setFailedWithReason. prog_run; apply wp_trivial; intros; by apply rest_loud.
Qed.

Lemma apply_rest r req w rd h :
  ev (KGetWorkload req) (Ok w) ∈ h → om_DeletionTimestamp (w_Meta w) = None →
  ContainsFinalizer (w_Meta w) workloadFinalizer = true →
  render w = Ok rd → wp h (apply r req w rd) (rest_post req).
Proof.
  intros Hg Hd Hc Hr. unfold apply, reconcileDeployment, reconcileService, setFailed. prog_run;
    try apply setFailed_rest; try (by apply rest_loud).
  eapply wp_mono; [|by apply checkUnschedulable_rest]. intros h' released [[ext ->] Hrel].
  destruct released.
  - intros _ _. destruct Hrel as (e & Hin & He); [done|].
    apply (rest_written _ _ w e); [|done|done]. rewrite !elem_of_app. auto.
  - apply (observe_rest _ _ _ rd); rewrite ?elem_of_app; auto. apply applied_app. split.
    + eexists. apply elem_of_app. left. apply elem_of_app. right. left.
    + eexists. apply elem_of_app. right. left.
Qed.

Lemma finalizer_update_supersedes w m f w1 :
  ContainsFinalizer (w_Meta w) workloadFinalizer = negb f →
  ContainsFinalizer m workloadFinalizer = f → (∃ fs, m = meta_with_finalizers (w_Meta w) fs) →
  supersedes w (ev (KUpdateWorkload (w_with_meta w m)) (Ok w1)).
Proof.
  intros Hw Hm [fs ->]. split; [done|]. intros Heq. simpl in *.
  rewrite contains_finalizer in Hw, Hm. simpl in *. rewrite Heq, Hw in Hm. by destruct f.
Qed.

(** What is known after any run of [Reconcile] that neither failed nor asked to be
    called again. *)
Lemma Reconcile_rest r req : wp [] (Reconcile r req) (rest_post req).
Proof.
  unfold Reconcile. rewrite wp_bind. cbn [wp perform]. intros [w|err].
  2: { destruct (IsNotFound err) eqn:Hn; [|by apply rest_loud]. rewrite wp_bind.
       eapply wp_mono; [|apply wp_history]. intros h _ [ext ->] _ _.
       eapply rest_absent; [|done]. left. }
  assert (ev (KGetWorkload req) (Ok w) ∈ [ev (KGetWorkload req) (Ok w) : event answer]) as Hg by left.
  destruct (om_DeletionTimestamp (w_Meta w)) eqn:Hd.
  - unfold reconcileDelete. destruct (ContainsFinalizer _ _) eqn:Hc.
    2: { intros _ _. eapply rest_deleted; [exact Hg|by rewrite Hd|done]. }
    cbn [negb]. rewrite wp_bind. eapply wp_mono; [|apply wp_history]. intros h [e|] [ext ->]; [by apply rest_loud|].
    cbn [wp prog_bind perform]. intros [w1|err]; [|by apply rest_loud]. intros _ _.
    eapply (rest_written _ _ w); [rewrite !elem_of_app; eauto|apply elem_of_app; right; left|].
    eapply (finalizer_update_supersedes w _ false); [done|apply contains_remove|apply remove_finalizer_meta].
  - unfold ensureFinalizer. destruct (ContainsFinalizer _ _) eqn:Hc; cbn [wp prog_bind perform].
    + unfold reconcileLive. destruct (render w) eqn:Hr; [by apply apply_rest|apply setFailed_rest].
    + intros [w1|err]; [|by apply rest_loud].
      eapply (rest_written_wp _ req w); [by intros ????|by apply elem_of_app; left|apply elem_of_app; right; left|].
      eapply (finalizer_update_supersedes w _ true); [done|apply contains_add|apply add_finalizer_meta].
Qed.
End Rest.
