(* ===== verification/ControllerIdempotent.v ===== *)
(** * ControllerIdempotent: reconciling what is reconciled

    A controller that reacts to the changes of the objects it writes must stop writing
    when there is nothing to say, or it wakes itself up for ever.  This file shows that
    a reconciliation that follows a quiet one, and finds what that one left, writes the
    status it read and tells Convex nothing. *)

From S2P Require Import Prelude.
From S2P Require Import Effects.
From S2P Require Import Go.
From S2P Require Import Json.
From S2P Require Import Api.
From S2P Require Import Calls.
From S2P Require Import Catalog.
From S2P Require Import CatalogTemplates.
From S2P Require Import Controller.
From S2P Require Import ControllerFacts.
From S2P Require Import ControllerStatus.
From S2P Require Import ControllerRest.

Section Idempotent.
Context `{!GoStd, !KubeLib, !KubeLibLaws}.

(** ** The status a Deployment calls for *)

(** The Ready condition and the phase, for a number of ready replicas. *)
Definition ready_condition (w : Workload) (ready : Z) : Condition * string :=
  if ws_Suspended (w_Spec w) && (ready =? 0)%Z then
    (condition ConditionTypeReady ConditionFalse (w_Generation w) reasonWorkloadSuspended
       "workload is intentionally stopped (spec.suspended=true)", PhaseStopped)
  else if (0 <? desiredReplicaCount w)%Z && (desiredReplicaCount w <=? ready)%Z then
    (condition ConditionTypeReady ConditionTrue (w_Generation w) reasonDeploymentReady
       "backing Deployment has reached the desired ready replica count", PhaseRunning)
  else
    (condition ConditionTypeReady ConditionFalse (w_Generation w) reasonDeploymentProgressing
       (pretty ready +:+ "/" +:+ pretty (desiredReplicaCount w) +:+ " replicas ready"), PhaseDeploying).

(** The two conditions say the same; the transition time is not compared. *)
Definition says_same (c0 c : Condition) : Prop :=
  co_Status c0 = co_Status c ∧ co_Reason c0 = co_Reason c ∧ co_Message c0 = co_Message c ∧
  co_ObservedGeneration c0 = co_ObservedGeneration c.

(** The status of [w] is the one [ready] replicas call for, and settled. *)
Definition stable (w : Workload) (ready : Z) : Prop :=
  let '(c, phase) := ready_condition w ready in
  phase ∈ [PhaseRunning; PhaseStopped] ∧
  wst_Phase (w_Status w) = phase ∧ wst_ReadyReplicas (w_Status w) = ready ∧
  wst_ObservedGeneration (w_Status w) = w_Generation w ∧
  already_synced w conditionTypeConvexSynced = true ∧
  already_synced w conditionTypeConvexLifecycleSynced = true ∧
  ∃ c0, FindStatusCondition (wst_Conditions (w_Status w)) ConditionTypeReady = Some c0 ∧ says_same c0 c.

Lemma ready_condition_ext w w' ready :
  w_Spec w = w_Spec w' → w_Generation w = w_Generation w' → ready_condition w ready = ready_condition w' ready.
Proof. unfold ready_condition, desiredReplicaCount. by intros -> ->. Qed.

(** It depends on the specification, the generation and the status only. *)
Lemma stable_ext w w' ready :
  w_Spec w = w_Spec w' → w_Generation w = w_Generation w' → w_Status w = w_Status w' →
  stable w ready → stable w' ready.
Proof.
  intros Hs Hg Hst. unfold stable, already_synced. by rewrite (ready_condition_ext w w'), Hst, Hg.
Qed.

(** *** It is what [updateStatus] writes *)

Lemma stable_written w0 w ready status reason msg phase :
  ready_condition w0 ready = (condition ConditionTypeReady status (w_Generation w0) reason msg, phase) →
  phase ∈ [PhaseRunning; PhaseStopped] →
  already_synced w0 conditionTypeConvexSynced = true →
  only_condition conditionTypeConvexLifecycleSynced (status_observed w0 phase ready) w →
  already_synced w conditionTypeConvexLifecycleSynced = true →
  stable (set_condition w (condition ConditionTypeReady status (w_Generation w0) reason msg)) ready.
Proof.
  intros Hrc Hph Hsync Hoc Hls. pose proof Hoc as (Hm & Hsp & Hp & Hr & Hg & _).
  unfold stable. rewrite (ready_condition_ext _ w0) by (unfold w_Generation; simpl; by rewrite ?Hm, ?Hsp).
  rewrite Hrc, !already_synced_set_other by done.
  rewrite (only_condition_synced _ _ _ _ sync_types_distinct Hoc).
  destruct (find_set_same (wst_Conditions (w_Status w))
              (condition ConditionTypeReady status (w_Generation w0) reason msg)) as (c & Hf & _ & ?).
  unfold w_Generation in *. simpl in *. rewrite Hm. split_and!; try done.
  exists c. split; [done|]. unfold says_same. simpl. tauto.
Qed.

Lemma updateStatus_stable r w d h :
  already_synced w conditionTypeConvexSynced = true →
  wp h (updateStatus r w d) (λ _ res,
    res.1 = true → wst_Phase (w_Status res.2) ∈ [PhaseRunning; PhaseStopped] →
    stable res.2 (d_ReadyReplicas d)).
Proof.
  intros Hs. unfold updateStatus.
  destruct (ws_Suspended _ && _) eqn:Hstop; [|destruct ((0 <? _)%Z && _) eqn:Hrun];
    rewrite ?wp_bind;
    try (eapply wp_mono; [|apply syncConvexLifecyclePhase_post]; intros h' [ok w1] [Hoc Hls]; simpl in *;
         intros -> _; eapply stable_written; [|..|exact Hs|exact Hoc|exact Hls];
         [unfold ready_condition; by rewrite Hstop, ?Hrun|set_solver]).
  simpl. intros _. set_solver.
Qed.

(** *** ... and [updateStatus] leaves it alone *)

Lemma status_observed_same w ready phase :
  wst_Phase (w_Status w) = phase → wst_ReadyReplicas (w_Status w) = ready →
  wst_ObservedGeneration (w_Status w) = w_Generation w → status_observed w phase ready = w.
Proof. unfold status_observed. intros <- <- <-. by destruct w as [? ? []]. Qed.

Lemma set_condition_same w c c0 :
  FindStatusCondition (wst_Conditions (w_Status w)) (co_Type c) = Some c0 → says_same c0 c →
  set_condition w c = w.
Proof.
  intros Hf (? & ? & ? & ?). unfold set_condition. rewrite (set_unchanged _ c c0) by done.
  by destruct w as [? ? []].
Qed.

Lemma updateStatus_again r w d :
  stable w (d_ReadyReplicas d) → updateStatus r w d = Ret (true, w).
Proof.
  unfold stable, updateStatus, ready_condition, syncConvexLifecyclePhase.
  destruct (ws_Suspended _ && _); [|destruct ((0 <? _)%Z && _)];
    intros (Hph & Hp & Hr & Hg & _ & Hls & c0 & Hf & Hsame); [| |set_solver];
    rewrite status_observed_same by done; rewrite Hls; simpl;
    by rewrite (set_condition_same _ _ c0).
Qed.

Lemma syncConvex_again r w :
  already_synced w conditionTypeConvexSynced = true → syncConvex r w = Ret (true, w).
Proof. unfold syncConvex. by intros ->. Qed.

Lemma checkUnschedulable_again r w sel ready : stable w ready → checkUnschedulable r w sel = Ret false.
Proof.
  unfold stable, ready_condition, checkUnschedulable.
  destruct (ws_Suspended (w_Spec w)) eqn:Hs; [done|]. simpl.
  destruct ((0 <? _)%Z && _); intros (Hph & -> & _); [|set_solver].
  rewrite (bool_decide_true (PhaseRunning = PhaseRunning)) by done. by rewrite orb_true_r.
Qed.

(** ** The first run *)

Definition status_written (e : event answer) : option Workload :=
  match e with existT (KStatusUpdateWorkload w) (Ok _) => Some w | _ => None end.
Definition deployment_read (e : event answer) : option Deployment :=
  match e with existT (KGetDeployment _) (Ok d) => Some d | _ => None end.

(** Calls that are neither. *)
Definition early (c : call) : Prop :=
  match c with KStatusUpdateWorkload _ | KGetDeployment _ => False | _ => True end.

Lemma early_events h :
  Forall (λ e, early (projT1 e)) h → omap status_written h = [] ∧ omap deployment_read h = [].
Proof.
  induction 1 as [|[c a] h He _ [IH1 IH2]]; [done|].
  destruct c; try done; simpl; by rewrite IH1, IH2.
Qed.

Lemma syncConvex_early r w h : safe (λ _, early) h (syncConvex r w).
Proof. unfold syncConvex, notifyUpserted. prog_calls. Qed.

Lemma updateStatus_early r w d h : safe (λ _, early) h (updateStatus r w d).
Proof. unfold updateStatus, syncConvexLifecyclePhase, notifyLifecycle. prog_calls. Qed.

Lemma checkUnschedulable_early r w sel h : safe (λ _, early) h (checkUnschedulable r w sel).
Proof. eapply safe_mono; [|apply checkUnschedulable_calls]. by intros ? []. Qed.

(** The status that was written is stable for the Deployment that was read. *)
Definition leaves_stable (h : trace) (res : ReconcileResult) : Prop :=
  res = done_result → Forall status_stored h →
  ∀ w d, w ∈ omap status_written h → d ∈ omap deployment_read h →
  stable w (d_ReadyReplicas d) ∧ is_ok (render w) = true.

Lemma leaves_loud h res : res ≠ done_result → leaves_stable h res.
Proof. by intros ? ?. Qed.

Lemma leaves_early h res : Forall (λ e, early (projT1 e)) h → leaves_stable h res.
Proof. intros [Hs _]%early_events _ _ w d. rewrite Hs. by intros ?%elem_of_nil. Qed.

Lemma observe_stable r req w rd h :
  render w = Ok rd → Forall (λ e, early (projT1 e)) h → wp h (observe r req w) leaves_stable.
Proof.
  intros Hr Hh. unfold observe. rewrite wp_bind.
  eapply wp_mono; [|apply wp_and; [apply syncConvex_post|apply wp_extends, syncConvex_early]].
  intros h1 [cs w1] [[(_ & Hsp1 & _) Hs1] (ext1 & -> & He1)]. prog_run; [|by apply leaves_loud].
  simpl in Hs1. destruct cs.
  - eapply wp_mono; [|apply wp_and; [by apply updateStatus_stable|
      apply wp_and; [apply updateStatus_post|apply wp_extends, updateStatus_early]]].
    intros h2 [ls w2] [Hst [((_ & Hsp2 & _) & _) (ext2 & -> & He2)]]. prog_run; try (by apply leaves_loud).
    simpl in *. intros _ Hstored w' d'.
    apply Forall_app, proj2, Forall_inv in Hstored. simpl in Hstored.
    rewrite !orb_false_iff, !negb_false_iff in *. destruct Heqb as [[Hph _] ->].
    rewrite Hstored in *. apply settled_phase in Hph.
    destruct (early_events _ Hh) as [Ha Hb], (early_events _ He1) as [Hc Hd], (early_events _ He2) as [Hf Hg].
    rewrite !omap_app, Ha, Hb, Hc, Hd, Hf, Hg. simpl.
    rewrite !list_elem_of_singleton. intros -> ->. split; [by apply Hst|].
    rewrite (render_spec w) by congruence. by rewrite Hr.
  - apply wp_trivial. intros h2 [ls w2]. prog_run; try (by apply leaves_loud).
    simpl in *. rewrite orb_true_r in *. done.
Qed.

Lemma setFailed_stable r w reason err h : wp h (setFailedWithReason r w reason err) leaves_stable.
Proof. unfold setFailedWithReason. prog_run; apply wp_trivial; intros; by apply leaves_loud. Qed.

Lemma apply_stable r req w rd h :
  render w = Ok rd → Forall (λ e, early (projT1 e)) h → wp h (apply r req w rd) leaves_stable.
Proof.
  intros Hr Hh. unfold apply, reconcileDeployment, reconcileService, setFailed. prog_run;
    try apply setFailed_stable; try (by apply leaves_loud).
  eapply wp_mono; [|apply wp_extends, checkUnschedulable_early].
  intros h' released (ext & -> & He).
  assert (Forall (λ e : event answer, early (projT1 e)) ext) by done.
  destruct released; [apply leaves_early|apply (observe_stable _ _ _ rd); [done|]]; rewrite !Forall_app, !Forall_singleton; done.
Qed.

Lemma Reconcile_stable r req : wp [] (Reconcile r req) leaves_stable.
Proof.
  unfold Reconcile, reconcileDelete, ensureFinalizer, reconcileLive, notifyRemoved.
  prog_run; try apply setFailed_stable; try (by apply leaves_loud);
    try (intros; by apply leaves_early; rewrite ?Forall_cons, ?Forall_nil);
    (eapply apply_stable; [eassumption|by rewrite ?Forall_cons, ?Forall_nil]).
Qed.

(** ** The second run *)

(** A run that finds the Workload [w], and its Deployment with [ready] replicas ready, and
    whose writes succeed. *)
Definition finds (w : Workload) (ready : Z) (e : event answer) : Prop :=
  match e with
  | existT (KGetWorkload _) r => r = Ok w
  | existT (KGetDeployment _) r => ∃ d, r = Ok d ∧ d_ReadyReplicas d = ready
  | existT (KCreateOrUpdateDeployment _ _) r => ∃ d, r = Ok d
  | existT (KCreateOrUpdateService _ _) r => ∃ sv, r = Ok sv
  | existT (KStatusUpdateWorkload w') r => ∃ w'', r = Ok w'' ∧ w_Status w'' = w_Status w'
  | _ => True
  end.

(** The status written is the one read; nothing else of a Workload is written, and
    Convex is told nothing. *)
Definition silent (w : Workload) (e : event answer) : Prop :=
  match e with
  | existT (KStatusUpdateWorkload w') _ => w' = w
  | existT (KUpdateWorkload _) _ | existT (KDeleteWorkload _) _ | existT (KCreateWorkload _) _
  | existT (KCreateOrUpdateWorkload _ _) _ => False
  | existT (UpsertWorkload _) _ | existT (RemoveWorkload _ _) _
  | existT (ReportLifecycle _ _ _ _ _) _ => False
  | _ => True
  end.

(** [w'] is stored with the status of [w]: what the API server sets of the metadata does
    not matter. *)
Definition stored_as (w w' : Workload) : Prop :=
  w_Spec w' = w_Spec w ∧ w_Status w' = w_Status w ∧ w_Generation w' = w_Generation w ∧
  om_DeletionTimestamp (w_Meta w') = None ∧
  ContainsFinalizer (w_Meta w') workloadFinalizer = true.

Definition again (w : Workload) (ready : Z) (h : trace) (res : ReconcileResult) : Prop :=
  Forall (finds w ready) h → Forall (silent w) h ∧ res = done_result.

(** The answer to a call may be taken to be what the run finds. *)
Lemma again_answer (p : program ReconcileResult) w ready h e :
  (finds w ready e → wp (h ++ [e]) p (again w ready)) → wp (h ++ [e]) p (again w ready).
Proof.
  intros Hp. apply wp_exec. intros tr x He Hall. pose proof Hall as [[_ Hf]%Forall_app _]%Forall_app.
  apply Forall_inv in Hf. exact (proj1 (wp_exec _ _ _) (Hp Hf) tr x He Hall).
Qed.

Lemma observe_again r req w ready h :
  stable w ready → Forall (silent w) h → wp h (observe r req w) (again w ready).
Proof.
  intros Hst Hh. pose proof Hst as Hst'. unfold stable in Hst'.
  destruct (ready_condition w ready) as [c phase]. destruct Hst' as (Hph & Hp & _ & _ & Hcs & _).
  unfold observe. rewrite syncConvex_again by done. cbn [wp prog_bind perform].
  intros a. apply again_answer. intros (d & -> & Hd). rewrite updateStatus_again by (by rewrite Hd).
  cbn [wp prog_bind perform fst snd]. intros a. apply again_answer. intros (w'' & -> & Hw).
  rewrite Hw, Hp. cbn [negb]. rewrite !orb_false_r.
  assert (bool_decide (phase = PhaseRunning) || bool_decide (phase = PhaseStopped) = true) as ->.
  { rewrite orb_true_iff, !bool_decide_eq_true. set_solver. }
  intros _. split; [|done]. by rewrite !Forall_app, !Forall_singleton.
Qed.

Lemma Reconcile_again r req w ready :
  stable w ready → is_ok (render w) = true → om_DeletionTimestamp (w_Meta w) = None →
  ContainsFinalizer (w_Meta w) workloadFinalizer = true →
  wp [] (Reconcile r req) (again w ready).
Proof.
  intros Hst Hr Hd Hc. unfold Reconcile. cbn [wp prog_bind perform]. intros a. apply again_answer.
  intros ->. rewrite Hd. unfold ensureFinalizer, reconcileLive. rewrite Hc. cbn [prog_bind].
  destruct (render w) as [rd|]; [|done]. unfold apply, reconcileDeployment, reconcileService.
  cbn [wp prog_bind perform]. intros a. apply again_answer. intros [d ->].
  cbn [wp prog_bind perform]. intros a. apply again_answer. intros [sv ->]. cbn [prog_bind].
  rewrite (checkUnschedulable_again _ _ _ ready Hst). cbn [prog_bind].
  apply observe_again; [done|]. simpl. by rewrite ?Forall_cons, ?Forall_nil.
Qed.

(** C6. Reconciliation is idempotent, so the reconciler does not wake itself up for ever:
    let one run of [Reconcile] end quietly, having read the Deployment [d] and written a
    status; when the next run finds that status stored (whatever the API server did to
    the rest of the metadata) and as many replicas ready as before, it writes exactly
    the Workload it read, removes nothing, tells Convex nothing, and ends quietly
    again. *)
Theorem reconcile_idempotent r req tr1 w w' w'' d tr2 res2 :
  exec (Reconcile r req) tr1 done_result → Forall status_stored tr1 →
  ev (KStatusUpdateWorkload w) (Ok w') ∈ tr1 → ev (KGetDeployment req) (Ok d) ∈ tr1 →
  stored_as w w'' →
  exec (Reconcile r req) tr2 res2 → Forall (finds w'' (d_ReadyReplicas d)) tr2 →
  Forall (silent w'') tr2 ∧ res2 = done_result.
Proof.
  intros He1 Hst Hw Hd (Hsp & Hsta & Hgen & Hdel & Hfin) He2.
  destruct (wp_sound _ _ _ _ (Reconcile_stable r req) He1 eq_refl Hst w d) as [Hstable Hr].
  { apply list_elem_of_omap. eexists. split; [exact Hw|done]. }
  { apply list_elem_of_omap. eexists. split; [exact Hd|done]. }
  refine (wp_sound _ _ _ _ (Reconcile_again r req w'' (d_ReadyReplicas d) _ _ Hdel Hfin) He2).
  - by eapply (stable_ext w).
  - by rewrite (render_spec w).
Qed.

End Idempotent.
