(* ===== verification/ControllerLiveness.v ===== *)
(** * ControllerLiveness: one undisturbed reconciliation settles a Workload

    The converse of [ControllerStatus.quiet_means_settled]: when the cluster and Convex
    cooperate, a single call of [Reconcile] takes a Workload all the way (also a new one,
    which gets its finalizer on the way) and does not ask to be called again. *)

From S2P Require Import Prelude.
From S2P Require Import Effects.
From S2P Require Import Go.
From S2P Require Import Json.
From S2P Require Import Api.
From S2P Require Import Calls.
From S2P Require Import Catalog.
From S2P Require Import CatalogTemplates.
From S2P Require Import Controller.
From S2P Require Import ControllerFacts.
From S2P Require Import ControllerStatus.

(** The replica count a specification asks for. *)
Definition spec_replicas (spec : WorkloadSpec) : Z :=
  desiredReplicaCount {| w_Meta := named_meta "" ""; w_Spec := spec; w_Status := empty_status |}.

(** The answer of a cluster in which the Workload with this specification is live and
    its Deployment rolled out, and of a Convex that is reachable. *)
Definition cooperative (spec : WorkloadSpec) (e : event answer) : Prop :=
  match e with
  | existT (KGetWorkload _) (Ok w) => w_Spec w = spec ∧ om_DeletionTimestamp (w_Meta w) = None
  | existT (KUpdateWorkload w) (Ok w') => w_Spec w' = w_Spec w
  | existT (KStatusUpdateWorkload w) (Ok w') => w_Status w' = w_Status w
  | existT (KCreateOrUpdateDeployment _ _) (Ok _) => True
  | existT (KCreateOrUpdateService _ _) (Ok _) => True
  | existT (KListPods _ _) (Ok pods) =>
      Forall (λ p, Forall (λ c, unschedulable_condition c = false) (p_Conditions p)) pods
  | existT (KGetDeployment _) (Ok d) => d_ReadyReplicas d = spec_replicas spec
  | existT (UpsertWorkload _) None => True
  | existT (ReportLifecycle _ _ _ _ _) None => True
  | _ => False
  end.

Section Liveness.
Context `{!GoStd, !KubeLib, !KubeLibLaws}.
Context (spec : WorkloadSpec).

(** Done, except that a Workload that is not suspended and asks for no replica counts
    as deploying for ever. *)
Definition settled_result : ReconcileResult :=
  if ws_Suspended spec || (0 <? spec_replicas spec)%Z then done_result else requeue_result.

Definition settles (h : trace) (res : ReconcileResult) : Prop :=
  Forall (cooperative spec) h → res = settled_result.

(** After an answer that is not cooperative nothing is claimed. *)
Lemma hindered_from {X} (p : program X) h (Q : trace → X → Prop) :
  ¬ Forall (cooperative spec) h → wp h p (λ h' x, Forall (cooperative spec) h' → Q h' x).
Proof. apply wp_spoiled. Qed.

Lemma cooperative_last h e : Forall (cooperative spec) (h ++ [e]) → cooperative spec e.
Proof. apply Forall_last. Qed.

Lemma hindered (p : program ReconcileResult) h e : (cooperative spec e → False) → wp (h ++ [e]) p settles.
Proof. intros Hn. apply hindered_from. by intros ?%cooperative_last. Qed.

(** ... so the answers so far may be taken to be. *)
Lemma so_far (p : program ReconcileResult) h : (Forall (cooperative spec) h → wp h p settles) → wp h p settles.
Proof. apply (wp_so_far (cooperative spec)). Qed.

Lemma unsettled h e res : (cooperative spec e → False) → settles (h ++ [e]) res.
Proof. intros Hn. exact (hindered (Ret res) h e Hn). Qed.

Lemma stuck_conditions_none cs m h :
  Forall (λ c, unschedulable_condition c = false) cs →
  wp h (stuck_conditions cs m) (λ h' msg, h' = h ∧ msg = m).
Proof. induction 1 as [|c cs Hc _ IH]; simpl; [done|]. by rewrite Hc. Qed.

Lemma stuck_pods_none pods m h :
  Forall (λ p, Forall (λ c, unschedulable_condition c = false) (p_Conditions p)) pods →
  wp h (stuck_pods pods m) (λ h' msg, h' = h ∧ msg = m).
Proof.
  induction 1 as [|p pods Hp _ IH]; simpl; [done|]. rewrite wp_bind.
  eapply wp_mono; [|by apply stuck_conditions_none]. by intros ? ? [-> ->].
Qed.

(** Convex acknowledges. *)
Lemma syncConvex_coop r w h :
  wp h (syncConvex r w) (λ h' res, Forall (cooperative spec) h' → res.1 = true ∧ w_Spec res.2 = w_Spec w).
Proof.
  unfold syncConvex, notifyUpserted. prog_run; try done. intros Hc%cooperative_last. done.
Qed.

Lemma lifecycle_coop r w phase h :
  wp h (syncConvexLifecyclePhase r w phase) (λ h' res, Forall (cooperative spec) h' → res.1 = true).
Proof.
  unfold syncConvexLifecyclePhase, notifyLifecycle. prog_run; try done. intros Hc%cooperative_last. done.
Qed.

Lemma updateStatus_coop r w d h :
  wp h (updateStatus r w d) (λ h' res, Forall (cooperative spec) h' → res.1 = true).
Proof.
  unfold updateStatus. prog_run; try done;
    (eapply wp_mono; [|apply lifecycle_coop]; intros h' [ok w'] Hl; simpl; exact Hl).
Qed.

(** The status of a rolled out Workload is final, unless it asks for nothing. *)
Lemma settled_iff w d w' :
  w_Spec w = spec → d_ReadyReplicas d = spec_replicas spec → status_means w d w' →
  bool_decide (wst_Phase (w_Status w') = PhaseRunning) || bool_decide (wst_Phase (w_Status w') = PhaseStopped) =
  ws_Suspended spec || (0 <? spec_replicas spec)%Z.
Proof.
  intros Hs Hd (_ & _ & _ & _ & _ & Hrun & Hstop & _).
  assert (desiredReplicaCount w = spec_replicas spec) as Hw.
  { unfold spec_replicas, desiredReplicaCount. simpl. by rewrite Hs. }
  assert (ws_Suspended spec = true → spec_replicas spec = 0%Z) as Hz.
  { unfold spec_replicas, desiredReplicaCount. simpl. by intros ->. }
  rewrite Hw, Hd in Hrun. rewrite Hs, Hd in Hstop. apply eq_bool_prop_intro. rewrite !orb_True, !bool_decide_spec.
  rewrite Hrun, Hstop, !Is_true_true, Z.ltb_lt. naive_solver lia.
Qed.

Lemma observe_coop r req w h : w_Spec w = spec → wp h (observe r req w) settles.
Proof.
  intros Hs. unfold observe. rewrite wp_bind. eapply wp_mono; [|apply syncConvex_coop].
  intros h1 [cs w1] Hsync. prog_run; [|by apply unsettled].
  eapply wp_mono; [|apply wp_and; [apply updateStatus_post|apply wp_and; [apply updateStatus_coop|apply wp_history]]].
  intros h2 [ls w2] ((Hst & _) & Hl & ext & ->). simpl in Hl, Hst |- *. intros [w3|err]; [|by apply unsettled].
  assert (∀ res, (w_Spec w1 = spec → d_ReadyReplicas a = spec_replicas spec → cs = true → ls = true →
    w_Status w3 = w_Status w2 → res = settled_result) →
    settles ((((h1 ++ [existT (KGetDeployment req) (Ok a)]) ++ ext)) ++ [existT (KStatusUpdateWorkload w2) (Ok w3)]) res)
    as Hcoop.
  { intros res Hr Hall. pose proof (cooperative_last _ _ Hall) as Hw3.
    apply Forall_app in Hall as [Hall _]. specialize (Hl Hall). apply Forall_app in Hall as [Hall _].
    pose proof (cooperative_last _ _ Hall) as Hd. apply Forall_app in Hall as [Hall _].
    destruct (Hsync Hall) as [? ?]. simpl in *. apply Hr; congruence. }
  destruct (negb _ || _ || _) eqn:Hq; apply Hcoop; intros Hs1 Hd -> -> Hw3; unfold settled_result;
    rewrite <- (settled_iff w1 a w2 Hs1 Hd Hst), <- Hw3;
    simpl in Hq; rewrite !orb_false_r in Hq; by destruct (bool_decide _ || bool_decide _).
Qed.

Lemma checkUnschedulable_coop r w sel h :
  wp h (checkUnschedulable r w sel) (λ h' stuck, Forall (cooperative spec) h' → stuck = false).
Proof.
  unfold checkUnschedulable. prog_run; try done.
  destruct (decide (Forall (λ p, Forall (λ c, unschedulable_condition c = false) (p_Conditions p)) a)).
  - eapply wp_mono; [|by apply stuck_pods_none]. by intros h' msg [-> ->].
  - eapply wp_mono; [|apply wp_history]. intros h' msg [ext ->]. apply hindered_from.
    rewrite Forall_app. by intros [?%cooperative_last _].
Qed.

Lemma apply_coop r req w rd h : w_Spec w = spec → wp h (apply r req w rd) settles.
Proof.
  intros Hs. unfold apply, reconcileDeployment, reconcileService, setFailed.
  prog_run; try (by apply hindered); try (by apply unsettled).
  eapply wp_mono; [|apply checkUnschedulable_coop].
  intros h' [] Hb; [|by apply observe_coop]. intros Hall. by specialize (Hb Hall).
Qed.

Lemma reconcileLive_coop r req w rd h : render w = Ok rd → w_Spec w = spec → wp h (reconcileLive r req w) settles.
Proof. intros Hr Hs. unfold reconcileLive. rewrite Hr. by apply apply_coop. Qed.

Lemma Reconcile_coop r req w rd tr res :
  w_Spec w = spec → render w = Ok rd → exec (Reconcile r req) tr res → settles tr res.
Proof.
  intros Hspec Hr He. revert He. apply wp_sound.
  assert (∀ w0, w_Spec w0 = spec → render w0 = Ok rd) as Hrender.
  { intros w0 Hw0. rewrite <- Hr. apply render_spec. congruence. }
  unfold Reconcile, ensureFinalizer. cbn [wp prog_bind perform]. intros [w0|err]; [|by apply (hindered _ [])].
  apply so_far. intros [Hs0 ->]%cooperative_last.
  destruct (ContainsFinalizer _ _); cbn [wp prog_bind perform]; [by eapply reconcileLive_coop; auto|].
  intros [w1|err]; [|by apply hindered]. apply so_far. intros Hs1%cooperative_last. simpl in Hs1.
  eapply reconcileLive_coop; [apply Hrender|]; congruence.
Qed.

(** C21. One undisturbed call of [Reconcile] is enough: when the specification renders
    and the cluster and Convex answer every call well (the Workload is live, its
    Deployment has the replicas it asks for, no pod is unschedulable, Convex is
    reachable), [Reconcile] succeeds and does not ask to be called again, whatever the
    Workload's status and finalizers were, new Workloads included.  The one exception is
    a Workload that is not suspended and asks for no replica (or fewer): it is polled
    for ever. *)
Theorem undisturbed_reconcile_settles r req w rd tr res :
  w_Spec w = spec → render w = Ok rd →
  exec (Reconcile r req) tr res → Forall (cooperative spec) tr →
  res = if ws_Suspended spec || (0 <? spec_replicas spec)%Z then done_result else requeue_result.
Proof. apply Reconcile_coop. Qed.

End Liveness.
