(* ===== verification/ControllerSchema.v ===== *)
(** * ControllerSchema: the status written is one the API server accepts

    The validation markers on [WorkloadStatus] in [api/v1alpha1/workload_types.go], and
    on the conditions it is made of, as an executable predicate.  The length of a
    condition's message (at most 32768 characters) is left out: messages carry the text
    of errors, whose length nothing bounds. *)

From S2P Require Import Prelude.
From S2P Require Import Effects.
From S2P Require Import Regex.
From S2P Require Import Go.
From S2P Require Import Json.
From S2P Require Import Api.
From S2P Require Import Calls.
From S2P Require Import Catalog.
From S2P Require Import CatalogTemplates.
From S2P Require Import Controller.
From S2P Require Import ControllerFacts.

Create HintDb schema.

(** ** The schema *)

Definition phase_enum : list string := ["Pending"; "Deploying"; "Running"; "Failed"; "Stopped"].
Definition status_enum : list string := ["True"; "False"; "Unknown"].

Definition letter (a : Ascii.ascii) : bool := in_range 65 90 a || in_range 97 122 a.
(** [A-Za-z0-9_] and [A-Za-z0-9_,:]. *)
Definition reason_last (a : Ascii.ascii) : bool := alnum a || in_range 95 95 a.
Definition reason_char (a : Ascii.ascii) : bool := reason_last a || in_range 44 44 a || in_range 58 58 a.

Definition reasonRe : regex :=
  RSeq (RClass letter) (ROpt (RSeq (RStar (RClass reason_char)) (RClass reason_last))).

(** [a-z0-9] and [-a-z0-9], the labels of the optional DNS prefix of a type. *)
Definition dns_end (a : Ascii.ascii) : bool := in_range 97 122 a || in_range 48 57 a.
Definition dns_char (a : Ascii.ascii) : bool := dns_end a || in_range 45 45 a.
Definition dns_label : regex := RSeq (RClass dns_end) (ROpt (RSeq (RStar (RClass dns_char)) (RClass dns_end))).

Definition typeRe : regex :=
  RSeq
    (ROpt (RSeq dns_label (RSeq (RStar (RSeq (RClass (in_range 46 46)) dns_label)) (RClass (in_range 47 47)))))
    (RSeq (ROpt (RSeq (RClass alnum) (RStar (RClass label_char)))) (RClass alnum)).

Definition condition_valid (c : Condition) : bool :=
  matches typeRe (co_Type c) && (String.length (co_Type c) <=? 316) &&
  bool_decide (co_Status c ∈ status_enum) &&
  matches reasonRe (co_Reason c) && (1 <=? String.length (co_Reason c)) &&
  (String.length (co_Reason c) <=? 1024) &&
  bool_decide (0 ≤ co_ObservedGeneration c < 2 ^ 63)%Z.

(** The phase is omitted when it is empty. *)
Definition status_valid (st : WorkloadStatus) : bool :=
  bool_decide (wst_Phase st = "" ∨ wst_Phase st ∈ phase_enum) &&
  bool_decide (-2 ^ 31 ≤ wst_ReadyReplicas st < 2 ^ 31)%Z &&
  bool_decide (-2 ^ 63 ≤ wst_ObservedGeneration st < 2 ^ 63)%Z &&
  forallb condition_valid (wst_Conditions st) &&
  bool_decide (NoDup (co_Type <$> wst_Conditions st)).

(** ** What the API server returns has passed the schema *)

Definition workload_typed (w : Workload) : Prop :=
  status_valid (w_Status w) = true ∧ (0 ≤ w_Generation w < 2 ^ 63)%Z.

Definition answer_typed (e : event answer) : Prop :=
  match e with
  | existT (KGetWorkload _) (Ok w) => workload_typed w
  | existT (KUpdateWorkload _) (Ok w) => workload_typed w
  | existT (KGetDeployment _) (Ok d) => (-2 ^ 31 ≤ d_ReadyReplicas d < 2 ^ 31)%Z
  | _ => True
  end.

Definition schema_guard (h : trace) (c : call) : Prop :=
  Forall answer_typed h →
  match c with KStatusUpdateWorkload w => status_valid (w_Status w) = true | _ => True end.

Section Schema.
Context `{!GoStd, !KubeLib, !KubeLibLaws}.

(** Validity reads type, status, reason and generation of a condition only. *)
Lemma condition_valid_same c c' :
  co_Type c' = co_Type c → co_Status c' = co_Status c → co_Reason c' = co_Reason c →
  co_ObservedGeneration c' = co_ObservedGeneration c → condition_valid c' = condition_valid c.
Proof. unfold condition_valid. by intros -> -> -> ->. Qed.

Lemma conditions_valid_set cs c :
  forallb condition_valid cs = true → condition_valid c = true →
  forallb condition_valid (SetStatusCondition cs c) = true.
Proof.
  rewrite !forallb_forall. intros Hcs Hc c' Hin%list_elem_of_In.
  destruct (set_elem cs c c' Hin) as [Hold%list_elem_of_In|(? & ? & ? & _ & ?)]; [auto|].
  by rewrite (condition_valid_same c c').
Qed.

Lemma set_condition_typed w c :
  condition_valid c = true → workload_typed w → workload_typed (set_condition w c).
Proof.
  unfold workload_typed, status_valid. simpl. rewrite !andb_true_iff, !bool_decide_eq_true.
  intros Hc [((((Hp & Hr) & Hg) & Hcs) & Hd) Hw].
  split_and!; auto using conditions_valid_set, set_types; first [lia|apply Hw].
Qed.

Lemma status_typed w phase ready :
  phase ∈ phase_enum → (-2 ^ 31 ≤ ready < 2 ^ 31)%Z → workload_typed w →
  workload_typed (w_with_status w {| wst_Phase := phase; wst_ReadyReplicas := ready;
    wst_ObservedGeneration := w_Generation w; wst_Conditions := wst_Conditions (w_Status w) |}).
Proof.
  unfold workload_typed, status_valid. simpl. rewrite !andb_true_iff, !bool_decide_eq_true.
  intros Hph Hready [((((Hp & Hr) & Hg) & Hcs) & Hd) Hw].
  split_and!; auto; first [lia|apply Hw].
Qed.

(** The condition literals of the reconciler. *)
Lemma literal_valid t status gen reason msg :
  t ∈ [conditionTypeConvexSynced; conditionTypeConvexLifecycleSynced; ConditionTypeReady] →
  status ∈ [ConditionTrue; ConditionFalse] →
  reason ∈ [reasonWorkloadSuspended; reasonDeploymentReady; reasonDeploymentProgressing; reasonNotifyFailed;
            reasonNotified; reasonAlreadyResolved; reasonReconcileError; reasonInvalidSpec; reasonUnknownTemplate] →
  (0 ≤ gen < 2 ^ 63)%Z → condition_valid (condition t status gen reason msg) = true.
Proof.
  intros Ht Hs Hr Hg. unfold condition_valid. simpl. rewrite (bool_decide_true _ Hg), andb_true_r.
  assert (matches typeRe t && (String.length t <=? 316) = true) as ->.
  { revert t Ht. apply Forall_forall. repeat constructor. }
  assert (bool_decide (status ∈ status_enum) = true) as ->.
  { revert status Hs. apply Forall_forall. repeat constructor. }
  simpl. rewrite <- andb_assoc. revert reason Hr. apply Forall_forall. repeat constructor.
Qed.

Definition condition_reasons : list string :=
  [reasonWorkloadSuspended; reasonDeploymentReady; reasonDeploymentProgressing; reasonNotifyFailed;
   reasonNotified; reasonAlreadyResolved; reasonReconcileError; reasonInvalidSpec; reasonUnknownTemplate].

(** Setting such a condition at the generation of the Workload. *)
Lemma literal_typed w gen t status reason msg :
  w_Generation w = gen →
  t ∈ [conditionTypeConvexSynced; conditionTypeConvexLifecycleSynced; ConditionTypeReady] →
  status ∈ [ConditionTrue; ConditionFalse] → reason ∈ condition_reasons → workload_typed w →
  workload_typed (set_condition w (condition t status gen reason msg)).
Proof. intros <- Ht Hs Hr Hw. apply set_condition_typed; [apply literal_valid; try done; apply Hw|done]. Qed.

#[local] Hint Extern 1 (_ ∈ _) => solve [unfold condition_reasons; set_solver] : schema.

Lemma syncConvex_typed r w h :
  workload_typed w → wp h (syncConvex r w) (λ _ res, workload_typed res.2).
Proof.
  intros Hw. unfold syncConvex. destruct (already_synced _ _); [done|].
  rewrite wp_bind. apply wp_trivial. intros ? [err|]; simpl; apply literal_typed; auto with schema.
Qed.

Lemma lifecycle_typed r w phase h :
  workload_typed w → wp h (syncConvexLifecyclePhase r w phase) (λ _ res, workload_typed res.2 ∧ w_Generation res.2 = w_Generation w).
Proof.
  intros Hw. unfold syncConvexLifecyclePhase. destruct (already_synced _ _); [done|].
  rewrite wp_bind. apply wp_trivial. intros ? [err|]; simpl; [destruct (errors_Is _ _); simpl|];
    (split; [apply literal_typed; auto with schema|done]).
Qed.

Lemma updateStatus_typed r w d h :
  workload_typed w → (-2 ^ 31 ≤ d_ReadyReplicas d < 2 ^ 31)%Z →
  wp h (updateStatus r w d) (λ _ res, workload_typed res.2).
Proof.
  intros Hw Hd. unfold updateStatus, status_observed.
  destruct (ws_Suspended _ && _); [|destruct (_ && _)]; rewrite ?wp_bind;
    try (eapply wp_mono; [|apply lifecycle_typed, status_typed; auto with schema];
         intros ? [ok w1] [Hw1 Hg]; simpl; apply literal_typed; auto with schema).
  simpl. apply literal_typed; auto using status_typed with schema.
Qed.

(** The answers so far may be taken to be typed. *)
Lemma typed_so_far {X} (p : program X) h :
  (Forall answer_typed h → safe schema_guard h p) → safe schema_guard h p.
Proof.
  revert h. induction p as [x|c k IH]; intros h Hp; simpl; [done|]. split.
  - intros Hh. by apply (proj1 (Hp Hh)).
  - intros a. apply IH. intros Hh. apply (proj2 (Hp (proj1 (proj1 (Forall_app _ _ _) Hh)))).
Qed.

Lemma typed_last h e : Forall answer_typed (h ++ [e]) → answer_typed e.
Proof. rewrite Forall_app, Forall_singleton. tauto. Qed.

(** Calls that write no status. *)
Definition statusless (c : call) : Prop := match c with KStatusUpdateWorkload _ => False | _ => True end.

Lemma statusless_guarded {X} (p : program X) h : safe (λ _, statusless) h p → safe schema_guard h p.
Proof. apply safe_mono. by intros ? [] Hc ?. Qed.

Lemma notify_statusless r w phase reason b h : safe (λ _, statusless) h (notifyLifecycle r w phase reason b).
Proof. unfold notifyLifecycle. prog_calls. Qed.

#[local] Hint Resolve notify_statusless : effects.

Lemma syncConvex_statusless r w h : safe (λ _, statusless) h (syncConvex r w).
Proof. unfold syncConvex, notifyUpserted. prog_calls. Qed.

Lemma updateStatus_statusless r w d h : safe (λ _, statusless) h (updateStatus r w d).
Proof. unfold updateStatus, syncConvexLifecyclePhase. prog_calls. Qed.

Lemma observe_schema r req w h : workload_typed w → safe schema_guard h (observe r req w).
Proof.
  intros Hw. unfold observe. rewrite safe_bind. split; [by apply statusless_guarded, syncConvex_statusless|].
  eapply wp_mono; [|by apply syncConvex_typed]. intros h1 [cs w1] Hw1. simpl in Hw1.
  rewrite safe_bind. split; [done|]. intros [d|err]; [|done]. apply typed_so_far. intros Hd%typed_last.
  rewrite safe_bind. split; [by apply statusless_guarded, updateStatus_statusless|].
  eapply wp_mono; [|by apply updateStatus_typed]. intros h2 [ls w2] Hw2.
  prog_run; try done. intros _. apply Hw2.
Qed.

Lemma setFailed_schema r w reason err h :
  reason ∈ condition_reasons → workload_typed w → safe schema_guard h (setFailedWithReason r w reason err).
Proof.
  intros Hr Hw. unfold setFailedWithReason. rewrite safe_bind. split.
  - split; [|done]. intros _. refine (proj1 (literal_typed _ _ _ _ _ _ _ _ _ _ _)); auto with schema.
    apply status_typed; auto with schema.
    destruct Hw as [Hs _]. unfold status_valid in Hs. rewrite !andb_true_iff, !bool_decide_eq_true in Hs. tauto.
  - intros upd. apply statusless_guarded. prog_calls.
Qed.

Lemma checkUnschedulable_schema r w sel h : safe schema_guard h (checkUnschedulable r w sel).
Proof.
  apply statusless_guarded. eapply safe_mono; [|apply checkUnschedulable_calls]. by intros ? [].
Qed.

Lemma render_reason_known err : render_reason err ∈ condition_reasons.
Proof. unfold render_reason. repeat case_match; auto with schema. Qed.

Lemma reconcileLive_schema r req w h : workload_typed w → safe schema_guard h (reconcileLive r req w).
Proof.
  intros Hw. unfold reconcileLive, apply, reconcileDeployment, reconcileService, setFailed.
  prog_run; try (by intros ?); try (apply setFailed_schema; auto using render_reason_known with schema).
  - apply checkUnschedulable_schema.
  - apply wp_trivial. intros h' []; [done|by apply observe_schema].
Qed.

(** C22. Every status [Reconcile] writes satisfies the schema of the Workload resource,
    provided the objects it was given do: the phase is one of the enumeration, the
    conditions have well-formed types, reasons and states and pairwise distinct types,
    and counts and generations are in range.  So a status update is never rejected as
    invalid. *)
Theorem written_status_valid r req tr res :
  exec (Reconcile r req) tr res → guarded schema_guard [] tr.
Proof.
  apply safe_guarded. unfold Reconcile, ensureFinalizer.
  rewrite safe_bind. split; [done|]. intros [w|err].
  - apply typed_so_far. intros Hw%typed_last. destruct (om_DeletionTimestamp _).
    + apply statusless_guarded. unfold reconcileDelete, notifyRemoved. prog_calls.
    + destruct (ContainsFinalizer _ _); [by apply reconcileLive_schema|].
      rewrite safe_bind. split; [done|]. intros [w'|err]; [|done].
      apply typed_so_far. intros Hw'%typed_last. by apply reconcileLive_schema.
  - apply statusless_guarded. unfold notifyRemoved. prog_calls.
Qed.

End Schema.
