(* ===== verification/ControllerObjects.v ===== *)
(** * ControllerObjects: what the reconciler creates in the cluster

    The label selection of the Deployment and the Service, the values accepted as
    labels, the wiring of Service ports to container ports, and the classification
    of rendering errors. *)

From S2P Require Import Prelude.
From S2P Require Import Effects.
From S2P Require Import Regex.
From S2P Require Import Go.
From S2P Require Import Json.
From S2P Require Import Api.
From S2P Require Import Calls.
From S2P Require Import Catalog.
From S2P Require Import CatalogTemplates.
From S2P Require Import Controller.

(** ** Label values *)

(** Kubernetes' rule for a non-empty label value: at most 63 characters of
    [A-Za-z0-9._-], the first and the last of them alphanumeric. *)
Definition chars (s : string) : list Ascii.ascii := String.list_ascii_of_string s.

Definition valid_label_value (s : string) : Prop :=
  String.length s ≤ 63 ∧
  Forall (λ a, label_char a = true) (chars s) ∧
  (∃ a, head (chars s) = Some a ∧ alnum a = true) ∧
  (∃ a, last (chars s) = Some a ∧ alnum a = true).

Section LabelValues.
Local Arguments String.append !_ _ /.

Lemma chars_app s t : chars (s +:+ t) = chars s ++ chars t.
Proof. unfold chars. induction s as [|a s IH]; simpl; [done|]. by f_equal. Qed.

Lemma chars_split s l1 l2 :
  chars s = l1 ++ l2 → ∃ s1 s2, s = s1 +:+ s2 ∧ chars s1 = l1 ∧ chars s2 = l2.
Proof.
  revert s. induction l1 as [|a l1 IH]; intros s Hs; [by exists "", s|].
  destruct s as [|b s]; [done|]. injection Hs as -> Hs.
  destruct (IH s Hs) as (s1 & s2 & -> & <- & <-). by exists (String a s1), s2.
Qed.

Lemma lang_class_inv p s : lang (RClass p) s ↔ ∃ a, chars s = [a] ∧ p a = true.
Proof.
  split.
  - inversion 1; subst. eexists. by split.
  - intros (a & Hs & Hp). destruct s as [|b [|c s]]; try done. injection Hs as ->. by constructor.
Qed.

Lemma lang_star_class p s : lang (RStar (RClass p)) s ↔ Forall (λ a, p a = true) (chars s).
Proof.
  split.
  - remember (RStar (RClass p)) as r eqn:Hr. intros Hl. induction Hl; simplify_eq; [done|].
    apply lang_class_inv in Hl1 as (b & Hb & Hp). rewrite chars_app, Hb. simpl. constructor; auto.
  - induction s as [|a s IH]; simpl; [intros; constructor|]. intros [Ha Hs]%Forall_cons.
    apply (lang_star_cons (RClass p) a "" s); [by constructor|auto].
Qed.

Lemma labelValueRe_lang s :
  lang labelValueRe s ↔
  ∃ a mid, alnum a = true ∧
    (chars s = [a] ∨ ∃ b, chars s = a :: mid ++ [b] ∧
       Forall (λ c, label_char c = true) mid ∧ alnum b = true).
Proof.
  unfold labelValueRe, ROpt. split.
  - intros (s1 & s2 & -> & (a & Ha & Hp)%lang_class_inv & H2)%lang_seq_inv.
    rewrite chars_app, Ha. inversion H2 as [| | |r1 r2 t Hl|r1 r2 t Hl|  |]; subst.
    + apply lang_seq_inv in Hl as (t1 & t2 & -> & Hm%lang_star_class & (b & Hb & Hpb)%lang_class_inv).
      exists a, (chars t1). split; [done|]. right. exists b. by rewrite chars_app, Hb.
    + exists a, []. split; [done|]. left. by inversion Hl.
  - intros (a & mid & Ha & Hs).
    assert (∃ t, chars s = [a] ++ t ∧
      (t = [] ∨ ∃ b, t = mid ++ [b] ∧ Forall (λ c, label_char c = true) mid ∧ alnum b = true))
      as (t & Ht & Hcase).
    { destruct Hs as [->|(b & -> & ?)]; eexists; split; eauto; done. }
    apply chars_split in Ht as (s1 & s2 & -> & H1 & H2).
    constructor; [apply lang_class_inv; eauto|].
    destruct Hcase as [->|(b & -> & Hm & Hb)].
    + apply lang_alt_r. destruct s2; [constructor|done].
    + apply lang_alt_l. apply chars_split in H2 as (t1 & t2 & -> & H1' & H2').
      constructor; [apply lang_star_class; by rewrite H1'|apply lang_class_inv; eauto].
Qed.

Lemma alnum_label_char a : alnum a = true → label_char a = true.
Proof. unfold label_char. by intros ->. Qed.

(** The regular expression and the declarative rule agree on every string. *)
Lemma labelValueRe_valid s :
  String.length s ≤ 63 → lang labelValueRe s ↔ valid_label_value s.
Proof.
  intros Hlen. rewrite labelValueRe_lang. unfold valid_label_value. split.
  - intros (a & mid & Ha & [Hs|(b & Hs & Hm & Hb)]); rewrite Hs; (split; [done|]).
    + split; [by constructor; [apply alnum_label_char|]|]. split; eauto.
    + split; [|split; [by eauto|]].
      * apply Forall_cons. split; [by apply alnum_label_char|].
        apply Forall_app. split; [done|]. constructor; [by apply alnum_label_char|done].
      * exists b. split; [|done]. by rewrite app_comm_cons, last_snoc.
  - intros (_ & Hall & (a & Ha & Hpa) & (b & Hb & Hpb)).
    destruct (chars s) as [|a' t] eqn:Hs; [done|]. simplify_eq/=.
    destruct t as [|b' t] using rev_ind.
    + exists a, []. auto.
    + exists a, t. split; [done|]. right. exists b'.
      rewrite app_comm_cons, last_snoc in Hb. simplify_eq.
      apply Forall_cons in Hall as [_ Hall%Forall_app]. split; [done|]. split; [apply Hall|done].
Qed.

(** [sanitizeLabelValue] lets a user id through exactly when it is a valid,
    non-empty Kubernetes label value, and then unchanged: no user id can make the
    API server refuse the objects of a workload. *)
Theorem sanitizeLabelValue_spec raw v :
  sanitizeLabelValue raw = Some v ↔ v = raw ∧ valid_label_value raw.
Proof.
  unfold sanitizeLabelValue. case_decide as He; [subst; simpl|].
  { split; [done|]. intros (_ & _ & _ & (a & Ha & _) & _). done. }
  case_decide as Hl.
  { split; [done|]. intros (_ & Hlen & _). unfold maxLabelValueLen in Hl. lia. }
  unfold maxLabelValueLen in Hl. rewrite <- labelValueRe_valid, <- matches_lang by lia.
  destruct (matches _ _); naive_solver.
Qed.
End LabelValues.

(** ** Selection *)

(** Selectors identify one workload: the pods and objects labelled for a
    workload satisfy the selector of another one only if the two have the same
    name and UID, and they always satisfy their own.  Nothing but name and UID
    enters the selector, which Kubernetes does not allow to change. *)
Theorem selectors_isolate w1 w2 :
  selector_labels w1 ⊆ object_labels w2 ↔ w_Name w1 = w_Name w2 ∧ w_UID w1 = w_UID w2.
Proof.
  assert (∀ k, k ≠ labelUserID → object_labels w2 !! k = selector_labels w2 !! k) as Hsame.
  { intros k Hk. unfold object_labels. destruct (sanitizeLabelValue _); [|done].
    by rewrite lookup_insert_ne. }
  split.
  - intros Hsub. rewrite map_subseteq_spec in Hsub.
    specialize (Hsub labelName (w_Name w1)) as Hn. specialize (Hsub labelInstance (w_UID w1)) as Hu.
    rewrite Hsame in Hn, Hu by done. unfold selector_labels in Hn, Hu. simplify_map_eq. naive_solver.
  - intros [Hn Hu]. replace (selector_labels w1) with (selector_labels w2)
      by (unfold selector_labels; by rewrite Hn, Hu).
    unfold object_labels. destruct (sanitizeLabelValue _); [|done].
    by apply insert_subseteq.
Qed.

Section Objects.
Context `{!GoStd, !KubeLib}.

Lemma templates_routable t params r :
  t ∈ templates → t_Build t params = Ok r →
  forallb (port_targets r) (re_ServicePorts r) = true ∧ re_Containers r ≠ [].
Proof.
  intros Ht. revert t Ht r.
  apply (templates_cases (λ t, ∀ r, t_Build t params = Ok r → _)); intros r [= <-]; done.
Qed.

Lemma Get_templates id t : Get id = Some t → t ∈ templates.
Proof. intros Hg. by apply (proj1 (Get_in_spec _ _ _ templates_ids)) in Hg as [? _]. Qed.

Lemma render_routable w rd :
  render w = Ok rd →
  forallb (port_targets rd) (re_ServicePorts rd) = true ∧ re_Containers rd ≠ [].
Proof.
  unfold render. repeat case_decide; try done.
  - intros [= <-]. split; [|done]. simpl. unfold port_targets. simpl.
    rewrite bool_decide_true by set_solver. done.
  - destruct (Get _) eqn:Hg; [|done]. destruct (configToParams _); [|done].
    destruct (ResolveParams _ _); [|done]. apply templates_routable. by eapply Get_templates.
Qed.

(** C29. What the reconciler writes for a workload fits together: the Deployment
    selects exactly the pods it creates, the Service selects the same pods and
    each of its ports reaches a port some container listens on, the replica count
    is the desired one (0 when suspended), and neither write renames the object or
    touches the status the cluster reported. *)
Theorem applied_objects_consistent `{!KubeLibLaws} w rd d d' s s' :
  render w = Ok rd →
  mutate_deployment w (selector_labels w) (object_labels w) rd (desiredReplicaCount w) d = Ok d' →
  mutate_service w (selector_labels w) (object_labels w) rd s = Ok s' →
  (d_Selector d' ⊆ d_TemplateLabels d' ∧ s_Selector s' = d_Selector d' ∧
   d_Containers d' ≠ [] ∧
   (∀ sp, sp ∈ s_Ports s' →
      ∃ c, c ∈ d_Containers d' ∧ sp_TargetPort sp ∈ cp_ContainerPort <$> c_Ports c) ∧
   d_Replicas d' = Some (desiredReplicaCount w) ∧
   (ws_Suspended (w_Spec w) = true → d_Replicas d' = Some 0%Z)) ∧
  (meta_key (d_Meta d') = meta_key (d_Meta d) ∧ meta_key (s_Meta s') = meta_key (s_Meta s) ∧
   d_ReadyReplicas d' = d_ReadyReplicas d ∧ s_Type s' = s_Type s).
Proof.
  intros [Hports Hne]%render_routable Hd Hs. unfold mutate_deployment, mutate_service in *.
  destruct (SetControllerReference w (meta_with_labels (d_Meta d) _)) as [m|] eqn:Hm; [|done].
  destruct (SetControllerReference w (meta_with_labels (s_Meta s) _)) as [m'|] eqn:Hm'; [|done].
  apply controller_reference_meta in Hm as (_ & Hn & Hns & _).
  apply controller_reference_meta in Hm' as (_ & Hn' & Hns' & _).
  simplify_eq/=. unfold meta_key. rewrite Hn, Hns, Hn', Hns'. split; [|done].
  split_and!; try done.
  - unfold object_labels. destruct (sanitizeLabelValue _); [|done]. by apply insert_subseteq.
  - intros sp Hsp. rewrite forallb_forall in Hports.
    specialize (Hports sp). rewrite <- list_elem_of_In in Hports.
    specialize (Hports Hsp). unfold port_targets in Hports.
    apply existsb_exists in Hports as (c & Hc%list_elem_of_In & Hb%bool_decide_eq_true). eauto.
  - unfold desiredReplicaCount. by intros ->.
Qed.

(** The reason a rendering failure is reported with says what went wrong:
    InvalidSpec exactly for a workload with neither template nor image,
    UnknownTemplate exactly for a template the catalog does not have, and
    ReconcileError for every other rendering failure. *)
Theorem render_reason_spec `{!GoStdLaws} w err :
  render w = Err err →
  (render_reason err = reasonInvalidSpec ↔
     ws_TemplateName (w_Spec w) = "" ∧ ws_Image (w_Spec w) = "") ∧
  (render_reason err = reasonUnknownTemplate ↔
     ws_TemplateName (w_Spec w) ≠ "" ∧ Get (ws_TemplateName (w_Spec w)) = None) ∧
  render_reason err ∈ [reasonInvalidSpec; reasonUnknownTemplate; reasonReconcileError].
Proof.
  unfold render. case_decide as Ht; [case_decide as Hi; [|done]|].
  - intros [= <-]. repeat split; try done; try (by intros [? _]); set_solver.
  - destruct (Get _) as [t|] eqn:Hg.
    + assert (∀ e, (∀ s, errors_Is e s = false) → render_reason e = reasonReconcileError) as Hother.
      { intros e He. unfold render_reason. by rewrite !He. }
      intros Hr. rewrite (Hother err); [repeat split; try done; try (by intros [? ?]); set_solver|].
      intros s. destruct (configToParams _) as [raw|e] eqn:Hc.
      * destruct (ResolveParams _ _) as [m|e] eqn:Hp.
        -- destruct (templates_build_total t m) as [? Hb]; [by eapply Get_templates|].
           by rewrite Hb in Hr.
        -- injection Hr as <-. simpl. by eapply ResolveParams_foreign.
      * injection Hr as <-. simpl. unfold configToParams in Hc.
        destruct (ws_Config _) as [c|]; [|done]. case_decide; [done|]. by eapply json_unmarshal_foreign.
    + intros [= <-]. repeat split; try done; try (by intros [? ?]); set_solver.
Qed.

End Objects.
