(* ===== verification/Capacity.v ===== *)
(** * Capacity: the local headroom estimate

    [internal/capacity/tracker.go]: allocatable capacity of all nodes against the
    requests of the managed Deployments, in [int64] arithmetic. *)

From S2P Require Import Prelude.
From S2P Require Import Effects.
From S2P Require Import Go.
From S2P Require Import Json.
From S2P Require Import Api.
From S2P Require Import Calls.
From S2P Require Import Catalog.

Local Open Scope prog_scope.

Record Snapshot := {
  AllocatableMilliCPU : Z;
  AllocatableMemoryBytes : Z;
  UsedMilliCPU : Z;
  UsedMemoryBytes : Z;
}.

Definition empty_snapshot : Snapshot := {|
  AllocatableMilliCPU := 0; AllocatableMemoryBytes := 0;
  UsedMilliCPU := 0; UsedMemoryBytes := 0 |}.

(** [Snapshot.Fits]. *)
Definition Fits (s : Snapshot) (estMilliCPU estMemoryBytes : Z) : bool :=
  (estMilliCPU <=? int64 (AllocatableMilliCPU s - UsedMilliCPU s))%Z &&
  (estMemoryBytes <=? int64 (AllocatableMemoryBytes s - UsedMemoryBytes s))%Z.

Record Tracker := { tr_namespace : string }.

Definition NewTracker (namespace : string) : Tracker := {| tr_namespace := namespace |}.

Section Capacity.
Context `{!KubeLib}.

Definition add_node (snap : Snapshot) (n : Node) : Snapshot := {|
  AllocatableMilliCPU := int64 (AllocatableMilliCPU snap + Cpu_MilliValue (n_Allocatable n));
  AllocatableMemoryBytes := int64 (AllocatableMemoryBytes snap + Memory_Value (n_Allocatable n));
  UsedMilliCPU := UsedMilliCPU snap;
  UsedMemoryBytes := UsedMemoryBytes snap |}.

Definition add_container (replicas : Z) (snap : Snapshot) (c : Container) : Snapshot := {|
  AllocatableMilliCPU := AllocatableMilliCPU snap;
  AllocatableMemoryBytes := AllocatableMemoryBytes snap;
  UsedMilliCPU := int64 (UsedMilliCPU snap +
    int64 (Cpu_MilliValue (rr_Requests (c_Resources c)) * replicas));
  UsedMemoryBytes := int64 (UsedMemoryBytes snap +
    int64 (Memory_Value (rr_Requests (c_Resources c)) * replicas)) |}.

Definition replica_count (d : Deployment) : Z := default 1%Z (d_Replicas d).

Definition add_deployment (snap : Snapshot) (d : Deployment) : Snapshot :=
  foldl (add_container (replica_count d)) snap (d_Containers d).

(** [Tracker.Snapshot]. *)
Definition take_snapshot (t : Tracker) : program (result goerr Snapshot) :=
  nodes <- perform KListNodes ;;
  match nodes with
  | Err err => Ret (Err (wrapf "listing nodes: " err))
  | Ok nodes =>
      let snap := foldl add_node empty_snapshot nodes in
      deployments <- perform (KListDeployments (tr_namespace t) {[ ManagedBy := ManagedByValue ]}) ;;
      match deployments with
      | Err err => Ret (Err (wrapf "listing deployments: " err))
      | Ok deployments => Ret (Ok (foldl add_deployment snap deployments))
      end
  end.

(** ** Exact sums *)
Definition node_cpu (n : Node) : Z := Cpu_MilliValue (n_Allocatable n).
Definition node_memory (n : Node) : Z := Memory_Value (n_Allocatable n).
Definition container_cpu (c : Container) : Z := Cpu_MilliValue (rr_Requests (c_Resources c)).
Definition container_memory (c : Container) : Z := Memory_Value (rr_Requests (c_Resources c)).

(** What a Deployment asks for: nothing when it is scaled to zero. *)
Definition deployment_cpu (d : Deployment) : Z :=
  (replica_count d * zsum container_cpu (d_Containers d))%Z.
Definition deployment_memory (d : Deployment) : Z :=
  (replica_count d * zsum container_memory (d_Containers d))%Z.

(** The fields of a snapshot, each the wrapped value of an exact sum. *)
Definition snapshot_is (s : Snapshot) (ac am uc um : Z) : Prop :=
  AllocatableMilliCPU s = int64 ac ∧ AllocatableMemoryBytes s = int64 am ∧
  UsedMilliCPU s = int64 uc ∧ UsedMemoryBytes s = int64 um.

Lemma add_nodes_sum nodes s ac am uc um :
  snapshot_is s ac am uc um →
  snapshot_is (foldl add_node s nodes) (ac + zsum node_cpu nodes) (am + zsum node_memory nodes) uc um.
Proof.
  revert s ac am. induction nodes as [|n nodes IH]; intros s ac am Hs; simpl.
  { by rewrite !Z.add_0_r. }
  rewrite !Z.add_assoc. apply IH. destruct Hs as (Hc & Hm & Hu & Hum).
  unfold snapshot_is, node_cpu, node_memory. simpl. rewrite Hc, Hm, !int64_add_l. done.
Qed.

Lemma add_containers_sum r cs s ac am uc um :
  snapshot_is s ac am uc um →
  snapshot_is (foldl (add_container r) s cs) ac am
    (uc + r * zsum container_cpu cs) (um + r * zsum container_memory cs).
Proof.
  revert s uc um. induction cs as [|c cs IH]; intros s uc um Hs; simpl.
  { by rewrite !Z.mul_0_r, !Z.add_0_r. }
  rewrite !Z.mul_add_distr_l, !Z.add_assoc. apply IH. destruct Hs as (Hc & Hm & Hu & Hum).
  unfold snapshot_is, container_cpu, container_memory. simpl.
  rewrite Hu, Hum, !int64_add_l, !int64_add_r, !(Z.mul_comm r). done.
Qed.

Lemma add_deployments_sum ds s ac am uc um :
  snapshot_is s ac am uc um →
  snapshot_is (foldl add_deployment s ds) ac am
    (uc + zsum deployment_cpu ds) (um + zsum deployment_memory ds).
Proof.
  revert s uc um. induction ds as [|d ds IH]; intros s uc um Hs; simpl.
  { by rewrite !Z.add_0_r. }
  rewrite !Z.add_assoc. apply IH. by apply add_containers_sum.
Qed.

(** A capacity snapshot is exact modulo 2^64: it lists the nodes, then the
    managed Deployments of the workload namespace, and its four fields are the
    sums of allocatable CPU and memory and of requests times replicas over what
    was listed, wrapped to [int64] only once whatever the order of additions. *)
Theorem take_snapshot_exact t tr snap :
  exec (take_snapshot t) tr (Ok snap) →
  ∃ nodes ds,
    tr = [existT KListNodes (Ok nodes);
          existT (KListDeployments (tr_namespace t) {[ ManagedBy := ManagedByValue ]}) (Ok ds)] ∧
    snapshot_is snap (zsum node_cpu nodes) (zsum node_memory nodes)
      (zsum deployment_cpu ds) (zsum deployment_memory ds).
Proof.
  unfold take_snapshot. intros ([nodes|] & tr1 & -> & He); [|by destruct He].
  destruct He as ([ds|] & tr2 & -> & He); [|by destruct He].
  destruct He as [-> [= ->]]. exists nodes, ds. split; [done|].
  apply (add_deployments_sum ds _ _ _ 0 0), (add_nodes_sum nodes _ 0 0). done.
Qed.

End Capacity.

Lemma Fits_bound s cpu mem :
  (0 ≤ AllocatableMilliCPU s < 2 ^ 63)%Z → (0 ≤ UsedMilliCPU s < 2 ^ 63)%Z →
  (0 ≤ AllocatableMemoryBytes s < 2 ^ 63)%Z → (0 ≤ UsedMemoryBytes s < 2 ^ 63)%Z →
  Fits s cpu mem = true ↔
  (UsedMilliCPU s + cpu ≤ AllocatableMilliCPU s)%Z ∧
  (UsedMemoryBytes s + mem ≤ AllocatableMemoryBytes s)%Z.
Proof.
  intros ????. unfold Fits. rewrite !int64_small by (unfold in_int64; lia).
  rewrite andb_true_iff, !Z.leb_le. lia.
Qed.
