(* ===== verification/Provisioning.v ===== *)
(** * Provisioning: creating, changing and deleting Workload objects

    [internal/provisioning/creator.go], used by the HTTP API and by the claim loop.
    A [map[string]any] that may be nil is an [option]. *)

From S2P Require Import Prelude.
From S2P Require Import Effects.
From S2P Require Import Regex.
From S2P Require Import Go.
From S2P Require Import Json.
From S2P Require Import Api.
From S2P Require Import Calls.
From S2P Require Import Catalog.
From S2P Require Import CatalogTemplates.
From S2P Require Import Controller.
From S2P Require Import ControllerObjects.

Local Open Scope prog_scope.

Record WorkloadCreator := { wc_namespace : string }.
Record WorkloadDestroyer := { wd_namespace : string }.

Definition NewWorkloadCreator (namespace : string) : WorkloadCreator := {| wc_namespace := namespace |}.
Definition NewWorkloadDestroyer (namespace : string) : WorkloadDestroyer := {| wd_namespace := namespace |}.

Definition spec_with_config (s : WorkloadSpec) (config : option string) (at_ : string) : WorkloadSpec := {|
  ws_TemplateName := ws_TemplateName s; ws_Image := ws_Image s; ws_Replicas := ws_Replicas s;
  ws_ContainerPort := ws_ContainerPort s; ws_Env := ws_Env s; ws_Subdomain := ws_Subdomain s;
  ws_UserID := ws_UserID s; ws_Config := config; ws_Suspended := ws_Suspended s;
  ws_LastRedeployedAt := at_ |}.

Definition spec_with_suspended (s : WorkloadSpec) (b : bool) : WorkloadSpec := {|
  ws_TemplateName := ws_TemplateName s; ws_Image := ws_Image s; ws_Replicas := ws_Replicas s;
  ws_ContainerPort := ws_ContainerPort s; ws_Env := ws_Env s; ws_Subdomain := ws_Subdomain s;
  ws_UserID := ws_UserID s; ws_Config := ws_Config s; ws_Suspended := b;
  ws_LastRedeployedAt := ws_LastRedeployedAt s |}.

Section Provisioning.
Context `{!GoStd, !KubeLib}.

Definition marshalConfig (config : option (gmap string any)) : result goerr (option string) :=
  match config with
  | None => Ok None
  | Some m => match json_marshal_config m with
              | Ok raw => Ok (Some raw)
              | Err err => Err err
              end
  end.

Definition unknown_template (name : string) : goerr :=
  EWrap "" (ESentinel ErrUnknownTemplate) (": " +:+ fmt_q name).
Definition invalid_config (err : goerr) : goerr :=
  EWrap "" (ESentinel ErrInvalidConfig) (": " +:+ Error err).

(** The checks [Create] and [Redeploy] share: the template exists, its parameters
    accept the configuration, the configuration encodes. *)
Definition checked_config (templateName : string) (config : option (gmap string any))
    : result goerr (option string) :=
  match Get templateName with
  | None => Err (unknown_template templateName)
  | Some tmpl =>
      match ResolveParams (t_Parameters tmpl) (default ∅ config) with
      | Err err => Err (invalid_config err)
      | Ok _ => match marshalConfig config with
                | Err err => Err (invalid_config err)
                | Ok configRaw => Ok configRaw
                end
      end
  end.

Definition new_workload (wc : WorkloadCreator) (workloadID templateName userID subdomain : string)
    (configRaw : option string) : Workload := {|
  w_Meta := {|
    om_Name := ""; om_GenerateName := templateName +:+ "-"; om_Namespace := wc_namespace wc;
    om_UID := ""; om_ResourceVersion := ""; om_Generation := 0;
    om_Labels := (if decide (workloadID = "") then ∅ else {[ WorkloadID := workloadID ]});
    om_Annotations := ∅; om_Finalizers := []; om_OwnerReferences := [];
    om_DeletionTimestamp := None |};
  w_Spec := {|
    ws_TemplateName := templateName; ws_Image := ""; ws_Replicas := None; ws_ContainerPort := 0;
    ws_Env := []; ws_Subdomain := subdomain; ws_UserID := userID; ws_Config := configRaw;
    ws_Suspended := false; ws_LastRedeployedAt := "" |};
  w_Status := empty_status |}.

Definition Create (wc : WorkloadCreator) (workloadID templateName userID subdomain : string)
    (config : option (gmap string any)) : program (result goerr Workload) :=
  match checked_config templateName config with
  | Err err => Ret (Err err)
  | Ok configRaw =>
      created <- perform (KCreateWorkload
                   (new_workload wc workloadID templateName userID subdomain configRaw)) ;;
      match created with
      | Err err => Ret (Err (wrapf "creating workload: " err))
      | Ok workload => Ret (Ok workload)
      end
  end.

Definition Redeploy (wc : WorkloadCreator) (name : string) (config : option (gmap string any))
    : program (option goerr) :=
  got <- perform (KGetWorkload {| nn_Namespace := wc_namespace wc; nn_Name := name |}) ;;
  match got with
  | Err err => Ret (Some (wrapf ("getting workload " +:+ fmt_q name +:+ ": ") err))
  | Ok workload =>
      match checked_config (ws_TemplateName (w_Spec workload)) config with
      | Err err => Ret (Some err)
      | Ok configRaw =>
          now <- perform Now ;;
          upd <- perform (KUpdateWorkload (w_with_spec workload
                   (spec_with_config (w_Spec workload) configRaw (rfc3339nano now)))) ;;
          match upd with
          | Err err => Ret (Some (wrapf ("updating workload " +:+ fmt_q name +:+ ": ") err))
          | Ok _ => Ret None
          end
      end
  end.

Definition SetSuspended (wc : WorkloadCreator) (name : string) (suspended : bool)
    : program (option goerr) :=
  got <- perform (KGetWorkload {| nn_Namespace := wc_namespace wc; nn_Name := name |}) ;;
  match got with
  | Err err => Ret (Some (wrapf ("getting workload " +:+ fmt_q name +:+ ": ") err))
  | Ok workload =>
      upd <- perform (KUpdateWorkload (w_with_spec workload
               (spec_with_suspended (w_Spec workload) suspended))) ;;
      match upd with
      | Err err => Ret (Some (wrapf ("updating workload " +:+ fmt_q name +:+ ": ") err))
      | Ok _ => Ret None
      end
  end.

Definition Destroy (wd : WorkloadDestroyer) (name : string) : program (option goerr) :=
  deleted <- perform (KDeleteWorkload {| nn_Namespace := wd_namespace wd; nn_Name := name |}) ;;
  match deleted with
  | Ok _ => Ret None
  | Err err =>
      if IsNotFound err then Ret None
      else Ret (Some (wrapf ("deleting workload " +:+ fmt_q name +:+ ": ") err))
  end.

(** ** What the checks guarantee *)

(** A configuration a request can carry: nil, or a map that survives JSON. *)
Definition request_config (config : option (gmap string any)) : Prop :=
  match config with None => True | Some m => json_roundtrips m end.

Lemma configToParams_marshalConfig config raw :
  request_config config → marshalConfig config = Ok raw →
  configToParams raw = Ok (default ∅ config).
Proof.
  intros Hj. destruct config as [m|]; simpl; [|by intros [= <-]].
  destruct Hj as (r & -> & Hne & Hu). intros [= <-].
  simpl. by rewrite decide_False.
Qed.

(** A configuration that passed the checks renders, in any Workload that carries
    it with that template. *)
Lemma checked_config_renders name config raw w :
  request_config config → checked_config name config = Ok raw →
  ws_TemplateName (w_Spec w) = name → ws_Config (w_Spec w) = raw → name ≠ "" →
  is_ok (render w) = true.
Proof.
  intros Hj Hc Hn Hraw Hne. unfold checked_config in Hc.
  destruct (Get name) as [t|] eqn:Hg; [|done].
  destruct (ResolveParams _ _) as [m|] eqn:Hp; [|done].
  destruct (marshalConfig config) as [r|] eqn:Hm; [|done]. injection Hc as ->.
  unfold render. rewrite Hn, decide_False, Hg, Hraw by done.
  rewrite (configToParams_marshalConfig config) by done. rewrite Hp.
  destruct (templates_build_total t m) as [rd ->]; [by eapply Get_templates|done].
Qed.

Lemma Get_nonempty name t : Get name = Some t → name ≠ "".
Proof. intros Hg ->. vm_compute in Hg. done. Qed.

Lemma checked_config_nonempty name config raw : checked_config name config = Ok raw → name ≠ "".
Proof.
  unfold checked_config. destruct (Get name) eqn:Hg; [|done]. intros _. by eapply Get_nonempty.
Qed.

(** ** The operations *)

(** The API server stores the template and the configuration it is given. *)
Definition spec_stored (e : event answer) : Prop :=
  match e with
  | existT (KCreateWorkload w) (Ok w') =>
      ws_TemplateName (w_Spec w') = ws_TemplateName (w_Spec w) ∧
      ws_Config (w_Spec w') = ws_Config (w_Spec w)
  | _ => True
  end.

(** Nothing is accepted that the reconciler cannot render: when [Create]
    succeeds, it made one call, creating an object in the configured namespace
    named after the template and labelled with the request's id, and the object
    the API server stored renders. *)
Theorem created_workload_renders wc id tn uid sub config tr w :
  request_config config →
  exec (Create wc id tn uid sub config) tr (Ok w) → Forall spec_stored tr →
  is_ok (render w) = true ∧
  ∃ w0, tr = [existT (KCreateWorkload w0) (Ok w)] ∧
    w_Namespace w0 = wc_namespace wc ∧ om_GenerateName (w_Meta w0) = tn +:+ "-" ∧
    ws_UserID (w_Spec w0) = uid ∧ ws_Subdomain (w_Spec w0) = sub ∧
    (id ≠ "" → w_Labels w0 !! WorkloadID = Some id).
Proof.
  intros Hj He Hs. unfold Create in He.
  destruct (checked_config tn config) as [raw|err] eqn:Hc; [|by destruct He].
  destruct He as ([w'|err] & tr' & -> & He); [|by destruct He].
  destruct He as [-> [= <-]]. apply Forall_inv in Hs as [Ht Hcfg]. simpl in Ht, Hcfg. split.
  - eapply checked_config_renders; eauto using checked_config_nonempty.
  - eexists. split; [done|]. repeat split. intros Hid. unfold w_Labels. simpl.
    rewrite decide_False by done. by simplify_map_eq.
Qed.

(** A request [Create] refuses leaves the cluster alone: an unknown template
    or a configuration the template does not accept is reported with its own
    sentinel, before any call; every other error comes from the API server. *)
Theorem Create_error_spec wc id tn uid sub config tr err :
  exec (Create wc id tn uid sub config) tr (Err err) →
  (tr = [] ∧ Get tn = None ∧ errors_Is err ErrUnknownTemplate = true) ∨
  (tr = [] ∧ is_Some (Get tn) ∧ errors_Is err ErrInvalidConfig = true) ∨
  (∃ w0 e, tr = [existT (KCreateWorkload w0) (Err e)] ∧ err = wrapf "creating workload: " e ∧
     is_ok (checked_config tn config) = true).
Proof.
  unfold Create. destruct (checked_config tn config) as [raw|e] eqn:Hc.
  - intros ([w'|e] & tr' & -> & He); [by destruct He|]. destruct He as [-> [= ->]].
    right; right. eauto.
  - intros [-> [= ->]]. unfold checked_config in Hc. destruct (Get tn) as [t|] eqn:Hg.
    + right; left. split; [done|]. split; [done|].
      destruct (ResolveParams _ _); [|by injection Hc as <-].
      destruct (marshalConfig _); [done|by injection Hc as <-].
    + left. by injection Hc as <-.
Qed.

(** The fields of a spec a redeploy leaves alone. *)
Definition same_but_config (s s' : WorkloadSpec) : Prop :=
  spec_with_config s' (ws_Config s) (ws_LastRedeployedAt s) = s.

Definition writes (c : call) : bool :=
  match c with
  | KCreateWorkload _ | KUpdateWorkload _ | KDeleteWorkload _ => true
  | _ => false
  end.

(** A redeploy either fails without writing anything, or writes once: the
    workload it has just read with a new configuration and the current time as
    redeploy stamp and nothing else changed.  The object written renders, and it
    differs from the stored one unless two readings of the clock format alike, so
    the reconciler always sees a new generation. *)
Theorem Redeploy_spec wc name config tr res :
  request_config config →
  exec (Redeploy wc name config) tr res →
  (res ≠ None ∧ Forall (λ e, writes (projT1 e) = false) tr) ∨
  ∃ w w' now a,
    tr = [existT (KGetWorkload {| nn_Namespace := wc_namespace wc; nn_Name := name |}) (Ok w);
          existT Now now; existT (KUpdateWorkload w') a] ∧
    (res = None ↔ is_ok a = true) ∧
    w_Meta w' = w_Meta w ∧ w_Status w' = w_Status w ∧ same_but_config (w_Spec w) (w_Spec w') ∧
    is_ok (render w') = true ∧
    (ws_LastRedeployedAt (w_Spec w) ≠ rfc3339nano now → w_Spec w' ≠ w_Spec w).
Proof.
  intros Hj He. unfold Redeploy in He. destruct He as ([w|e] & tr1 & -> & He).
  2:{ left. destruct He as [-> ->]. split; [done|]. by repeat constructor. }
  simpl in He. destruct (checked_config _ _) as [raw|e] eqn:Hc.
  2:{ left. destruct He as [-> ->]. split; [done|]. by repeat constructor. }
  right. destruct He as (now & tr2 & -> & a & tr3 & -> & He). eexists w, _, now, a.
  assert (tr3 = [] ∧ (res = None ↔ is_ok a = true)) as [-> Hres] by (simpl in *; destruct a; by destruct He as [-> ->]).
  split; [reflexivity|]. split; [done|]. split; [done|]. split; [done|].
  split; [by destruct (w_Spec w)|]. split.
  - eapply checked_config_renders; eauto using checked_config_nonempty.
  - intros Hne Heq. apply Hne. by rewrite <- Heq.
Qed.

(** Stopping or resuming changes one bit of the spec: [SetSuspended] writes
    back the workload it has just read with [suspended] set and everything else
    as it was, and afterwards the desired replica count is 0 exactly when the
    workload was stopped or asks for none. *)
Theorem SetSuspended_spec wc name b tr res :
  exec (SetSuspended wc name b) tr res →
  (res ≠ None ∧ Forall (λ e, writes (projT1 e) = false) tr) ∨
  ∃ w w' a,
    tr = [existT (KGetWorkload {| nn_Namespace := wc_namespace wc; nn_Name := name |}) (Ok w);
          existT (KUpdateWorkload w') a] ∧
    (res = None ↔ is_ok a = true) ∧
    w_Meta w' = w_Meta w ∧ w_Status w' = w_Status w ∧
    spec_with_suspended (w_Spec w') (ws_Suspended (w_Spec w)) = w_Spec w ∧
    (desiredReplicaCount w' = 0%Z ↔ b = true ∨ ws_Replicas (w_Spec w) = Some 0%Z) ∧
    (is_ok (render w') = is_ok (render w)).
Proof.
  unfold SetSuspended. intros ([w|e] & tr1 & -> & He).
  2:{ left. destruct He as [-> ->]. split; [done|]. by repeat constructor. }
  right. destruct He as (a & tr2 & -> & He). eexists w, _, a.
  assert (tr2 = [] ∧ (res = None ↔ is_ok a = true)) as [-> Hres] by (simpl in *; destruct a; by destruct He as [-> ->]).
  split; [reflexivity|]. split; [done|]. split; [done|]. split; [done|].
  split; [by destruct (w_Spec w)|]. split; [|done].
  unfold desiredReplicaCount. simpl. destruct b; [naive_solver|].
  destruct (ws_Replicas (w_Spec w)) as [n|]; unfold DefaultReplicas; naive_solver.
Qed.

(** [Destroy] is idempotent: it makes one delete call for the named workload
    in the configured namespace, and succeeds exactly when the object is deleted
    or already gone, so repeating it after a success cannot fail on absence. *)
Theorem Destroy_spec wd name tr res :
  exec (Destroy wd name) tr res →
  ∃ a, tr = [existT (KDeleteWorkload {| nn_Namespace := wd_namespace wd; nn_Name := name |}) a] ∧
    (res = None ↔ match a with Ok _ => True | Err e => IsNotFound e = true end).
Proof.
  intros (a & tr' & -> & He). exists a.
  destruct a as [|e]; simpl in He; [|destruct (IsNotFound e) eqn:Hn]; by destruct He as [-> ->].
Qed.

End Provisioning.
