(* ===== verification/TokenStore.v ===== *)
(** * TokenStore: the persisted credentials

    [internal/tokenstore/tokenstore.go] (the tokens issued at registration, in one
    Secret), [internal/gateway/keystore.go] (the cookie signing key, in another) and
    [internal/workloadns/ensure.go] (the namespace of the workloads). *)

From S2P Require Import Prelude.
From S2P Require Import Effects.
From S2P Require Import Go.
From S2P Require Import Json.
From S2P Require Import Api.
From S2P Require Import Calls.

Local Open Scope prog_scope.

Definition SecretName : string := "ai-cloud-operator-token".
Definition keyHeartbeatToken : string := "heartbeatToken".
Definition keyDeployToken : string := "deployToken".
Definition keyCatalogHash : string := "catalogHash".
Definition keyOperatorVersion : string := "operatorVersion".
Definition keyTagsFingerprint : string := "tagsFingerprint".

Definition SecretTypeOpaque : string := "Opaque".

Record Tokens := {
  HeartbeatToken : string;
  DeployToken : string;
  CatalogHash : string;
  OperatorVersion : string;
  TagsFingerprintOf : string;
}.

Definition no_tokens : Tokens := {|
  HeartbeatToken := ""; DeployToken := ""; CatalogHash := ""; OperatorVersion := "";
  TagsFingerprintOf := "" |}.

Record Store := { st_namespace : string }.

(** [New]. *)
Definition NewStore (namespace : string) : Store := {| st_namespace := namespace |}.

Definition token_key (s : Store) : NamespacedName :=
  {| nn_Namespace := st_namespace s; nn_Name := SecretName |}.

Definition secret_tokens (secret : Secret) : Tokens := {|
  HeartbeatToken := secret_data secret keyHeartbeatToken;
  DeployToken := secret_data secret keyDeployToken;
  CatalogHash := secret_data secret keyCatalogHash;
  OperatorVersion := secret_data secret keyOperatorVersion;
  TagsFingerprintOf := secret_data secret keyTagsFingerprint |}.

Definition Load (s : Store) : program (result goerr (Tokens * bool)) :=
  got <- perform (KGetSecret (token_key s)) ;;
  match got with
  | Err err =>
      if IsNotFound err then Ret (Ok (no_tokens, false))
      else Ret (Err (wrapf "getting token secret: " err))
  | Ok secret =>
      let tokens := secret_tokens secret in
      if decide (HeartbeatToken tokens = "" ∨ DeployToken tokens = "")
      then Ret (Ok (no_tokens, false)) else Ret (Ok (tokens, true))
  end.

Definition write_tokens (tokens : Tokens) (data : gmap string string) : gmap string string :=
  <[keyTagsFingerprint := TagsFingerprintOf tokens]>
  (<[keyOperatorVersion := OperatorVersion tokens]>
  (<[keyCatalogHash := CatalogHash tokens]>
  (<[keyDeployToken := DeployToken tokens]>
  (<[keyHeartbeatToken := HeartbeatToken tokens]> data)))).

Definition token_keys : list string :=
  [keyHeartbeatToken; keyDeployToken; keyCatalogHash; keyOperatorVersion; keyTagsFingerprint].

Definition Save (s : Store) (tokens : Tokens) : program (option goerr) :=
  got <- perform (KGetSecret (token_key s)) ;;
  match got with
  | Err err =>
      if IsNotFound err then
        created <- perform (KCreateSecret {|
          sec_Meta := meta_with_labels (named_meta (st_namespace s) SecretName)
                        {[ ManagedBy := ManagedByValue ]};
          sec_Type := SecretTypeOpaque;
          sec_Data := Some (write_tokens tokens ∅) |}) ;;
        match created with
        | Err err => Ret (Some (wrapf "creating token secret: " err))
        | Ok _ => Ret None
        end
      else Ret (Some (wrapf "getting token secret before update: " err))
  | Ok secret =>
      updated <- perform (KUpdateSecret {|
        sec_Meta := sec_Meta secret;
        sec_Type := sec_Type secret;
        sec_Data := Some (write_tokens tokens (default ∅ (sec_Data secret))) |}) ;;
      match updated with
      | Err err => Ret (Some (wrapf "updating token secret: " err))
      | Ok _ => Ret None
      end
  end.

Lemma write_tokens_read m ty t data :
  secret_tokens {| sec_Meta := m; sec_Type := ty; sec_Data := Some (write_tokens t data) |} = t.
Proof. destruct t. unfold secret_tokens, secret_data, write_tokens. simpl. by simplify_map_eq. Qed.

Lemma write_tokens_other t data k :
  k ∉ token_keys → write_tokens t data !! k = data !! k.
Proof.
  unfold token_keys. rewrite !not_elem_of_cons. intros (? & ? & ? & ? & ? & _).
  unfold write_tokens. by rewrite !lookup_insert_ne by congruence.
Qed.

(** What [Load] makes of stored tokens. *)
Definition loaded (t : Tokens) : Tokens * bool :=
  if decide (HeartbeatToken t = "" ∨ DeployToken t = "") then (no_tokens, false) else (t, true).

Lemma Load_stored s sec :
  exec (Load s) [existT (KGetSecret (token_key s)) (Ok sec)] (Ok (loaded (secret_tokens sec))).
Proof.
  unfold Load, loaded. exists (Ok sec), []. split; [done|]. cbn. by destruct (decide _).
Qed.

(** The secret a successful [Save] left behind. *)
Definition stored_secret (e : event answer) : option Secret :=
  match e with
  | existT (KCreateSecret s) (Ok _) => Some s
  | existT (KUpdateSecret s) (Ok _) => Some s
  | _ => None
  end.

Definition read_secret (e : event answer) : option Secret :=
  match e with
  | existT (KGetSecret _) (Ok s) => Some s
  | _ => None
  end.

(** C38. What [Save] stores, [Load] reads back: a successful [Save] ends with one
    write, and reading the Secret it wrote yields the tokens saved when both tokens
    are non-empty; if one of them is empty, which [Save] does not reject, [Load] finds
    no registration at all.  Every other key of a Secret that existed already keeps
    its value. *)
Theorem Save_Load_roundtrip s t tr :
  exec (Save s t) tr None →
  ∃ e0 e1 secret, tr = [e0; e1] ∧ stored_secret e1 = Some secret ∧
    (HeartbeatToken t ≠ "" ∧ DeployToken t ≠ "" →
     exec (Load s) [existT (KGetSecret (token_key s)) (Ok secret)] (Ok (t, true))) ∧
    (HeartbeatToken t = "" ∨ DeployToken t = "" →
     exec (Load s) [existT (KGetSecret (token_key s)) (Ok secret)] (Ok (no_tokens, false))) ∧
    ∀ k old, k ∉ token_keys → read_secret e0 = Some old →
      default ∅ (sec_Data secret) !! k = default ∅ (sec_Data old) !! k.
Proof.
  intros He.
  assert (∀ m ty data, exec (Load s) [existT (KGetSecret (token_key s))
     (Ok {| sec_Meta := m; sec_Type := ty; sec_Data := Some (write_tokens t data) |})] (Ok (loaded t))) as HL.
  { intros m ty data. rewrite <- (write_tokens_read m ty t data) at 2. apply Load_stored. }
  assert (HeartbeatToken t ≠ "" ∧ DeployToken t ≠ "" → loaded t = (t, true)) as Hfull.
  { intros [? ?]. unfold loaded. by rewrite decide_False by tauto. }
  assert (HeartbeatToken t = "" ∨ DeployToken t = "" → loaded t = (no_tokens, false)) as Hempty.
  { intros ?. unfold loaded. by rewrite decide_True. }
  unfold Save in He. destruct He as ([old|err] & tr1 & -> & He); simpl in He.
  - destruct He as ([]& tr2 & -> & He); [|by destruct He]. destruct He as [-> _].
    eexists _, _, _. split_and!; [reflexivity|reflexivity|..].
    + intros <-%Hfull. apply HL.
    + intros <-%Hempty. apply HL.
    + intros k old' Hk [= <-]. simpl. by apply write_tokens_other.
  - destruct (IsNotFound err); [|by destruct He].
    destruct He as ([] & tr2 & -> & He); [|by destruct He]. destruct He as [-> _].
    eexists _, _, _. split_and!; [reflexivity|reflexivity|..]; [| |done].
    + intros <-%Hfull. apply HL.
    + intros <-%Hempty. apply HL.
Qed.

(** ** keystore.go *)
Definition KeySecretName : string := "ai-cloud-operator-gateway-key".
Definition keySigningKey : string := "signingKey".
Definition signingKeyBytes : nat := 32.

Record KeyStore := { ks_namespace : string }.

Definition NewKeyStore (namespace : string) : KeyStore := {| ks_namespace := namespace |}.

Definition signing_key_ref (s : KeyStore) : NamespacedName :=
  {| nn_Namespace := ks_namespace s; nn_Name := KeySecretName |}.

Definition key_secret (s : KeyStore) (key : string) : Secret := {|
  sec_Meta := meta_with_labels (named_meta (ks_namespace s) KeySecretName)
                {[ ManagedBy := ManagedByValue ]};
  sec_Type := SecretTypeOpaque;
  sec_Data := Some {[ keySigningKey := key ]} |}.

(** The second half: generate a key and try to create the Secret with it. *)
Definition generate (s : KeyStore) : program (result goerr string) :=
  rand <- perform (RandRead signingKeyBytes) ;;
  match rand with
  | Err err => Ret (Err (wrapf "generating gateway signing key: " err))
  | Ok key =>
      created <- perform (KCreateSecret (key_secret s key)) ;;
      match created with
      | Ok _ => Ret (Ok key)
      | Err err =>
          if IsAlreadyExists err then
            existing <- perform (KGetSecret (signing_key_ref s)) ;;
            match existing with
            | Err getErr =>
                Ret (Err (wrapf "getting gateway key secret after lost create race: " getErr))
            | Ok existing =>
                let existingKey := secret_data existing keySigningKey in
                if decide (existingKey = "")
                then Ret (Err (ENew ("gateway key secret exists but has no " +:+ keySigningKey +:+ " data")))
                else Ret (Ok existingKey)
            end
          else Ret (Err (wrapf "creating gateway key secret: " err))
      end
  end.

Definition LoadOrGenerate (s : KeyStore) : program (result goerr string) :=
  got <- perform (KGetSecret (signing_key_ref s)) ;;
  match got with
  | Ok secret =>
      let key := secret_data secret keySigningKey in
      if decide (key = "") then generate s else Ret (Ok key)
  | Err err =>
      if IsNotFound err then generate s
      else Ret (Err (wrapf "getting gateway key secret: " err))
  end.

(** *** Replicas that race for the key

    The API server is a parameter: [SecretApi] are the Secrets it stores, what other
    clients do to them and how it answers calls; [SecretApiLaws] is what is documented of
    it.  Reads of Secrets are not cached ([clientOptions] of [cmd/main.go]).  A create
    never overwrites; one that succeeded has stored its data, and one that failed, by a
    timeout for instance, may have stored them too. *)
Class SecretApi (S : Type) := {
  secret_at : S → NamespacedName → option Secret;
  secret_moves : S → S → Prop;
  secret_step : ∀ c, S → answer c → S → Prop;
}.

(** The Secrets a call may write, given what is stored there. *)
Definition writes_secret (c : call) (key : NamespacedName) (o : option Secret) : Prop :=
  match c with
  | KCreateSecret sec => key = meta_key (sec_Meta sec) ∧ o = None
  | KUpdateSecret sec => key = meta_key (sec_Meta sec)
  | _ => False
  end.

Class SecretApiLaws (S : Type) `{!SecretApi S} : Prop := {
  secret_read (s s' : S) key sec : secret_step (KGetSecret key) s (Ok sec) s' → secret_at s key = Some sec;
  secret_created (s s' : S) sec sec' :
    secret_step (KCreateSecret sec) s (Ok sec') s' →
    ∃ x, secret_at s' (meta_key (sec_Meta sec)) = Some x ∧ sec_Data x = sec_Data sec;
  secret_effect (s s' : S) c r key :
    secret_step c s r s' → secret_at s' key = secret_at s key ∨ writes_secret c key (secret_at s key);
}.

Section Replicas.
Context {S : Type} `{!SecretApi S, !SecretApiLaws S} (ks : KeyStore).

(** Once there, the Secret of the key stays as it is. *)
Definition key_kept (s s' : S) : Prop :=
  secret_at s (signing_key_ref ks) = None ∨
  secret_at s' (signing_key_ref ks) = secret_at s (signing_key_ref ks).

#[local] Instance key_kept_preorder : PreOrder key_kept.
Proof.
  split; unfold key_kept; [by right|].
  intros ? ? ? [?|?] [?|?]; first [left; congruence|right; congruence].
Qed.

(** A call of a replica, after other clients have done anything but change or remove a
    Secret of the key that is there. *)
Definition replica_srv (c : call) (s : S) (r : answer c) (s' : S) : Prop :=
  ∃ s1, rtc (λ a b, secret_moves a b ∧ key_kept a b) s s1 ∧ secret_step c s1 r s'.

Definition agreed_key (s : S) (r : result goerr string) : Prop :=
  match r with
  | Ok key => ∃ sec, secret_at s (signing_key_ref ks) = Some sec ∧ secret_data sec keySigningKey = key
  | Err _ => True
  end.

(** Calls that cannot overwrite the key. *)
Definition replica_call (c : call) : Prop := match c with KUpdateSecret _ => False | _ => True end.

Lemma step_kept c s r s' : secret_step c s r s' → replica_call c → key_kept s s'.
Proof.
  intros Hs Hc. destruct (secret_effect s s' c r (signing_key_ref ks) Hs) as [|Hw]; [by right|left].
  destruct c; simpl in *; try done. by destruct Hw.
Qed.

Lemma replica_kept c s r s' : replica_srv c s r s' → replica_call c → key_kept s s'.
Proof.
  intros (s1 & Hm & Hs) Hc. etrans; [|by eapply step_kept]. clear Hs.
  induction Hm as [|s s2 s1 [_ Hk] _ IH]; [reflexivity|by etrans].
Qed.

Lemma key_found s s' sec :
  secret_at s (signing_key_ref ks) = Some sec → key_kept s s' →
  agreed_key s' (Ok (secret_data sec keySigningKey)).
Proof. intros Hs [Hn|Hk]; [congruence|]. exists sec. by rewrite Hk. Qed.

Lemma replica_read s sec s' :
  replica_srv (KGetSecret (signing_key_ref ks)) s (Ok sec) s' → secret_at s' (signing_key_ref ks) = Some sec.
Proof.
  intros (s1 & _ & Hs). pose proof (secret_read _ _ _ _ Hs) as Hr.
  destruct (secret_effect _ _ _ _ (signing_key_ref ks) Hs) as [->|[]]. done.
Qed.

Lemma generate_always s : always key_kept replica_srv agreed_key s (generate ks).
Proof.
  simpl. intros s1 _ [key|e] s2 Hs2; (split; [by eapply replica_kept|]); [|done].
  simpl. intros s3 _ [sec|e] s4 Hs4; (split; [by eapply replica_kept|]); simpl.
  - destruct Hs4 as (s' & _ & (x & Hx & Hd)%secret_created). intros s5 Hk.
    replace key with (secret_data x keySigningKey)
      by (unfold secret_data; rewrite Hd; simpl; by simplify_map_eq).
    by eapply key_found.
  - destruct (IsAlreadyExists e); [|done]. simpl.
    intros s5 _ [sec|e'] s6 Hs6; (split; [by eapply replica_kept|]); [|done].
    destruct (decide _); simpl; intros s7 Hk; [exact I|]. by eapply key_found, Hk; eapply replica_read.
Qed.

Lemma LoadOrGenerate_always s : always key_kept replica_srv agreed_key s (LoadOrGenerate ks).
Proof.
  intros s1 _ [sec|e] s2 Hs2; (split; [by eapply replica_kept|]); cbn -[generate].
  - destruct (decide _); [apply generate_always|]. intros s3 Hk. by eapply key_found, Hk; eapply replica_read.
  - destruct (IsNotFound e); [apply generate_always|]. by intros.
Qed.

(** C18. Replicas converge on one signing key: however many replicas run
    [LoadOrGenerate] at once, in whatever order their calls reach the API server,
    whichever of them fail, with or without having taken effect, and whatever other
    clients do short of changing or removing the key's Secret once it is there, all
    replicas that obtain a key obtain the same one, which is the key stored in the
    Secret. *)
Theorem replicas_agree_on_key n s0 ts s k1 k2 :
  rtc (pool_step replica_srv) (replicate n (LoadOrGenerate ks), s0) (ts, s) →
  Ret (Ok k1) ∈ ts → Ret (Ok k2) ∈ ts →
  k1 = k2 ∧ ∃ sec, secret_at s (signing_key_ref ks) = Some sec ∧ secret_data sec keySigningKey = k1.
Proof.
  intros Hsteps H1 H2.
  pose proof (pool_always key_kept replica_srv agreed_key _ _ _ _ Hsteps) as Hall.
  assert (Forall (always key_kept replica_srv agreed_key s0) (replicate n (LoadOrGenerate ks))) as Hinit.
  { apply Forall_replicate, LoadOrGenerate_always. }
  specialize (Hall Hinit). rewrite Forall_forall in Hall.
  destruct (Hall _ H1 s) as (sec1 & Hs & <-); [reflexivity|].
  destruct (Hall _ H2 s) as (sec2 & Hs' & <-); [reflexivity|].
  assert (sec1 = sec2) as -> by congruence. eauto.
Qed.

End Replicas.

(** ** workloadns/ensure.go *)
Definition podSecurityLevelBaseline : string := "baseline".
Definition podSecurityLabels : gmap string string :=
  {[ "pod-security.kubernetes.io/enforce" := podSecurityLevelBaseline;
     "pod-security.kubernetes.io/audit" := podSecurityLevelBaseline;
     "pod-security.kubernetes.io/warn" := podSecurityLevelBaseline ]}.

Definition labelled_namespace (name : string) : Namespace :=
  {| ns_Meta := meta_with_labels (named_meta "" name) podSecurityLabels |}.

Definition EnsureNamespace `{!GoStd} (name : string) : program (option goerr) :=
  created <- perform (KCreateNamespace (labelled_namespace name)) ;;
  match created with
  | Ok _ => Ret None
  | Err err =>
      if negb (IsAlreadyExists err)
      then Ret (Some (wrapf ("creating workload namespace " +:+ fmt_q name +:+ ": ") err))
      else
        patched <- perform (KPatchNamespace (labelled_namespace name)) ;;
        match patched with
        | Ok _ => Ret None
        | Err err => Ret (Some (wrapf ("labeling existing workload namespace " +:+ fmt_q name +:+ ": ") err))
        end
  end.

(** A write that leaves the namespace [name] with the pod security labels. *)
Definition labels_namespace (name : string) (e : event answer) : Prop :=
  match e with
  | existT (KCreateNamespace n) (Ok _) => om_Name (ns_Meta n) = name ∧ om_Labels (ns_Meta n) = podSecurityLabels
  | existT (KPatchNamespace n) (Ok _) => om_Name (ns_Meta n) = name ∧ om_Labels (ns_Meta n) = podSecurityLabels
  | _ => False
  end.

(** [EnsureNamespace] succeeds exactly when its last call put the pod security
    labels on the workload namespace, whether it had to be created or existed
    before, and it never reads through the cache that is not started yet: its only
    calls are that create and that patch. *)
Theorem EnsureNamespace_spec `{!GoStd} name tr res :
  exec (EnsureNamespace name) tr res →
  (res = None ↔ ∃ e, last tr = Some e ∧ labels_namespace name e) ∧
  Forall (λ e, match projT1 e with KCreateNamespace _ | KPatchNamespace _ => True | _ => False end) tr.
Proof.
  intros ([u|err] & tr1 & -> & He); simpl in He; [|destruct (IsAlreadyExists err); simpl in He;
    [destruct He as ([u|err'] & tr2 & -> & He)|]]; destruct He as [-> ->];
    rewrite !Forall_cons, Forall_nil; (split; [|done]); (split; [intros Hr|intros (e & [= <-] & Hl)]);
    try done; eexists; by split.
Qed.
