(* ===== verification/Metrics.v ===== *)
(** * Metrics: usage telemetry

    [internal/metrics/collector.go] and [reporter.go]: network
    samples of the managed pods, and the live usage of the cluster, both read from
    the kubelet's stats/summary documents.  A Go map is iterated in an unspecified
    order: [Collect] takes it as the parameter [order]. *)

From S2P Require Import Prelude.
From S2P Require Import Effects.
From S2P Require Import Go.
From S2P Require Import Json.
From S2P Require Import Api.
From S2P Require Import Manager.
From S2P Require Import Calls.

Local Open Scope prog_scope.

Definition workloadNameLabel : string := "app.kubernetes.io/name".
Definition MetricNetworkRxBytes : string := "network.rxBytes".
Definition MetricNetworkTxBytes : string := "network.txBytes".

Record Collector := { cl_namespace : string }.

Definition NewCollector (namespace : string) : program (result goerr Collector) :=
  clientset <- perform (Setup NewForConfig) ;;
  match clientset with
  | Some err => Ret (Err (wrapf "building kubernetes clientset: " err))
  | None => Ret (Ok {| cl_namespace := namespace |})
  end.

(** ** The subset of stats/summary that is decoded *)
Record cpuStats := { UsageNanoCores : option Z }.
Record memoryStats := { WorkingSetBytes : option Z }.
Record networkStats := { RxBytes : option Z; TxBytes : option Z }.
Record podReference := { pr_Name : string; pr_Namespace : string }.
Record podStats := {
  ps_PodRef : podReference;
  ps_CPU : option cpuStats;
  ps_Memory : option memoryStats;
  ps_Network : option networkStats;
}.
Record nodeStats := { no_CPU : option cpuStats; no_Memory : option memoryStats }.
Record nodeStatsSummary := { su_Node : option nodeStats; su_Pods : list podStats }.

Definition decode_cpu : decoder cpuStats := decode_struct [
  decode_field "usageNanoCores" UsageNanoCores (λ v _, {| UsageNanoCores := v |})
    (decode_ptr 0%Z decode_uint64) ].

Definition decode_memory : decoder memoryStats := decode_struct [
  decode_field "workingSetBytes" WorkingSetBytes (λ v _, {| WorkingSetBytes := v |})
    (decode_ptr 0%Z decode_uint64) ].

Definition decode_network : decoder networkStats := decode_struct [
  decode_field "rxBytes" RxBytes (λ v s, {| RxBytes := v; TxBytes := TxBytes s |})
    (decode_ptr 0%Z decode_uint64);
  decode_field "txBytes" TxBytes (λ v s, {| RxBytes := RxBytes s; TxBytes := v |})
    (decode_ptr 0%Z decode_uint64) ].

Definition decode_podref : decoder podReference := decode_struct [
  decode_field "name" pr_Name (λ v s, {| pr_Name := v; pr_Namespace := pr_Namespace s |}) decode_string;
  decode_field "namespace" pr_Namespace (λ v s, {| pr_Name := pr_Name s; pr_Namespace := v |}) decode_string ].

Definition no_cpu : cpuStats := {| UsageNanoCores := None |}.
Definition no_memory : memoryStats := {| WorkingSetBytes := None |}.
Definition no_network : networkStats := {| RxBytes := None; TxBytes := None |}.

Definition decode_pod : decoder podStats := decode_struct [
  decode_field "podRef" ps_PodRef
    (λ v s, {| ps_PodRef := v; ps_CPU := ps_CPU s; ps_Memory := ps_Memory s; ps_Network := ps_Network s |})
    decode_podref;
  decode_field "cpu" ps_CPU
    (λ v s, {| ps_PodRef := ps_PodRef s; ps_CPU := v; ps_Memory := ps_Memory s; ps_Network := ps_Network s |})
    (decode_ptr no_cpu decode_cpu);
  decode_field "memory" ps_Memory
    (λ v s, {| ps_PodRef := ps_PodRef s; ps_CPU := ps_CPU s; ps_Memory := v; ps_Network := ps_Network s |})
    (decode_ptr no_memory decode_memory);
  decode_field "network" ps_Network
    (λ v s, {| ps_PodRef := ps_PodRef s; ps_CPU := ps_CPU s; ps_Memory := ps_Memory s; ps_Network := v |})
    (decode_ptr no_network decode_network) ].

Definition decode_node : decoder nodeStats := decode_struct [
  decode_field "cpu" no_CPU (λ v s, {| no_CPU := v; no_Memory := no_Memory s |}) (decode_ptr no_cpu decode_cpu);
  decode_field "memory" no_Memory (λ v s, {| no_CPU := no_CPU s; no_Memory := v |})
    (decode_ptr no_memory decode_memory) ].

Definition no_pod : podStats := {|
  ps_PodRef := {| pr_Name := ""; pr_Namespace := "" |}; ps_CPU := None; ps_Memory := None;
  ps_Network := None |}.
Definition no_node : nodeStats := {| no_CPU := None; no_Memory := None |}.
Definition no_summary : nodeStatsSummary := {| su_Node := None; su_Pods := [] |}.

Definition decode_summary : decoder nodeStatsSummary := decode_struct [
  decode_field "node" su_Node (λ v s, {| su_Node := v; su_Pods := su_Pods s |}) (decode_ptr no_node decode_node);
  decode_field "pods" su_Pods (λ v s, {| su_Node := su_Node s; su_Pods := v |}) (decode_list no_pod decode_pod) ].

(** The answer of the kubelet, decoded. *)
Definition node_summary (a : result goerr (option json)) : result goerr nodeStatsSummary :=
  match a with
  | Err err => Err (wrapf "requesting stats summary: " err)
  | Ok None => Err (wrapf "decoding stats summary: " decode_error)
  | Ok (Some j) =>
      match decode_summary no_summary j with
      | Err err => Err (wrapf "decoding stats summary: " err)
      | Ok summary => Ok summary
      end
  end.

Definition fetchNodeSummary (nodeName : string) : program (result goerr nodeStatsSummary) :=
  raw <- perform (KNodeSummary nodeName) ;; Ret (node_summary raw).

(** ** Collect *)
Record podKey := { pk_namespace : string; pk_name : string }.

#[export] Instance podKey_eq_dec : EqDecision podKey.
Proof. solve_decision. Defined.

#[export] Instance podKey_countable : Countable podKey.
Proof.
  refine (inj_countable' (λ k, (pk_namespace k, pk_name k))
            (λ p, {| pk_namespace := p.1; pk_name := p.2 |}) _); by intros [].
Defined.

Definition pod_key (p : Pod) : podKey :=
  {| pk_namespace := om_Namespace (p_Meta p); pk_name := om_Name (p_Meta p) |}.
Definition ref_key (r : podReference) : podKey :=
  {| pk_namespace := pr_Namespace r; pk_name := pr_Name r |}.
Definition pod_workload (p : Pod) : string := default "" (om_Labels (p_Meta p) !! workloadNameLabel).

Definition want_pod (want : gmap string (gmap podKey string)) (pod : Pod) : gmap string (gmap podKey string) :=
  if decide (p_NodeName pod = "") then want
  else if decide (pod_workload pod = "") then want
  else <[p_NodeName pod := <[pod_key pod := pod_workload pod]> (default ∅ (want !! p_NodeName pod))]> want.

Definition wantByNode (pods : list Pod) : gmap string (gmap podKey string) := foldl want_pod ∅ pods.

Definition sample (name metric : string) (now : Z) (v : option Z) : list Sample :=
  match v with
  | Some n => [{| sa_Name := name; sa_Metric := metric; sa_Value := float64_of_Z n; sa_SampledAt := now |}]
  | None => []
  end.

Definition pod_samples (want : gmap podKey string) (now : Z) (ps : podStats) : list Sample :=
  match want !! ref_key (ps_PodRef ps), ps_Network ps with
  | Some workloadName, Some net =>
      sample workloadName MetricNetworkRxBytes now (RxBytes net) ++
      sample workloadName MetricNetworkTxBytes now (TxBytes net)
  | _, _ => []
  end.

Fixpoint collect_nodes (now : Z) (nodes : list (string * gmap podKey string)) (samples : list Sample)
    : program (list Sample) :=
  match nodes with
  | [] => Ret samples
  | (nodeName, want) :: nodes =>
      summary <- fetchNodeSummary nodeName ;;
      match summary with
      | Err _ => collect_nodes now nodes samples
      | Ok summary => collect_nodes now nodes (samples ++ mbind (pod_samples want now) (su_Pods summary))
      end
  end.

Definition Collect (order : list (string * gmap podKey string) → list (string * gmap podKey string))
    (c : Collector) : program (result goerr (list Sample)) :=
  pods <- perform (KListPods (cl_namespace c) {[ ManagedBy := ManagedByValue ]}) ;;
  match pods with
  | Err err => Ret (Err (wrapf "listing managed pods: " err))
  | Ok pods =>
      now <- perform Now ;;
      samples <- collect_nodes now (order (map_to_list (wantByNode pods))) [] ;;
      Ret (Ok samples)
  end.

(** ** CollectUsage *)
Record UsageSnapshot := {
  ClusterUsedMilliCPU : Z;
  ClusterUsedMemoryBytes : Z;
  ManagedUsedMilliCPU : Z;
  ManagedUsedMemoryBytes : Z;
  NodesReporting : Z;
  NodesTotal : Z;
}.

(** [int64( *c.UsageNanoCores / 1_000_000)] and [int64( *m.WorkingSetBytes)], when
    there is a reading. *)
Definition milli_cpu (c : option cpuStats) : option Z :=
  c ← c; n ← UsageNanoCores c; Some (int64 (n / 1000000)).
Definition working_set (m : option memoryStats) : option Z :=
  m ← m; n ← WorkingSetBytes m; Some (int64 n).

(** [x += v] when there is a value. *)
Definition plus_reading (x : Z) (v : option Z) : Z :=
  match v with Some n => int64 (x + n) | None => x end.

Definition add_pod_usage (managed : gset podKey) (snap : UsageSnapshot) (ps : podStats) : UsageSnapshot :=
  if decide (ref_key (ps_PodRef ps) ∈ managed) then {|
    ClusterUsedMilliCPU := ClusterUsedMilliCPU snap;
    ClusterUsedMemoryBytes := ClusterUsedMemoryBytes snap;
    ManagedUsedMilliCPU := plus_reading (ManagedUsedMilliCPU snap) (milli_cpu (ps_CPU ps));
    ManagedUsedMemoryBytes := plus_reading (ManagedUsedMemoryBytes snap) (working_set (ps_Memory ps));
    NodesReporting := NodesReporting snap; NodesTotal := NodesTotal snap |}
  else snap.

Definition add_node_usage (managed : gset podKey) (snap : UsageSnapshot) (summary : nodeStatsSummary)
    : UsageSnapshot :=
  foldl (add_pod_usage managed) {|
    ClusterUsedMilliCPU := plus_reading (ClusterUsedMilliCPU snap)
      (n ← su_Node summary; milli_cpu (no_CPU n));
    ClusterUsedMemoryBytes := plus_reading (ClusterUsedMemoryBytes snap)
      (n ← su_Node summary; working_set (no_Memory n));
    ManagedUsedMilliCPU := ManagedUsedMilliCPU snap;
    ManagedUsedMemoryBytes := ManagedUsedMemoryBytes snap;
    NodesReporting := int64 (NodesReporting snap + 1);
    NodesTotal := NodesTotal snap |} (su_Pods summary).

Fixpoint usage_nodes (managed : gset podKey) (nodes : list Node) (snap : UsageSnapshot)
    : program UsageSnapshot :=
  match nodes with
  | [] => Ret snap
  | n :: nodes =>
      summary <- fetchNodeSummary (n_Name n) ;;
      match summary with
      | Err _ => usage_nodes managed nodes snap
      | Ok summary => usage_nodes managed nodes (add_node_usage managed snap summary)
      end
  end.

Definition CollectUsage (c : Collector) : program (result goerr UsageSnapshot) :=
  nodes <- perform KListNodes ;;
  match nodes with
  | Err err => Ret (Err (wrapf "listing nodes: " err))
  | Ok nodes =>
      pods <- perform (KListPods (cl_namespace c) {[ ManagedBy := ManagedByValue ]}) ;;
      match pods with
      | Err err => Ret (Err (wrapf "listing managed pods: " err))
      | Ok pods =>
          let managed := list_to_set (pod_key <$> pods) in
          snap <- usage_nodes managed nodes {|
            ClusterUsedMilliCPU := 0; ClusterUsedMemoryBytes := 0;
            ManagedUsedMilliCPU := 0; ManagedUsedMemoryBytes := 0;
            NodesReporting := 0; NodesTotal := Z.of_nat (length nodes) |} ;;
          Ret (Ok snap)
      end
  end.

(** ** reporter.go *)

(** [Reporter]: the collector and the interval in nanoseconds; the Convex side is the
    call [ReportMetrics]. *)
Record Reporter := { rp_collector : Collector; rp_interval : Z }.

Definition NewReporter (collector : Collector) (interval : Z) : Reporter :=
  {| rp_collector := collector; rp_interval := interval |}.

Definition reportOnce (order : list (string * gmap podKey string) → list (string * gmap podKey string))
    (r : Reporter) : program unit :=
  samples <- Collect order (rp_collector r) ;;
  match samples with
  | Err _ => Ret tt
  | Ok samples => perform (ReportMetrics samples) ;; Ret tt
  end.

(** [Reporter.Start], cancelled after [n] ticks.  The nodes of each tick are visited in
    an order of their own; [time.NewTicker] panics on an interval that is not
    positive. *)
Fixpoint report_ticks (orders : nat → list (string * gmap podKey string) → list (string * gmap podKey string))
    (r : Reporter) (n : nat) : program unit :=
  match n with
  | O => Ret tt
  | S n => reportOnce (orders n) r ;; report_ticks orders r n
  end.

Definition Reporter_Start
    (orders : nat → list (string * gmap podKey string) → list (string * gmap podKey string))
    (r : Reporter) (n : nat) : program (option goerr) :=
  if (rp_interval r <=? 0)%Z then Ret (Some EPanic)
  else report_ticks orders r n ;; Ret None.

(** ** What a usage snapshot measures *)

(** The readings of one node, a missing one counting as nothing. *)
Definition node_cpu_reading (s : nodeStatsSummary) : Z :=
  default 0%Z (n ← su_Node s; milli_cpu (no_CPU n)).
Definition node_memory_reading (s : nodeStatsSummary) : Z :=
  default 0%Z (n ← su_Node s; working_set (no_Memory n)).
Definition managed_pods (managed : gset podKey) (s : nodeStatsSummary) : list podStats :=
  filter (λ ps, ref_key (ps_PodRef ps) ∈ managed) (su_Pods s).
Definition managed_cpu_reading (managed : gset podKey) (s : nodeStatsSummary) : Z :=
  zsum (λ ps, default 0%Z (milli_cpu (ps_CPU ps))) (managed_pods managed s).
Definition managed_memory_reading (managed : gset podKey) (s : nodeStatsSummary) : Z :=
  zsum (λ ps, default 0%Z (working_set (ps_Memory ps))) (managed_pods managed s).

(** The fields of a usage snapshot, each the wrapped value of an exact sum. *)
Definition usage_is (s : UsageSnapshot) (cc cm mc mm n total : Z) : Prop :=
  ClusterUsedMilliCPU s = int64 cc ∧ ClusterUsedMemoryBytes s = int64 cm ∧
  ManagedUsedMilliCPU s = int64 mc ∧ ManagedUsedMemoryBytes s = int64 mm ∧
  NodesReporting s = int64 n ∧ NodesTotal s = total.

Lemma plus_reading_int64 x v : plus_reading (int64 x) v = int64 (x + default 0%Z v).
Proof. destruct v; simpl; [apply int64_add_l|f_equal; lia]. Qed.

Lemma add_pods_usage managed l s cc cm mc mm n total :
  usage_is s cc cm mc mm n total →
  usage_is (foldl (add_pod_usage managed) s l) cc cm
    (mc + zsum (λ ps, default 0%Z (milli_cpu (ps_CPU ps))) (filter (λ ps, ref_key (ps_PodRef ps) ∈ managed) l))
    (mm + zsum (λ ps, default 0%Z (working_set (ps_Memory ps))) (filter (λ ps, ref_key (ps_PodRef ps) ∈ managed) l))
    n total.
Proof.
  revert s mc mm. induction l as [|ps l IH]; intros s mc mm Hs; simpl.
  { by rewrite !Z.add_0_r. }
  rewrite filter_cons. unfold add_pod_usage at 2. case_decide; simpl.
  - rewrite !Z.add_assoc. apply IH. destruct Hs as (? & ? & Hc & Hm & ? & ?).
    unfold usage_is. simpl. rewrite Hc, Hm, !plus_reading_int64. done.
  - by apply IH.
Qed.

Lemma add_node_usage_sum managed summary s cc cm mc mm n total :
  usage_is s cc cm mc mm n total →
  usage_is (add_node_usage managed s summary)
    (cc + node_cpu_reading summary) (cm + node_memory_reading summary)
    (mc + managed_cpu_reading managed summary) (mm + managed_memory_reading managed summary)
    (n + 1) total.
Proof.
  intros (Hcc & Hcm & ? & ? & Hn & ?). apply add_pods_usage. unfold usage_is. simpl.
  by rewrite Hcc, Hcm, Hn, !plus_reading_int64, int64_add_l.
Qed.

(** The summaries that could be fetched and decoded. *)
Definition reporting (answers : list (result goerr (option json))) : list nodeStatsSummary :=
  omap (λ a, match node_summary a with Ok s => Some s | Err _ => None end) answers.

Definition summary_event (n : Node) (a : result goerr (option json)) : event answer :=
  existT (KNodeSummary (n_Name n)) a.

Lemma usage_nodes_exec managed nodes s tr s' :
  exec (usage_nodes managed nodes s) tr s' →
  ∃ answers, length answers = length nodes ∧ tr = zip_with summary_event nodes answers ∧
    s' = foldl (add_node_usage managed) s (reporting answers).
Proof.
  revert s tr. induction nodes as [|n nodes IH]; intros s tr; simpl.
  { intros [-> ->]. by exists []. }
  intros (a & tr' & -> & He). unfold reporting.
  destruct (node_summary a) as [summary|] eqn:Ha;
    apply IH in He as (answers & Hlen & -> & ->);
    (exists (a :: answers)); simpl; rewrite Ha, Hlen; done.
Qed.

Lemma usage_sum managed summaries s cc cm mc mm n total :
  usage_is s cc cm mc mm n total →
  usage_is (foldl (add_node_usage managed) s summaries)
    (cc + zsum node_cpu_reading summaries) (cm + zsum node_memory_reading summaries)
    (mc + zsum (managed_cpu_reading managed) summaries)
    (mm + zsum (managed_memory_reading managed) summaries)
    (n + Z.of_nat (length summaries)) total.
Proof.
  revert s cc cm mc mm n. induction summaries as [|x l IH]; intros s cc cm mc mm n Hs; cbn [foldl].
  { simpl. by rewrite !Z.add_0_r. }
  eapply (add_node_usage_sum managed x) in Hs. apply IH in Hs. simpl.
  rewrite !Z.add_assoc. by replace (n + Z.of_nat (S (length l)))%Z with (n + 1 + Z.of_nat (length l))%Z by lia.
Qed.

(** A usage snapshot is the exact sum, modulo 2^64, over the nodes that
    answered: every node is asked once, nodes that cannot be reached or decoded
    contribute nothing and are the difference between NodesReporting and
    NodesTotal, whole-node readings make up the cluster figures, and the managed
    figures add up the pods of those nodes that were listed as managed. *)
Theorem CollectUsage_exact c tr snap :
  exec (CollectUsage c) tr (Ok snap) →
  ∃ nodes pods answers,
    let managed := list_to_set (pod_key <$> pods) in
    let summaries := reporting answers in
    length answers = length nodes ∧
    tr = existT KListNodes (Ok nodes) ::
         existT (KListPods (cl_namespace c) {[ ManagedBy := ManagedByValue ]}) (Ok pods) ::
         zip_with summary_event nodes answers ∧
    usage_is snap (zsum node_cpu_reading summaries) (zsum node_memory_reading summaries)
      (zsum (managed_cpu_reading managed) summaries)
      (zsum (managed_memory_reading managed) summaries)
      (Z.of_nat (length summaries)) (Z.of_nat (length nodes)).
Proof.
  unfold CollectUsage. intros ([nodes|] & tr1 & -> & He); [|by destruct He].
  destruct He as ([pods|] & tr2 & -> & He); [|by destruct He].
  simpl in He. apply exec_bind in He as (tr3 & tr4 & s & -> & Hu & [-> [= ->]]).
  apply usage_nodes_exec in Hu as (answers & Hlen & -> & ->).
  exists nodes, pods, answers. rewrite app_nil_r. split; [done|]. split; [done|].
  by apply (usage_sum _ _ _ 0 0 0 0 0).
Qed.

(** ** What a sample measures *)

(** [pod] was listed as a managed pod, is placed on [node] and carries the name of
    the workload [name]. *)
Definition pod_wanted (pods : list Pod) (node : string) (key : podKey) (name : string) : Prop :=
  ∃ pod, pod ∈ pods ∧ p_NodeName pod = node ∧ node ≠ "" ∧ pod_key pod = key ∧
    pod_workload pod = name ∧ name ≠ "".

Lemma wantByNode_sound pods node want key name :
  wantByNode pods !! node = Some want → want !! key = Some name → pod_wanted pods node key name.
Proof.
  unfold wantByNode. revert node want key name. induction pods as [|pod pods IH] using rev_ind; [done|].
  intros node want key name. rewrite foldl_snoc.
  assert (∀ node want key name, foldl want_pod ∅ pods !! node = Some want → want !! key = Some name →
    pod_wanted (pods ++ [pod]) node key name) as Hold.
  { intros ? ? ? ? H1 H2. destruct (IH _ _ _ _ H1 H2) as (p & ? & ?). exists p. set_solver. }
  unfold want_pod at 1. repeat case_decide; eauto.
  destruct (decide (node = p_NodeName pod)) as [->|Hne]; simplify_map_eq; eauto.
  intros [= <-]. destruct (decide (key = pod_key pod)) as [->|Hk]; simplify_map_eq.
  - intros [= <-]. exists pod. split_and!; [set_solver|done..].
  - destruct (foldl want_pod ∅ pods !! p_NodeName pod) as [w|] eqn:Hw; simpl; [eauto|by rewrite lookup_empty].
Qed.

(** A sample is justified by an answer of the node its pod runs on. *)
Definition sample_justified (pods : list Pod) (tr : trace) (now : Z) (s : Sample) : Prop :=
  ∃ node a summary ps net n,
    existT (KNodeSummary node) a ∈ tr ∧ node_summary a = Ok summary ∧ ps ∈ su_Pods summary ∧
    pod_wanted pods node (ref_key (ps_PodRef ps)) (sa_Name s) ∧
    ps_Network ps = Some net ∧ sa_Value s = float64_of_Z n ∧ sa_SampledAt s = now ∧
    (sa_Metric s = MetricNetworkRxBytes ∧ RxBytes net = Some n ∨
     sa_Metric s = MetricNetworkTxBytes ∧ TxBytes net = Some n).

Lemma pod_samples_spec want now ps s :
  s ∈ pod_samples want now ps →
  ∃ net n, want !! ref_key (ps_PodRef ps) = Some (sa_Name s) ∧ ps_Network ps = Some net ∧
    sa_Value s = float64_of_Z n ∧ sa_SampledAt s = now ∧
    (sa_Metric s = MetricNetworkRxBytes ∧ RxBytes net = Some n ∨
     sa_Metric s = MetricNetworkTxBytes ∧ TxBytes net = Some n).
Proof.
  unfold pod_samples. destruct (want !! _) as [name|]; [|set_solver].
  destruct (ps_Network ps) as [net|]; [|set_solver].
  intros [Hs|Hs]%elem_of_app; unfold sample in Hs.
  - destruct (RxBytes net) as [n|] eqn:?; [|set_solver]. apply list_elem_of_singleton in Hs as ->. eauto 10.
  - destruct (TxBytes net) as [n|] eqn:?; [|set_solver]. apply list_elem_of_singleton in Hs as ->. eauto 10.
Qed.

Lemma collect_nodes_sound pods now nodes samples tr samples' :
  (∀ node want, (node, want) ∈ nodes → wantByNode pods !! node = Some want) →
  exec (collect_nodes now nodes samples) tr samples' →
  ∀ s, s ∈ samples' → s ∈ samples ∨ sample_justified pods tr now s.
Proof.
  revert samples tr. induction nodes as [|[node want] nodes IH]; intros samples tr Hn; simpl.
  { intros [-> ->]. auto. }
  intros (a & tr' & -> & He) s Hs.
  assert (∀ samples, exec (collect_nodes now nodes samples) tr' samples' →
    s ∈ samples ∨ sample_justified pods (existT (KNodeSummary node) a :: tr') now s) as Hrest.
  { intros l Hl. destruct (IH l tr' ltac:(set_solver) Hl s Hs) as [|(n & a' & su & ps & net & v & Hin & ?)]; [by left|].
    right. exists n, a', su, ps, net, v. split; [by right|done]. }
  destruct (node_summary a) as [summary|] eqn:Ha; [|by apply Hrest].
  destruct (Hrest _ He) as [[?|Hin]%elem_of_app|?]; [by left| |by right].
  right. apply list_elem_of_bind in Hin as (ps & Hps & Hin).
  apply pod_samples_spec in Hps as (net & n & Hw & ?).
  exists node, a, summary, ps, net, n. split; [left|]. split; [done|]. split; [done|].
  split; [|done]. eapply wantByNode_sound; [apply Hn; left|done].
Qed.

(** C37. Every sample is accounted for: whatever order the nodes are visited in, a
    collected sample carries a counter that the kubelet of some node reported in
    this run for a pod which was listed as managed, runs on that node and is
    labelled with the workload the sample is attributed to. *)
Theorem Collect_sound order c tr samples s :
  (∀ l, order l ≡ₚ l) →
  exec (Collect order c) tr (Ok samples) → s ∈ samples →
  ∃ pods now tr',
    tr = existT (KListPods (cl_namespace c) {[ ManagedBy := ManagedByValue ]}) (Ok pods) ::
         existT Now now :: tr' ∧
    sample_justified pods tr' now s.
Proof.
  intros Horder He Hs. unfold Collect in He. destruct He as ([pods|] & tr1 & -> & He); [|by destruct He].
  destruct He as (now & tr2 & -> & He). simpl in He.
  apply exec_bind in He as (tr3 & tr4 & l & -> & Hc & [-> [= ->]]).
  exists pods, now, tr3. rewrite app_nil_r. split; [done|].
  eapply collect_nodes_sound in Hc; [|intros node want; rewrite Horder; apply elem_of_map_to_list|exact Hs].
  destruct Hc; [set_solver|done].
Qed.
