(* ===== verification/ConvexClient.v ===== *)
(** * ConvexClient: the wire protocol with Convex

    [internal/convexclient/client.go]: one function per endpoint, from the request
    document it posts to what it makes of the response, and the tag configuration
    of [cmd/main.go] with its fingerprint.  [GoNet] collects what the code uses of
    net/http's URL parsing and of SHA-256. *)

From S2P Require Import Prelude.
From S2P Require Import Effects.
From S2P Require Import Go.
From S2P Require Import Json.
From S2P Require Import Api.
From S2P Require Import Calls.
From S2P Require Import Catalog.
From S2P Require Import CatalogTemplates.
From S2P Require Import Capacity.
From S2P Require Import TokenStore.
From S2P Require Import Metrics.

Local Open Scope prog_scope.

(** [http_NewRequest url] is the error [http.NewRequestWithContext] reports for
    [url], if any; [json_sha256_hex j] is the hexadecimal SHA-256 of the encoding
    of [j]. *)
Class GoNet := {
  http_NewRequest : string → option goerr;
  json_sha256_hex : json → string;
}.

(** [json.Marshal] fails on a number that is not finite, and on nothing else that
    occurs in a request. *)
Fixpoint json_finite (j : json) : bool :=
  match j with
  | JFloat f => float64_finite f
  | JArray l => forallb json_finite l
  | JObject kvs => forallb (λ kv, json_finite kv.2) kvs
  | _ => true
  end.

Definition json_Marshal (j : json) : result goerr json :=
  if json_finite j then Ok j else Err (ENew "json: unsupported value").

Fixpoint json_of_any (a : any) : json :=
  match a with
  | ANil => JNull
  | ABool b => JBool b
  | AFloat f => JFloat f
  | AString s => JString s
  | AInt n | AInt32 n => JInt n
  | AList l => JArray (json_of_any <$> l)
  | AMap m => JObject (map_to_list (json_of_any <$> m))
  end.

(** ** The catalog on the wire *)
Definition ParameterType_name (t : ParameterType) : string :=
  match t with
  | ParameterTypeString => "string"
  | ParameterTypeNumber => "number"
  | ParameterTypeBoolean => "boolean"
  | ParameterTypeSelect => "select"
  end.

Definition DataSourceKind_name (k : DataSourceKind) : string :=
  match k with
  | DataSourceStatic => "static"
  | DataSourceDynamic => "dynamic"
  | DataSourceSystem => "system"
  | DataSourceFile => "file"
  | DataSourceFileOptions => "fileOptions"
  end.

Definition FileDirection_name (d : FileDirection) : string :=
  match d with DirectionUpload => "upload" | DirectionDownload => "download" end.

Definition omitempty_any (k : string) (a : any) : list (string * json) :=
  match a with ANil => [] | _ => [(k, json_of_any a)] end.
Definition omitempty_list {A} (k : string) (f : A → json) (l : list A) : list (string * json) :=
  match l with [] => [] | _ => [(k, JArray (f <$> l))] end.

Definition datasource_json (d : DataSource) : json := JObject (
  [("kind", JString (DataSourceKind_name (ds_Kind d)))] ++
  omitempty_string "sourceKey" (ds_SourceKey d) ++
  omitempty_ptr "direction" (λ x, JString (FileDirection_name x)) (ds_Direction d) ++
  omitempty_string "sourceParam" (ds_SourceParam d) ++
  omitempty_string "group" (ds_Group d)).

Definition visibility_json (v : Visibility) : json := JObject (
  [("dependsOn", JString (vi_DependsOn v)); ("op", JString (vi_Op v))] ++
  omitempty_any "value" (vi_Value v) ++ omitempty_list "values" json_of_any (vi_Values v)).

Definition validation_json (v : Validation) : json := JObject (
  [("required", JBool (va_Required v))] ++
  omitempty_ptr "min" JFloat (va_Min v) ++ omitempty_ptr "max" JFloat (va_Max v) ++
  omitempty_string "regex" (va_Regex v) ++ omitempty_ptr "maxLength" JInt (va_MaxLength v)).

Definition option_json (o : SelectOption) : json :=
  JObject [("value", JString (so_Value o)); ("label", JString (so_Label o))].

Definition parameter_json (p : TemplateParameter) : json := JObject (
  [("key", JString (pa_Key p)); ("label", JString (pa_Label p))] ++
  omitempty_string "description" (pa_Description p) ++
  [("type", JString (ParameterType_name (pa_Type p))); ("dataSource", datasource_json (pa_DataSource p))] ++
  omitempty_any "default" (pa_Default p) ++ omitempty_list "options" option_json (pa_Options p) ++
  omitempty_ptr "visibility" visibility_json (pa_Visibility p) ++
  [("validation", validation_json (pa_Validation p))]).

Definition operation_json (o : Operation) : json := JObject (
  [("key", JString (o_Key o)); ("label", JString (o_Label o))] ++
  omitempty_string "description" (o_Description o) ++
  [("parameters", JArray (parameter_json <$> o_Parameters o)); ("refreshable", JBool (o_Refreshable o))]).

Definition entrypoint_json (e : Entrypoint) : json :=
  JObject [("name", JString (en_Name e)); ("label", JString (en_Label e))].

Definition template_json (t : Template) : json := JObject (
  [("id", JString (t_ID t)); ("name", JString (t_Name t)); ("description", JString (t_Description t));
   ("icon", JString (t_Icon t)); ("version", JString (t_Version t));
   ("parameters", JArray (parameter_json <$> t_Parameters t));
   ("entrypoints", JArray (entrypoint_json <$> t_Entrypoints t))] ++
  omitempty_list "operations" operation_json (t_Operations t)).

(** ** Configuration *)
Record Config := {
  cf_BaseURL : string;
  cf_EnrollmentSecret : string;
  cf_OperatorName : string;
  cf_ExternalURL : string;
  cf_Metadata : gmap string any;
  cf_Version : string;
  cf_Tags : option (list string);
}.

(** [Client] is its configuration; [SetEnrollmentSecret] is the one update. *)
Definition SetEnrollmentSecret (c : Config) (secret : string) : Config := {|
  cf_BaseURL := cf_BaseURL c; cf_EnrollmentSecret := secret; cf_OperatorName := cf_OperatorName c;
  cf_ExternalURL := cf_ExternalURL c; cf_Metadata := cf_Metadata c; cf_Version := cf_Version c;
  cf_Tags := cf_Tags c |}.

Definition tagsFingerprintUnset : string := "unset".

Definition TagsFingerprint (c : Config) : string :=
  match cf_Tags c with
  | None => tagsFingerprintUnset
  | Some tags => "set:" +:+ strings_Join tags ","
  end.

Section Client.
Context `{!GoStd, !GoNet}.

(** [catalog.Hash]. *)
Definition Hash : string := json_sha256_hex (JArray (template_json <$> List)).

(** ** Posting a request

    Each endpoint marshals its request, builds it, posts it and looks at the
    status; only the texts, the headers and what follows differ. *)
Definition StatusOK : Z := 200.
Definition StatusUnauthorized : Z := 401.
Definition StatusNotFound : Z := 404.
Definition StatusConflict : Z := 409.
Definition StatusGone : Z := 410.

Definition content_type : string * string := ("Content-Type", "application/json").
Definition bearer (token : string) : string * string := ("Authorization", "Bearer " +:+ token).

Definition post (c : Config) (path what : string) (headers : list (string * string)) (body : json)
    : program (result goerr HttpResponse) :=
  match json_Marshal body with
  | Err err => Ret (Err (wrapf ("marshaling " +:+ what +:+ " request: ") err))
  | Ok body =>
      match http_NewRequest (cf_BaseURL c +:+ path) with
      | Some err => Ret (Err (wrapf ("building " +:+ what +:+ " request: ") err))
      | None =>
          resp <- perform (HttpDo {| rq_Method := "POST"; rq_URL := cf_BaseURL c +:+ path;
                                     rq_Headers := headers; rq_Body := body |}) ;;
          match resp with
          | Err err => Ret (Err (wrapf ("calling " +:+ what +:+ ": ") err))
          | Ok resp => Ret (Ok resp)
          end
      end
  end.

Definition status_error (what : string) (code : Z) : goerr :=
  ENew (what +:+ " returned status " +:+ pretty code).

Definition decode_body {A} (what : string) (zero : A) (d : decoder A) (resp : HttpResponse)
    : result goerr A :=
  match rs_Body resp with
  | None => Err (wrapf ("decoding " +:+ what +:+ " response: ") decode_error)
  | Some j => match d zero j with
              | Err err => Err (wrapf ("decoding " +:+ what +:+ " response: ") err)
              | Ok x => Ok x
              end
  end.

(** ** Register *)
Definition registerRequest (c : Config) : json := JObject (
  [("name", JString (cf_OperatorName c)); ("externalUrl", JString (cf_ExternalURL c));
   ("enrollmentSecret", JString (cf_EnrollmentSecret c))] ++
  (if decide (cf_Metadata c = ∅) then []
   else [("metadata", json_of_any (AMap (cf_Metadata c)))]) ++
  [("catalog", JArray (template_json <$> List))] ++
  omitempty_string "operatorVersion" (cf_Version c) ++
  omitempty_ptr "tags" (λ tags, JArray (JString <$> tags)) (cf_Tags c)).

Record registerResponse := { rr_HeartbeatToken : string; rr_DeployToken : string }.

Definition decode_register : decoder registerResponse := decode_struct [
  decode_field "heartbeatToken" rr_HeartbeatToken
    (λ v s, {| rr_HeartbeatToken := v; rr_DeployToken := rr_DeployToken s |}) decode_string;
  decode_field "deployToken" rr_DeployToken
    (λ v s, {| rr_HeartbeatToken := rr_HeartbeatToken s; rr_DeployToken := v |}) decode_string ].

Definition Register (c : Config) : program (result goerr Tokens) :=
  resp <- post c "/operators/register" "register" [content_type] (registerRequest c) ;;
  match resp with
  | Err err => Ret (Err err)
  | Ok resp =>
      if negb (rs_Status resp =? StatusOK)%Z then Ret (Err (status_error "register" (rs_Status resp)))
      else match decode_body "register" {| rr_HeartbeatToken := ""; rr_DeployToken := "" |}
                   decode_register resp with
           | Err err => Ret (Err err)
           | Ok out => Ret (Ok {| HeartbeatToken := rr_HeartbeatToken out;
                                  DeployToken := rr_DeployToken out; CatalogHash := "";
                                  OperatorVersion := ""; TagsFingerprintOf := "" |})
           end
  end.

(** ** Heartbeat *)
Definition usage_fields (u : UsageSnapshot) : list (string * json) := [
  ("clusterUsedMilliCpu", JInt (ClusterUsedMilliCPU u));
  ("clusterUsedMemoryBytes", JInt (ClusterUsedMemoryBytes u));
  ("managedUsedMilliCpu", JInt (ManagedUsedMilliCPU u));
  ("managedUsedMemoryBytes", JInt (ManagedUsedMemoryBytes u));
  ("nodesReporting", JInt (NodesReporting u));
  ("nodesTotal", JInt (NodesTotal u)) ].

Definition resourceCapacityWire (s : Snapshot) (usage : option UsageSnapshot) : json := JObject (
  [("allocatableMilliCpu", JInt (AllocatableMilliCPU s));
   ("allocatableMemoryBytes", JInt (AllocatableMemoryBytes s));
   ("usedMilliCpu", JInt (UsedMilliCPU s)); ("usedMemoryBytes", JInt (UsedMemoryBytes s))] ++
  match usage with Some u => usage_fields u | None => [] end).

Definition heartbeatRequest (c : Config) (snapshot : option Snapshot) (usage : option UsageSnapshot) : json :=
  JObject ([("name", JString (cf_OperatorName c))] ++
           omitempty_ptr "resourceCapacity" (λ s, resourceCapacityWire s usage) snapshot).

Record ClaimableWorkload := { cw_WorkloadID : string; cw_TemplateID : string }.
Record PendingOperation := { po_WorkloadID : string; po_Operation : string }.
Record heartbeatResponse := {
  hb_Claimable : list ClaimableWorkload;
  hb_PendingOperations : list PendingOperation;
}.

Definition decode_claimable : decoder ClaimableWorkload := decode_struct [
  decode_field "workloadId" cw_WorkloadID
    (λ v s, {| cw_WorkloadID := v; cw_TemplateID := cw_TemplateID s |}) decode_string;
  decode_field "templateId" cw_TemplateID
    (λ v s, {| cw_WorkloadID := cw_WorkloadID s; cw_TemplateID := v |}) decode_string ].

Definition decode_pending : decoder PendingOperation := decode_struct [
  decode_field "workloadId" po_WorkloadID
    (λ v s, {| po_WorkloadID := v; po_Operation := po_Operation s |}) decode_string;
  decode_field "operation" po_Operation
    (λ v s, {| po_WorkloadID := po_WorkloadID s; po_Operation := v |}) decode_string ].

Definition decode_heartbeat : decoder heartbeatResponse := decode_struct [
  decode_field "claimable" hb_Claimable
    (λ v s, {| hb_Claimable := v; hb_PendingOperations := hb_PendingOperations s |})
    (decode_list {| cw_WorkloadID := ""; cw_TemplateID := "" |} decode_claimable);
  decode_field "pendingOperations" hb_PendingOperations
    (λ v s, {| hb_Claimable := hb_Claimable s; hb_PendingOperations := v |})
    (decode_list {| po_WorkloadID := ""; po_Operation := "" |} decode_pending) ].

Definition Heartbeat (c : Config) (heartbeatToken : string) (snapshot : option Snapshot)
    (usage : option UsageSnapshot)
    : program (result goerr (list ClaimableWorkload * list PendingOperation)) :=
  resp <- post c "/operators/heartbeat" "heartbeat" [content_type; bearer heartbeatToken]
            (heartbeatRequest c snapshot usage) ;;
  match resp with
  | Err err => Ret (Err err)
  | Ok resp =>
      if (rs_Status resp =? StatusOK)%Z then
        match decode_body "heartbeat" {| hb_Claimable := []; hb_PendingOperations := [] |}
                decode_heartbeat resp with
        | Err err => Ret (Err err)
        | Ok out => Ret (Ok (hb_Claimable out, hb_PendingOperations out))
        end
      else if (rs_Status resp =? StatusUnauthorized)%Z || (rs_Status resp =? StatusGone)%Z
      then Ret (Err (ESentinel ErrUnauthorized))
      else Ret (Err (status_error "heartbeat" (rs_Status resp)))
  end.

(** ** Claims *)
Record ClaimedWorkload := {
  cd_WorkloadID : string;
  cd_Config : option (gmap string any);
  cd_Subdomain : string;
  cd_TemplateID : string;
  cd_TemplateVersion : string;
  cd_UserID : string;
}.

Definition no_claim : ClaimedWorkload := {|
  cd_WorkloadID := ""; cd_Config := None; cd_Subdomain := ""; cd_TemplateID := "";
  cd_TemplateVersion := ""; cd_UserID := "" |}.

Definition decode_claim : decoder ClaimedWorkload := decode_struct [
  decode_field "workloadId" cd_WorkloadID (λ v s, {|
    cd_WorkloadID := v; cd_Config := cd_Config s; cd_Subdomain := cd_Subdomain s;
    cd_TemplateID := cd_TemplateID s; cd_TemplateVersion := cd_TemplateVersion s;
    cd_UserID := cd_UserID s |}) decode_string;
  decode_field "config" cd_Config (λ v s, {|
    cd_WorkloadID := cd_WorkloadID s; cd_Config := v; cd_Subdomain := cd_Subdomain s;
    cd_TemplateID := cd_TemplateID s; cd_TemplateVersion := cd_TemplateVersion s;
    cd_UserID := cd_UserID s |}) decode_any_map;
  decode_field "subdomain" cd_Subdomain (λ v s, {|
    cd_WorkloadID := cd_WorkloadID s; cd_Config := cd_Config s; cd_Subdomain := v;
    cd_TemplateID := cd_TemplateID s; cd_TemplateVersion := cd_TemplateVersion s;
    cd_UserID := cd_UserID s |}) decode_string;
  decode_field "templateId" cd_TemplateID (λ v s, {|
    cd_WorkloadID := cd_WorkloadID s; cd_Config := cd_Config s; cd_Subdomain := cd_Subdomain s;
    cd_TemplateID := v; cd_TemplateVersion := cd_TemplateVersion s;
    cd_UserID := cd_UserID s |}) decode_string;
  decode_field "templateVersion" cd_TemplateVersion (λ v s, {|
    cd_WorkloadID := cd_WorkloadID s; cd_Config := cd_Config s; cd_Subdomain := cd_Subdomain s;
    cd_TemplateID := cd_TemplateID s; cd_TemplateVersion := v;
    cd_UserID := cd_UserID s |}) decode_string;
  decode_field "userId" cd_UserID (λ v s, {|
    cd_WorkloadID := cd_WorkloadID s; cd_Config := cd_Config s; cd_Subdomain := cd_Subdomain s;
    cd_TemplateID := cd_TemplateID s; cd_TemplateVersion := cd_TemplateVersion s;
    cd_UserID := v |}) decode_string ].

(** [Ok None] is Go's [(nil, nil)]: the claim did not land. *)
Definition ClaimWorkload (c : Config) (heartbeatToken workloadID : string)
    : program (result goerr (option ClaimedWorkload)) :=
  resp <- post c "/operators/workloads/claim" "claim workload" [content_type; bearer heartbeatToken]
            (JObject [("workloadId", JString workloadID)]) ;;
  match resp with
  | Err err => Ret (Err err)
  | Ok resp =>
      if (rs_Status resp =? StatusOK)%Z then
        match decode_body "claim workload" no_claim decode_claim resp with
        | Err err => Ret (Err err)
        | Ok out => Ret (Ok (Some out))
        end
      else if (rs_Status resp =? StatusNotFound)%Z || (rs_Status resp =? StatusConflict)%Z
      then Ret (Ok None)
      else Ret (Err (status_error "claim workload" (rs_Status resp)))
  end.

Record ClaimedOperation := {
  co_Operation : string;
  co_Name : string;
  co_Namespace : string;
  co_Config : option (gmap string any);
  co_TemplateID : string;
  co_TemplateVersion : string;
}.

Definition no_operation : ClaimedOperation := {|
  co_Operation := ""; co_Name := ""; co_Namespace := ""; co_Config := None; co_TemplateID := "";
  co_TemplateVersion := "" |}.

Definition decode_operation : decoder ClaimedOperation := decode_struct [
  decode_field "operation" co_Operation (λ v s, {|
    co_Operation := v; co_Name := co_Name s; co_Namespace := co_Namespace s;
    co_Config := co_Config s; co_TemplateID := co_TemplateID s;
    co_TemplateVersion := co_TemplateVersion s |}) decode_string;
  decode_field "name" co_Name (λ v s, {|
    co_Operation := co_Operation s; co_Name := v; co_Namespace := co_Namespace s;
    co_Config := co_Config s; co_TemplateID := co_TemplateID s;
    co_TemplateVersion := co_TemplateVersion s |}) decode_string;
  decode_field "namespace" co_Namespace (λ v s, {|
    co_Operation := co_Operation s; co_Name := co_Name s; co_Namespace := v;
    co_Config := co_Config s; co_TemplateID := co_TemplateID s;
    co_TemplateVersion := co_TemplateVersion s |}) decode_string;
  decode_field "config" co_Config (λ v s, {|
    co_Operation := co_Operation s; co_Name := co_Name s; co_Namespace := co_Namespace s;
    co_Config := v; co_TemplateID := co_TemplateID s;
    co_TemplateVersion := co_TemplateVersion s |}) decode_any_map;
  decode_field "templateId" co_TemplateID (λ v s, {|
    co_Operation := co_Operation s; co_Name := co_Name s; co_Namespace := co_Namespace s;
    co_Config := co_Config s; co_TemplateID := v;
    co_TemplateVersion := co_TemplateVersion s |}) decode_string;
  decode_field "templateVersion" co_TemplateVersion (λ v s, {|
    co_Operation := co_Operation s; co_Name := co_Name s; co_Namespace := co_Namespace s;
    co_Config := co_Config s; co_TemplateID := co_TemplateID s;
    co_TemplateVersion := v |}) decode_string ].

Definition ClaimOperation (c : Config) (heartbeatToken workloadID : string)
    : program (result goerr (option ClaimedOperation)) :=
  resp <- post c "/operators/workloads/claim-operation" "claim operation"
            [content_type; bearer heartbeatToken] (JObject [("workloadId", JString workloadID)]) ;;
  match resp with
  | Err err => Ret (Err err)
  | Ok resp =>
      if (rs_Status resp =? StatusOK)%Z then
        match decode_body "claim operation" no_operation decode_operation resp with
        | Err err => Ret (Err err)
        | Ok out => Ret (Ok (Some out))
        end
      else if (rs_Status resp =? StatusNotFound)%Z || (rs_Status resp =? StatusConflict)%Z
      then Ret (Ok None)
      else Ret (Err (status_error "claim operation" (rs_Status resp)))
  end.

(** ** Reports.  The methods share their names with the interface calls of
    [Calls]; here they are prefixed. *)
Definition reportLifecycleRequest (name workloadID phase reason : string) (retryable : bool) : json :=
  JObject (omitempty_string "name" name ++ omitempty_string "workloadId" workloadID ++
           [("phase", JString phase)] ++ omitempty_string "reason" reason ++
           omitempty_bool "retryable" retryable).

Definition client_ReportLifecycle (c : Config) (heartbeatToken name workloadID phase reason : string)
    (retryable : bool) : program (option goerr) :=
  resp <- post c "/operators/workloads/lifecycle" "report lifecycle"
            [content_type; bearer heartbeatToken]
            (reportLifecycleRequest name workloadID phase reason retryable) ;;
  match resp with
  | Err err => Ret (Some err)
  | Ok resp =>
      if (rs_Status resp =? StatusConflict)%Z then Ret (Some (ESentinel ErrLifecycleStale))
      else if negb (rs_Status resp =? StatusOK)%Z
      then Ret (Some (status_error "report lifecycle" (rs_Status resp)))
      else Ret None
  end.

Definition upsertWorkloadRequest (info : WorkloadInfo) : json := JObject (
  [("name", JString (wi_Name info)); ("namespace", JString (wi_Namespace info));
   ("templateId", JString (wi_TemplateName info)); ("userId", JString (wi_UserID info))] ++
  omitempty_string "subdomain" (wi_Subdomain info) ++ omitempty_string "workloadId" (wi_WorkloadID info)).

(** Posts whose response is only checked for its status. *)
Definition post_ok (c : Config) (path what heartbeatToken : string) (body : json) : program (option goerr) :=
  resp <- post c path what [content_type; bearer heartbeatToken] body ;;
  match resp with
  | Err err => Ret (Some err)
  | Ok resp =>
      if negb (rs_Status resp =? StatusOK)%Z then Ret (Some (status_error what (rs_Status resp)))
      else Ret None
  end.

Definition client_UpsertWorkload (c : Config) (heartbeatToken : string) (info : WorkloadInfo)
    : program (option goerr) :=
  post_ok c "/operators/workloads/upsert" "upsert workload" heartbeatToken (upsertWorkloadRequest info).

Definition client_RemoveWorkload (c : Config) (heartbeatToken name namespace : string)
    : program (option goerr) :=
  post_ok c "/operators/workloads/remove" "remove workload" heartbeatToken
    (JObject [("name", JString name); ("namespace", JString namespace)]).

Record verifyGatewayTokenResponse := { vg_UserID : string }.

Definition decode_verify : decoder verifyGatewayTokenResponse := decode_struct [
  decode_field "userId" vg_UserID (λ v _, {| vg_UserID := v |}) decode_string ].

Definition client_VerifyGatewayToken (c : Config) (heartbeatToken token namespace name : string)
    : program (result goerr string) :=
  resp <- post c "/operators/gateway/verify" "verify gateway token" [content_type; bearer heartbeatToken]
            (JObject [("token", JString token); ("namespace", JString namespace); ("name", JString name)]) ;;
  match resp with
  | Err err => Ret (Err err)
  | Ok resp =>
      if negb (rs_Status resp =? StatusOK)%Z
      then Ret (Err (status_error "verify gateway token" (rs_Status resp)))
      else match decode_body "verify gateway token" {| vg_UserID := "" |} decode_verify resp with
           | Err err => Ret (Err err)
           | Ok out => Ret (Ok (vg_UserID out))
           end
  end.

(** [t.UnixMilli()]: rounded down. *)
Definition unix_milli (t : Z) : Z := t / 1000000.

Definition metric_sample_json (s : Sample) : json := JObject [
  ("name", JString (sa_Name s)); ("metric", JString (sa_Metric s)); ("value", JFloat (sa_Value s));
  ("sampledAt", JInt (unix_milli (sa_SampledAt s))) ].

Definition client_ReportMetrics (c : Config) (heartbeatToken : string) (samples : list Sample)
    : program (option goerr) :=
  match samples with
  | [] => Ret None
  | _ => post_ok c "/operators/metrics/report" "metrics report" heartbeatToken
           (JObject [("samples", JArray (metric_sample_json <$> samples))])
  end.

End Client.

(** ** cmd/main.go: OPERATOR_TAGS *)
Definition comma : Ascii.ascii := Ascii.Ascii false false true true false true false false.

Definition operatorTags (env : option string) : option (list string) :=
  match env with
  | None => None
  | Some raw =>
      Some (if decide (raw = "") then []
            else filter (λ tag, tag ≠ "") (strings_TrimSpace <$> split_on comma raw))
  end.

Section Tags.
Local Arguments String.append !_ _ /.

Definition comma_free : string → Prop := free_of comma.

Lemma trim_left_sub l x : x ∈ trim_left l → x ∈ l.
Proof.
  assert (∀ n l, length l ≤ n → x ∈ trim_left l → x ∈ l) as Hn; [|by apply (Hn (length l))].
  clear l. induction n as [|n IH]; intros [|a [|b [|c l]]] Hlen; simpl in *; try done; try lia;
    repeat case_match; first [done | set_solver | intros Hin; apply IH in Hin; [set_solver|simpl in *; lia]].
Qed.

Lemma trim_right_rev_sub l x : x ∈ trim_right_rev l → x ∈ l.
Proof.
  assert (∀ n l, length l ≤ n → x ∈ trim_right_rev l → x ∈ l) as Hn; [|by apply (Hn (length l))].
  clear l. induction n as [|n IH]; intros [|a [|b [|c l]]] Hlen; simpl in *; try done; try lia;
    repeat case_match; first [done | set_solver | intros Hin; apply IH in Hin; [set_solver|simpl in *; lia]].
Qed.

Lemma chars_of_list l : chars (String.string_of_list_ascii l) = l.
Proof. induction l; simpl; congruence. Qed.

Lemma trim_comma_free s : comma_free s → comma_free (strings_TrimSpace s).
Proof.
  unfold comma_free, free_of, strings_TrimSpace. rewrite chars_of_list. intros Hs Hin. apply Hs.
  apply trim_left_sub, elem_of_reverse, trim_right_rev_sub, elem_of_reverse, Hin.
Qed.

Lemma split_join l : l ≠ [] → Forall comma_free l → split_on comma (strings_Join l ",") = l.
Proof. apply (split_on_join comma). Qed.

(** Tags as configured: non-empty and without commas. *)
Definition tag_ok (s : string) : Prop := s ≠ "" ∧ comma_free s.

Lemma operatorTags_ok env tags : operatorTags env = Some tags → Forall tag_ok tags.
Proof.
  destruct env as [raw|]; [|done]. simpl. intros [= <-]. case_decide; [done|].
  apply Forall_forall. intros s [Hne Hin]%list_elem_of_filter. split; [done|].
  apply list_elem_of_fmap in Hin as (t & -> & Hin). by eapply trim_comma_free, split_on_free.
Qed.

Lemma join_nonempty s l : s ≠ "" → strings_Join (s :: l) "," ≠ "".
Proof. destruct s as [|a s]; [done|]. intros _. by destruct l. Qed.

Lemma join_inj l1 l2 :
  Forall tag_ok l1 → Forall tag_ok l2 → strings_Join l1 "," = strings_Join l2 "," → l1 = l2.
Proof.
  intros H1 H2 Heq.
  assert (∀ l, Forall tag_ok l → Forall comma_free l) as Hcf.
  { intros l Hl. eapply Forall_impl; [exact Hl|]. by intros ? []. }
  destruct l1 as [|s1 l1], l2 as [|s2 l2]; [done|..].
  - apply Forall_cons in H2 as [[? _] _]. symmetry in Heq. by apply join_nonempty in Heq.
  - apply Forall_cons in H1 as [[? _] _]. by apply join_nonempty in Heq.
  - rewrite <- (split_join (s1 :: l1)), <- (split_join (s2 :: l2)) by auto. by rewrite Heq.
Qed.

(** The tag fingerprint loses nothing: two configurations whose tags come from
    OPERATOR_TAGS have the same fingerprint exactly when they report the same tags
    to Convex, an unset variable and an empty one being told apart, so every change
    of the tags leads to a new registration. *)
Theorem TagsFingerprint_faithful c1 c2 env1 env2 :
  cf_Tags c1 = operatorTags env1 → cf_Tags c2 = operatorTags env2 →
  TagsFingerprint c1 = TagsFingerprint c2 ↔ cf_Tags c1 = cf_Tags c2.
Proof.
  intros H1 H2. unfold TagsFingerprint. split; [|by intros ->].
  destruct (cf_Tags c1) as [l1|], (cf_Tags c2) as [l2|]; try done.
  intros Heq. apply (inj (String.append "set:")) in Heq. f_equal. apply join_inj; [..|done];
    by eapply operatorTags_ok.
Qed.

End Tags.

(** The response an event of the history carries. *)
Definition http_answer (e : event answer) : option (result goerr HttpResponse) :=
  match e with existT (HttpDo _) a => Some a | _ => None end.

Section Status.
Context `{!GoStd, !GoNet}.

(** The heartbeat tells a rejected credential from every other failure: it
    returns the bare unauthorized sentinel, on which the caller re-registers,
    exactly when Convex answered 401 or 410, and it never makes more than one call. *)
Theorem Heartbeat_unauthorized_iff c tok snap usage tr res :
  exec (Heartbeat c tok snap usage) tr res →
  length tr ≤ 1 ∧
  (res = Err (ESentinel ErrUnauthorized) ↔
   ∃ rq resp, tr = [existT (HttpDo rq) (Ok resp)] ∧ rs_Status resp ∈ [StatusUnauthorized; StatusGone]).
Proof.
  unfold Heartbeat, post. intros He.
  destruct (json_Marshal _) as [body|err]; simpl in He.
  2:{ destruct He as [-> ->]. split; [simpl; lia|]. naive_solver. }
  destruct (http_NewRequest _) as [err|]; simpl in He.
  { destruct He as [-> ->]. split; [simpl; lia|]. naive_solver. }
  destruct He as (a & tr' & -> & He).
  assert (tr' = [] ∧ (res = Err (ESentinel ErrUnauthorized) ↔
    ∃ resp, a = Ok resp ∧ rs_Status resp ∈ [StatusUnauthorized; StatusGone])) as [-> Hr].
  { destruct a as [resp|err]; simpl in He; [|destruct He as [-> ->]; naive_solver].
    assert (∀ x, rs_Status resp ∈ [StatusUnauthorized; StatusGone] ↔ ∃ r', Ok (E:=x) resp = Ok r' ∧
      rs_Status r' ∈ [StatusUnauthorized; StatusGone]) as Hx.
    { intros x. split; [eauto|]. by intros (? & [= <-] & ?). }
    rewrite <- Hx. unfold StatusOK, StatusUnauthorized, StatusGone in *.
    destruct (Z.eqb_spec (rs_Status resp) 200) as [Hs|Hs].
    - rewrite Hs. unfold decode_body in He.
      destruct (rs_Body resp) as [j|]; [destruct (decode_heartbeat _ _)|]; destruct He as [-> ->];
        (split; [done|]); split; try done; intros Hin; set_solver.
    - destruct (_ || _) eqn:Hor; destruct He as [-> ->]; (split; [done|]); split; try done.
      + intros _. apply orb_true_iff in Hor as [?%Z.eqb_eq|?%Z.eqb_eq]; set_solver.
      + intros Hin. apply orb_false_iff in Hor as [?%Z.eqb_neq ?%Z.eqb_neq]. set_solver. }
  split; [simpl; lia|]. rewrite Hr. split.
  - intros (resp & -> & ?). eauto.
  - intros (rq & resp & Heq & ?). exists resp. split; [|done].
    apply (f_equal (λ l, head l ≫= http_answer)) in Heq. simpl in Heq. congruence.
Qed.

End Status.
