(* ===== verification/Runnable.v ===== *)
(** * Runnable: registration, heartbeat and the claim loop

    [internal/convexclient/runnable.go] and [enrollment.go].  The state is the
    client configuration (whose enrollment secret changes) and the tokens in
    memory; everything else of [Runnable] is fixed.  A function that updates the
    state returns the new one.  Log lines are left out. *)

From S2P Require Import Prelude.
From S2P Require Import Effects.
From S2P Require Import Go.
From S2P Require Import Json.
From S2P Require Import Api.
From S2P Require Import Calls.
From S2P Require Import Catalog.
From S2P Require Import CatalogTemplates.
From S2P Require Import Capacity.
From S2P Require Import Provisioning.
From S2P Require Import TokenStore.
From S2P Require Import Metrics.
From S2P Require Import ConvexClient.

Local Open Scope prog_scope.

Definition maxClaimsPerTick : nat := 5.
Definition maxPendingOperationsPerTick : nat := 5.

Definition operationDestroy : string := "destroy".
Definition operationRedeploy : string := "redeploy".
Definition operationStop : string := "stop".
Definition operationResume : string := "resume".

Definition phaseFailed : string := "failed".
Definition reasonTemplateVersionMismatch : string := "template changed since request; please resubmit".

Record Runnable := {
  rn_client : Config;
  rn_store : Store;
  rn_enrollment : string;
  rn_heartbeatInterval : Z;
  rn_creator : option WorkloadCreator;
  rn_destroyer : option WorkloadDestroyer;
  rn_capacity : option Tracker;
  rn_usage : option Collector;
  rn_tokens : Tokens;
}.

Record RunnableConfig := {
  rcf_Client : Config;
  rcf_Store : Store;
  rcf_Enrollment : string;
  rcf_HeartbeatInterval : Z;
  rcf_Creator : option WorkloadCreator;
  rcf_Destroyer : option WorkloadDestroyer;
  rcf_Capacity : option Tracker;
  rcf_Usage : option Collector;
}.

Definition NewRunnable (cfg : RunnableConfig) : Runnable := {|
  rn_client := rcf_Client cfg; rn_store := rcf_Store cfg; rn_enrollment := rcf_Enrollment cfg;
  rn_heartbeatInterval := rcf_HeartbeatInterval cfg;
  rn_creator := rcf_Creator cfg; rn_destroyer := rcf_Destroyer cfg; rn_capacity := rcf_Capacity cfg;
  rn_usage := rcf_Usage cfg; rn_tokens := no_tokens |}.

Definition setTokens (r : Runnable) (tokens : Tokens) : Runnable := {|
  rn_client := rn_client r; rn_store := rn_store r; rn_enrollment := rn_enrollment r;
  rn_heartbeatInterval := rn_heartbeatInterval r;
  rn_creator := rn_creator r; rn_destroyer := rn_destroyer r; rn_capacity := rn_capacity r;
  rn_usage := rn_usage r; rn_tokens := tokens |}.

Definition set_client (r : Runnable) (c : Config) : Runnable := {|
  rn_client := c; rn_store := rn_store r; rn_enrollment := rn_enrollment r;
  rn_heartbeatInterval := rn_heartbeatInterval r;
  rn_creator := rn_creator r; rn_destroyer := rn_destroyer r; rn_capacity := rn_capacity r;
  rn_usage := rn_usage r; rn_tokens := rn_tokens r |}.

Definition CurrentDeployToken (r : Runnable) : string := DeployToken (rn_tokens r).

Definition EnrollmentSecretPath : string := "/etc/ai-cloud-operator/enrollment/ENROLLMENT_SECRET".

(** [EnrollmentSecretWatcher] is the path it reads. *)
Definition NewEnrollmentSecretWatcher (path : string) : string :=
  if decide (path = "") then EnrollmentSecretPath else path.

(** [EnrollmentSecretWatcher.Current]. *)
Definition Current (path : string) : program (result goerr string) :=
  data <- perform (ReadFile path) ;;
  match data with
  | Err err => Ret (Err (wrapf "reading enrollment secret file: " err))
  | Ok data => Ret (Ok (strings_TrimSpace data))
  end.

Section Runnable.
Context `{!GoStd, !GoNet, !KubeLib}.

Definition stamp_tokens (c : Config) (tokens : Tokens) : Tokens := {|
  HeartbeatToken := HeartbeatToken tokens; DeployToken := DeployToken tokens;
  CatalogHash := Hash; OperatorVersion := cf_Version c; TagsFingerprintOf := TagsFingerprint c |}.

Definition register (r : Runnable) : program (option goerr * Runnable) :=
  tokens <- Register (rn_client r) ;;
  match tokens with
  | Err err => Ret (Some err, r)
  | Ok tokens =>
      let tokens := stamp_tokens (rn_client r) tokens in
      saved <- Save (rn_store r) tokens ;;
      match saved with
      | Some err => Ret (Some err, r)
      | None => Ret (None, setTokens r tokens)
      end
  end.

(** Whether persisted tokens were issued for what this operator is now. *)
Definition fingerprints_match (c : Config) (tokens : Tokens) : bool :=
  bool_decide (CatalogHash tokens = Hash) &&
  bool_decide (OperatorVersion tokens = cf_Version c) &&
  bool_decide (TagsFingerprintOf tokens = TagsFingerprint c).

Definition loadOrRegister (r : Runnable) : program (option goerr * Runnable) :=
  loaded <- Load (rn_store r) ;;
  match loaded with
  | Ok (tokens, true) =>
      hb <- Heartbeat (rn_client r) (HeartbeatToken tokens) None None ;;
      match hb with
      | Ok _ =>
          if fingerprints_match (rn_client r) tokens then Ret (None, setTokens r tokens)
          else register r
      | Err _ => register r
      end
  | _ => register r
  end.

Definition checkEnrollmentSecret (r : Runnable) : program Runnable :=
  current <- Current (rn_enrollment r) ;;
  match current with
  | Err _ => Ret r
  | Ok current =>
      if decide (current = "" ∨ current = cf_EnrollmentSecret (rn_client r)) then Ret r else
      let r := set_client r (SetEnrollmentSecret (rn_client r) current) in
      res <- register r ;;
      Ret res.2
  end.

(** ** New workloads *)

(** The self-gate: no snapshot and an unknown template let the claim go ahead. *)
Definition claim_fits (snap : option Snapshot) (templateID : string) : bool :=
  match snap, Get templateID with
  | Some s, Some tmpl => Fits s (EstimatedResources tmpl).1 (EstimatedResources tmpl).2
  | _, _ => true
  end.

Definition charge (snap : option Snapshot) (tmpl : Template) : option Snapshot :=
  match snap with
  | None => None
  | Some s => Some {|
      AllocatableMilliCPU := AllocatableMilliCPU s;
      AllocatableMemoryBytes := AllocatableMemoryBytes s;
      UsedMilliCPU := int64 (UsedMilliCPU s + (EstimatedResources tmpl).1);
      UsedMemoryBytes := int64 (UsedMemoryBytes s + (EstimatedResources tmpl).2) |}
  end.

(** What happens to a claim that landed. *)
Definition create_claimed (r : Runnable) (wc : WorkloadCreator) (heartbeatToken : string)
    (snap : option Snapshot) (claimed : ClaimedWorkload) : program (option Snapshot) :=
  let mismatch :=
    client_ReportLifecycle (rn_client r) heartbeatToken "" (cd_WorkloadID claimed) phaseFailed
      reasonTemplateVersionMismatch false ;; Ret snap in
  match Get (cd_TemplateID claimed) with
  | None => mismatch
  | Some tmpl =>
      if decide (t_Version tmpl = cd_TemplateVersion claimed) then
        created <- Create wc (cd_WorkloadID claimed) (cd_TemplateID claimed) (cd_UserID claimed)
                     (cd_Subdomain claimed) (cd_Config claimed) ;;
        match created with
        | Err err =>
            client_ReportLifecycle (rn_client r) heartbeatToken "" (cd_WorkloadID claimed) phaseFailed
              (Error err) true ;; Ret snap
        | Ok _ => Ret (charge snap tmpl)
        end
      else mismatch
  end.

(** The loop body of [processClaimable]. *)
Definition claim_item (r : Runnable) (wc : WorkloadCreator) (heartbeatToken : string)
    (snap : option Snapshot) (item : ClaimableWorkload) : program (option Snapshot) :=
  if negb (claim_fits snap (cw_TemplateID item)) then Ret snap else
  claimed <- ClaimWorkload (rn_client r) heartbeatToken (cw_WorkloadID item) ;;
  match claimed with
  | Err _ => Ret snap
  | Ok None => Ret snap
  | Ok (Some claimed) => create_claimed r wc heartbeatToken snap claimed
  end.

Fixpoint claim_items (r : Runnable) (wc : WorkloadCreator) (heartbeatToken : string)
    (snap : option Snapshot) (items : list ClaimableWorkload) : program (option Snapshot) :=
  match items with
  | [] => Ret snap
  | item :: items =>
      snap <- claim_item r wc heartbeatToken snap item ;;
      claim_items r wc heartbeatToken snap items
  end.

Definition processClaimable (r : Runnable) (heartbeatToken : string)
    (claimable : list ClaimableWorkload) (snap : option Snapshot) : program (option Snapshot) :=
  match rn_creator r with
  | None => Ret snap
  | Some wc => claim_items r wc heartbeatToken snap (take maxClaimsPerTick claimable)
  end.

(** ** Operations on existing workloads *)

(** Run [p] and report its error, if any, as a retryable failure of [name]. *)
Definition report_failure (r : Runnable) (heartbeatToken name : string) (p : program (option goerr))
    : program unit :=
  err <- p ;;
  match err with
  | None => Ret tt
  | Some err =>
      client_ReportLifecycle (rn_client r) heartbeatToken name "" phaseFailed (Error err) true ;; Ret tt
  end.

Definition run_operation (r : Runnable) (heartbeatToken : string) (op : ClaimedOperation) : program unit :=
  if decide (co_Operation op = operationDestroy) then
    match rn_destroyer r with
    | None => Ret tt
    | Some wd => report_failure r heartbeatToken (co_Name op) (Destroy wd (co_Name op))
    end
  else if decide (co_Operation op = operationRedeploy) then
    match rn_creator r with
    | None => Ret tt
    | Some wc =>
        let mismatch :=
          client_ReportLifecycle (rn_client r) heartbeatToken (co_Name op) "" phaseFailed
            reasonTemplateVersionMismatch false ;; Ret tt in
        match Get (co_TemplateID op) with
        | None => mismatch
        | Some tmpl =>
            if decide (t_Version tmpl = co_TemplateVersion op)
            then report_failure r heartbeatToken (co_Name op) (Redeploy wc (co_Name op) (co_Config op))
            else mismatch
        end
    end
  else if decide (co_Operation op = operationStop ∨ co_Operation op = operationResume) then
    match rn_creator r with
    | None => Ret tt
    | Some wc =>
        report_failure r heartbeatToken (co_Name op)
          (SetSuspended wc (co_Name op) (bool_decide (co_Operation op = operationStop)))
    end
  else Ret tt.

Fixpoint run_operations (r : Runnable) (heartbeatToken : string) (items : list PendingOperation)
    : program unit :=
  match items with
  | [] => Ret tt
  | item :: items =>
      op <- ClaimOperation (rn_client r) heartbeatToken (po_WorkloadID item) ;;
      match op with
      | Err _ => run_operations r heartbeatToken items
      | Ok None => run_operations r heartbeatToken items
      | Ok (Some op) =>
          run_operation r heartbeatToken op ;;
          run_operations r heartbeatToken items
      end
  end.

Definition processPendingOperations (r : Runnable) (heartbeatToken : string)
    (pendingOps : list PendingOperation) : program unit :=
  match rn_creator r, rn_destroyer r with
  | None, None => Ret tt
  | _, _ => run_operations r heartbeatToken (take maxPendingOperationsPerTick pendingOps)
  end.

(** ** The heartbeat *)

(** A measurement that may be unconfigured and may fail. *)
Definition measure {A T} (source : option T) (take : T → program (result goerr A)) : program (option A) :=
  match source with
  | None => Ret None
  | Some t =>
      res <- take t ;;
      match res with Ok a => Ret (Some a) | Err _ => Ret None end
  end.

Definition heartbeatOnce (r : Runnable) : program Runnable :=
  let heartbeatToken := HeartbeatToken (rn_tokens r) in
  snap <- measure (rn_capacity r) take_snapshot ;;
  live <- measure (rn_usage r) CollectUsage ;;
  hb <- Heartbeat (rn_client r) heartbeatToken snap live ;;
  match hb with
  | Err err =>
      if decide (err = ESentinel ErrUnauthorized) then
        res <- register r ;;
        Ret res.2
      else Ret r
  | Ok (claimable, pendingOps) =>
      processClaimable r heartbeatToken claimable snap ;;
      processPendingOperations r heartbeatToken pendingOps ;;
      Ret r
  end.

(** [Start], cancelled after [n] ticks.  [time.NewTicker] panics on an interval that
    is not positive. *)
Fixpoint ticks (r : Runnable) (n : nat) : program Runnable :=
  match n with
  | O => Ret r
  | S n =>
      r <- heartbeatOnce r ;;
      r <- checkEnrollmentSecret r ;;
      ticks r n
  end.

Definition Start (r : Runnable) (n : nat) : program (option goerr * Runnable) :=
  res <- loadOrRegister r ;;
  match res with
  | (Some err, r) => Ret (Some err, r)
  | (None, r) =>
      if (rn_heartbeatInterval r <=? 0)%Z then Ret (Some EPanic, r)
      else r <- ticks r n ;; Ret (None, r)
  end.

End Runnable.
