(* ===== verification/RunnableCalls.v ===== *)
(** * RunnableCalls: the calls of the Convex runnable

    Which calls the parts of the heartbeat loop make, apart from the writes of
    Workloads, stated so that any property these calls share carries over. *)

From S2P Require Import Prelude.
From S2P Require Import Effects.
From S2P Require Import Go.
From S2P Require Import Json.
From S2P Require Import Api.
From S2P Require Import Calls.
From S2P Require Import Capacity.
From S2P Require Import Provisioning.
From S2P Require Import TokenStore.
From S2P Require Import Metrics.
From S2P Require Import ConvexClient.
From S2P Require Import Runnable.

(** A member of a JSON object. *)
Fixpoint assoc (k : string) (kvs : list (string * json)) : option json :=
  match kvs with
  | [] => None
  | (k', v) :: kvs => if decide (k' = k) then Some v else assoc k kvs
  end.

Definition assoc_string (k : string) (kvs : list (string * json)) : string :=
  match assoc k kvs with Some (JString s) => s | _ => "" end.

(** The name and the request id in a report that asks for a retry. *)
Definition retry_about (body : json) : option (string * string) :=
  match body with
  | JObject kvs =>
      match assoc "retryable" kvs with
      | Some (JBool true) => Some (assoc_string "name" kvs, assoc_string "workloadId" kvs)
      | _ => None
      end
  | _ => None
  end.

(** Convex (apart from reports that ask for a retry), the Secret of the tokens, the
    enrollment file, and what is measured. *)
Definition runnable_call (c : call) : Prop :=
  match c with
  | HttpDo rq => retry_about (rq_Body rq) = None
  | KGetSecret _ | KCreateSecret _ | KUpdateSecret _ | ReadFile _
  | KListNodes | KListDeployments _ _ | KListPods _ _ | KNodeSummary _ => True
  | _ => False
  end.

Definition covers (P : call → Prop) : Prop := ∀ c, runnable_call c → P c.

(** ... and all reports. *)
Definition covers_posts (P : call → Prop) : Prop := ∀ rq, P (HttpDo rq).

Section Requests.
Context `{!GoStd, !GoNet, !KubeLib}.

Lemma marshal_same j j' : json_Marshal j = Ok j' → j' = j.
Proof. unfold json_Marshal. destruct (json_finite j); naive_solver. Qed.

Lemma report_about name id phase reason b :
  retry_about (reportLifecycleRequest name id phase reason b) = if b then Some (name, id) else None.
Proof.
  unfold reportLifecycleRequest, omitempty_string, omitempty_bool. by destruct b; repeat case_decide; subst.
Qed.

Lemma register_about c : retry_about (registerRequest c) = None.
Proof.
  unfold registerRequest, omitempty_string, omitempty_ptr. by repeat case_decide; destruct (cf_Tags c).
Qed.

Lemma heartbeat_about c snap live : retry_about (heartbeatRequest c snap live) = None.
Proof. by destruct snap. Qed.
End Requests.

#[export] Hint Resolve register_about heartbeat_about : effects.

Section RunnableCalls.
Context `{!GoStd, !GoNet, !KubeLib} (P : call → Prop).
Hypothesis HP : covers P.

#[local] Hint Extern 1 (P _) => (apply HP; exact I) : effects.
#[local] Hint Extern 1 (_ ∧ ∀ _, True) => (split; [apply HP; exact I|done]) : effects.

(** A post whose body is allowed is the only call [post] makes. *)
Lemma post_calls_body c path what headers body h :
  (∀ rq, rq_Body rq = body → P (HttpDo rq)) → safe (λ _, P) h (post c path what headers body).
Proof.
  intros Hp. unfold post. destruct (json_Marshal body) as [j|] eqn:Hm; [|done].
  apply marshal_same in Hm as ->. destruct (http_NewRequest _); [done|]. prog_run; auto.
Qed.

Lemma post_safe c path what headers body h :
  retry_about body = None → safe (λ _, P) h (post c path what headers body).
Proof. intros Hb. apply post_calls_body. intros rq Hrq. apply HP. simpl. by rewrite Hrq. Qed.

#[local] Hint Resolve post_safe : effects.

(** A report that asks for no retry needs no more than that; others do. *)
Lemma report_quiet c tok name id phase reason h :
  safe (λ _, P) h (client_ReportLifecycle c tok name id phase reason false).
Proof. unfold client_ReportLifecycle. pose proof (report_about name id phase reason false). prog_calls. Qed.

Lemma report_safe c tok name id phase reason b h :
  covers_posts P → safe (λ _, P) h (client_ReportLifecycle c tok name id phase reason b).
Proof. intros Hp. unfold client_ReportLifecycle. prog_calls. apply post_calls_body. auto. Qed.

Lemma Heartbeat_safe c tok snap live h : safe (λ _, P) h (Heartbeat c tok snap live).
Proof. unfold Heartbeat. prog_calls. Qed.

Lemma ClaimWorkload_safe c tok id h : safe (λ _, P) h (ClaimWorkload c tok id).
Proof. unfold ClaimWorkload. prog_calls. Qed.

Lemma ClaimOperation_safe c tok id h : safe (λ _, P) h (ClaimOperation c tok id).
Proof. unfold ClaimOperation. prog_calls. Qed.

Lemma register_safe r h : safe (λ _, P) h (register r).
Proof. unfold register, Register, Save. prog_calls. Qed.

#[local] Hint Resolve Heartbeat_safe register_safe : effects.

Lemma loadOrRegister_safe r h : safe (λ _, P) h (loadOrRegister r).
Proof. unfold loadOrRegister, Load. prog_calls. Qed.

Lemma checkEnrollmentSecret_safe r h : safe (λ _, P) h (checkEnrollmentSecret r).
Proof. unfold checkEnrollmentSecret, Current. prog_calls. Qed.

Lemma usage_nodes_safe managed nodes snap h : safe (λ _, P) h (usage_nodes managed nodes snap).
Proof. revert snap h. induction nodes; intros; simpl; unfold fetchNodeSummary; prog_calls. Qed.

#[local] Hint Resolve usage_nodes_safe : effects.

Lemma capacity_safe (source : option Tracker) h : safe (λ _, P) h (measure source take_snapshot).
Proof. unfold measure, take_snapshot. prog_calls. Qed.

Lemma usage_safe (source : option Collector) h : safe (λ _, P) h (measure source CollectUsage).
Proof. unfold measure, CollectUsage. prog_calls. Qed.

End RunnableCalls.

(** For a concrete property of calls the premise is a case analysis. *)
#[export] Hint Extern 1 (covers _) => (intros []; simpl; tauto) : effects.
#[export] Hint Extern 1 (covers_posts _) => (intros ?; simpl; tauto) : effects.
#[export] Hint Resolve post_safe report_safe Heartbeat_safe ClaimWorkload_safe ClaimOperation_safe
  register_safe loadOrRegister_safe checkEnrollmentSecret_safe capacity_safe usage_safe : effects.
