(* ===== verification/RunnableFacts.v ===== *)
(** * RunnableFacts: what the connection to Convex guarantees

    Theorems about every run of the registration, heartbeat and claim loop of
    [Runnable]: the tokens in memory, claims that are never lost, capacity that is
    never overcommitted, reports of failed operations, and the rotation of the
    enrollment secret. *)

From S2P Require Import Prelude.
From S2P Require Import Effects.
From S2P Require Import Go.
From S2P Require Import Json.
From S2P Require Import Api.
From S2P Require Import Calls.
From S2P Require Import Catalog.
From S2P Require Import CatalogTemplates.
From S2P Require Import Controller.
From S2P Require Import ControllerObjects.
From S2P Require Import Capacity.
From S2P Require Import Provisioning.
From S2P Require Import TokenStore.
From S2P Require Import Metrics.
From S2P Require Import ConvexClient.
From S2P Require Import Runnable.

(** ** Tokens *)
Section Tokens.
Context `{!GoStd, !GoNet, !KubeLib}.

(** A Secret with these tokens was read or written in the history. *)
Definition tokens_seen (h : trace) (t : Tokens) : Prop :=
  ∃ e sec, e ∈ h ∧ (stored_secret e = Some sec ∨ read_secret e = Some sec) ∧ secret_tokens sec = t.

Definition tokens_current (h : trace) (r : Runnable) : Prop :=
  fingerprints_match (rn_client r) (rn_tokens r) = true ∧ tokens_seen h (rn_tokens r).

Lemma tokens_seen_app h ext t : tokens_seen h t → tokens_seen (h ++ ext) t.
Proof. unfold tokens_seen. setoid_rewrite elem_of_app. naive_solver. Qed.

Lemma tokens_current_app h ext r : tokens_current h r → tokens_current (h ++ ext) r.
Proof. intros [? ?]. split; [done|by apply tokens_seen_app]. Qed.

Lemma stamp_match c t : fingerprints_match c (stamp_tokens c t) = true.
Proof. unfold fingerprints_match. simpl. by rewrite !bool_decide_true. Qed.

Lemma Save_seen s t h : wp h (Save s t) (λ h' res, res = None → tokens_seen h' t).
Proof.
  unfold Save. prog_run; try done; intros _; eexists _, _;
    (split; [apply elem_of_app; right; left|]); (split; [left; reflexivity|apply write_tokens_read]).
Qed.

(** A registration replaces the tokens by current ones, or leaves the state alone. *)
Lemma register_current r h :
  wp h (register r) (λ h' res, (∃ ext, h' = h ++ ext) ∧
    match res.1 with
    | None => tokens_current h' res.2
    | Some _ => res.2 = r
    end).
Proof.
  apply wp_and; [apply wp_history|]. unfold register. rewrite wp_bind. apply wp_trivial.
  intros h1 [t|e]; [|done]. rewrite wp_bind. eapply wp_mono; [|apply Save_seen].
  intros h2 [e|] Hs; [done|]. split; [apply stamp_match|by apply Hs].
Qed.

Lemma Load_seen s h :
  wp h (Load s) (λ h' res, ∀ t, res = Ok (t, true) → tokens_seen h' t).
Proof.
  unfold Load. prog_run; try naive_solver. intros t [= <-].
  eexists _, _. split; [apply elem_of_app; right; left|]. split; [right; reflexivity|done].
Qed.

Lemma loadOrRegister_current r h :
  wp h (loadOrRegister r) (λ h' res, res.1 = None → tokens_current h' res.2).
Proof.
  assert (∀ h, wp h (register r) (λ h' res, res.1 = None → tokens_current h' res.2)) as Hreg.
  { intros h'. eapply wp_mono; [|apply register_current]. intros ? [[e|] r'] [_ ?]; naive_solver. }
  unfold loadOrRegister. rewrite wp_bind. eapply wp_mono; [|apply Load_seen].
  intros h1 [[t []]|e] Hl; try apply Hreg. rewrite wp_bind. eapply wp_mono; [|apply wp_history].
  intros h2 [hb|e] [ext ->]; [|apply Hreg].
  destruct (fingerprints_match _ _) eqn:Hf; [|apply Hreg]. intros _. split; [done|].
  by apply tokens_seen_app, Hl.
Qed.

Lemma register_keeps_current r h :
  tokens_current h r → wp h (register r) (λ h' res, tokens_current h' res.2).
Proof.
  intros Hr. eapply wp_mono; [|apply register_current].
  intros h' [[e|] r'] [[ext ->] ?]; simpl in *; [|done]. subst. by apply tokens_current_app.
Qed.

Lemma heartbeatOnce_keeps_current r h :
  tokens_current h r → wp h (heartbeatOnce r) tokens_current.
Proof.
  intros Hr. unfold heartbeatOnce.
  rewrite wp_bind. eapply wp_mono; [|apply wp_history]. intros h1 snap [e1 ->].
  rewrite wp_bind. eapply wp_mono; [|apply wp_history]. intros h2 live [e2 ->].
  rewrite wp_bind. eapply wp_mono; [|apply wp_history]. intros h3 [[claimable ops]|err] [e3 ->].
  - rewrite wp_bind. eapply wp_mono; [|apply wp_history]. intros h4 s [e4 ->].
    rewrite wp_bind. eapply wp_mono; [|apply wp_history]. intros h5 [] [e5 ->].
    by do 5 apply tokens_current_app.
  - destruct (decide _); [|by do 3 apply tokens_current_app].
    rewrite wp_bind. apply register_keeps_current. by do 3 apply tokens_current_app.
Qed.

Lemma checkEnrollmentSecret_keeps_current r h :
  tokens_current h r → wp h (checkEnrollmentSecret r) tokens_current.
Proof.
  intros Hr. unfold checkEnrollmentSecret.
  rewrite wp_bind. eapply wp_mono; [|apply wp_history]. intros h1 [cur|err] [e1 ->].
  2:{ by apply tokens_current_app. }
  destruct (decide _); [by apply tokens_current_app|].
  rewrite wp_bind. apply register_keeps_current. by apply tokens_current_app.
Qed.

Lemma ticks_keep_current n r h : tokens_current h r → wp h (ticks r n) tokens_current.
Proof.
  revert r h. induction n as [|n IH]; intros r h Hr; [done|]. cbn [ticks].
  rewrite wp_bind. eapply wp_mono; [|by apply heartbeatOnce_keeps_current]. intros h1 r1 Hr1.
  rewrite wp_bind. eapply wp_mono; [|by apply checkEnrollmentSecret_keeps_current]. auto.
Qed.

Lemma Start_current r n : wp [] (Start r n) (λ h res, res.1 = None → tokens_current h res.2).
Proof.
  unfold Start. rewrite wp_bind. eapply wp_mono; [|apply loadOrRegister_current].
  intros h [[e|] r1] Hc; [done|]. case_match; [done|]. rewrite wp_bind.
  eapply wp_mono; [|by apply ticks_keep_current, Hc]. intros h' r2 Hr2 _. done.
Qed.

(** C19. The operator never runs on a stale registration: once [Start] got past its
    initial registration, after any number of ticks and whatever Convex and the
    cluster answered, the tokens in memory were issued for the current catalog,
    version and tags, and they are those of a token Secret that was read or
    successfully written in this run, so a restart finds them. *)
Theorem Start_tokens_current r n tr r' :
  exec (Start r n) tr (None, r') → tokens_current tr r'.
Proof. intros He. by apply (wp_sound _ _ _ _ (Start_current r n) He). Qed.

End Tokens.

(** ** The enrollment secret *)

(** What a file read returned. *)
Definition file_content (e : event answer) : option string :=
  match e with
  | existT (ReadFile _) (Ok data) => Some data
  | _ => None
  end.

Section Enrollment.
Context `{!GoStd, !GoNet, !KubeLib}.

Lemma register_client r h :
  wp h (register r) (λ _ res, rn_client res.2 = rn_client r ∧ rn_enrollment res.2 = rn_enrollment r).
Proof.
  unfold register. rewrite wp_bind. apply wp_trivial. intros h1 [t|e]; [|done].
  rewrite wp_bind. apply wp_trivial. by intros h2 [e|].
Qed.

(** C39. The secret counts as used once it has been tried: after a run of
    [checkEnrollmentSecret] that read some content, the next run that reads the same
    content does nothing, even when the registration attempted with it failed; the
    new secret is then presented only when a heartbeat is rejected. *)
Theorem enrollment_attempted_once r tr r' tr' r'' data :
  exec (checkEnrollmentSecret r) tr r' → head tr ≫= file_content = Some data →
  exec (checkEnrollmentSecret r') tr' r'' → head tr' ≫= file_content = Some data →
  length tr' = 1 ∧ r'' = r'.
Proof.
  unfold checkEnrollmentSecret. intros (a & tr1 & -> & He) Hd (a' & tr2 & -> & He') Hd'. simpl in *.
  destruct a as [d|]; [|done]. destruct a' as [d'|]; [|done]. simplify_eq. simpl in *.
  assert (strings_TrimSpace data = "" ∨ strings_TrimSpace data = cf_EnrollmentSecret (rn_client r')) as Hc.
  { destruct (decide _) as [Hx|Hx]; [by destruct He as [-> ->]|].
    apply exec_bind in He as (t1 & t2 & x & -> & Hreg & [-> ->]). right.
    pose proof (wp_sound _ _ _ _ (register_client _ []) Hreg) as [-> _]. done. }
  rewrite decide_True in He' by done. by destruct He' as [-> ->].
Qed.

End Enrollment.

(** ** Claims *)

Definition claim_path : string := "/operators/workloads/claim".
Definition lifecycle_path : string := "/operators/workloads/lifecycle".

Definition authorized_post (c : Config) (path token : string) (body : json) : HttpRequest := {|
  rq_Method := "POST"; rq_URL := cf_BaseURL c +:+ path;
  rq_Headers := [content_type; bearer token]; rq_Body := body |}.

Definition claim_body (workloadID : string) : json := JObject [("workloadId", JString workloadID)].

(** What a response to a claim hands over. *)
Definition claim_answer (a : result goerr HttpResponse) : option ClaimedWorkload :=
  match a with
  | Ok resp =>
      if (rs_Status resp =? StatusOK)%Z then
        match decode_body "claim workload" no_claim decode_claim resp with
        | Ok claimed => Some claimed
        | Err _ => None
        end
      else None
  | Err _ => None
  end.

(** The workload an event of the history claimed, if it is a claim that landed. *)
Definition claim_landed (c : Config) (e : event answer) : option ClaimedWorkload :=
  match e with
  | existT (HttpDo rq) a =>
      if decide (rq_URL rq = cf_BaseURL c +:+ claim_path) then claim_answer a else None
  | _ => None
  end.

(** The claim is settled: its Workload exists, or Convex is told it failed. *)
Definition claim_settled (c : Config) (claimed : ClaimedWorkload) (e : event answer) : Prop :=
  match e with
  | existT (KCreateWorkload w) (Ok _) =>
      ws_TemplateName (w_Spec w) = cd_TemplateID claimed ∧
      (cd_WorkloadID claimed ≠ "" → w_Labels w !! WorkloadID = Some (cd_WorkloadID claimed))
  | existT (HttpDo rq) _ =>
      ∃ token reason retryable,
        rq = authorized_post c lifecycle_path token
               (reportLifecycleRequest "" (cd_WorkloadID claimed) phaseFailed reason retryable)
  | _ => False
  end.

Definition claims_settled (c : Config) (tr : trace) : Prop :=
  ∀ h e t claimed, tr = h ++ e :: t → claim_landed c e = Some claimed →
    ∃ e', e' ∈ t ∧ claim_settled c claimed e'.

Lemma claims_settled_app c tr1 tr2 :
  claims_settled c tr1 → claims_settled c tr2 → claims_settled c (tr1 ++ tr2).
Proof.
  intros H1 H2 h e t claimed Heq Hl. apply app_eq_app in Heq as (l & [[-> Ht]|[-> Ht]]).
  - destruct l as [|e' l]; simpl in Ht.
    + apply (H2 [] e t claimed); [by symmetry|done].
    + injection Ht as -> ->. destruct (H1 h e' l claimed) as (x & ? & ?); [done|done|].
      exists x. split; [set_solver|done].
  - by apply (H2 l e t claimed).
Qed.

Lemma claims_settled_none c tr :
  Forall (λ e, claim_landed c e = None) tr → claims_settled c tr.
Proof.
  intros HF h e t claimed -> Hl. rewrite Forall_app, Forall_cons in HF. naive_solver.
Qed.

Section Claims.
Context `{!GoStd, !GoNet, !KubeLib}.

(** A report is one post, unless its URL does not parse. *)
Lemma lifecycle_exec c tok name id phase reason retryable tr res :
  exec (client_ReportLifecycle c tok name id phase reason retryable) tr res →
  (tr = [] ∧ http_NewRequest (cf_BaseURL c +:+ lifecycle_path) ≠ None) ∨
  ∃ a, tr = [existT (HttpDo (authorized_post c lifecycle_path tok
                       (reportLifecycleRequest name id phase reason retryable))) a].
Proof.
  intros He. unfold client_ReportLifecycle, post in He.
  assert (json_Marshal (reportLifecycleRequest name id phase reason retryable) =
          Ok (reportLifecycleRequest name id phase reason retryable)) as Hm.
  { unfold json_Marshal, reportLifecycleRequest, omitempty_string, omitempty_bool.
    by repeat case_decide; destruct retryable. }
  rewrite Hm in He. change "/operators/workloads/lifecycle" with lifecycle_path in He.
  destruct (http_NewRequest _) as [err|]; [left; by destruct He as [-> _]|right].
  destruct He as (a & tr' & -> & He). exists a. f_equal.
  simpl in He. destruct a as [resp|]; simpl in He;
    [destruct (_ =? _)%Z; [|destruct (negb _)]|]; by destruct He.
Qed.

(** The URL the client posts its reports to parses. *)
Definition reports_reachable (c : Config) : Prop :=
  http_NewRequest (cf_BaseURL c +:+ lifecycle_path) = None.

Lemma ClaimWorkload_exec c tok id tr res :
  exec (ClaimWorkload c tok id) tr res →
  (tr = [] ∧ ∃ e, res = Err e) ∨
  ∃ a, tr = [existT (HttpDo (authorized_post c claim_path tok (claim_body id))) a] ∧
    match res with Ok o => claim_answer a = o | Err _ => claim_answer a = None end.
Proof.
  intros He. unfold ClaimWorkload, post in He. simpl in He.
  destruct (http_NewRequest _) as [err|]; [left; destruct He as [-> ->]; eauto|]. right.
  destruct He as (a & tr' & -> & He). exists a. destruct a as [resp|e]; simpl in *;
    [|by destruct He as [-> ->]].
  destruct (_ =? _)%Z; [destruct (decode_body _ _ _ _)|destruct (_ || _)]; by destruct He as [-> ->].
Qed.

Lemma lifecycle_not_claim c tok body a :
  claim_landed c (existT (HttpDo (authorized_post c lifecycle_path tok body)) a) = None.
Proof. simpl. rewrite decide_False; [done|]. by intros ?%(inj (String.append _)). Qed.

Lemma claim_landed_claim c tok body a :
  claim_landed c (existT (HttpDo (authorized_post c claim_path tok body)) a) = claim_answer a.
Proof. simpl. by rewrite decide_True. Qed.

(** A claim that landed is settled by the calls that follow. *)
Lemma create_claimed_settles r wc tok snap claimed tr snap' :
  reports_reachable (rn_client r) →
  exec (create_claimed r wc tok snap claimed) tr snap' →
  (∃ e, e ∈ tr ∧ claim_settled (rn_client r) claimed e) ∧
  Forall (λ e, claim_landed (rn_client r) e = None) tr.
Proof.
  intros Hu He.
  assert (∀ name id reason b (tr : trace) (s : option Snapshot),
    exec (prog_bind (client_ReportLifecycle (rn_client r) tok name id phaseFailed reason b) (λ _, Ret s)) tr snap' →
    name = "" → id = cd_WorkloadID claimed →
    (∃ e, e ∈ tr ∧ claim_settled (rn_client r) claimed e) ∧
    Forall (λ e, claim_landed (rn_client r) e = None) tr) as Hreport.
  { intros name id reason b tr0 s (t1 & t2 & x & -> & Hl & [-> ->])%exec_bind -> ->.
    apply lifecycle_exec in Hl as [[_ []]|[a ->]]; [done|]. rewrite app_nil_r. split.
    - eexists. split; [left|]. exists tok, reason, b. done.
    - constructor; [apply lifecycle_not_claim|done]. }
  unfold create_claimed in He. destruct (Get (cd_TemplateID claimed)) as [tmpl|]; [|by eapply Hreport].
  destruct (decide _); [|by eapply Hreport].
  apply exec_bind in He as (t1 & t2 & x & -> & Hc & He). unfold Create in Hc.
  destruct (checked_config _ _) as [raw|err]; [|destruct Hc as [-> ->]; by eapply Hreport].
  destruct Hc as ([w|err] & t3 & -> & Hc); destruct Hc as [-> ->].
  - destruct He as [-> ->]. split; [|by repeat constructor].
    eexists. split; [left|]. split; [done|]. intros Hid. unfold w_Labels. simpl.
    rewrite decide_False by done. by simplify_map_eq.
  - apply Hreport in He as [(e' & Hin & He) HF]; [|done..]. split.
    + exists e'. split; [by right|done].
    + constructor; [done|done].
Qed.

Lemma claim_item_settles r wc tok snap item tr snap' :
  reports_reachable (rn_client r) →
  exec (claim_item r wc tok snap item) tr snap' → claims_settled (rn_client r) tr.
Proof.
  intros Hu He. unfold claim_item in He. destruct (negb _).
  { destruct He as [-> _]. by apply claims_settled_none. }
  apply exec_bind in He as (t1 & t2 & x & -> & Hc & He).
  apply ClaimWorkload_exec in Hc as [[-> [e ->]]|(a & -> & Ha)].
  { destruct He as [-> _]. by apply claims_settled_none. }
  destruct x as [[claimed|]|e].
  - apply create_claimed_settles in He as [(e & Hin & He) HF]; [|done].
    intros h e' t claimed' Heq Hl. destruct h as [|e0 h]; simplify_eq/=.
    + rewrite decide_True in Hl by done. simplify_eq. eauto.
    + rewrite Forall_app, Forall_cons in HF. naive_solver.
  - destruct He as [-> _]. apply claims_settled_none. constructor; [|done]. by rewrite claim_landed_claim.
  - destruct He as [-> _]. apply claims_settled_none. constructor; [|done]. by rewrite claim_landed_claim.
Qed.

(** C10. No claimed request is ever dropped: in every run of [processClaimable] of a
    client whose base URL gives a report URL that parses, a claim that landed is
    followed by the creation of its Workload, carrying the request's id, or by a failed
    report to Convex for that id. *)
Theorem claims_never_dropped r tok claimable snap tr snap' :
  reports_reachable (rn_client r) →
  exec (processClaimable r tok claimable snap) tr snap' → claims_settled (rn_client r) tr.
Proof.
  intros Hu. unfold processClaimable. destruct (rn_creator r) as [wc|].
  2:{ intros [-> _]. by apply claims_settled_none. }
  generalize (take maxClaimsPerTick claimable). intros items. revert snap tr.
  induction items as [|item items IH]; intros snap tr.
  { intros [-> _]. by apply claims_settled_none. }
  intros (t1 & t2 & s & -> & Hi & Hr)%exec_bind. apply claims_settled_app; [|by eapply IH].
  by eapply claim_item_settles.
Qed.

End Claims.

(** ** Capacity *)

(** What the events of a history cost: each Workload created counts with the
    estimate of its template. *)
Definition created_cost `{!GoStd, !KubeLib} (f : Z * Z → Z) (e : event answer) : Z :=
  match e with
  | existT (KCreateWorkload w) (Ok _) =>
      match Get (ws_TemplateName (w_Spec w)) with
      | Some tmpl => f (EstimatedResources tmpl)
      | None => 0
      end
  | _ => 0
  end.

Definition created (e : event answer) : Z :=
  match e with existT (KCreateWorkload _) (Ok _) => 1 | _ => 0 end.

Definition claim_posted (c : Config) (e : event answer) : Z :=
  match e with
  | existT (HttpDo rq) _ => if decide (rq_URL rq = cf_BaseURL c +:+ claim_path) then 1 else 0
  | _ => 0
  end.

(** The response to a claim is about the template that was offered. *)
Definition claim_echoes (c : Config) (items : list ClaimableWorkload) (e : event answer) : Prop :=
  match e with
  | existT (HttpDo rq) a =>
      ∀ item claimed, item ∈ items → rq_URL rq = cf_BaseURL c +:+ claim_path →
        rq_Body rq = claim_body (cw_WorkloadID item) → claim_answer a = Some claimed →
        cd_TemplateID claimed = cw_TemplateID item
  | _ => True
  end.

(** A snapshot without overflow and within capacity. *)
Definition within_capacity (s : Snapshot) : Prop :=
  (0 ≤ UsedMilliCPU s ≤ AllocatableMilliCPU s ∧ AllocatableMilliCPU s < 2 ^ 63 ∧
   0 ≤ UsedMemoryBytes s ≤ AllocatableMemoryBytes s ∧ AllocatableMemoryBytes s < 2 ^ 63)%Z.

Section Overcommit.
Context `{!GoStd, !GoNet, !KubeLib}.

(** The estimates of the catalog are amounts. *)
Definition estimates_nonneg : Prop :=
  ∀ t, t ∈ List → (0 ≤ (EstimatedResources t).1 ∧ 0 ≤ (EstimatedResources t).2)%Z.

(** The snapshot [s'] is [s] with the cost of the history [tr] added. *)
Definition charged (s s' : Snapshot) (tr : trace) : Prop :=
  AllocatableMilliCPU s' = AllocatableMilliCPU s ∧
  AllocatableMemoryBytes s' = AllocatableMemoryBytes s ∧
  UsedMilliCPU s' = (UsedMilliCPU s + zsum (created_cost fst) tr)%Z ∧
  UsedMemoryBytes s' = (UsedMemoryBytes s + zsum (created_cost snd) tr)%Z.

Lemma charged_app s s1 s2 tr1 tr2 :
  charged s s1 tr1 → charged s1 s2 tr2 → charged s s2 (tr1 ++ tr2).
Proof. unfold charged. rewrite !zsum_app. intros. intuition lia. Qed.

Lemma zsum_zero {A} (f : A → Z) l : Forall (λ x, f x = 0%Z) l → zsum f l = 0%Z.
Proof. induction 1; simpl; lia. Qed.

Lemma charged_nothing s tr :
  Forall (λ e, ∀ f, created_cost f e = 0%Z) tr → charged s s tr.
Proof.
  intros HF. unfold charged. rewrite !zsum_zero; [intuition lia|..];
    (eapply Forall_impl; [exact HF|]); simpl; auto.
Qed.

(** A report costs nothing. *)
Lemma report_charges r tok name id reason b (s x : Snapshot) tr :
  exec (prog_bind (client_ReportLifecycle (rn_client r) tok name id phaseFailed reason b)
          (λ _, Ret (Some s))) tr (Some x) → charged s x tr.
Proof.
  intros (t1 & t2 & y & -> & Hl & [-> [= ->]])%exec_bind.
  apply lifecycle_exec in Hl as [[-> _]|[a ->]]; apply charged_nothing; by repeat constructor.
Qed.

Lemma create_claimed_charges r wc tok s claimed tmpl tr s' :
  estimates_nonneg → within_capacity s →
  Get (cd_TemplateID claimed) = Some tmpl →
  Fits s (EstimatedResources tmpl).1 (EstimatedResources tmpl).2 = true →
  exec (create_claimed r wc tok (Some s) claimed) tr (Some s') → charged s s' tr ∧ within_capacity s'.
Proof.
  intros Hnn Hs Hg Hf He.
  assert (∀ t1 tr' name id reason b, Forall (λ e, ∀ f, created_cost f e = 0%Z) t1 →
    exec (prog_bind (client_ReportLifecycle (rn_client r) tok name id phaseFailed reason b)
          (λ _, Ret (Some s))) tr' (Some s') → charged s s' (t1 ++ tr') ∧ within_capacity s') as Hrep.
  { intros t1 tr' name id reason b Ht He'. pose proof He' as Hc. apply report_charges in Hc.
    split; [eapply charged_app; [by apply charged_nothing|done]|].
    apply exec_bind in He' as (? & ? & ? & -> & _ & [_ [= <-]]). done. }
  unfold create_claimed in He. rewrite Hg in He.
  destruct (decide _); [|eapply (Hrep []); [done|exact He]].
  apply exec_bind in He as (t1 & t2 & x & -> & Hc & He). unfold Create in Hc.
  destruct (checked_config _ _) as [raw|err]; [|destruct Hc as [-> ->]; eapply (Hrep []); [done|exact He]].
  destruct Hc as ([w|err] & t3 & -> & Hc); destruct Hc as [-> ->]; [|eapply Hrep; [by repeat constructor|exact He]].
  destruct He as [-> [= ->]]. destruct Hs as (Hc1 & Hc2 & Hm1 & Hm2).
  apply Fits_bound in Hf as [Hfc Hfm]; [|lia..].
  destruct (Hnn tmpl) as [? ?]; [by eapply Get_templates|].
  unfold charged, within_capacity. simpl. rewrite Hg. rewrite !int64_small by (unfold in_int64; lia). lia.
Qed.

Lemma claim_item_charges r wc tok s item items tr s' :
  estimates_nonneg → within_capacity s → item ∈ items →
  Forall (claim_echoes (rn_client r) items) tr →
  exec (claim_item r wc tok (Some s) item) tr (Some s') → charged s s' tr ∧ within_capacity s'.
Proof.
  intros Hnn Hs Hitem Hecho He. unfold claim_item in He.
  destruct (claim_fits (Some s) (cw_TemplateID item)) eqn:Hfit; simpl in He.
  2:{ destruct He as [-> [= ->]]. split; [by apply charged_nothing|done]. }
  apply exec_bind in He as (t1 & t2 & x & -> & Hc & He).
  apply ClaimWorkload_exec in Hc as [[-> [e ->]]|(a & -> & Ha)].
  { destruct He as [-> [= ->]]. split; [by apply charged_nothing|done]. }
  assert (∀ tr', charged s s' tr' → charged s s' ([existT (HttpDo (authorized_post (rn_client r) claim_path tok
    (claim_body (cw_WorkloadID item)))) a] ++ tr')) as Hskip.
  { intros tr' Hc. eapply charged_app; [|exact Hc]. apply charged_nothing. by repeat constructor. }
  destruct x as [[claimed|]|e].
  - apply Forall_cons in Hecho as [Hecho _].
    assert (cd_TemplateID claimed = cw_TemplateID item) as Ht by (by eapply Hecho).
    unfold claim_fits in Hfit. rewrite <- Ht in Hfit.
    destruct (Get (cd_TemplateID claimed)) as [tmpl|] eqn:Hg.
    + eapply create_claimed_charges in He as [? ?]; eauto.
    + unfold create_claimed in He. rewrite Hg in He. pose proof He as Hc.
      apply report_charges in Hc. split; [by apply Hskip|].
      apply exec_bind in He as (? & ? & ? & -> & _ & [_ [= <-]]). done.
  - destruct He as [-> [= ->]]. split; [|done]. by apply Hskip, charged_nothing.
  - destruct He as [-> [= ->]]. split; [|done]. by apply Hskip, charged_nothing.
Qed.

(** With a snapshot to start from, there is one to go on with. *)
Lemma claim_item_snapshot r wc tok s item h :
  wp h (claim_item r wc tok (Some s) item) (λ _ res, is_Some res).
Proof.
  unfold claim_item, create_claimed. prog_run; try (simpl; eauto); apply wp_trivial; intros;
    prog_run; try (simpl; eauto); apply wp_trivial; intros; prog_run; try (simpl; eauto);
    apply wp_trivial; intros; prog_run; simpl; eauto.
Qed.

(** C13. A tick never overcommits the cluster: starting from a snapshot within
    capacity, with a catalog whose estimates are not negative, and as long as Convex
    hands over the template it offered (a claim is not checked against the capacity
    again after it landed), [processClaimable] ends with a snapshot still within capacity, whose used
    amounts are the initial ones plus the estimates of exactly the Workloads
    created in this run. *)
Theorem claims_within_capacity r tok claimable s tr s' :
  estimates_nonneg → within_capacity s →
  Forall (claim_echoes (rn_client r) claimable) tr →
  exec (processClaimable r tok claimable (Some s)) tr (Some s') →
  charged s s' tr ∧ within_capacity s'.
Proof.
  intros Hnn Hs Hecho. unfold processClaimable. destruct (rn_creator r) as [wc|].
  2:{ intros [-> [= ->]]. split; [by apply charged_nothing|done]. }
  assert (take maxClaimsPerTick claimable ⊆ claimable) as Hsub.
  { intros x Hx. rewrite <- (take_drop maxClaimsPerTick claimable). set_solver. }
  revert Hsub. generalize (take maxClaimsPerTick claimable). intros items. revert s Hs tr Hecho.
  induction items as [|item items IH]; intros s Hs tr Hecho Hsub.
  { intros [-> [= ->]]. split; [by apply charged_nothing|done]. }
  intros (t1 & t2 & x & -> & Hi & Hr)%exec_bind. apply Forall_app in Hecho as [He1 He2].
  destruct (wp_sound _ _ _ _ (claim_item_snapshot r wc tok s item []) Hi) as [s1 ->].
  eapply claim_item_charges in Hi as [Hc1 Hw1]; eauto; [|set_solver].
  eapply IH in Hr as [Hc2 Hw2]; eauto; [|set_solver]. split; [by eapply charged_app|done].
Qed.

End Overcommit.

(** ** Work per tick *)
Section Bounded.
Context `{!GoStd, !GoNet, !KubeLib}.

Definition at_most_one (c : Config) (tr : trace) : Prop :=
  (zsum (claim_posted c) tr ≤ 1 ∧ zsum created tr ≤ 1)%Z.

Lemma lifecycle_counts c tok body a :
  claim_posted c (existT (HttpDo (authorized_post c lifecycle_path tok body)) a) = 0%Z.
Proof. simpl. rewrite decide_False; [done|]. by intros ?%(inj (String.append _)). Qed.

Lemma create_claimed_counts r wc tok snap claimed tr snap' :
  exec (create_claimed r wc tok snap claimed) tr snap' →
  (zsum (claim_posted (rn_client r)) tr = 0 ∧ zsum created tr ≤ 1)%Z.
Proof.
  intros He.
  assert (∀ t1 tr name id reason b, (zsum (claim_posted (rn_client r)) t1 = 0 ∧ zsum created t1 = 0)%Z →
    exec (prog_bind (client_ReportLifecycle (rn_client r) tok name id phaseFailed reason b) (λ _, Ret snap))
      tr snap' →
    (zsum (claim_posted (rn_client r)) (t1 ++ tr) = 0 ∧ zsum created (t1 ++ tr) ≤ 1)%Z) as Hrep.
  { intros t1 tr0 name id reason b Ht (t2 & t3 & y & -> & Hl & [-> _])%exec_bind.
    apply lifecycle_exec in Hl as [[-> _]|[a ->]]; rewrite !zsum_app; [simpl; lia|].
    cbn [zsum foldr]. rewrite lifecycle_counts. simpl. lia. }
  unfold create_claimed in He. destruct (Get _) as [tmpl|]; [|by eapply (Hrep []) in He].
  destruct (decide _); [|by eapply (Hrep []) in He].
  apply exec_bind in He as (t1 & t2 & x & -> & Hc & He). unfold Create in Hc.
  destruct (checked_config _ _) as [raw|err]; [|destruct Hc as [-> ->]; by eapply (Hrep []) in He].
  destruct Hc as ([w|err] & t3 & -> & Hc); destruct Hc as [-> ->]; [|by eapply Hrep in He].
  destruct He as [-> _]. simpl. lia.
Qed.

Lemma claim_item_counts r wc tok snap item tr snap' :
  exec (claim_item r wc tok snap item) tr snap' →
  at_most_one (rn_client r) tr.
Proof.
  intros He. unfold claim_item in He. destruct (negb _); [destruct He as [-> _]; by split|].
  apply exec_bind in He as (t1 & t2 & x & -> & Hc & He). unfold at_most_one. rewrite !zsum_app.
  apply ClaimWorkload_exec in Hc as [[-> [e ->]]|(a & -> & Ha)]; [destruct He as [-> _]; by split|].
  assert (zsum (claim_posted (rn_client r)) t2 = 0 ∧ zsum created t2 ≤ 1)%Z as [Hz1 Hz2].
  { destruct x as [[claimed|]|]; [by eapply create_claimed_counts|destruct He as [-> _]; simpl; lia..]. }
  rewrite Hz1. simpl. destruct (decide _); lia.
Qed.

(** A tick takes on a bounded amount of work: however many requests the
    heartbeat offers, [processClaimable] posts at most [maxClaimsPerTick] claims and
    creates at most that many Workloads, so one heartbeat cannot be stalled by a
    long queue. *)
Theorem claims_bounded_per_tick r tok claimable snap tr snap' :
  exec (processClaimable r tok claimable snap) tr snap' →
  (zsum (claim_posted (rn_client r)) tr ≤ Z.of_nat maxClaimsPerTick ∧
   zsum created tr ≤ Z.of_nat maxClaimsPerTick)%Z.
Proof.
  unfold processClaimable. destruct (rn_creator r) as [wc|]; [|by intros [-> _]].
  assert (length (take maxClaimsPerTick claimable) ≤ maxClaimsPerTick) as Hlen.
  { rewrite length_take. lia. }
  revert Hlen. generalize (take maxClaimsPerTick claimable). intros items. generalize maxClaimsPerTick.
  intros n. revert n snap tr. induction items as [|item items IH]; intros n snap tr Hlen.
  { intros [-> _]. simpl. lia. }
  intros (t1 & t2 & x & -> & Hi & Hr)%exec_bind. rewrite !zsum_app. simpl in Hlen.
  apply claim_item_counts in Hi as [??]. destruct n as [|n]; [lia|].
  apply (IH n) in Hr as [??]; [|lia]. lia.
Qed.

End Bounded.

(** ** Operations on existing workloads *)
Section Operations.
Context `{!GoStd, !GoNet, !KubeLib}.

(** A report about the workload [name]. *)
Definition reports_failure (r : Runnable) (tok name reason : string) (retryable : bool) (c : call) : Prop :=
  c = HttpDo (authorized_post (rn_client r) lifecycle_path tok
        (reportLifecycleRequest name "" phaseFailed reason retryable)).

(** The call on a Workload that came last failed. *)
Definition last_failed (h : trace) : Prop :=
  match last h with
  | Some (existT (KGetWorkload _) (Err _)) => True
  | Some (existT (KUpdateWorkload _) (Err _)) => True
  | Some (existT (KDeleteWorkload _) (Err e)) => IsNotFound e = false
  | _ => False
  end.

(** The catalog still has the requested version of the template. *)
Definition version_current (op : ClaimedOperation) : Prop :=
  ∃ tmpl, Get (co_TemplateID op) = Some tmpl ∧ t_Version tmpl = co_TemplateVersion op.

(** When a claimed operation may make the call [c], given the calls it made so far. *)
Definition operation_guard (r : Runnable) (tok : string) (op : ClaimedOperation) (h : trace) (c : call) : Prop :=
  let named namespace := {| nn_Namespace := namespace; nn_Name := co_Name op |} in
  let retry := ∃ reason, reports_failure r tok (co_Name op) reason true c in
  let reads := h = [] ∧ ∃ wc, rn_creator r = Some wc ∧ c = KGetWorkload (named (wc_namespace wc)) in
  let writes w0 w := c = KUpdateWorkload w ∧ w_Meta w = w_Meta w0 ∧ w_Status w = w_Status w0 in
  (co_Operation op = operationDestroy ∧
     (h = [] ∧ (∃ wd, rn_destroyer r = Some wd ∧ c = KDeleteWorkload (named (wd_namespace wd))) ∨
      length h = 1 ∧ last_failed h ∧ retry)) ∨
  (co_Operation op = operationRedeploy ∧ ¬ version_current op ∧
     h = [] ∧ reports_failure r tok (co_Name op) reasonTemplateVersionMismatch false c) ∨
  (co_Operation op = operationRedeploy ∧ version_current op ∧
     (reads ∨
      (∃ key w0, h = [existT (KGetWorkload key) (Ok w0)] ∧
         (c = Now ∨ retry ∧ ∃ err, checked_config (ws_TemplateName (w_Spec w0)) (co_Config op) = Err err)) ∨
      (∃ key w0 now w, h = [existT (KGetWorkload key) (Ok w0); existT Now now] ∧ writes w0 w ∧
         checked_config (ws_TemplateName (w_Spec w0)) (co_Config op) = Ok (ws_Config (w_Spec w)) ∧
         ws_Suspended (w_Spec w) = ws_Suspended (w_Spec w0)) ∨
      last_failed h ∧ retry)) ∨
  ((co_Operation op = operationStop ∨ co_Operation op = operationResume) ∧
     (reads ∨
      (∃ key w0 w, h = [existT (KGetWorkload key) (Ok w0)] ∧ writes w0 w ∧
         ws_Suspended (w_Spec w) = bool_decide (co_Operation op = operationStop) ∧
         ws_Config (w_Spec w) = ws_Config (w_Spec w0)) ∨
      last_failed h ∧ retry)).

Lemma lifecycle_safe r tok name reason b ok (h : trace) :
  (∀ c, reports_failure r tok name reason b c → ok h c) →
  safe ok h (client_ReportLifecycle (rn_client r) tok name "" phaseFailed reason b).
Proof.
  intros Hok. unfold client_ReportLifecycle, post, json_Marshal.
  prog_run; try done. apply Hok. unfold reports_failure, authorized_post.
  destruct (json_finite _); simplify_eq. done.
Qed.

(** A report is the last thing an operation does. *)
Lemma reported_safe r tok name reason b ok (h : trace) :
  (∀ c, reports_failure r tok name reason b c → ok h c) →
  safe ok h (client_ReportLifecycle (rn_client r) tok name "" phaseFailed reason b ;; Ret tt)%prog.
Proof. intros Hok. apply safe_bind. split; [by apply lifecycle_safe|by apply wp_trivial]. Qed.

Lemma destroy_guarded r tok op wd :
  co_Operation op = operationDestroy → rn_destroyer r = Some wd →
  safe (operation_guard r tok op) [] (report_failure r tok (co_Name op) (Destroy wd (co_Name op))).
Proof.
  intros Ho Hwd. unfold report_failure, Destroy. prog_run; try done; try (by apply wp_trivial).
  - left. split; [done|]. left. eauto.
  - apply lifecycle_safe. intros c Hc. left. split; [done|right]. split; [done|]. split; [done|eauto].
Qed.

Lemma redeploy_guarded r tok op wc :
  co_Operation op = operationRedeploy → version_current op → rn_creator r = Some wc →
  safe (operation_guard r tok op) []
    (report_failure r tok (co_Name op) (Redeploy wc (co_Name op) (co_Config op))).
Proof.
  intros Ho Hv Hwc. unfold report_failure, Redeploy. prog_run; try done; intros; prog_run;
    try done; try (by apply wp_trivial); try (apply lifecycle_safe; intros c Hc);
    right; right; left; (split; [done|]); (split; [done|]).
  - left. eauto.
  - right; left. eauto 10.
  - right; right; left. eexists _, _, _, _. split; [done|]. by split_and!.
  - right; right; right. split; [done|eauto].
  - right; left. eauto 10.
  - right; right; right. split; [done|eauto].
Qed.

Lemma suspend_guarded r tok op wc :
  co_Operation op = operationStop ∨ co_Operation op = operationResume → rn_creator r = Some wc →
  safe (operation_guard r tok op) [] (report_failure r tok (co_Name op)
    (SetSuspended wc (co_Name op) (bool_decide (co_Operation op = operationStop)))).
Proof.
  intros Ho Hwc. unfold report_failure, SetSuspended. prog_run; try done; intros; prog_run;
    try done; try (by apply wp_trivial); try (apply lifecycle_safe; intros c Hc);
    right; right; right; (split; [done|]).
  - left. eauto.
  - right; left. eexists _, _, _. split; [done|]. by split_and!.
  - right; right. split; [done|eauto].
  - right; right. split; [done|eauto].
Qed.

(** C30. A claimed operation does what was asked and nothing else.  A destroy deletes
    the named workload in the operator's namespace, once, and reports a failure (other
    than that it is gone) as retryable.  A redeploy of a template version the catalog no
    longer has only reports that, as final; otherwise it reads the named workload, checks
    the new configuration, and writes the object it read back with that configuration,
    its suspension untouched.  Stop and resume write the object back with the matching
    suspended flag and its configuration untouched.  A failed call is never repeated: all
    that follows is a report of a retryable failure.  An unknown operation makes no
    call. *)
Theorem run_operation_confined r tok op tr u :
  exec (run_operation r tok op) tr u → guarded (operation_guard r tok op) [] tr.
Proof.
  apply safe_guarded. unfold run_operation.
  destruct (decide (co_Operation op = operationDestroy)) as [Hd|_].
  { destruct (rn_destroyer r) as [wd|] eqn:Hwd; [by apply destroy_guarded|done]. }
  destruct (decide (co_Operation op = operationRedeploy)) as [Hr|_].
  { destruct (rn_creator r) as [wc|] eqn:Hwc; [|done].
    assert (¬ version_current op → safe (operation_guard r tok op) [] (client_ReportLifecycle (rn_client r) tok
      (co_Name op) "" phaseFailed reasonTemplateVersionMismatch false ;; Ret tt)%prog) as Hmis.
    { intros Hn. apply reported_safe. intros c Hc. right; left. auto. }
    destruct (Get (co_TemplateID op)) as [tmpl|] eqn:Hg; [destruct (decide _) as [Hv|Hv]|].
    - apply redeploy_guarded; [done| |done]. by exists tmpl.
    - apply Hmis. intros (t & Ht & ?). congruence.
    - apply Hmis. intros (t & Ht & ?). congruence. }
  destruct (decide _) as [Hs|_]; [|done].
  destruct (rn_creator r) as [wc|] eqn:Hwc; [by apply suspend_guarded|done].
Qed.

End Operations.
