(* ===== verification/Claims.v ===== *)
(** * Claims: what a claim is used for

    The other half of [RunnableFacts.claims_never_dropped]: over a whole run of the
    heartbeat loop, nothing happens to a request but against a claim of it that landed
    and has not been used yet.  The bookkeeping is generic in what uses a claim up; the
    first account is that of creations, [Fleet] has another. *)

From S2P Require Import Prelude.
From S2P Require Import Effects.
From S2P Require Import Go.
From S2P Require Import Json.
From S2P Require Import Api.
From S2P Require Import Calls.
From S2P Require Import Catalog.
From S2P Require Import CatalogTemplates.
From S2P Require Import Capacity.
From S2P Require Import Provisioning.
From S2P Require Import TokenStore.
From S2P Require Import Metrics.
From S2P Require Import ConvexClient.
From S2P Require Import Runnable.
From S2P Require Import RunnableCalls.
From S2P Require Import RunnableFacts.

(** The request a landed claim is for, at the Convex with this address. *)
Definition granted (base : string) (e : event answer) : option string :=
  match e with
  | existT (HttpDo rq) a =>
      if decide (rq_URL rq = base +:+ claim_path) then cd_WorkloadID <$> claim_answer a else None
  | _ => None
  end.

(** The request a Workload is created for. *)
Definition created_for (e : event answer) : option string :=
  match e with existT (KCreateWorkload w) _ => w_Labels w !! WorkloadID | _ => None end.

Definition count (f : event answer → option string) (id : string) (h : trace) : nat :=
  length (filter (λ e, f e = Some id) h).

Lemma count_app f id h h' : count f id (h ++ h') = count f id h + count f id h'.
Proof. unfold count. by rewrite filter_app, length_app. Qed.

Lemma count_one f id e : count f id [e] = if decide (f e = Some id) then 1 else 0.
Proof. unfold count. rewrite filter_cons. by case_decide. Qed.

(** ** Accounts

    [debit] says which events use up a claim, and of which request.  A run of the loop
    whose claimed work stays within its claims does so as a whole. *)
Section Accounts.
Context `{!GoStd, !GoNet, !KubeLib} (base : string) (debit : event answer → option string).

(** There is an unused claim behind every call that may use one up. *)
Definition account_guard (h : trace) (c : call) : Prop :=
  ∀ a id, debit (existT c a) = Some id → count debit id h < count (granted base) id h.

Definition balanced (h : trace) : Prop := ∀ id, count debit id h ≤ count (granted base) id h.

Definition unused (id : string) (h : trace) : Prop :=
  balanced h ∧ count debit id h < count (granted base) id h.

(** From a balanced history [p] is guarded, and ends in one, with a result in [Q]. *)
Definition keeps {X} (p : program X) (Q : X → Prop) : Prop :=
  ∀ h, balanced h → safe account_guard h p ∧ wp h p (λ h' x, balanced h' ∧ Q x).

Definition debits_nothing (c : call) : Prop := ∀ a, debit (existT c a) = None.

Definition at_base (r : Runnable) : Prop := cf_BaseURL (rn_client r) = base.

Lemma keeps_ret {X} (x : X) (Q : X → Prop) : Q x → keeps (Ret x) Q.
Proof. intros Hx h Hb. done. Qed.

Lemma keeps_bind {X Y} (p : program X) (f : X → program Y) P Q :
  keeps p P → (∀ x, P x → keeps (f x) Q) → keeps (prog_bind p f) Q.
Proof.
  intros Hp Hf h Hb. destruct (Hp h Hb) as [Hs Hw]. rewrite safe_bind, wp_bind.
  split; [split; [done|]|]; (eapply wp_mono; [|exact Hw]); intros h' x [Hb' Hx]; by apply Hf.
Qed.

(** A call that uses no claim up can only add one. *)
Lemma balanced_snoc h c a : debits_nothing c → balanced h → balanced (h ++ [existT c a]).
Proof.
  intros Hc Hb id. rewrite !count_app, !count_one. specialize (Hb id). rewrite decide_False; [lia|].
  by rewrite Hc.
Qed.

Lemma unused_event h e id : debit e = None → unused id h → unused id (h ++ [e]).
Proof.
  intros He [Hb Hu]. split.
  - intros id'. rewrite !count_app, !count_one, He, decide_False by done. specialize (Hb id'). lia.
  - rewrite !count_app, !count_one, He, decide_False by done. lia.
Qed.

(** A call that uses a claim up, or not, depending on its answer. *)
Lemma unused_debit h c a id :
  debit (existT c a) = Some id → unused id h → balanced (h ++ [existT c a]).
Proof.
  intros Hd [Hb Hu] id'. rewrite !count_app, !count_one, Hd. specialize (Hb id').
  destruct (decide (Some id = Some id')) as [[= <-]|]; lia.
Qed.

Lemma guarded_balanced h c a : account_guard h c → balanced h → balanced (h ++ [existT c a]).
Proof.
  intros Hg Hb. destruct (debit (existT c a)) as [id|] eqn:Hd.
  - eapply unused_debit; [exact Hd|]. split; [done|]. by eapply Hg.
  - intros id. rewrite !count_app, !count_one, Hd, decide_False by done. specialize (Hb id). lia.
Qed.

Lemma keeps_calls {X} (p : program X) : (∀ h, safe (λ _, debits_nothing) h p) → keeps p (λ _, True).
Proof.
  intros Hp h Hb. specialize (Hp h). revert h Hb Hp. induction p as [x|c k IH]; intros h Hb; simpl; [done|].
  intros [Hc Hk]. split.
  - split; [intros a id; by rewrite Hc|]. intros a. apply IH; [by apply balanced_snoc|done].
  - intros a. apply IH; [by apply balanced_snoc|done].
Qed.

Lemma keeps_client {X} (p : program X) (Q : X → Prop) :
  (∀ h, safe (λ _, debits_nothing) h p) → (∀ h, wp h p (λ _ x, Q x)) → keeps p Q.
Proof.
  intros Hs Hw h Hb. destruct (keeps_calls p Hs h Hb) as [Hs' Hw']. split; [done|].
  eapply wp_mono; [|apply wp_and; [exact Hw'|apply Hw]]. naive_solver.
Qed.

(** *** What an account has to settle for itself: the claimed work *)

Hypothesis calls_free : covers debits_nothing.
Hypothesis operations_free : ∀ r tok items h, safe (λ _, debits_nothing) h (run_operations r tok items).
Hypothesis claimed_work : ∀ r wc tok snap claimed h,
  at_base r → unused (cd_WorkloadID claimed) h →
  safe account_guard h (create_claimed r wc tok snap claimed) ∧
  wp h (create_claimed r wc tok snap claimed) (λ h' _, balanced h').

#[local] Hint Resolve calls_free operations_free : effects.
#[local] Hint Extern 1 (debits_nothing _) => (apply calls_free; exact I) : effects.

Lemma claim_unused c tok id h :
  cf_BaseURL c = base → balanced h →
  wp h (ClaimWorkload c tok id) (λ h' res, balanced h' ∧
    ∀ claimed, res = Ok (Some claimed) → unused (cd_WorkloadID claimed) h').
Proof.
  intros Hbase Hb. apply wp_exec. intros tr res [(-> & e & ->)|(a & -> & Hres)]%ClaimWorkload_exec.
  { rewrite app_nil_r. done. }
  assert (debits_nothing (HttpDo (authorized_post c claim_path tok (claim_body id)))) as Hfree by (by apply calls_free).
  split; [by apply balanced_snoc|]. intros claimed ->. split; [by apply balanced_snoc|].
  rewrite !count_app, !count_one, Hfree. simpl.
  destruct (decide (cf_BaseURL c +:+ claim_path = _)) as [_|]; [|congruence].
  rewrite Hres, decide_True by done.
  specialize (Hb (cd_WorkloadID claimed)). lia.
Qed.

Lemma claim_item_keeps r wc tok snap item :
  at_base r → keeps (claim_item r wc tok snap item) (λ _, True).
Proof.
  intros Hbase h Hb. unfold claim_item. destruct (negb _); [done|]. rewrite safe_bind, wp_bind.
  pose proof (claim_unused (rn_client r) tok (cw_WorkloadID item) h Hbase Hb) as Hw.
  split; [split|].
  - eapply keeps_calls; [intros; prog_calls|done].
  - eapply wp_mono; [|exact Hw]. intros h' [[claimed|]|err] [Hb' Hu]; try done.
    by apply claimed_work, Hu.
  - eapply wp_mono; [|exact Hw]. intros h' [[claimed|]|err] [Hb' Hu]; try done.
    destruct (claimed_work r wc tok snap claimed h' Hbase (Hu _ eq_refl)) as [_ Hw'].
    eapply wp_mono; [|exact Hw']. done.
Qed.

Lemma claim_items_keep r wc tok snap items :
  at_base r → keeps (claim_items r wc tok snap items) (λ _, True).
Proof.
  intros Hbase. revert snap. induction items as [|item items IH]; intros snap; [by apply keeps_ret|].
  eapply keeps_bind; [by apply claim_item_keeps|]. intros. apply IH.
Qed.

(** *** The loop: the runnable keeps its client's address *)

Lemma register_at_base r : at_base r → keeps (register r) (λ res, at_base res.2).
Proof.
  intros Hr. apply keeps_client; [intros; prog_calls|]. intros h. eapply wp_mono; [|apply register_client].
  intros ? [err r'] [Hc _]. unfold at_base. simpl in *. by rewrite Hc.
Qed.

Lemma loadOrRegister_at_base r : at_base r → keeps (loadOrRegister r) (λ res, at_base res.2).
Proof.
  intros Hr. unfold loadOrRegister. eapply keeps_bind; [apply keeps_calls; intros; unfold Load; prog_calls|].
  intros [[t []]|err] _; try by apply register_at_base.
  eapply keeps_bind; [apply keeps_calls; intros; prog_calls|]. intros [hb|err] _; [|by apply register_at_base].
  destruct (fingerprints_match _ _); [by apply keeps_ret|by apply register_at_base].
Qed.

Lemma checkEnrollmentSecret_at_base r : at_base r → keeps (checkEnrollmentSecret r) at_base.
Proof.
  intros Hr. unfold checkEnrollmentSecret. eapply keeps_bind; [apply keeps_calls; intros; unfold Current; prog_calls|].
  intros [current|err] _; [|by apply keeps_ret]. destruct (decide _); [by apply keeps_ret|].
  eapply keeps_bind; [by apply register_at_base|]. intros [err r'] Hr'. by apply keeps_ret.
Qed.

Lemma heartbeatOnce_at_base r : at_base r → keeps (heartbeatOnce r) at_base.
Proof.
  intros Hr. unfold heartbeatOnce.
  eapply keeps_bind; [apply keeps_calls; intros; prog_calls|]. intros snap _.
  eapply keeps_bind; [apply keeps_calls; intros; prog_calls|]. intros live _.
  eapply keeps_bind; [apply keeps_calls; intros; prog_calls|]. intros [[claimable pending]|err] _.
  - apply keeps_bind with (P := λ _, True).
    + unfold processClaimable. destruct (rn_creator r); [by apply claim_items_keep|by apply keeps_ret].
    + intros _ _. apply keeps_bind with (P := λ _, True); [|intros; by apply keeps_ret].
      apply keeps_calls. intros h. unfold processPendingOperations. prog_calls.
  - destruct (decide _); [|by apply keeps_ret].
    eapply keeps_bind; [by apply register_at_base|]. intros [err1 r'] Hr'. by apply keeps_ret.
Qed.

Lemma ticks_at_base r n : at_base r → keeps (ticks r n) at_base.
Proof.
  revert r. induction n as [|n IH]; intros r Hr; [by apply keeps_ret|]. cbn [ticks].
  eapply keeps_bind; [by apply heartbeatOnce_at_base|]. intros r1 Hr1.
  eapply keeps_bind; [by apply checkEnrollmentSecret_at_base|]. auto.
Qed.

Lemma Start_keeps r n : at_base r → keeps (Start r n) (λ _, True).
Proof.
  intros Hr. unfold Start. eapply keeps_bind; [by apply loadOrRegister_at_base|].
  intros [[err|] r1] Hr1; [by apply keeps_ret|]. destruct (_ <=? _)%Z; [by apply keeps_ret|].
  eapply keeps_bind; [by apply ticks_at_base|]. intros. by apply keeps_ret.
Qed.

End Accounts.

(** ** The account of creations *)
Section Creations.
Context `{!GoStd, !GoNet, !KubeLib} (base : string).

(** There is an unused claim behind every creation. *)
Definition create_guard (h : trace) (c : call) : Prop :=
  match c with
  | KCreateWorkload w => ∀ id, w_Labels w !! WorkloadID = Some id →
      count created_for id h < count (granted base) id h
  | _ => True
  end.

Lemma creation_guard h c : account_guard base created_for h c → create_guard h c.
Proof. destruct c; try done. intros Hg id Hid. by apply (Hg (Err EPanic)). Qed.

Lemma label_of wc id tn uid sd raw id' :
  w_Labels (new_workload wc id tn uid sd raw) !! WorkloadID = Some id' → id' = id ∧ id ≠ "".
Proof.
  unfold w_Labels. simpl. destruct (decide (id = "")); [by rewrite lookup_empty|].
  rewrite lookup_singleton_eq. naive_solver.
Qed.

Lemma creates_nothing_covers : covers (debits_nothing created_for).
Proof. intros []; done. Qed.

Lemma creates_nothing_posts : covers_posts (debits_nothing created_for).
Proof. done. Qed.

#[local] Hint Resolve creates_nothing_covers creates_nothing_posts : effects.
#[local] Hint Extern 1 (debits_nothing created_for _) => (by intros ?) : effects.

Lemma report_creates_nothing c tok name id phase reason b {X} (x : X) :
  keeps base created_for (client_ReportLifecycle c tok name id phase reason b ;; Ret x)%prog (λ _, True).
Proof. apply keeps_calls. intros. prog_calls. Qed.

(** Creating a Workload uses the claim up, whatever the answer. *)
Lemma create_uses wc id tn uid sd config h :
  unused base created_for id h →
  safe (account_guard base created_for) h (Create wc id tn uid sd config) ∧
  wp h (Create wc id tn uid sd config) (λ h' _, balanced base created_for h').
Proof.
  intros Hu. unfold Create. destruct (checked_config tn config) as [raw|err]; [|by destruct Hu].
  split.
  - split; [|by intros []]. intros a id' [-> _]%label_of. by destruct Hu.
  - intros a. assert (balanced base created_for (h ++ [existT (KCreateWorkload (new_workload wc id tn uid sd raw)) a])).
    { destruct (created_for (existT (KCreateWorkload (new_workload wc id tn uid sd raw)) a)) as [id'|] eqn:Hd.
      - pose proof Hd as [-> _]%label_of. by eapply unused_debit.
      - apply balanced_snoc; [|by destruct Hu]. intros a'. exact Hd. }
    by destruct a.
Qed.

Lemma create_claimed_uses r wc tok snap claimed h :
  at_base base r → unused base created_for (cd_WorkloadID claimed) h →
  safe (account_guard base created_for) h (create_claimed r wc tok snap claimed) ∧
  wp h (create_claimed r wc tok snap claimed) (λ h' _, balanced base created_for h').
Proof.
  assert (∀ reason b h, balanced base created_for h →
    safe (account_guard base created_for) h
      (client_ReportLifecycle (rn_client r) tok "" (cd_WorkloadID claimed) phaseFailed reason b ;; Ret snap)%prog ∧
    wp h (client_ReportLifecycle (rn_client r) tok "" (cd_WorkloadID claimed) phaseFailed reason b ;; Ret snap)%prog
      (λ h' _, balanced base created_for h')) as Hreport.
  { intros reason b h' Hb.
    destruct (report_creates_nothing (rn_client r) tok "" (cd_WorkloadID claimed) phaseFailed reason b snap h' Hb) as [Hs Hw].
    split; [done|]. eapply wp_mono; [|exact Hw]. by intros ? ? []. }
  intros _ Hu. unfold create_claimed.
  destruct (Get _); [|by apply Hreport, Hu]. destruct (decide _); [|by apply Hreport, Hu].
  destruct (create_uses wc (cd_WorkloadID claimed) (cd_TemplateID claimed) (cd_UserID claimed)
    (cd_Subdomain claimed) (cd_Config claimed) h Hu) as [Hs Hw].
  rewrite safe_bind, wp_bind. split; [split; [done|]|]; (eapply wp_mono; [|exact Hw]);
    intros h' [w|err] Hb'; try done; by apply Hreport.
Qed.

Lemma run_operations_create_nothing r tok items h :
  safe (λ _, debits_nothing created_for) h (run_operations r tok items).
Proof.
  revert h. induction items as [|item items IH]; intros h; [done|]. cbn [run_operations].
  unfold run_operation, report_failure, Destroy, Redeploy, SetSuspended. prog_calls; intros; prog_calls.
Qed.

Lemma Start_creations r n h :
  at_base base r → balanced base created_for h → safe create_guard h (Start r n).
Proof.
  intros Hr Hb. eapply safe_mono; [apply creation_guard|].
  eapply (Start_keeps base created_for); eauto using creates_nothing_covers, run_operations_create_nothing, create_claimed_uses.
Qed.

End Creations.

(** One Workload per claim: over a whole run of [Start], of any number of ticks and
    with any re-registrations in between, whenever the operator creates a Workload for a
    request, claims of that request have landed more often than Workloads were created
    for it so far.  So a request is never provisioned twice on one claim, and never
    without one. *)
Theorem one_workload_per_claim `{!GoStd, !GoNet, !KubeLib} r n tr res :
  exec (Start r n) tr res → guarded (create_guard (cf_BaseURL (rn_client r))) [] tr.
Proof. apply safe_guarded. apply Start_creations; [done|by intros id]. Qed.
