(* ===== verification/Termination.v ===== *)
(** * Termination: how much work a reconciliation and a heartbeat can be

    A [prog] is a well-founded tree, so every run ends, whatever the answers.  Here the
    number of calls is bounded by a constant and the size of the lists the cluster
    returned: a reconcile worker or the heartbeat loop is never held up by the number of
    requests Convex offers, nor by answers that keep failing. *)

From S2P Require Import Prelude.
From S2P Require Import Effects.
From S2P Require Import Go.
From S2P Require Import Json.
From S2P Require Import Api.
From S2P Require Import Calls.
From S2P Require Import Catalog.
From S2P Require Import CatalogTemplates.
From S2P Require Import Controller.
From S2P Require Import Capacity.
From S2P Require Import Provisioning.
From S2P Require Import TokenStore.
From S2P Require Import Metrics.
From S2P Require Import ConvexClient.
From S2P Require Import Runnable.

(** ** What a run spends, kind by kind *)

Inductive kind :=
| PostTo (url : string)
| ReadWorkload | CreateWorkload | UpdateWorkload | DeleteWorkload
| ListNodes | ListDeployments | ListPods
| ReadSecret | WriteSecret | Clock | Unexpected.

(** The readings of the nodes, one for each that is listed, are not counted here. *)
Definition kind_of (c : call) : option kind :=
  match c with
  | KNodeSummary _ => None
  | HttpDo rq => Some (PostTo (rq_URL rq))
  | KGetWorkload _ => Some ReadWorkload
  | KCreateWorkload _ => Some CreateWorkload
  | KUpdateWorkload _ => Some UpdateWorkload
  | KDeleteWorkload _ => Some DeleteWorkload
  | KListNodes => Some ListNodes
  | KListDeployments _ _ => Some ListDeployments
  | KListPods _ _ => Some ListPods
  | KGetSecret _ => Some ReadSecret
  | KCreateSecret _ | KUpdateSecret _ => Some WriteSecret
  | Now => Some Clock
  | _ => Some Unexpected
  end.

Definition kinds (tr : trace) : list kind := omap (λ e, kind_of (projT1 e)) tr.

(** Every run of [p] makes at most the calls [l], each as often as it is listed. *)
Definition spends {X} (l : list kind) (p : program X) : Prop :=
  ∀ tr x, exec p tr x → kinds tr ⊆+ l.

Lemma kinds_app tr1 tr2 : kinds (tr1 ++ tr2) = kinds tr1 ++ kinds tr2.
Proof. apply omap_app. Qed.

Lemma spends_ret {X} l (x : X) : spends l (Ret x).
Proof. intros tr y [-> _]. apply submseteq_nil_l. Qed.

Lemma spends_call {X} l d c (k : answer c → program X) :
  kind_of c = Some d → (∀ r, spends l (k r)) → spends (d :: l) (Vis c k).
Proof.
  intros Hc Hk tr x (r & tr' & -> & He). unfold kinds. simpl. rewrite Hc.
  apply submseteq_skip. by eapply Hk.
Qed.

Lemma spends_free {X} l c (k : answer c → program X) :
  kind_of c = None → (∀ r, spends l (k r)) → spends l (Vis c k).
Proof.
  intros Hc Hk tr x (r & tr' & -> & He). unfold kinds. simpl. rewrite Hc. by eapply Hk.
Qed.

Lemma spends_mono {X} l l' (p : program X) : spends l p → l ⊆+ l' → spends l' p.
Proof. intros Hp Hl tr x He. etrans; [by eapply Hp|done]. Qed.

Lemma spends_bind {X Y} l l' (p : program X) (f : X → program Y) :
  spends l p → (∀ x, spends l' (f x)) → spends (l ++ l') (prog_bind p f).
Proof.
  intros Hp Hf tr y (t1 & t2 & x & -> & H1 & H2)%exec_bind. rewrite kinds_app.
  apply submseteq_app; [by eapply Hp|by eapply Hf].
Qed.

(** A program whose calls are listed in the order it makes them. *)
Ltac spend_step :=
  lazymatch goal with
  | |- spends _ (Ret _) => apply spends_ret
  | |- spends _ (match ?x with _ => _ end) => destruct x
  | |- spends _ (prog_bind (match ?x with _ => _ end) _) => destruct x
  | |- spends _ (prog_bind _ _) => progress cbn [prog_bind perform]
  | |- spends (_ :: _) (Vis _ _) => apply spends_call; [reflexivity|intros ?]
  end.
Ltac spend := repeat spend_step.

Definition post_path (c : Config) (path : string) : kind := PostTo (cf_BaseURL c +:+ path).

(** What one claim, one operation and one registration may cost. *)
Definition claim_calls (c : Config) : list kind :=
  [post_path c "/operators/workloads/claim"; CreateWorkload; post_path c "/operators/workloads/lifecycle"].
Definition operation_calls (c : Config) : list kind :=
  [post_path c "/operators/workloads/claim-operation"; DeleteWorkload; ReadWorkload; Clock; UpdateWorkload;
   post_path c "/operators/workloads/lifecycle"].
Definition register_calls (c : Config) : list kind :=
  [post_path c "/operators/register"; ReadSecret; WriteSecret].

(** ... and one heartbeat. *)
Definition heartbeat_kinds (c : Config) : list kind :=
  [ListNodes; ListDeployments] ++ [ListNodes; ListPods] ++ [post_path c "/operators/heartbeat"] ++
  mjoin (replicate 5 (claim_calls c)) ++ mjoin (replicate 5 (operation_calls c)) ++ register_calls c.

Section Spending.
Context `{!GoStd, !GoNet, !KubeLib}.

Lemma post_spends c path what headers body : spends [post_path c path] (post c path what headers body).
Proof. unfold post. spend. Qed.

(** What follows a post looks only at the response. *)
Lemma post_bind_spends {X} c path what headers body (f : result goerr HttpResponse → program X) l :
  (∀ x, spends l (f x)) → spends (post_path c path :: l) (prog_bind (post c path what headers body) f).
Proof. intros Hf. apply (spends_bind [_]); [apply post_spends|done]. Qed.

Lemma lifecycle_spends c tok name id phase reason b :
  spends [post_path c "/operators/workloads/lifecycle"] (client_ReportLifecycle c tok name id phase reason b).
Proof. apply post_bind_spends. intros. spend. Qed.

Lemma lifecycle_bind_spends {X} c tok name id phase reason b (x : X) :
  spends [post_path c "/operators/workloads/lifecycle"]
    (client_ReportLifecycle c tok name id phase reason b ;; Ret x)%prog.
Proof. apply (spends_bind [_] []); [apply lifecycle_spends|]. intros. spend. Qed.

Lemma register_spends r : spends (register_calls (rn_client r)) (register r).
Proof.
  unfold register. apply (spends_bind [_] [_; _]).
  - apply post_bind_spends. intros. spend.
  - intros [t|err]; [|spend]. apply (spends_bind [_; _] []); [unfold Save; spend|]. intros. spend.
Qed.

Lemma claim_item_spends r wc tok snap item : spends (claim_calls (rn_client r)) (claim_item r wc tok snap item).
Proof.
  unfold claim_item. destruct (negb _); [spend|]. apply (spends_bind [_] [_; _]).
  { apply post_bind_spends. intros. spend. }
  intros [[cl|]|err]; [|spend..]. unfold create_claimed.
  assert (∀ reason, spends [CreateWorkload; post_path (rn_client r) "/operators/workloads/lifecycle"]
    (client_ReportLifecycle (rn_client r) tok "" (cd_WorkloadID cl) phaseFailed reason false ;; Ret snap)%prog) as Hmis.
  { intros. eapply spends_mono; [apply lifecycle_bind_spends|]. solve_submseteq. }
  destruct (Get _); [|done]. destruct (decide _); [|done].
  apply (spends_bind [_] [_]); [unfold Create; spend|]. intros [w|err]; [spend|]. apply lifecycle_bind_spends.
Qed.

Lemma claim_items_spends r wc tok items snap :
  spends (mjoin (replicate (length items) (claim_calls (rn_client r)))) (claim_items r wc tok snap items).
Proof.
  revert snap. induction items as [|item items IH]; intros snap; [apply spends_ret|].
  cbn [length replicate mjoin list_join claim_items]. apply spends_bind; [apply claim_item_spends|done].
Qed.

Lemma report_failure_spends r tok name p l :
  spends l p → spends (l ++ [post_path (rn_client r) "/operators/workloads/lifecycle"]) (report_failure r tok name p).
Proof. intros Hp. apply spends_bind; [done|]. intros [err|]; [apply lifecycle_bind_spends|spend]. Qed.

Lemma run_operation_spends r tok op :
  spends [DeleteWorkload; ReadWorkload; Clock; UpdateWorkload; post_path (rn_client r) "/operators/workloads/lifecycle"]
    (run_operation r tok op).
Proof.
  unfold run_operation.
  destruct (decide _); [|destruct (decide _); [|destruct (decide _)]];
    [destruct (rn_destroyer r)|destruct (rn_creator r)|destruct (rn_creator r)|]; try (spend; done).
  - eapply spends_mono; [apply (report_failure_spends _ _ _ _ [DeleteWorkload]); unfold Destroy; spend|].
    solve_submseteq.
  - destruct (Get _) as [tmpl|]; [case_decide|];
      [|eapply spends_mono; [apply lifecycle_bind_spends|solve_submseteq]..].
    eapply spends_mono; [apply (report_failure_spends _ _ _ _ [ReadWorkload; Clock; UpdateWorkload]);
      unfold Redeploy; spend|]. solve_submseteq.
  - eapply spends_mono; [apply (report_failure_spends _ _ _ _ [ReadWorkload; UpdateWorkload]);
      unfold SetSuspended; spend|]. solve_submseteq.
Qed.

Lemma run_operations_spends r tok items :
  spends (mjoin (replicate (length items) (operation_calls (rn_client r)))) (run_operations r tok items).
Proof.
  induction items as [|item items IH]; [apply spends_ret|].
  cbn [length replicate mjoin list_join run_operations operation_calls app].
  apply (spends_bind [_]); [apply post_bind_spends; intros; spend|].
  assert (spends ([DeleteWorkload; ReadWorkload; Clock; UpdateWorkload;
      post_path (rn_client r) "/operators/workloads/lifecycle"] ++
    mjoin (replicate (length items) (operation_calls (rn_client r)))) (run_operations r tok items)) as Hrest.
  { eapply spends_mono; [exact IH|]. apply submseteq_inserts_l. done. }
  intros [[op|]|err]; try exact Hrest. eapply (spends_bind [_; _; _; _; _]); [apply run_operation_spends|done].
Qed.

(** At most the first [n] of a list are taken up. *)
Lemma replicate_take_spends {A} (l : list kind) n (xs : list A) :
  mjoin (replicate (length (take n xs)) l) ⊆+ mjoin (replicate n l).
Proof.
  rewrite length_take. replace n with (n `min` length xs + (n - length xs)) at 2 by lia.
  rewrite replicate_add, join_app. apply submseteq_inserts_r. done.
Qed.

Lemma usage_nodes_spends managed nodes snap : spends [] (usage_nodes managed nodes snap).
Proof.
  revert snap. induction nodes as [|n nodes IH]; intros snap; [apply spends_ret|].
  cbn [usage_nodes fetchNodeSummary prog_bind perform]. apply spends_free; [done|]. intros r.
  by destruct (node_summary r).
Qed.

Lemma measure_spends {A T} (source : option T) (take : T → program (result goerr A)) l :
  (∀ t, spends l (take t)) → spends l (measure source take).
Proof.
  intros Ht. destruct source as [t|]; [|apply spends_ret]. rewrite <- (app_nil_r l).
  apply spends_bind; [apply Ht|]. intros. spend.
Qed.

Lemma CollectUsage_spends c : spends [ListNodes; ListPods] (CollectUsage c).
Proof.
  unfold CollectUsage. spend. apply (spends_bind [] []); [apply usage_nodes_spends|]. intros. spend.
Qed.

Lemma heartbeat_spends r : spends (heartbeat_kinds (rn_client r)) (heartbeatOnce r).
Proof.
  unfold heartbeatOnce, heartbeat_kinds.
  apply (spends_bind [_; _]); [apply measure_spends; intros; unfold take_snapshot; spend|]. intros snap.
  apply (spends_bind [_; _]); [apply measure_spends, CollectUsage_spends|]. intros live.
  apply (spends_bind [_]); [apply post_bind_spends; intros; spend|]. intros [[claimable pending]|err].
  - apply spends_bind.
    { unfold processClaimable. destruct (rn_creator r); [|apply spends_ret].
      eapply spends_mono; [apply claim_items_spends|]. apply replicate_take_spends. }
    intros _. apply spends_bind; [|intros; spend]. unfold processPendingOperations.
    assert (spends (mjoin (replicate 5 (operation_calls (rn_client r)))) (run_operations r
      (HeartbeatToken (rn_tokens r)) (take maxPendingOperationsPerTick pending))) as Hops.
    { eapply spends_mono; [apply run_operations_spends|]. apply replicate_take_spends. }
    destruct (rn_creator r), (rn_destroyer r); [exact Hops..|apply spends_ret].
  - destruct (decide _); [|spend]. eapply (spends_mono (register_calls (rn_client r))).
    + rewrite <- (app_nil_r (register_calls _)). apply spends_bind; [apply register_spends|]. intros. spend.
    + do 2 apply submseteq_inserts_l. done.
Qed.

End Spending.

(** ** How many calls a run makes *)

(** One call per node listed, and one per condition of a pod listed. *)
Definition nodes_listed (e : event answer) : nat :=
  match e with existT KListNodes (Ok nodes) => length nodes | _ => 0 end.

Definition conditions_listed (e : event answer) : nat :=
  match e with
  | existT (KListPods _ _) (Ok pods) => sum_list_with (λ p, length (p_Conditions p)) pods
  | _ => 0
  end.

(** A budget goal for a concrete program: spend one call, split on what is tested. *)
Ltac budget_step :=
  lazymatch goal with
  | |- within _ _ (Ret _) => exact I
  | |- within _ _ (match ?x with _ => _ end) => destruct x eqn:?
  | |- within _ _ (prog_bind (match ?x with _ => _ end) _) => destruct x eqn:?
  | |- within _ _ (prog_bind _ _) => progress cbn [prog_bind perform]
  | |- within _ (S _) (Vis _ _) =>
      eexists; split; [reflexivity|intros ?]; cbn [Nat.add nodes_listed conditions_listed]
  | |- within _ (S _) (perform _) =>
      eexists; split; [reflexivity|intros ?]; cbn [Nat.add nodes_listed conditions_listed]
  end.
Ltac budget := repeat budget_step.

Section Budgets.
Context `{!GoStd, !GoNet, !KubeLib} (gain : event answer → nat).
Local Abbreviation limited := (within gain).

Lemma post_limited c path what headers body : limited 1 (post c path what headers body).
Proof. unfold post. budget. Qed.

Lemma lifecycle_limited c tok name id phase reason b :
  limited 1 (client_ReportLifecycle c tok name id phase reason b).
Proof. unfold client_ReportLifecycle. apply (within_bind _ 1 0); [apply post_limited|]. intros. budget. Qed.

Lemma heartbeat_limited c tok snap live : limited 1 (Heartbeat c tok snap live).
Proof. unfold Heartbeat. apply (within_bind _ 1 0); [apply post_limited|]. intros. budget. Qed.

Lemma claim_limited c tok id : limited 1 (ClaimWorkload c tok id).
Proof. unfold ClaimWorkload. apply (within_bind _ 1 0); [apply post_limited|]. intros. budget. Qed.

Lemma claim_operation_limited c tok id : limited 1 (ClaimOperation c tok id).
Proof. unfold ClaimOperation. apply (within_bind _ 1 0); [apply post_limited|]. intros. budget. Qed.

Lemma register_limited r : limited 3 (register r).
Proof.
  unfold register. apply (within_bind _ 1 2).
  - unfold Register. apply (within_bind _ 1 0); [apply post_limited|]. intros. budget.
  - intros [t|err]; [|done]. apply (within_bind _ 2 0); [unfold Save; budget|]. intros. budget.
Qed.

(** *** Claims and operations *)

Lemma create_limited wc id tn uid sd config : limited 1 (Create wc id tn uid sd config).
Proof. unfold Create. budget. Qed.

Lemma claim_item_limited r wc tok snap item : limited 3 (claim_item r wc tok snap item).
Proof.
  unfold claim_item. destruct (negb _); [done|]. apply (within_bind _ 1 2); [apply claim_limited|].
  intros [[cl|]|err]; try done. unfold create_claimed.
  assert (∀ reason, limited 2 (client_ReportLifecycle (rn_client r) tok "" (cd_WorkloadID cl) phaseFailed
    reason false ;; Ret snap)%prog) as Hmis.
  { intros. apply (within_bind _ 1 1); [apply lifecycle_limited|]. intros. budget. }
  destruct (Get _); [|done]. destruct (decide _); [|done].
  apply (within_bind _ 1 1); [apply create_limited|]. intros [w|err]; [done|].
  apply (within_bind _ 1 0); [apply lifecycle_limited|]. intros. budget.
Qed.

Lemma claim_items_limited r wc tok items snap : limited (3 * length items) (claim_items r wc tok snap items).
Proof.
  revert snap. induction items as [|item items IH]; intros snap; [done|].
  replace (3 * length (item :: items)) with (3 + 3 * length items) by (simpl; lia).
  apply within_bind; [apply claim_item_limited|done].
Qed.

Lemma report_failure_limited r tok name p n : limited n p → limited (n + 1) (report_failure r tok name p).
Proof.
  intros Hp. apply within_bind; [done|]. intros [err|]; [|done].
  apply (within_bind _ 1 0); [apply lifecycle_limited|]. intros. budget.
Qed.

Lemma run_operation_limited r tok op : limited 4 (run_operation r tok op).
Proof.
  unfold run_operation. assert (limited 4 (client_ReportLifecycle (rn_client r) tok (co_Name op) "" phaseFailed
    reasonTemplateVersionMismatch false ;; Ret tt)%prog) as Hmis.
  { apply (within_bind _ 1 3); [apply lifecycle_limited|]. intros. budget. }
  destruct (decide _); [|destruct (decide _); [|destruct (decide _)]];
    [destruct (rn_destroyer r)|destruct (rn_creator r)|destruct (rn_creator r)|]; try done.
  - apply (report_failure_limited _ _ _ _ 3). unfold Destroy. budget.
  - destruct (Get _); [|done]. case_decide; [|done].
    apply (report_failure_limited _ _ _ _ 3). unfold Redeploy. budget.
  - apply (report_failure_limited _ _ _ _ 3). unfold SetSuspended. budget.
Qed.

Lemma run_operations_limited r tok items : limited (5 * length items) (run_operations r tok items).
Proof.
  induction items as [|item items IH]; [done|].
  replace (5 * length (item :: items)) with (1 + (4 + 5 * length items)) by (simpl; lia).
  cbn [run_operations]. apply within_bind; [apply claim_operation_limited|].
  assert (limited (4 + 5 * length items) (run_operations r tok items)) as Hrest by (eapply within_mono; [done|lia]).
  intros [[op|]|err]; try done. apply within_bind; [apply run_operation_limited|done].
Qed.

End Budgets.

Section Termination.
Context `{!GoStd, !GoNet, !KubeLib}.

Lemma usage_nodes_limited managed nodes snap :
  within nodes_listed (length nodes) (usage_nodes managed nodes snap).
Proof.
  revert snap. induction nodes as [|n nodes IH]; intros snap; [done|].
  cbn [length usage_nodes]. unfold fetchNodeSummary. budget; (eapply within_mono; [apply IH|lia]).
Qed.

Lemma CollectUsage_limited c : within nodes_listed 2 (CollectUsage c).
Proof.
  unfold CollectUsage. budget. rewrite <- (Nat.add_0_r (_ + _)). apply within_bind; [|done].
  eapply within_mono; [apply usage_nodes_limited|lia].
Qed.

Lemma measure_limited {A T} g (source : option T) (take : T → program (result goerr A)) n :
  (∀ t, within g n (take t)) → within g (n + 0) (measure source take).
Proof. intros Ht. destruct source; [|done]. apply within_bind; [apply Ht|]. intros. budget. Qed.

(** C31. One heartbeat is bounded work, whatever Convex offers in its answer and however
    its calls fail.  It makes at most 45 calls and one for each node the cluster listed;
    and kind by kind, each at most: one heartbeat post; one registration with one read
    and one write of the Secret; five claims with one creation and one report each; five
    claims of operations with one deletion, one read, one write and one report each; two
    listings of the nodes, one of Deployments and one of pods; and no other call. *)
Theorem heartbeat_calls_bounded r tr r' :
  exec (heartbeatOnce r) tr r' →
  length tr ≤ 45 + sum_list_with nodes_listed tr ∧ kinds tr ⊆+ heartbeat_kinds (rn_client r).
Proof.
  intros He. split; [|by eapply heartbeat_spends]. revert He. apply within_length. unfold heartbeatOnce.
  apply (within_bind _ 2 43); [apply (measure_limited _ _ _ 2); intros; unfold take_snapshot; budget|].
  intros snap.
  apply (within_bind _ 2 41); [apply (measure_limited _ _ _ 2), CollectUsage_limited|]. intros live.
  apply (within_bind _ 1 40); [apply heartbeat_limited|]. intros [[claimable pending]|err].
  - apply (within_bind _ 15 25).
    + unfold processClaimable. destruct (rn_creator r); [|done].
      eapply within_mono; [apply claim_items_limited|]. rewrite length_take. unfold maxClaimsPerTick. lia.
    + intros _. apply (within_bind _ 25 0); [|done].
      assert (within nodes_listed 25 (run_operations r (HeartbeatToken (rn_tokens r))
        (take maxPendingOperationsPerTick pending))) as Hops.
      { eapply within_mono; [apply run_operations_limited|]. rewrite length_take.
        unfold maxPendingOperationsPerTick. lia. }
      unfold processPendingOperations. by destruct (rn_creator r), (rn_destroyer r).
  - destruct (decide _); [|done]. apply (within_bind _ 3 37); [apply register_limited|done].
Qed.

(** *** Reconciling *)

Lemma stuck_conditions_limited g cs m : within g (length cs) (stuck_conditions cs m).
Proof.
  revert m. induction cs as [|c cs IH]; intros m; [done|]. cbn [length stuck_conditions].
  budget; (eapply within_mono; [apply IH|lia]).
Qed.

Lemma stuck_pods_limited g pods m :
  within g (sum_list_with (λ p, length (p_Conditions p)) pods) (stuck_pods pods m).
Proof.
  revert m. induction pods as [|p pods IH]; intros m; [done|].
  cbn [sum_list_with stuck_pods]. apply within_bind; [apply stuck_conditions_limited|done].
Qed.

Lemma notify_limited g r w phase reason b : within g 1 (notifyLifecycle r w phase reason b).
Proof. unfold notifyLifecycle. budget. Qed.

Lemma checkUnschedulable_limited r w sel : within conditions_listed 3 (checkUnschedulable r w sel).
Proof.
  unfold checkUnschedulable. budget.
  eapply (within_mono _ (_ + 2)); [apply within_bind; [apply stuck_pods_limited|]|lia].
  intros msg. destruct (decide _); [done|]. apply (within_bind _ 1 1); [apply notify_limited|]. intros. budget.
Qed.

Lemma updateStatus_limited g r w d : within g 1 (updateStatus r w d).
Proof.
  assert (∀ w phase, within g 1 (syncConvexLifecyclePhase r w phase)) as Hsync.
  { intros. unfold syncConvexLifecyclePhase, notifyLifecycle. budget. }
  unfold updateStatus. destruct (_ && _); [|destruct (_ && _)]; try done;
    (apply (within_bind _ 1 0); [apply Hsync|done]).
Qed.

Lemma observe_limited g r req w : within g 4 (observe r req w).
Proof.
  unfold observe. apply (within_bind _ 1 3); [unfold syncConvex, notifyUpserted; budget|]. intros [cs w1].
  budget. eapply (within_mono _ 2); [|lia]. apply (within_bind _ 1 1); [|intros; budget].
  apply updateStatus_limited.
Qed.

Lemma setFailed_limited g r w reason err : within g 2 (setFailedWithReason r w reason err).
Proof. unfold setFailedWithReason, notifyLifecycle. budget. Qed.

Lemma reconcileLive_limited r req w : within conditions_listed 9 (reconcileLive r req w).
Proof.
  unfold reconcileLive, apply, reconcileDeployment, reconcileService, setFailed. budget;
    try (eapply within_mono; [apply setFailed_limited|lia]).
  apply (within_bind _ 3 4); [apply checkUnschedulable_limited|]. intros []; [done|apply observe_limited].
Qed.

(** One reconciliation makes at most 11 calls and one for each condition of the pods
    the cluster listed, on every path, errors included. *)
Theorem reconcile_calls_bounded r req tr res :
  exec (Reconcile r req) tr res → length tr ≤ 11 + sum_list_with conditions_listed tr.
Proof.
  apply within_length. unfold Reconcile, reconcileDelete, ensureFinalizer, notifyRemoved. budget;
    (eapply within_mono; [apply reconcileLive_limited|lia]).
Qed.

End Termination.
