(* ===== verification/Gateway.v ===== *)
(** * Gateway: the session cookie of the browser gateway

    [internal/gateway/token.go]: [Sign] mints the cookie value, [Verify] checks it
    against one workload and the clock.  [GatewayCodec] collects HMAC-SHA256, the
    raw URL base64 codec and the JSON codec of [Payload]; [GatewayCodecLaws] is
    their documented behaviour, which only the round trip needs. *)

From S2P Require Import Prelude.
From S2P Require Import Effects.
From S2P Require Import Go.
From S2P Require Import Json.
From S2P Require Import Api.
From S2P Require Import Calls.

Local Open Scope prog_scope.

Record Payload := {
  pl_Namespace : string;
  pl_Name : string;
  pl_UserID : string;
  pl_Exp : Z;
}.

Class GatewayCodec := {
  hmac_sha256 : string → string → string;
  base64url_encode : string → string;
  base64url_decode : string → result goerr string;
  payload_marshal : Payload → result goerr string;
  payload_unmarshal : string → result goerr Payload;
}.

(** A payload JSON can carry: valid UTF-8 and an [int64]. *)
Definition payload_ok (p : Payload) : bool :=
  utf8_ValidString (pl_Namespace p) && utf8_ValidString (pl_Name p) &&
  utf8_ValidString (pl_UserID p) && bool_decide (in_int64 (pl_Exp p)).

Definition dot : Ascii.ascii := Ascii.Ascii false true true true false true false false.

Class GatewayCodecLaws `{!GatewayCodec} : Prop := {
  (* encoding/base64: decoding inverts encoding, and the URL alphabet has no dot. *)
  base64url_roundtrip s : base64url_decode (base64url_encode s) = Ok s;
  base64url_alphabet s : dot ∉ String.list_ascii_of_string (base64url_encode s);
  (* encoding/json: a struct of strings and integers encodes and decodes back. *)
  payload_roundtrip p :
    payload_ok p = true → ∃ raw, payload_marshal p = Ok raw ∧ payload_unmarshal raw = Ok p;
}.

(** [strings.Cut(s, ".")]. *)
Fixpoint cut_dot (s : string) : option (string * string) :=
  match s with
  | EmptyString => None
  | String a s =>
      if decide (a = dot) then Some ("", s)
      else match cut_dot s with
           | Some (before, after) => Some (String a before, after)
           | None => None
           end
  end.

(** ** Time

    A [time.Time] counts seconds since year 1 in an [int64]; [time.Unix] wraps and
    [Add] saturates. *)
Definition unixToInternal : Z := 62135596800.
Definition clockSkew : Z := 30.

Definition time_Unix (sec : Z) : Z := int64 (sec + unixToInternal).

Definition add_seconds (t d : Z) : Z :=
  let sum := int64 (t + d) in
  if Bool.eqb (t <? sum)%Z (0 <? d)%Z then sum
  else if (0 <? d)%Z then 2 ^ 63 - 1 else - (2 ^ 63 - 1).

(** [now.After(t)] for a clock reading in nanoseconds since the epoch and a time
    of whole seconds. *)
Definition now_after (now t : Z) : bool :=
  let sec := (now / 1000000000 + unixToInternal)%Z in
  (t <? sec)%Z || (t =? sec)%Z && (0 <? now `mod` 1000000000)%Z.

Section Token.
Context `{!GatewayCodec}.

Definition Sign (secret : string) (payload : Payload) : result goerr string :=
  match payload_marshal payload with
  | Err err => Err (wrapf "marshaling payload: " err)
  | Ok raw =>
      let payloadB64 := base64url_encode raw in
      let sigB64 := base64url_encode (hmac_sha256 secret payloadB64) in
      Ok (payloadB64 +:+ "." +:+ sigB64)
  end.

Definition Verify (secret namespace name token : string) : program (result goerr Payload) :=
  match cut_dot token with
  | None => Ret (Err (ESentinel ErrMalformedToken))
  | Some (payloadB64, sigB64) =>
      match base64url_decode sigB64 with
      | Err _ => Ret (Err (ESentinel ErrMalformedToken))
      | Ok sig =>
          if negb (bool_decide (sig = hmac_sha256 secret payloadB64))
          then Ret (Err (ESentinel ErrInvalidSignature))
          else match base64url_decode payloadB64 with
          | Err _ => Ret (Err (ESentinel ErrMalformedToken))
          | Ok raw =>
              match payload_unmarshal raw with
              | Err _ => Ret (Err (ESentinel ErrMalformedToken))
              | Ok p =>
                  if decide (pl_Namespace p ≠ namespace ∨ pl_Name p ≠ name)
                  then Ret (Err (ESentinel ErrScopeMismatch))
                  else
                    now <- perform Now ;;
                    if now_after now (add_seconds (time_Unix (pl_Exp p)) clockSkew)
                    then Ret (Err (ESentinel ErrExpired))
                    else Ret (Ok p)
              end
          end
      end
  end.

(** ** Facts *)

(** The token is a payload part with its keyed hash, and decodes to [p]. *)
Definition authentic (secret token : string) (p : Payload) : Prop :=
  ∃ payloadB64 sigB64 raw,
    token = payloadB64 +:+ "." +:+ sigB64 ∧
    base64url_decode sigB64 = Ok (hmac_sha256 secret payloadB64) ∧
    base64url_decode payloadB64 = Ok raw ∧ payload_unmarshal raw = Ok p.

(** At most 30 seconds past the expiry, for any expiry a clock will reach. *)
Definition fresh (p : Payload) (now : Z) : Prop :=
  (- 2 ^ 62 ≤ pl_Exp p ≤ 2 ^ 62)%Z → (now ≤ (pl_Exp p + clockSkew) * 1000000000)%Z.

Lemma expiry_exact exp now :
  (- 2 ^ 62 ≤ exp ≤ 2 ^ 62)%Z →
  now_after now (add_seconds (time_Unix exp) clockSkew) = true ↔
  ((exp + clockSkew) * 1000000000 < now)%Z.
Proof.
  intros He. unfold now_after, add_seconds, time_Unix, clockSkew, unixToInternal.
  rewrite (int64_small (exp + 62135596800)) by (unfold in_int64; lia).
  rewrite int64_small by (unfold in_int64; lia).
  replace (exp + 62135596800 <? exp + 62135596800 + 30)%Z with true by lia. simpl.
  pose proof (Z.div_mod now 1000000000 ltac:(lia)) as Hdm.
  pose proof (Z.mod_pos_bound now 1000000000 ltac:(lia)) as Hmb.
  rewrite orb_true_iff, andb_true_iff, !Z.ltb_lt, Z.eqb_eq. split; [|intros]; lia.
Qed.

#[local] Arguments String.append !_ _ /.

Lemma cut_dot_app s t :
  dot ∉ String.list_ascii_of_string s → cut_dot (s +:+ String dot t) = Some (s, t).
Proof.
  induction s as [|a s IH]; simpl; intros Hs; [done|].
  rewrite decide_False by set_solver. simpl in IH. by rewrite IH by set_solver.
Qed.

Lemma cut_dot_inv token a b : cut_dot token = Some (a, b) → token = a +:+ "." +:+ b.
Proof.
  revert a. induction token as [|c s IH]; simpl; intros a Hc; [done|].
  case_decide as Hd; simplify_eq; [done|].
  destruct (cut_dot s) as [[x y]|]; simplify_eq. simpl. by rewrite (IH x).
Qed.

(** A cookie the operator signed is honoured until it expires: [Verify] with the
    same secret and scope returns the payload up to 30 seconds past the expiry, and
    the expired sentinel afterwards. *)
Lemma Sign_Verify_roundtrip `{!GatewayCodecLaws} secret p token now :
  payload_ok p = true → (- 2 ^ 62 ≤ pl_Exp p ≤ 2 ^ 62)%Z →
  Sign secret p = Ok token →
  exec (Verify secret (pl_Namespace p) (pl_Name p) token) [existT Now now]
    (if decide ((pl_Exp p + clockSkew) * 1000000000 < now)%Z then Err (ESentinel ErrExpired) else Ok p).
Proof.
  intros Hp He Hs. unfold Sign in Hs. destruct (payload_roundtrip p Hp) as (raw & Hm & Hu).
  rewrite Hm in Hs. injection Hs as <-. unfold Verify.
  rewrite (cut_dot_app _ _ (base64url_alphabet _)).
  rewrite base64url_roundtrip. rewrite bool_decide_true by done. simpl. rewrite base64url_roundtrip, Hu.
  rewrite decide_False by naive_solver. exists now, []. split; [done|]. simpl.
  pose proof (expiry_exact (pl_Exp p) now He) as Hx.
  destruct (now_after _ _), (decide _); naive_solver.
Qed.

(** What [Verify] accepts is authentic, in scope and fresh. *)
Lemma Verify_sound secret namespace name token tr p :
  exec (Verify secret namespace name token) tr (Ok p) →
  authentic secret token p ∧ pl_Namespace p = namespace ∧ pl_Name p = name ∧
  ∃ now, tr = [existT Now now] ∧ fresh p now.
Proof.
  unfold Verify. destruct (cut_dot token) as [[a b]|] eqn:Hcut; [|by intros [_ ?]].
  destruct (base64url_decode b) as [sig|] eqn:Hb; [|by intros [_ ?]].
  destruct (bool_decide _) eqn:Hsig; simpl; [|by intros [_ ?]].
  apply bool_decide_eq_true in Hsig as ->.
  destruct (base64url_decode a) as [raw|] eqn:Ha; [|by intros [_ ?]].
  destruct (payload_unmarshal raw) as [q|] eqn:Hq; [|by intros [_ ?]].
  case_decide as Hsc; [by intros [_ ?]|]. intros (now & tr' & -> & He). simpl in He.
  destruct (now_after _ _) eqn:Hx; destruct He as [-> [= ->]].
  assert (pl_Namespace q = namespace ∧ pl_Name q = name) as [Hns Hn].
  { destruct (decide (pl_Namespace q = namespace)), (decide (pl_Name q = name)); tauto. }
  split; [exists a, b, raw; eauto using cut_dot_inv|]. do 2 (split; [done|]). exists now. split; [done|].
  intros Hr. pose proof (expiry_exact (pl_Exp q) now Hr) as Hi. rewrite Hx in Hi.
  destruct (Z.le_gt_cases now ((pl_Exp q + clockSkew) * 1000000000)); [done|].
  destruct Hi as [_ Hi]. discriminate Hi. lia.
Qed.

End Token.
