(* ===== verification/Proxy.v ===== *)
(** * Proxy: the pages and the reverse proxy of the browser gateway

    [internal/gateway/page.go] and [internal/gateway/proxy.go].  A handler is a
    program that returns the [Response] it writes: a Go handler of this server
    writes exactly one.  Executing the embedded HTML template is a parameter; the
    round trip of [httputil.ReverseProxy] is the call [ProxyDo] on the request its
    director made. *)

From S2P Require Import Prelude.
From S2P Require Import Effects.
From S2P Require Import Go.
From S2P Require Import Json.
From S2P Require Import Api.
From S2P Require Import Manager.
From S2P Require Import Calls.
From S2P Require Import Catalog.
From S2P Require Import ConvexClient.

Local Open Scope prog_scope.

(** ** Requests and responses *)
Abbreviation Values := (gmap string (list string)).

(** [url.Values.Get]: the first value of a key, "" when there is none. *)
Definition values_Get (q : Values) (k : string) : string :=
  match q !! k with Some (v :: _) => v | _ => "" end.

(** What the handlers read of an [*http.Request].  The path is split at the
    slashes and unescaped, the way ServeMux matches it; the body is [None] when it
    is not a JSON document. *)
Record Request := {
  hr_Method : string;
  hr_Path : list string;
  hr_Query : Values;
  hr_Authorization : string;
  hr_Cookies : list (string * string);
  hr_Body : option json;
}.

Definition StatusAccepted : Z := 202.
Definition StatusNoContent : Z := 204.
Definition StatusFound : Z := 302.
Definition StatusBadRequest : Z := 400.
Definition StatusInternalServerError : Z := 500.
Definition StatusBadGateway : Z := 502.
Definition StatusServiceUnavailable : Z := 503.

(** [http.Cookie], with the fields the server sets. *)
Record Cookie := {
  ck_Name : string;
  ck_Value : string;
  ck_Path : string;
  ck_MaxAge : Z;
  ck_HttpOnly : bool;
  ck_Secure : bool;
  ck_SameSiteLax : bool;
}.

Inductive pageKind := pageLoading | pageFailed | pageStopped | pageNotFound | pageUnauthenticated.

Record pageData := {
  pd_Kind : pageKind;
  pd_Name : string;
  pd_Message : string;
  pd_RefreshSeconds : Z;
  pd_ShowRefresh : bool;
}.

Record errorResponse := { er_Code : string; er_Message : string }.

Record workloadResponse := {
  wp_Name : string;
  wp_Namespace : string;
  wp_Status : WorkloadStatus;
}.

Record runFunctionResponse := {
  rf_AdditionalInfo : list AdditionalInfo;
  rf_File : option FileResult;
}.

(** What a handler writes: a bare status, a JSON body, an HTML page, the plain text
    of [http.Error], a redirect with the cookie set on it, or what the upstream
    answered.  [NotRouted] stands for the answers of ServeMux itself (not found,
    method not allowed, redirect to the clean path). *)
Inductive Response :=
| BareStatus (code : Z)
| ErrorBody (code : Z) (body : errorResponse)
| WorkloadBody (code : Z) (body : workloadResponse)
| FunctionBody (code : Z) (body : runFunctionResponse)
| Page (code : Z) (data : pageData) (html : string)
| PlainText (code : Z) (text : string)
| Redirect (code : Z) (cookie : Cookie) (path : list string) (query : Values)
| Relayed (code : Z) (body : string)
| NotRouted.

Definition resp_status (r : Response) : option Z :=
  match r with
  | BareStatus c | ErrorBody c _ | WorkloadBody c _ | FunctionBody c _ | Page c _ _
  | PlainText c _ | Redirect c _ _ _ | Relayed c _ => Some c
  | NotRouted => None
  end.

(** [pageTmpl.Execute]: html/template on the embedded page.html. *)
Class PageTemplate := { pageTmpl_Execute : pageData → result goerr string }.

Section Pages.
Context `{!PageTemplate}.

Definition renderPage (statusCode : Z) (data : pageData) : Response :=
  match pageTmpl_Execute data with
  | Err _ => PlainText StatusInternalServerError "internal error"
  | Ok html => Page statusCode data html
  end.

Definition renderLoadingPage (name : string) (refreshSeconds : Z) : Response :=
  renderPage StatusOK {| pd_Kind := pageLoading; pd_Name := name; pd_Message := "";
    pd_RefreshSeconds := refreshSeconds; pd_ShowRefresh := true |}.

Definition renderFailedPage (name message : string) (refreshSeconds : Z) : Response :=
  renderPage StatusServiceUnavailable {| pd_Kind := pageFailed; pd_Name := name; pd_Message := message;
    pd_RefreshSeconds := refreshSeconds; pd_ShowRefresh := true |}.

Definition renderStoppedPage (name : string) : Response :=
  renderPage StatusOK {| pd_Kind := pageStopped; pd_Name := name; pd_Message := "";
    pd_RefreshSeconds := 0; pd_ShowRefresh := false |}.

Definition renderNotFoundPage (name : string) : Response :=
  renderPage StatusNotFound {| pd_Kind := pageNotFound; pd_Name := name; pd_Message := "";
    pd_RefreshSeconds := 0; pd_ShowRefresh := false |}.

Definition RenderUnauthenticatedPage (name : string) : Response :=
  renderPage StatusUnauthorized {| pd_Kind := pageUnauthenticated; pd_Name := name; pd_Message := "";
    pd_RefreshSeconds := 0; pd_ShowRefresh := false |}.

End Pages.

(** ** The reverse proxy *)
Definition gatewayPageRefreshSeconds : Z := 3.

(** [ServiceProxy]: scheme and host of the API server, and the namespace. *)
Record ServiceProxy := { sp_Scheme : string; sp_Host : string; sp_namespace : string }.

(** [NewServiceProxy]: a transport of its own, on a copy of the configuration that
    negotiates HTTP/1.1 only. *)
Definition NewServiceProxy `{!GoStd} (host namespace : string) : program (result goerr ServiceProxy) :=
  transport <- perform (Setup (TransportFor ["http/1.1"])) ;;
  match transport with
  | Some err => Ret (Err (wrapf "building api-server transport: " err))
  | None =>
      url <- perform (ParseHost host) ;;
      match url with
      | Err err => Ret (Err (wrapf ("parsing api server host " +:+ fmt_q host +:+ ": ") err))
      | Ok (scheme, host) =>
          Ret (Ok {| sp_Scheme := scheme; sp_Host := host; sp_namespace := namespace |})
      end
  end.

(** The first port with the name of the entrypoint. *)
Fixpoint find_port (entrypoint : string) (ports : list ServicePort) : option Z :=
  match ports with
  | [] => None
  | sp :: ports => if decide (sp_Name sp = entrypoint) then Some (sp_Port sp) else find_port entrypoint ports
  end.

Definition target_path (namespace name : string) (port : Z) (subpath : string) : string :=
  "/api/v1/namespaces/" +:+ namespace +:+ "/services/" +:+ name +:+ ":" +:+ pretty port +:+
  "/proxy/" +:+ subpath.

(** The director: target, and the query without our own gateway token. *)
Definition director (p : ServiceProxy) (targetPath : string) (query : Values) : ProxyRequest := {|
  px_Scheme := sp_Scheme p; px_Host := sp_Host p; px_Path := targetPath;
  px_Query := delete "token" query |}.

Section Handler.
Context `{!KubeLib, !PageTemplate}.

(** From a Workload in phase Running on. *)
Definition relay (p : ServiceProxy) (r : Request) (name entrypoint subpath : string) : program Response :=
  got <- perform (KGetService {| nn_Namespace := sp_namespace p; nn_Name := name |}) ;;
  match got with
  | Err err =>
      if IsNotFound err then Ret (PlainText StatusNotFound "workload service not found")
      else Ret (PlainText StatusBadGateway "failed to resolve workload service")
  | Ok svc =>
      match s_Ports svc with
      | [] => Ret (PlainText StatusBadGateway "workload service exposes no ports")
      | ports =>
          match find_port entrypoint ports with
          | None => Ret (PlainText StatusNotFound "unknown entrypoint")
          | Some port =>
              let targetPath := target_path (sp_namespace p) name port subpath in
              upstream <- perform (ProxyDo (director p targetPath (hr_Query r))) ;;
              match upstream with
              | Err _ => Ret (PlainText StatusBadGateway "upstream proxy error")
              | Ok (code, body) => Ret (Relayed code body)
              end
          end
      end
  end.

Definition proxy_Handler (p : ServiceProxy) (r : Request) (name entrypoint subpath : string)
    : program Response :=
  got <- perform (KGetWorkload {| nn_Namespace := sp_namespace p; nn_Name := name |}) ;;
  match got with
  | Err err =>
      if IsNotFound err then Ret (renderNotFoundPage name)
      else Ret (PlainText StatusBadGateway "failed to resolve workload")
  | Ok workload =>
      let phase := wst_Phase (w_Status workload) in
      if decide (phase = PhaseFailed) then
        let message :=
          match FindStatusCondition (wst_Conditions (w_Status workload)) ConditionTypeReady with
          | Some cond => co_Message cond
          | None => ""
          end in
        Ret (renderFailedPage name message gatewayPageRefreshSeconds)
      else if decide (phase = PhaseStopped) then Ret (renderStoppedPage name)
      else if decide (phase = PhaseRunning) then relay p r name entrypoint subpath
      else Ret (renderLoadingPage name gatewayPageRefreshSeconds)
  end.

End Handler.
