(* ===== verification/PodExec.v ===== *)
(** * PodExec: commands in pods

    [internal/podexec/exec.go]: [FindPod] picks the pod, [Exec] implements
    [catalog.PodExecutor] over the exec subresource. *)

From S2P Require Import Prelude.
From S2P Require Import Effects.
From S2P Require Import Go.
From S2P Require Import Json.
From S2P Require Import Api.
From S2P Require Import Manager.
From S2P Require Import Calls.
From S2P Require Import Metrics.

Local Open Scope prog_scope.

Definition PodRunning : string := "Running".

Fixpoint running_pod (pods : list Pod) : option string :=
  match pods with
  | [] => None
  | pod :: pods => if decide (p_Phase pod = PodRunning) then Some (om_Name (p_Meta pod)) else running_pod pods
  end.

Section PodExec.
Context `{!GoStd}.

Definition FindPod (namespace workloadName : string) : program (result goerr string) :=
  pods <- perform (KListPods namespace {[ workloadNameLabel := workloadName ]}) ;;
  match pods with
  | Err err => Ret (Err (wrapf "listing pods: " err))
  | Ok pods =>
      match running_pod pods with
      | Some name => Ret (Ok name)
      | None => Ret (Err (ENew ("no running pod found for workload " +:+ fmt_q workloadName)))
      end
  end.

End PodExec.

(** [New]. *)
Definition NewExecutor : program (option goerr) :=
  clientset <- perform (Setup NewForConfig) ;;
  match clientset with
  | Some err => Ret (Some (wrapf "building kubernetes clientset: " err))
  | None => Ret None
  end.

Definition exec_request (namespace podName container : string) (command : list string) : ExecRequest := {|
  ex_Namespace := namespace; ex_Name := podName; ex_Container := container; ex_Command := command;
  ex_Stdout := true; ex_Stderr := true |}.

Definition Exec (namespace podName container : string) (command : list string)
    : program (string * string * option goerr) :=
  let req := exec_request namespace podName container command in
  built <- perform (NewSPDYExecutor req) ;;
  match built with
  | Some err => Ret ("", "", Some (wrapf "building spdy executor: " err))
  | None => perform (SPDYStream req)
  end.
