(* ===== verification/Server.v ===== *)
(** * Server: the inbound HTTP API

    [internal/api/server.go] and [internal/api/apierror.go].  [ServeHTTP] is the mux of [Server.Start] with its
    middlewares; a run of it is one request.  The listener and its shutdown are not
    modelled. *)

From S2P Require Import Prelude.
From S2P Require Import Effects.
From S2P Require Import Go.
From S2P Require Import Json.
From S2P Require Import Api.
From S2P Require Import Manager.
From S2P Require Import Calls.
From S2P Require Import Catalog.
From S2P Require Import CatalogTemplates.
From S2P Require Import Controller.
From S2P Require Import ControllerObjects.
From S2P Require Import Provisioning.
From S2P Require Import Metrics.
From S2P Require Import ConvexClient.
From S2P Require Import Gateway.
From S2P Require Import Proxy.
From S2P Require Import PodExec.

Local Open Scope prog_scope.

(** ** Error codes *)
Definition codeAuthMissingToken : string := "auth.missing_token".
Definition codeAuthInvalidToken : string := "auth.invalid_token".
Definition codeRequestInvalidJSON : string := "request.invalid_json".
Definition codeWorkloadNotFound : string := "workload.not_found".
Definition codeWorkloadImageRequired : string := "workload.image_required".
Definition codeWorkloadUserIDRequired : string := "workload.user_id_required".
Definition codeWorkloadNameRequired : string := "workload.name_required".
Definition codeWorkloadInvalidName : string := "workload.invalid_name".
Definition codeWorkloadInvalidConfig : string := "workload.invalid_config".
Definition codeWorkloadNoRunningPod : string := "workload.no_running_pod".
Definition codeCatalogTemplateUnknown : string := "catalog.template_unknown".
Definition codeCatalogFunctionUnknown : string := "catalog.function_unknown".
Definition codeCatalogInvalidParams : string := "catalog.invalid_params".
Definition codeCatalogFunctionFailed : string := "catalog.function_failed".
Definition codeInternalError : string := "internal.error".

Definition writeError (status : Z) (code message : string) : Response :=
  ErrorBody status {| er_Code := code; er_Message := message |}.

(** ** Server *)
Definition gatewayCookieName : string := "gw_auth".
(** 30 minutes, in seconds. *)
Definition gatewayCookieTTL : Z := 30 * 60.

Record Server := {
  sv_listenAddr : string;
  sv_gatewaySecret : string;
  sv_proxy : ServiceProxy;
  sv_creator : WorkloadCreator;
  sv_destroyer : WorkloadDestroyer;
  sv_namespace : string;
}.

(** [Config] without the interfaces that are calls: the Kubernetes client, the token
    getter, the gateway verifier and the pod executor. *)
Record ServerConfig := {
  scf_ListenAddr : string;
  scf_GatewaySecret : string;
  scf_Proxy : ServiceProxy;
  scf_Creator : WorkloadCreator;
  scf_Destroyer : WorkloadDestroyer;
  scf_Namespace : string;
}.

(** [New]. *)
Definition NewServer (cfg : ServerConfig) : Server := {|
  sv_listenAddr := scf_ListenAddr cfg;
  sv_gatewaySecret := scf_GatewaySecret cfg;
  sv_proxy := scf_Proxy cfg;
  sv_creator := scf_Creator cfg;
  sv_destroyer := scf_Destroyer cfg;
  sv_namespace := scf_Namespace cfg |}.

Definition requireDeployToken (r : Request) (next : program Response) : program Response :=
  match strings_CutPrefix (hr_Authorization r) "Bearer " with
  | None => Ret (writeError StatusUnauthorized codeAuthMissingToken "missing bearer token")
  | Some presented =>
      if decide (presented = "")
      then Ret (writeError StatusUnauthorized codeAuthMissingToken "missing bearer token")
      else
        expected <- perform CurrentToken ;;
        if decide (expected = "" ∨ presented ≠ expected)
        then Ret (writeError StatusUnauthorized codeAuthInvalidToken "invalid bearer token")
        else next
  end.

(** [r.Cookie(name)]: the first cookie of that name. *)
Fixpoint request_Cookie (cookies : list (string * string)) (name : string) : option string :=
  match cookies with
  | [] => None
  | (n, v) :: cookies => if decide (n = name) then Some v else request_Cookie cookies name
  end.

Definition decode_int32 : decoder Z := λ cur j,
  match j with
  | JNull => Ok cur
  | JInt n => if decide (in_int32 n) then Ok n else Err decode_error
  | _ => Err decode_error
  end.

(** [json.NewDecoder(r.Body).Decode(&req)]. *)
Definition decode_request {A} (zero : A) (d : decoder A) (r : Request) : result goerr A :=
  match hr_Body r with None => Err decode_error | Some j => d zero j end.

Record runFunctionRequest := { rq_Params : option (gmap string any) }.

Definition decode_runFunctionRequest : decoder runFunctionRequest := decode_struct [
  decode_field "params" rq_Params (λ p _, {| rq_Params := p |}) decode_any_map ].

Record deployRequest := {
  dr_Name : string;
  dr_TemplateName : string;
  dr_Image : string;
  dr_Replicas : option Z;
  dr_ContainerPort : Z;
  dr_Env : list EnvVar;
  dr_Subdomain : string;
  dr_UserID : string;
  dr_Config : option (gmap string any);
}.

Definition no_deployRequest : deployRequest := {|
  dr_Name := ""; dr_TemplateName := ""; dr_Image := ""; dr_Replicas := None; dr_ContainerPort := 0;
  dr_Env := []; dr_Subdomain := ""; dr_UserID := ""; dr_Config := None |}.

Definition workload_response (w : Workload) : workloadResponse :=
  {| wp_Name := w_Name w; wp_Namespace := w_Namespace w; wp_Status := w_Status w |}.

Section Server.
Context `{!GoStd, !KubeLib, !GatewayCodec, !PageTemplate}.

Definition decode_deployRequest : decoder deployRequest := decode_struct [
  decode_field "name" dr_Name (λ v q, {|
    dr_Name := v; dr_TemplateName := dr_TemplateName q; dr_Image := dr_Image q;
    dr_Replicas := dr_Replicas q; dr_ContainerPort := dr_ContainerPort q; dr_Env := dr_Env q;
    dr_Subdomain := dr_Subdomain q; dr_UserID := dr_UserID q; dr_Config := dr_Config q |}) decode_string;
  decode_field "templateName" dr_TemplateName (λ v q, {|
    dr_Name := dr_Name q; dr_TemplateName := v; dr_Image := dr_Image q;
    dr_Replicas := dr_Replicas q; dr_ContainerPort := dr_ContainerPort q; dr_Env := dr_Env q;
    dr_Subdomain := dr_Subdomain q; dr_UserID := dr_UserID q; dr_Config := dr_Config q |}) decode_string;
  decode_field "image" dr_Image (λ v q, {|
    dr_Name := dr_Name q; dr_TemplateName := dr_TemplateName q; dr_Image := v;
    dr_Replicas := dr_Replicas q; dr_ContainerPort := dr_ContainerPort q; dr_Env := dr_Env q;
    dr_Subdomain := dr_Subdomain q; dr_UserID := dr_UserID q; dr_Config := dr_Config q |}) decode_string;
  decode_field "replicas" dr_Replicas (λ v q, {|
    dr_Name := dr_Name q; dr_TemplateName := dr_TemplateName q; dr_Image := dr_Image q;
    dr_Replicas := v; dr_ContainerPort := dr_ContainerPort q; dr_Env := dr_Env q;
    dr_Subdomain := dr_Subdomain q; dr_UserID := dr_UserID q; dr_Config := dr_Config q |})
    (decode_ptr 0%Z decode_int32);
  decode_field "containerPort" dr_ContainerPort (λ v q, {|
    dr_Name := dr_Name q; dr_TemplateName := dr_TemplateName q; dr_Image := dr_Image q;
    dr_Replicas := dr_Replicas q; dr_ContainerPort := v; dr_Env := dr_Env q;
    dr_Subdomain := dr_Subdomain q; dr_UserID := dr_UserID q; dr_Config := dr_Config q |}) decode_int32;
  decode_field "env" dr_Env (λ v q, {|
    dr_Name := dr_Name q; dr_TemplateName := dr_TemplateName q; dr_Image := dr_Image q;
    dr_Replicas := dr_Replicas q; dr_ContainerPort := dr_ContainerPort q; dr_Env := v;
    dr_Subdomain := dr_Subdomain q; dr_UserID := dr_UserID q; dr_Config := dr_Config q |})
    (decode_list (env_var "" "") decode_EnvVar);
  decode_field "subdomain" dr_Subdomain (λ v q, {|
    dr_Name := dr_Name q; dr_TemplateName := dr_TemplateName q; dr_Image := dr_Image q;
    dr_Replicas := dr_Replicas q; dr_ContainerPort := dr_ContainerPort q; dr_Env := dr_Env q;
    dr_Subdomain := v; dr_UserID := dr_UserID q; dr_Config := dr_Config q |}) decode_string;
  decode_field "userId" dr_UserID (λ v q, {|
    dr_Name := dr_Name q; dr_TemplateName := dr_TemplateName q; dr_Image := dr_Image q;
    dr_Replicas := dr_Replicas q; dr_ContainerPort := dr_ContainerPort q; dr_Env := dr_Env q;
    dr_Subdomain := dr_Subdomain q; dr_UserID := v; dr_Config := dr_Config q |}) decode_string;
  decode_field "config" dr_Config (λ v q, {|
    dr_Name := dr_Name q; dr_TemplateName := dr_TemplateName q; dr_Image := dr_Image q;
    dr_Replicas := dr_Replicas q; dr_ContainerPort := dr_ContainerPort q; dr_Env := dr_Env q;
    dr_Subdomain := dr_Subdomain q; dr_UserID := dr_UserID q; dr_Config := v |}) decode_any_map ].

(** ** The gateway *)

(** The payload of the session cookie: [time.Now().Add(gatewayCookieTTL).Unix()] is
    the expiry. *)
Definition session_payload (s : Server) (name userID : string) (now : Z) : Payload := {|
  pl_Namespace := sv_namespace s; pl_Name := name; pl_UserID := userID;
  pl_Exp := (now + gatewayCookieTTL * 1000000000) / 1000000000 |}.

Definition session_cookie (name signed : string) : Cookie := {|
  ck_Name := gatewayCookieName; ck_Value := signed; ck_Path := "/gw/" +:+ name;
  ck_MaxAge := gatewayCookieTTL; ck_HttpOnly := true; ck_Secure := true; ck_SameSiteLax := true |}.

Definition requireGatewayToken (s : Server) (r : Request) (name : string) (next : program Response)
    : program Response :=
  let token := values_Get (hr_Query r) "token" in
  if decide (token = "") then
    match request_Cookie (hr_Cookies r) gatewayCookieName with
    | None => Ret (RenderUnauthenticatedPage name)
    | Some cookie =>
        verified <- Verify (sv_gatewaySecret s) (sv_namespace s) name cookie ;;
        match verified with
        | Ok _ => next
        | Err _ => Ret (RenderUnauthenticatedPage name)
        end
    end
  else
    verified <- perform (VerifyGatewayToken token (sv_namespace s) name) ;;
    match verified with
    | Err _ => Ret (RenderUnauthenticatedPage name)
    | Ok userID =>
        now <- perform Now ;;
        match Sign (sv_gatewaySecret s) (session_payload s name userID now) with
        | Err _ => Ret (writeError StatusInternalServerError codeInternalError "internal error")
        | Ok signed =>
            Ret (Redirect StatusFound (session_cookie name signed) (hr_Path r)
                   (delete "token" (hr_Query r)))
        end
    end.

(** ** The management API *)
(** A [Get] of the named workload, with the two error answers [handleGet] and
    [handleRunFunction] share. *)
Definition get_workload (s : Server) (name : string) (k : Workload → program Response)
    : program Response :=
  got <- perform (KGetWorkload {| nn_Namespace := sv_namespace s; nn_Name := name |}) ;;
  match got with
  | Err err =>
      if IsNotFound err then Ret (writeError StatusNotFound codeWorkloadNotFound "workload not found")
      else Ret (writeError StatusInternalServerError codeInternalError
                  ("failed to get workload: " +:+ Error err))
  | Ok workload => k workload
  end.

(** From a known operation on. *)
Definition run_function (s : Server) (name : string) (fn : Operation) (params : option (gmap string any))
    : program Response :=
  match ResolveParams (o_Parameters fn) (default ∅ params) with
  | Err err => Ret (writeError StatusBadRequest codeCatalogInvalidParams (Error err))
  | Ok resolvedParams =>
      found <- FindPod (sv_namespace s) name ;;
      match found with
      | Err err => Ret (writeError StatusConflict codeWorkloadNoRunningPod
                          ("workload has no running pod: " +:+ Error err))
      | Ok podName =>
          result <- o_Run fn {| pf_Namespace := sv_namespace s; pf_PodName := podName |} resolvedParams ;;
          match result with
          | Err err => Ret (writeError StatusInternalServerError codeCatalogFunctionFailed
                              ("function failed: " +:+ Error err))
          | Ok result => Ret (FunctionBody StatusOK
                                {| rf_AdditionalInfo := op_AdditionalInfo result; rf_File := op_File result |})
          end
      end
  end.

Definition handleRunFunction (s : Server) (r : Request) (name key : string) : program Response :=
  match decode_request {| rq_Params := None |} decode_runFunctionRequest r with
  | Err _ => Ret (writeError StatusBadRequest codeRequestInvalidJSON "invalid json body")
  | Ok req =>
      get_workload s name (λ workload,
        let templateName := ws_TemplateName (w_Spec workload) in
        match Get templateName with
        | None => Ret (writeError StatusBadRequest codeCatalogTemplateUnknown
                         ("unknown template " +:+ fmt_q templateName))
        | Some tmpl =>
            match GetOperation tmpl key with
            | None => Ret (writeError StatusNotFound codeCatalogFunctionUnknown
                             ("unknown function " +:+ fmt_q key +:+ " for template " +:+ fmt_q (t_ID tmpl)))
            | Some fn => run_function s name fn (rq_Params req)
            end
        end)
  end.

(** The checks before anything is created: the error to answer with, if any. *)
Definition reject_deploy (req : deployRequest) : option Response :=
  if decide (dr_TemplateName req = "" ∧ dr_Image req = "") then
    Some (writeError StatusBadRequest codeWorkloadImageRequired
            "image is required when templateName is unset")
  else if decide (dr_TemplateName req ≠ "") then
    if decide (dr_UserID req = "") then
      Some (writeError StatusBadRequest codeWorkloadUserIDRequired
              "userId is required for a template deploy")
    else None
  else if decide (dr_Name req = "") then
    Some (writeError StatusBadRequest codeWorkloadNameRequired
            "name is required for a non-template deploy")
  else
    match IsDNS1123Label (dr_Name req) with
    | [] => None
    | errs => Some (writeError StatusBadRequest codeWorkloadInvalidName
                      ("invalid name " +:+ fmt_q (dr_Name req) +:+ ": " +:+ strings_Join errs "; "))
    end.

(** The closure handed to [CreateOrUpdate]. *)
Definition mutate_workload (req : deployRequest) (configRaw : option string) (w : Workload)
    : result goerr Workload :=
  Ok (w_with_spec w {|
    ws_TemplateName := ws_TemplateName (w_Spec w);
    ws_Image := dr_Image req; ws_Replicas := dr_Replicas req;
    ws_ContainerPort := dr_ContainerPort req; ws_Env := dr_Env req;
    ws_Subdomain := dr_Subdomain req; ws_UserID := dr_UserID req; ws_Config := configRaw;
    ws_Suspended := ws_Suspended (w_Spec w);
    ws_LastRedeployedAt := ws_LastRedeployedAt (w_Spec w) |}).

Definition deploy_template (s : Server) (req : deployRequest) : program Response :=
  created <- Create (sv_creator s) "" (dr_TemplateName req) (dr_UserID req) (dr_Subdomain req)
               (dr_Config req) ;;
  match created with
  | Err err =>
      if errors_Is err ErrUnknownTemplate
      then Ret (writeError StatusBadRequest codeCatalogTemplateUnknown (Error err))
      else if errors_Is err ErrInvalidConfig
      then Ret (writeError StatusBadRequest codeWorkloadInvalidConfig (Error err))
      else Ret (writeError StatusInternalServerError codeInternalError
                  ("failed to create workload: " +:+ Error err))
  | Ok workload => Ret (WorkloadBody StatusAccepted (workload_response workload))
  end.

Definition deploy_image (s : Server) (req : deployRequest) : program Response :=
  match marshalConfig (dr_Config req) with
  | Err err => Ret (writeError StatusBadRequest codeWorkloadInvalidConfig
                      ("invalid config: " +:+ Error err))
  | Ok configRaw =>
      let workload := {| w_Meta := named_meta (sv_namespace s) (dr_Name req);
                         w_Spec := empty_spec; w_Status := empty_status |} in
      applied <- perform (KCreateOrUpdateWorkload workload (mutate_workload req configRaw)) ;;
      match applied with
      | Err err => Ret (writeError StatusInternalServerError codeInternalError
                          ("failed to apply workload: " +:+ Error err))
      | Ok workload => Ret (WorkloadBody StatusAccepted (workload_response workload))
      end
  end.

Definition handleDeploy (s : Server) (r : Request) : program Response :=
  match decode_request no_deployRequest decode_deployRequest r with
  | Err _ => Ret (writeError StatusBadRequest codeRequestInvalidJSON "invalid json body")
  | Ok req =>
      match reject_deploy req with
      | Some resp => Ret resp
      | None =>
          if decide (dr_TemplateName req ≠ "") then deploy_template s req else deploy_image s req
      end
  end.

Definition handleGet (s : Server) (name : string) : program Response :=
  get_workload s name (λ workload, Ret (WorkloadBody StatusOK (workload_response workload))).

Definition handleDelete (s : Server) (name : string) : program Response :=
  err <- Destroy (sv_destroyer s) name ;;
  match err with
  | Some err => Ret (writeError StatusInternalServerError codeInternalError
                       ("failed to delete workload: " +:+ Error err))
  | None => Ret (BareStatus StatusNoContent)
  end.

Definition handleHealthz : program Response := Ret (BareStatus StatusOK).

(** ** Routes *)
Inductive Route :=
| RouteHealthz
| RouteDeploy
| RouteGet (name : string)
| RouteDelete (name : string)
| RouteGateway (name entrypoint subpath : string)
| RouteFunction (name key : string).

(** ServeMux on the patterns of [Start]: a GET pattern matches HEAD too, a wildcard
    matches one non-empty segment and the last one the rest of the path. *)
Definition is_get (method : string) : bool := bool_decide (method = "GET" ∨ method = "HEAD").

Definition wildcard (seg : string) : bool := bool_decide (seg ≠ "").

Definition mux_match (method : string) (path : list string) : option Route :=
  match path with
  | ["healthz"] => if is_get method then Some RouteHealthz else None
  | ["workloads"] => if decide (method = "POST") then Some RouteDeploy else None
  | ["workloads"; name] =>
      if wildcard name then
        if is_get method then Some (RouteGet name)
        else if decide (method = "DELETE") then Some (RouteDelete name) else None
      else None
  | ["workloads"; name; "functions"; key] =>
      if wildcard name && wildcard key && bool_decide (method = "POST")
      then Some (RouteFunction name key) else None
  | "gw" :: name :: entrypoint :: seg :: rest =>
      if wildcard name && wildcard entrypoint && is_get method
      then Some (RouteGateway name entrypoint (strings_Join (seg :: rest) "/")) else None
  | _ => None
  end.

Definition serve_route (s : Server) (r : Request) (route : Route) : program Response :=
  match route with
  | RouteHealthz => handleHealthz
  | RouteDeploy => requireDeployToken r (handleDeploy s r)
  | RouteGet name => requireDeployToken r (handleGet s name)
  | RouteDelete name => requireDeployToken r (handleDelete s name)
  | RouteGateway name entrypoint subpath =>
      requireGatewayToken s r name (proxy_Handler (sv_proxy s) r name entrypoint subpath)
  | RouteFunction name key => requireDeployToken r (handleRunFunction s r name key)
  end.

Definition ServeHTTP (s : Server) (r : Request) : program Response :=
  match mux_match (hr_Method r) (hr_Path r) with
  | None => Ret NotRouted
  | Some route => serve_route s r route
  end.

End Server.

(** [Server.Start]: serve until the context is cancelled, which ends in a graceful
    shutdown; only a listener that fails ends it earlier.  [ListenAndServe] answers
    [None] when the cancellation came first. *)
Definition readHeaderTimeout : Z := 5 * 1000000000.
Definition shutdownTimeout : Z := 5 * 1000000000.

Definition Server_Start (s : Server) : program (option goerr) :=
  served <- perform (Setup (ListenAndServe (sv_listenAddr s) readHeaderTimeout)) ;;
  match served with
  | Some err =>
      if errors_Is err ErrServerClosed then perform (Setup (Shutdown shutdownTimeout)) else Ret (Some err)
  | None => perform (Setup (Shutdown shutdownTimeout))
  end.

(** [NeedLeaderElection]. *)
Definition NeedLeaderElection : bool := false.
