(* ===== verification/ServerFacts.v ===== *)
(** * ServerFacts: who may do what through the HTTP API

    The two route groups are authenticated independently: the management API by the
    deploy token, the gateway by a one-time token that is exchanged for a signed
    session cookie.  The theorems quantify over every answer of the cluster, of
    Convex and of the upstream. *)

From S2P Require Import Prelude.
From S2P Require Import Effects.
From S2P Require Import Go.
From S2P Require Import Json.
From S2P Require Import Api.
From S2P Require Import Calls.
From S2P Require Import Catalog.
From S2P Require Import CatalogTemplates.
From S2P Require Import Controller.
From S2P Require Import ControllerObjects.
From S2P Require Import Provisioning.
From S2P Require Import Metrics.
From S2P Require Import ConvexClient.
From S2P Require Import Gateway.
From S2P Require Import Proxy.
From S2P Require Import PodExec.
From S2P Require Import Server.

Local Open Scope prog_scope.

(** A run that made no call has no events. *)
Ltac no_event :=
  match goal with
  | He : exec (Ret _) _ _, Hin : _ ∈ _ |- _ => destruct He as [-> _]; by apply elem_of_nil in Hin
  end.

(** ** The management API *)

(** Requests for the management API, by route. *)
Definition management (r : Request) : bool :=
  match mux_match (hr_Method r) (hr_Path r) with
  | Some (RouteDeploy | RouteGet _ | RouteDelete _ | RouteFunction _ _) => true
  | _ => false
  end.

(** The deploy token, where the event is a reading of it. *)
Definition token_read (e : event answer) : option string :=
  match e with existT CurrentToken t => Some t | _ => None end.

(** The request presents the deploy token that was read first in this run. *)
Definition deploy_authorized (r : Request) (tr : trace) : Prop :=
  ∃ t, head tr ≫= token_read = Some t ∧ t ≠ "" ∧ hr_Authorization r = "Bearer " +:+ t.

Section Facts.
Context `{!GoStd, !KubeLib, !GatewayCodec, !PageTemplate}.

(** No handler behind the deploy token answers 401 of its own. *)
Definition not_401 (h : trace) (resp : Response) : Prop := resp_status resp ≠ Some StatusUnauthorized.

Lemma handlers_not_401 s r name key h :
  wp h (handleDeploy s r) not_401 ∧ wp h (handleGet s name) not_401 ∧
  wp h (handleDelete s name) not_401 ∧ wp h (handleRunFunction s r name key) not_401.
Proof.
  split_and!.
  - unfold handleDeploy, deploy_template, deploy_image, reject_deploy.
    prog_run; try done; repeat case_match; simplify_eq; try done.
    all: apply wp_trivial; intros ? []; prog_run; done.
  - unfold handleGet, get_workload. prog_run; done.
  - unfold handleDelete. prog_run. apply wp_trivial. intros ? []; done.
  - unfold handleRunFunction, get_workload, run_function. prog_run; try done.
    apply wp_trivial. intros ? []; prog_run; try done.
Qed.

Lemma requireDeployToken_spec r next tr resp :
  (∀ h, wp h next not_401) → exec (requireDeployToken r next) tr resp →
  (resp_status resp = Some StatusUnauthorized ∧ ¬ deploy_authorized r tr ∧
   Forall (λ e, projT1 e = CurrentToken) tr) ∨
  (resp_status resp ≠ Some StatusUnauthorized ∧ deploy_authorized r tr).
Proof.
  intros Hn He. unfold requireDeployToken in He.
  destruct (strings_CutPrefix _ _) as [presented|] eqn:Hcut.
  2: { destruct He as [-> ->]. left. split; [done|]. split; [|done]. by intros (? & ? & _). }
  apply CutPrefix_spec in Hcut.
  case_decide as Hp.
  { destruct He as [-> ->]. left. split; [done|]. split; [|done]. by intros (? & ? & _). }
  destruct He as (t & tr' & -> & He). simpl in He. case_decide as Ht.
  - destruct He as [-> ->]. left. split; [done|]. split; [|by repeat constructor].
    intros (t' & [= <-] & Hne & Ha). rewrite Hcut in Ha. simplify_eq. tauto.
  - right. split; [by apply (wp_sound _ _ _ _ (Hn []) He)|].
    exists t. destruct (decide (presented = t)) as [->|]; [|tauto]. tauto.
Qed.

Lemma management_cases s r tr resp :
  management r = true → exec (ServeHTTP s r) tr resp →
  (resp_status resp = Some StatusUnauthorized ∧ ¬ deploy_authorized r tr ∧
   Forall (λ e, projT1 e = CurrentToken) tr) ∨
  (resp_status resp ≠ Some StatusUnauthorized ∧ deploy_authorized r tr).
Proof.
  unfold management, ServeHTTP. intros Hm He.
  assert (∃ next, (∀ h, wp h next not_401) ∧ exec (requireDeployToken r next) tr resp)
    as (next & Hn & Hr).
  { destruct (mux_match _ _) as [[]|]; try done; simpl in He; eexists; (split; [|exact He]);
      intros h; [apply (handlers_not_401 s r "" "" h)|apply (handlers_not_401 s r name "" h)
                |apply (handlers_not_401 s r name "" h)|apply (handlers_not_401 s r name key h)]. }
  by apply requireDeployToken_spec in Hr.
Qed.

(** The management API is closed to anyone without the deploy token: a request
    for it is answered 401 exactly when it does not present, as a bearer token, the
    non-empty deploy token current at that moment, and then the run reads that token
    and makes no other call. *)
Theorem management_authorized s r tr resp :
  management r = true → exec (ServeHTTP s r) tr resp →
  (resp_status resp = Some StatusUnauthorized ↔ ¬ deploy_authorized r tr) ∧
  (deploy_authorized r tr ∨ Forall (λ e, projT1 e = CurrentToken) tr).
Proof.
  intros Hm He. destruct (management_cases s r tr resp Hm He) as [(? & ? & ?)|[? ?]]; tauto.
Qed.

(** ** The calls of the operations *)

(** The operations of the catalog only execute in the pod they are given, in the
    container of their template, and read the clock. *)
Definition operation_exec (tmpl : Template) (pod : PodRef) (c : call) : Prop :=
  match c with
  | PodExec ns name container _ =>
      ns = pf_Namespace pod ∧ name = pf_PodName pod ∧ container = t_ID tmpl
  | Now => True
  | _ => False
  end.

Lemma backup_Run_calls path cont pod params tmpl h :
  cont = t_ID tmpl → safe (λ _, operation_exec tmpl pod) h (backup_Run path cont pod params).
Proof. intros ->. unfold backup_Run. prog_run; done. Qed.

Lemma operations_calls tmpl key fn pod params h :
  tmpl ∈ templates → GetOperation tmpl key = Some fn →
  safe (λ _, operation_exec tmpl pod) h (o_Run fn pod params).
Proof.
  revert tmpl. apply (templates_cases (λ t, GetOperation t key = Some fn → _));
    unfold GetOperation; cbn [find_operation t_Operations Nginx Firefox Chrome Webtop];
    [done|..]; case_decide; intros [= <-]; by apply backup_Run_calls.
Qed.

(** ** Gateway access *)

(** The request relayed, where the event is a round trip of the proxy. *)
Definition relayed (e : event answer) : option ProxyRequest :=
  match e with existT (ProxyDo px) _ => Some px | _ => None end.

Lemma no_relay tr e px :
  e ∈ tr → relayed e = Some px → Forall (λ e, relayed e = None) tr → False.
Proof. intros Hin Hpx HF. eapply Forall_forall in HF; [|exact Hin]. congruence. Qed.

Definition not_relay (c : call) : Prop := match c with ProxyDo _ => False | _ => True end.

Lemma management_never_relays s r route :
  match route with RouteGateway _ _ _ => False | _ => True end →
  safe (λ _, not_relay) [] (serve_route s r route).
Proof.
  intros Hr. destruct route; [| | | |done|]; simpl; [done|..];
    unfold requireDeployToken, handleDeploy, handleGet, handleDelete, handleRunFunction, deploy_template,
      deploy_image, get_workload, Create, Destroy, run_function, FindPod; prog_run; try done.
  all: try (apply wp_trivial; intros ? []; exact I).
  eapply safe_mono; [|eapply operations_calls; [eapply Get_templates|]; eauto].
  intros _ [] Hc; done.
Qed.

(** The session presented with a request: a cookie the server signed for this
    workload, not past its expiry at [now], and no one-time token in the URL. *)
Definition session_valid (s : Server) (r : Request) (name : string) (now : Z) : Prop :=
  values_Get (hr_Query r) "token" = "" ∧
  ∃ cookie p,
    request_Cookie (hr_Cookies r) gatewayCookieName = Some cookie ∧
    authentic (sv_gatewaySecret s) cookie p ∧
    pl_Namespace p = sv_namespace s ∧ pl_Name p = name ∧ fresh p now.

Lemma find_port_spec entrypoint ports port :
  find_port entrypoint ports = Some port → ∃ sp, sp ∈ ports ∧ sp_Name sp = entrypoint ∧ sp_Port sp = port.
Proof.
  induction ports as [|sp ports IH]; simpl; [done|].
  case_decide; intros; simplify_eq; [exists sp; set_solver|]. destruct IH as (sp' & ? & ?); set_solver.
Qed.

#[local] Arguments find_port : simpl never.

(** A run of the proxy that relays the request. *)
Definition relay_run (p : ServiceProxy) (r : Request) (name entrypoint subpath : string)
    (tr : trace) (px : ProxyRequest) : Prop :=
  ∃ w svc sp a,
    let key := {| nn_Namespace := sp_namespace p; nn_Name := name |} in
    tr = [existT (KGetWorkload key) (Ok w); existT (KGetService key) (Ok svc); existT (ProxyDo px) a] ∧
    wst_Phase (w_Status w) = PhaseRunning ∧
    sp ∈ s_Ports svc ∧ sp_Name sp = entrypoint ∧
    px_Scheme px = sp_Scheme p ∧ px_Host px = sp_Host p ∧
    px_Path px = target_path (sp_namespace p) name (sp_Port sp) subpath ∧
    px_Query px = delete "token" (hr_Query r).

Lemma proxy_Handler_relays p r name entrypoint subpath tr resp e px :
  exec (proxy_Handler p r name entrypoint subpath) tr resp → e ∈ tr → relayed e = Some px →
  relay_run p r name entrypoint subpath tr px.
Proof.
  unfold proxy_Handler. intros ([w|err] & tr1 & -> & He) Hin Hpx; simpl in He.
  2: { destruct (IsNotFound err); destruct He as [-> _]; apply list_elem_of_singleton in Hin as ->; done. }
  apply elem_of_cons in Hin as [->|Hin]; [done|].
  repeat case_decide; try no_event.
  destruct He as ([svc|err] & tr2 & -> & He); simpl in He.
  2: { destruct (IsNotFound err); destruct He as [-> _]; apply list_elem_of_singleton in Hin as ->; done. }
  apply elem_of_cons in Hin as [->|Hin]; [done|].
  destruct (s_Ports svc) as [|sp0 ports] eqn:Hps; [no_event|].
  destruct (find_port entrypoint (sp0 :: ports)) as [port|] eqn:Hfp; [|no_event].
  destruct He as (a & tr3 & -> & He). simpl in He.
  assert (tr3 = []) as -> by (destruct a as [[]|]; by destruct He).
  apply list_elem_of_singleton in Hin as ->. injection Hpx as <-.
  apply find_port_spec in Hfp as (sp & Hsp & Hn & <-).
  exists w, svc, sp, a. rewrite Hps. done.
Qed.

Lemma Verify_no_relay secret ns name token tr res :
  exec (Verify secret ns name token) tr res → Forall (λ e, relayed e = None) tr.
Proof.
  intros He. eapply Forall_impl; [eapply (safe_exec (λ c, c = Now)); [|exact He]|].
  - unfold Verify. prog_run; done.
  - intros [c a] Hc. simpl in Hc. by subst c.
Qed.

(** C9. A browser reaches a workload only with a session for it: whenever a request
    is relayed, it came in on the gateway route with no one-time token, carrying a
    cookie signed with the server's secret for this namespace and workload and not
    expired at the clock reading of the run; the workload was read Running, the target
    is the port of its Service named by the entrypoint, and no token is passed on. *)
Theorem gateway_access_authorized s r tr resp e px :
  exec (ServeHTTP s r) tr resp → e ∈ tr → relayed e = Some px →
  ∃ name entrypoint subpath now tr',
    mux_match (hr_Method r) (hr_Path r) = Some (RouteGateway name entrypoint subpath) ∧
    tr = existT Now now :: tr' ∧ session_valid s r name now ∧
    relay_run (sv_proxy s) r name entrypoint subpath tr' px.
Proof.
  unfold ServeHTTP. intros He Hin Hpx.
  destruct (mux_match _ _) as [route|]; [|no_event].
  assert ((∃ n ep sub, route = RouteGateway n ep sub) ∨
    match route with RouteGateway _ _ _ => False | _ => True end) as [(n & ep & sub & ->)|Hr]
    by (destruct route; eauto).
  2: { pose proof (safe_exec _ _ _ _ (management_never_relays s r route Hr) He) as HF.
       eapply Forall_forall in HF; [|exact Hin]. by destruct e as [[] ?]. }
  simpl in He. unfold requireGatewayToken in He. case_decide as Ht.
  2: { destruct He as ([u|] & tr1 & -> & He); simpl in He.
       - destruct He as (now & tr2 & -> & He). simpl in He.
         assert (tr2 = []) as -> by (destruct (Sign _ _); by destruct He).
         destruct (no_relay _ _ _ Hin Hpx); by repeat constructor.
       - destruct He as [-> _]. destruct (no_relay _ _ _ Hin Hpx); by repeat constructor. }
  destruct (request_Cookie _ _) as [cookie|] eqn:Hck; [|no_event].
  apply exec_bind in He as (tr1 & tr2 & [p|] & -> & Hv & He).
  2: { destruct He as [-> _]. rewrite app_nil_r in Hin.
       destruct (no_relay _ _ _ Hin Hpx). by eapply Verify_no_relay. }
  apply Verify_sound in Hv as (Ha & Hns & Hn & now & -> & Hf).
  exists n, ep, sub, now, tr2. split; [done|]. split; [done|].
  apply elem_of_cons in Hin as [->|Hin]; [done|].
  split; [split; [done|]; by exists cookie, p|]. eapply proxy_Handler_relays; eauto.
Qed.

(** What a successful exchange answers: a redirect to the same path without the
    token, with a cookie scoped to the workload that [Verify] honours for as long as
    the session lasts. *)
Definition session_started (s : Server) (r : Request) (name userID : string) (now : Z)
    (resp : Response) : Prop :=
  ∃ signed,
    resp = Redirect StatusFound (session_cookie name signed) (hr_Path r) (delete "token" (hr_Query r)) ∧
    ∀ now', exec (Verify (sv_gatewaySecret s) (sv_namespace s) name signed) [existT Now now']
      (if decide ((pl_Exp (session_payload s name userID now) + clockSkew) * 1000000000 < now')%Z
       then Err (ESentinel ErrExpired) else Ok (session_payload s name userID now)).

Lemma session_payload_exp s name userID now :
  (0 ≤ now ≤ 2 ^ 62)%Z → (- 2 ^ 62 ≤ pl_Exp (session_payload s name userID now) ≤ 2 ^ 62)%Z.
Proof.
  intros Hn. unfold session_payload, gatewayCookieTTL. cbn [pl_Exp].
  assert (0 ≤ (now + 30 * 60 * 1000000000) / 1000000000 ≤ 2 ^ 62)%Z; [|lia].
  split; [apply Z.div_pos; lia|]. apply Z.div_le_upper_bound; lia.
Qed.

(** C26. A one-time token is always put to Convex, whatever cookie comes with it: a
    gateway request with a token first asks Convex to consume it for this namespace
    and workload.  A refusal ends with the unauthenticated page and no further call;
    on acceptance the browser is sent back to the same path without the token, with a
    session cookie for the accepted user that the fast path honours until 30 minutes
    (and the clock skew) later. *)
Theorem token_exchange `{!GatewayCodecLaws} s r name entrypoint subpath tr resp :
  mux_match (hr_Method r) (hr_Path r) = Some (RouteGateway name entrypoint subpath) →
  values_Get (hr_Query r) "token" ≠ "" →
  exec (ServeHTTP s r) tr resp →
  ∃ a tr',
    tr = existT (VerifyGatewayToken (values_Get (hr_Query r) "token") (sv_namespace s) name) a :: tr' ∧
    match a with
    | Err _ => tr' = [] ∧ resp = RenderUnauthenticatedPage name
    | Ok userID => ∃ now, tr' = [existT Now now] ∧
        ((0 ≤ now ≤ 2 ^ 62)%Z → payload_ok (session_payload s name userID now) = true →
         session_started s r name userID now resp)
    end.
Proof.
  unfold ServeHTTP. intros -> Ht He. simpl in He. unfold requireGatewayToken in He.
  rewrite decide_False in He by done. destruct He as (a & tr' & -> & He). simpl in He.
  exists a, tr'. split; [done|]. destruct a as [userID|err]; [|by destruct He].
  destruct He as (now & tr1 & -> & He). simpl in He. exists now.
  destruct (Sign _ _) as [signed|err] eqn:Hs; destruct He as [-> ->]; (split; [done|]); intros Hn Hp.
  - exists signed. split; [done|]. intros now'.
    apply (Sign_Verify_roundtrip (sv_gatewaySecret s) (session_payload s name userID now) signed now');
      auto using session_payload_exp.
  - destruct (payload_roundtrip _ Hp) as (raw & Hm & _). unfold Sign in Hs. by rewrite Hm in Hs.
Qed.

(** ** Deploys *)

(** The answer to a failed write. *)
Definition write_failed (e : event answer) : Prop :=
  match e with
  | existT (KCreateWorkload _) (Err _) | existT (KCreateOrUpdateWorkload _ _) (Err _) => True
  | _ => False
  end.

(** What an accepted request did, for a template and for a raw image. *)
Definition deployed_template (s : Server) (req : deployRequest) (tr : trace) (w : Workload) : Prop :=
  dr_UserID req ≠ "" ∧ is_ok (checked_config (dr_TemplateName req) (dr_Config req)) = true ∧
  ∃ w0, tr = [existT (KCreateWorkload w0) (Ok w)] ∧
    w_Namespace w0 = wc_namespace (sv_creator s) ∧
    om_GenerateName (w_Meta w0) = dr_TemplateName req +:+ "-" ∧
    ws_UserID (w_Spec w0) = dr_UserID req ∧ w_Labels w0 !! WorkloadID = None.

Definition deployed_image (s : Server) (req : deployRequest) (tr : trace) (w : Workload) : Prop :=
  IsDNS1123Label (dr_Name req) = [] ∧
  ∃ w0 mutate, tr = [existT (KCreateOrUpdateWorkload w0 mutate) (Ok w)] ∧
    w_Key w0 = {| nn_Namespace := sv_namespace s; nn_Name := dr_Name req |} ∧
    ∀ w1 w2, mutate w1 = Ok w2 →
      w_Meta w2 = w_Meta w1 ∧ w_Status w2 = w_Status w1 ∧
      ws_TemplateName (w_Spec w2) = ws_TemplateName (w_Spec w1) ∧
      ws_Suspended (w_Spec w2) = ws_Suspended (w_Spec w1) ∧
      (ws_TemplateName (w_Spec w1) = "" → is_ok (render w2) = true).

Lemma reject_deploy_status req resp :
  reject_deploy req = Some resp → resp_status resp = Some StatusBadRequest.
Proof. unfold reject_deploy. repeat case_decide; try case_match; intros [= <-]; done. Qed.

Lemma reject_deploy_none req :
  reject_deploy req = None →
  if decide (dr_TemplateName req ≠ "") then dr_UserID req ≠ ""
  else dr_Image req ≠ "" ∧ IsDNS1123Label (dr_Name req) = [].
Proof.
  unfold reject_deploy. repeat case_decide; try done; try tauto.
  case_match; [|done]. intros _. split; [|done]. intros Hi.
  destruct (decide (dr_TemplateName req = "")); tauto.
Qed.

Lemma deploy_template_spec s req tr resp :
  dr_UserID req ≠ "" → exec (deploy_template s req) tr resp →
  (tr = [] ∧ resp_status resp = Some StatusBadRequest) ∨
  (∃ e, tr = [e] ∧ write_failed e ∧
     resp_status resp ∈ [Some StatusBadRequest; Some StatusInternalServerError]) ∨
  ∃ w, resp = WorkloadBody StatusAccepted (workload_response w) ∧ deployed_template s req tr w.
Proof.
  intros Hu. unfold deploy_template, Create.
  destruct (checked_config _ _) as [raw|err] eqn:Hc; simpl.
  - intros ([w|err] & tr' & -> & He); simpl in He.
    + destruct He as [-> ->]. do 2 right. exists w. split; [done|]. split; [done|].
      rewrite Hc. split; [done|]. eexists. split; [done|]. done.
    + right; left. assert (tr' = []) as -> by (repeat case_match; by destruct He).
      eexists. split; [done|]. split; [done|].
      repeat case_match; destruct He as [_ ->]; set_solver.
  - unfold checked_config in Hc. intros He. left.
    repeat case_match; simplify_eq; simpl in He; by destruct He as [-> ->].
Qed.

Lemma deploy_image_spec s req tr resp :
  dr_Image req ≠ "" → IsDNS1123Label (dr_Name req) = [] → exec (deploy_image s req) tr resp →
  (tr = [] ∧ resp_status resp = Some StatusBadRequest) ∨
  (∃ e, tr = [e] ∧ write_failed e ∧
     resp_status resp ∈ [Some StatusBadRequest; Some StatusInternalServerError]) ∨
  ∃ w, resp = WorkloadBody StatusAccepted (workload_response w) ∧ deployed_image s req tr w.
Proof.
  intros Hi Hn. unfold deploy_image. destruct (marshalConfig _) as [raw|err]; simpl.
  2: { intros [-> ->]. by left. }
  intros ([w|err] & tr' & -> & He); destruct He as [-> ->].
  - do 2 right. exists w. split; [done|]. split; [done|]. eexists _, _. split; [done|]. split; [done|].
    intros w1 w2 [= <-]. repeat (split; [done|]). intros Ht. unfold render. simpl.
    by rewrite decide_True, decide_False.
  - right; left. eexists. split; [done|]. split; [done|]. set_solver.
Qed.

(** C28. A deploy request does one thing or nothing: a request that is malformed,
    names no image and no template, no user, no or an invalid name, or a configuration
    its template refuses, is answered with an error before any call; otherwise there
    is a single write, in the operator's namespace.  A failed write is answered with
    an error, a successful one with 202 and the stored object.  A template deploy
    creates a new object for the user; a raw image deploy keeps metadata, status,
    template and suspension of an existing one, and on an object without a template it
    always renders. *)
Theorem handleDeploy_spec s r tr resp :
  exec (handleDeploy s r) tr resp →
  (tr = [] ∧ resp_status resp = Some StatusBadRequest) ∨
  (∃ e, tr = [e] ∧ write_failed e ∧
     resp_status resp ∈ [Some StatusBadRequest; Some StatusInternalServerError]) ∨
  (∃ req w, decode_request no_deployRequest decode_deployRequest r = Ok req ∧
     resp = WorkloadBody StatusAccepted (workload_response w) ∧
     if decide (dr_TemplateName req ≠ "") then deployed_template s req tr w
     else deployed_image s req tr w).
Proof.
  unfold handleDeploy. destruct (decode_request _ _ _) as [req|] eqn:Hd;
    [|intros [-> ->]; by left].
  destruct (reject_deploy req) as [bad|] eqn:Hr.
  { intros [-> ->]. left. by rewrite (reject_deploy_status _ _ Hr). }
  apply reject_deploy_none in Hr. case_decide as Ht; intros He.
  - destruct (deploy_template_spec _ _ _ _ Hr He) as [?|[?|(w & -> & Hw)]]; [by left|by right; left|].
    do 2 right. exists req, w. do 2 (split; [done|]). by rewrite decide_True.
  - destruct Hr as [Hi Hn].
    destruct (deploy_image_spec _ _ _ _ Hi Hn He) as [?|[?|(w & -> & Hw)]]; [by left|by right; left|].
    do 2 right. exists req, w. do 2 (split; [done|]). by rewrite decide_False by tauto.
Qed.

(** ** Operations on running workloads *)

(** What a command in a pod requires. *)
Definition exec_guard (s : Server) (r : Request) (h : trace) (c : call) : Prop :=
  match c with
  | PodExec ns pod container _ =>
      deploy_authorized r h ∧ ∃ name key req w tmpl fn pods p,
        mux_match (hr_Method r) (hr_Path r) = Some (RouteFunction name key) ∧
        decode_request {| rq_Params := None |} decode_runFunctionRequest r = Ok req ∧
        existT (KGetWorkload {| nn_Namespace := sv_namespace s; nn_Name := name |}) (Ok w) ∈ h ∧
        Get (ws_TemplateName (w_Spec w)) = Some tmpl ∧ GetOperation tmpl key = Some fn ∧
        is_ok (ResolveParams (o_Parameters fn) (default ∅ (rq_Params req))) = true ∧
        existT (KListPods (sv_namespace s) {[ workloadNameLabel := name ]}) (Ok pods) ∈ h ∧
        p ∈ pods ∧ p_Phase p = PodRunning ∧
        ns = sv_namespace s ∧ pod = om_Name (p_Meta p) ∧ container = t_ID tmpl
  | _ => True
  end.

Lemma running_pod_spec pods name :
  running_pod pods = Some name → ∃ p, p ∈ pods ∧ p_Phase p = PodRunning ∧ name = om_Name (p_Meta p).
Proof.
  induction pods as [|p pods IH]; simpl; [done|].
  case_decide; intros; simplify_eq; [exists p; set_solver|]. destruct IH as (p' & ? & ?); set_solver.
Qed.

#[local] Arguments running_pod : simpl never.

Lemma other_routes_guarded s r route :
  match route with RouteFunction _ _ => False | _ => True end →
  safe (exec_guard s r) [] (serve_route s r route).
Proof.
  intros Hr. destruct route; [| | | | |done]; simpl; [done|..];
    unfold requireDeployToken, handleDeploy, handleGet, handleDelete, deploy_template, deploy_image,
      get_workload, Create, Destroy, requireGatewayToken, Verify, proxy_Handler, relay; prog_run; done.
Qed.

(** C27. A command is run in a pod only on behalf of Convex and only where it was
    asked: each command a request leads to is preceded, in that run, by the check of
    the deploy token, by reading the named workload, whose template is in the catalog
    and has the requested function with parameters that resolve, and by a listing in
    which the pod is a running pod of that workload; it runs in the operator's
    namespace, in the container of the template. *)
Theorem commands_confined s r tr resp :
  exec (ServeHTTP s r) tr resp → guarded (exec_guard s r) [] tr.
Proof.
  unfold ServeHTTP. apply safe_guarded. destruct (mux_match _ _) as [route|] eqn:Hm; [|done].
  assert ((∃ n key, route = RouteFunction n key) ∨
    match route with RouteFunction _ _ => False | _ => True end) as [(n & key & ->)|Hr]
    by (destruct route; eauto); [|by apply other_routes_guarded].
  simpl. unfold requireDeployToken.
  destruct (strings_CutPrefix _ _) as [t|] eqn:Hcut; [|done]. apply CutPrefix_spec in Hcut.
  case_decide as Ht; [done|]. simpl. split; [done|]. intros t'. case_decide as Ht'; [done|].
  assert (∀ ext, deploy_authorized r ([existT CurrentToken t'] ++ ext)) as Hauth.
  { intros ext. exists t'. destruct (decide (t = t')) as [->|]; tauto. }
  unfold handleRunFunction. destruct (decode_request _ _ _) as [req|] eqn:Hd; [|done].
  simpl. split; [done|]. intros [w|err]; [|prog_run; done].
  destruct (Get _) as [tmpl|] eqn:Hg; [|done]. destruct (GetOperation _ _) as [fn|] eqn:Hf; [|done].
  unfold run_function. destruct (ResolveParams _ _) as [ps|] eqn:Hp; [|done].
  simpl. split; [done|]. intros [pods|err]; [|done].
  destruct (running_pod pods) as [pod|] eqn:Hpod; [|done]. simpl. apply safe_bind. split.
  - eapply safe_from; [|eapply (operations_calls tmpl); eauto using Get_templates].
    intros ext [] Hc; try done. destruct Hc as (-> & -> & ->). split; [apply Hauth|].
    apply running_pod_spec in Hpod as (p & Hin & Hph & ->).
    exists n, key, req, w, tmpl, fn, pods, p. rewrite Hp. repeat split; auto; set_solver.
  - apply wp_trivial. intros ? []; done.
Qed.

End Facts.
