(* ===== verification/Cluster.v ===== *)
(** * Cluster: the operator's tasks on one cluster

    The manager runs the reconcile workers, the heartbeat loop, the metrics reporter and
    the requests of the API server concurrently, and other clients of the API server act
    in between.  This file puts any number of these tasks on one cluster and lets them
    take turns call by call.

    The Kubernetes API server is a parameter: [KubeApi] is its state as far as Workloads
    go, and [KubeApiLaws] the documented behaviour of its writes (optimistic concurrency,
    finalizers, deletion), of resource versions and of reads, which come from a cache and
    may return any version the cluster ever had.  Other clients may do what they want;
    what they do is recorded, so that it can be told from what the operator does. *)

From S2P Require Import Prelude.
From S2P Require Import Effects.
From S2P Require Import Go.
From S2P Require Import Json.
From S2P Require Import Api.
From S2P Require Import Manager.
From S2P Require Import Calls.
From S2P Require Import Catalog.
From S2P Require Import CatalogTemplates.
From S2P Require Import Controller.
From S2P Require Import ControllerFacts.
From S2P Require Import ControllerObjects.
From S2P Require Import Capacity.
From S2P Require Import Provisioning.
From S2P Require Import TokenStore.
From S2P Require Import Metrics.
From S2P Require Import ConvexClient.
From S2P Require Import Runnable.
From S2P Require Import RunnableCalls.
From S2P Require Import Gateway.
From S2P Require Import Proxy.
From S2P Require Import PodExec.
From S2P Require Import Server.
From S2P Require Import ServerFacts.

Local Open Scope prog_scope.

(** ** The API server *)

Definition finalized (w : Workload) : Prop := workloadFinalizer ∈ om_Finalizers (w_Meta w).

(** The same version of the same object. *)
Definition same_version (w w' : Workload) : Prop :=
  w_Key w = w_Key w' ∧ om_UID (w_Meta w) = om_UID (w_Meta w') ∧
  om_ResourceVersion (w_Meta w) = om_ResourceVersion (w_Meta w').

(** The object [old] after a write that carries [w]: replaced, or gone when it was
    being deleted and [w] has no finalizer left. *)
Definition replaced (old w : Workload) (o' : option Workload) : Prop :=
  (∃ new, o' = Some new ∧ om_UID (w_Meta new) = om_UID (w_Meta old) ∧
     om_Finalizers (w_Meta new) = om_Finalizers (w_Meta w)) ∨
  (o' = None ∧ om_DeletionTimestamp (w_Meta old) ≠ None ∧ om_Finalizers (w_Meta w) = []).

(** What a call may make of the object stored under [k]. *)
Definition write_effect (c : call) (k : NamespacedName) (o o' : option Workload) : Prop :=
  match c with
  | KUpdateWorkload w => ∃ old, o = Some old ∧ k = w_Key w ∧ same_version w old ∧ replaced old w o'
  | KStatusUpdateWorkload w => ∃ old, o = Some old ∧ k = w_Key w ∧ same_version w old ∧ replaced old old o'
  | KDeleteWorkload key =>
      k = key ∧ ∃ old, o = Some old ∧
        (om_Finalizers (w_Meta old) = [] ∧ o' = None ∨ replaced old old o')
  | KCreateWorkload _ => o = None
  | KCreateOrUpdateWorkload _ mutate =>
      o = None ∨ ∃ old w, o = Some old ∧ mutate old = Ok w ∧ replaced old w o'
  | _ => False
  end.

Class KubeApi (S : Type) := {
  api_stored : S → NamespacedName → option Workload;
  (* the versions the cluster has stored so far *)
  api_seen : S → Workload → Prop;
  (* other clients *)
  api_moves : S → S → Prop;
  api_step : ∀ c, S → answer c → S → Prop;
}.

Definition api_advance {S : Type} `{!KubeApi S} (s s' : S) : Prop := api_moves s s' ∨ ∃ c r, api_step c s r s'.

Class KubeApiLaws (S : Type) `{!KubeApi S} : Prop := {
  stored_seen (s : S) k w : api_stored s k = Some w → api_seen s w ∧ w_Key w = k;
  (* a resource version identifies the content *)
  seen_version (s : S) w w' : api_seen s w → api_seen s w' → same_version w w' → w = w';
  (* nothing is forgotten, and a write makes a version that is new *)
  advance_seen (s s' : S) w : api_advance s s' → api_seen s w → api_seen s' w;
  advance_fresh (s s' : S) k w :
    api_advance s s' → api_stored s' k = Some w → api_stored s k = Some w ∨ ¬ api_seen s w;
  (* a read returns a version the cluster has had *)
  get_seen (s s' : S) key w : api_step (KGetWorkload key) s (Ok w) s' → api_seen s w;
  (* a call that failed may have taken effect all the same *)
  step_effect (s s' : S) c r k :
    api_step c s r s' →
    api_stored s' k = api_stored s k ∨ write_effect c k (api_stored s k) (api_stored s' k);
}.

(** ** Worlds: the cluster, and all that was done to it so far *)

(** Who made a transition: a task of the operator, with this call, or another client. *)
Inductive actor := Operator (e : event answer) | Others.

Section World.
Context {S : Type} `{!KubeApi S}.

Definition transition : Type := S * actor * S.

Record world := { wo_state : S; wo_log : list transition }.

(** [l] leads from [s] to [s']. *)
Inductive chain : S → list transition → S → Prop :=
| chain_nil s : chain s [] s
| chain_others s s1 s2 l : api_moves s s1 → chain s1 l s2 → chain s ((s, Others, s1) :: l) s2
| chain_operator s s1 s2 l c r :
    api_step c s r s1 → chain s1 l s2 → chain s ((s, Operator (existT c r), s1) :: l) s2.

(** A call of the operator, after any number of moves of other clients. *)
Definition world_srv (c : call) (w : world) (r : answer c) (w' : world) : Prop :=
  ∃ s ms, chain (wo_state w) ms s ∧ Forall (λ t, t.1.2 = Others) ms ∧ api_step c s r (wo_state w') ∧
    wo_log w' = wo_log w ++ ms ++ [(s, Operator (existT c r), wo_state w')].

(** The object with this UID is stored and carries the finalizer. *)
Definition protected (s : S) (k : NamespacedName) (uid : string) : Prop :=
  ∃ w, api_stored s k = Some w ∧ om_UID (w_Meta w) = uid ∧ finalized w.

#[global] Instance protected_dec s k uid : Decision (protected s k uid).
Proof.
  destruct (api_stored s k) as [w|] eqn:Hs; [|right; intros (w & ? & _); congruence].
  destruct (decide (om_UID (w_Meta w) = uid ∧ finalized w)) as [?|Hn]; [left; by exists w|right].
  intros (w' & ? & ?). simplify_eq. naive_solver.
Defined.

(** Convex confirmed the removal while the object was stored and under deletion. *)
Definition released (log : list transition) (k : NamespacedName) (uid : string) : Prop :=
  ∃ s e s' w, (s, Operator e, s') ∈ log ∧ removal_confirmed k e ∧
    api_stored s k = Some w ∧ om_UID (w_Meta w) = uid ∧ om_DeletionTimestamp (w_Meta w) ≠ None.

(** Another client took the finalizer off, or removed the object. *)
Definition taken_off (log : list transition) (k : NamespacedName) (uid : string) : Prop :=
  ∃ s s', (s, Others, s') ∈ log ∧ protected s k uid ∧ ¬ protected s' k uid.

End World.

Arguments world S : clear implicits.
Arguments transition S : clear implicits.

(** ** What the operator's writes have in common *)

(** Every update carries an object that was read before, at the version read, and drops
    the finalizer only of an object under deletion whose removal Convex has confirmed
    since it was read; the closure of a create-or-update keeps the finalizers. *)
Definition update_guard (h : trace) (c : call) : Prop :=
  match c with
  | KUpdateWorkload w =>
      ∃ h1 key w0 h2, h = h1 ++ existT (KGetWorkload key) (Ok w0) :: h2 ∧ same_version w w0 ∧
        (finalized w0 → finalized w ∨
         om_DeletionTimestamp (w_Meta w0) ≠ None ∧ ∃ e, e ∈ h2 ∧ removal_confirmed (w_Key w0) e)
  | KCreateOrUpdateWorkload _ mutate =>
      ∀ w w', mutate w = Ok w' → om_Finalizers (w_Meta w') = om_Finalizers (w_Meta w)
  | _ => True
  end.

Section Invariant.
Context {S : Type} `{!KubeApi S, !KubeApiLaws S}.
Implicit Types (s : S) (wo : world S).

(** *** The cluster moves on *)

Definition later : relation S := rtc api_advance.

#[local] Instance later_preorder : PreOrder later.
Proof. split; unfold later; apply _. Qed.

Lemma later_seen s s' w : later s s' → api_seen s w → api_seen s' w.
Proof. induction 1; eauto using advance_seen. Qed.

(** A version that was there before and is there now was there all along. *)
Lemma later_stored s s' k w :
  later s s' → api_seen s w → api_stored s' k = Some w → api_stored s k = Some w.
Proof.
  induction 1 as [|s s1 s' Hstep _ IH]; [done|]. intros Hseen Hst.
  destruct (advance_fresh s s1 k w Hstep) as [|Hn]; [|done|done]. eauto using advance_seen.
Qed.

Lemma chain_later s l s' : chain s l s' → later s s'.
Proof.
  induction 1; [reflexivity|..]; (etrans; [apply rtc_once|eassumption]); [by left|right; eauto].
Qed.

Lemma chain_app s1 l1 s2 l2 s3 : chain s1 l1 s2 → chain s2 l2 s3 → chain s1 (l1 ++ l2) s3.
Proof. induction 1; simpl; [done|econstructor; eauto..]. Qed.

Lemma chain_suffix s l1 a b l2 s' x : chain s (l1 ++ (a, x, b) :: l2) s' → chain a ((a, x, b) :: l2) s'.
Proof.
  revert s. induction l1 as [|t l1 IH]; intros s; simpl; [by inversion 1; subst; econstructor|].
  inversion 1; subst; by eapply IH.
Qed.

(** Where the log has been, the cluster comes from. *)
Lemma chain_elem s l s' a x b : chain s l s' → (a, x, b) ∈ l → later a s'.
Proof. intros Hc (l1 & l2 & ->)%list_elem_of_split. by eapply chain_later, chain_suffix. Qed.

Lemma srv_chain c wo r wo' :
  world_srv c wo r wo' → ∃ l, wo_log wo' = wo_log wo ++ l ∧ chain (wo_state wo) l (wo_state wo').
Proof.
  intros (s & ms & Hm & _ & Hs & ->). eexists. split; [done|]. eapply chain_app; [done|].
  econstructor; [done|constructor].
Qed.

Lemma srv_later c wo r wo' : world_srv c wo r wo' → later (wo_state wo) (wo_state wo').
Proof. intros (l & _ & Hc)%srv_chain. by eapply chain_later. Qed.

(** *** What a task's own history says about the cluster *)

Definition history_true (h : trace) (wo : world S) : Prop :=
  ∀ h1 key w0 h2, h = h1 ++ existT (KGetWorkload key) (Ok w0) :: h2 →
  api_seen (wo_state wo) w0 ∧
  ∀ e, e ∈ h2 → removal_confirmed (w_Key w0) e →
    ∃ s s', (s, Operator e, s') ∈ wo_log wo ∧ api_seen s w0.

Lemma history_srv h c wo r wo' : world_srv c wo r wo' → history_true h wo → history_true h wo'.
Proof.
  intros Hsrv Hh h1 key w0 h2 Heq. destruct (Hh _ _ _ _ Heq) as [Hseen Hconf]. split.
  - by eapply later_seen, Hseen; eapply srv_later.
  - intros e Hin He. destruct (Hconf e Hin He) as (s & s' & Hs & ?).
    destruct (srv_chain _ _ _ _ Hsrv) as (l & -> & _).
    exists s, s'. split; [|done]. apply elem_of_app. by left.
Qed.

(** Whether the last event of a history is this read, or an older one. *)
Lemma read_snoc (h h1 : trace) e e' h2 :
  h ++ [e] = h1 ++ e' :: h2 → (h = h1 ∧ e = e' ∧ h2 = []) ∨ ∃ h2', h = h1 ++ e' :: h2' ∧ h2 = h2' ++ [e].
Proof.
  destruct h2 as [|x h2 _] using rev_ind; intros Heq.
  - apply app_inj_tail in Heq as [-> ->]. by left.
  - right. rewrite app_comm_cons, app_assoc in Heq. apply app_inj_tail in Heq as [-> ->]. eauto.
Qed.

Definition got_workload (e : event answer) : option Workload :=
  match e with existT (KGetWorkload _) (Ok w) => Some w | _ => None end.

Lemma got_seen s s' c r w : api_step c s r s' → got_workload (existT c r) = Some w → api_seen s w.
Proof.
  destruct c; simpl; try done. destruct r; simpl; [|done]. intros Hs [= ->]. by eapply get_seen.
Qed.

Lemma history_own h c wo r wo' :
  world_srv c wo r wo' → history_true h wo → history_true (h ++ [existT c r]) wo'.
Proof.
  intros Hsrv Hh h1 key w0 h2 [(-> & He & ->)|(h2' & -> & ->)]%read_snoc.
  - split; [|by intros e ?%elem_of_nil]. destruct Hsrv as (s & ms & _ & _ & Hstep & _).
    eapply advance_seen; [right; eauto|]. eapply got_seen; [done|]. by rewrite He.
  - destruct (history_srv _ _ _ _ _ Hsrv Hh _ _ _ _ eq_refl) as [Hseen Hconf]. split; [done|].
    intros e [Hin| ->%list_elem_of_singleton]%elem_of_app; [by apply Hconf|]. intros _.
    destruct (Hh _ _ _ _ eq_refl) as [Hs0 _]. destruct Hsrv as (s & ms & Hm & _ & _ & ->).
    exists s, (wo_state wo'). split; [rewrite !elem_of_app; right; right; left|].
    eauto using later_seen, chain_later.
Qed.

(** *** One call of a guarded task *)

Lemma replaced_protected s' k old w uid :
  replaced old w (api_stored s' k) → om_UID (w_Meta old) = uid → finalized w → protected s' k uid.
Proof.
  unfold finalized. intros [(new & Hn & Hu & Hf)|(_ & _ & Hf)] <- Hw; [|by rewrite Hf, elem_of_nil in Hw].
  exists new. split_and!; [done|done|]. unfold finalized. by rewrite Hf.
Qed.

Lemma guarded_step h c s r s' wo k uid :
  update_guard h c → history_true h wo → (∀ s0 x s1, (s0, x, s1) ∈ wo_log wo → later s0 s) →
  later (wo_state wo) s → api_step c s r s' → protected s k uid →
  protected s' k uid ∨ released (wo_log wo) k uid.
Proof.
  intros Hg Hh Hlog Hl Hstep (w & Hw & Hu & Hf).
  destruct (step_effect s s' c r k Hstep) as [Heq|Heff]; [left; exists w; by rewrite Heq|].
  rewrite Hw in Heff. destruct c; simpl in Heff; try done.
  - (* update *)
    destruct Heff as (old & [= <-] & -> & Hv & Hr). destruct Hg as (h1 & key' & read & h2 & -> & Hv0 & Hkeep).
    destruct (Hh _ _ _ _ eq_refl) as [Hseen Hconf]. destruct (stored_seen _ _ _ Hw) as [Hws Hkey].
    assert (w = read) as ->.
    { apply (seen_version s); [done|by eapply later_seen|]. destruct Hv as (? & ? & ?), Hv0 as (? & ? & ?). split_and!; congruence. }
    destruct (Hkeep Hf) as [Hk|(Hd & e & Hin & He)]; [left; by eapply replaced_protected|right].
    destruct (Hconf e Hin He) as (s0 & s1 & Hs0 & Hseen0). rewrite <- Hkey in *.
    exists s0, e, s1, read. split_and!; try done. eapply later_stored; eauto.
  - destruct Heff as (old & [= <-] & _ & _ & Hr). left. by eapply replaced_protected.
  - destruct Heff as (_ & old & [= <-] & [[Hn _]|Hr]); [|left; by eapply replaced_protected].
    unfold finalized in Hf. by rewrite Hn, elem_of_nil in Hf.
  - destruct Heff as [|(old & w' & [= <-] & Hm & Hr)]; [done|]. left. eapply replaced_protected; [done|done|].
    unfold finalized. by rewrite (Hg _ _ Hm).
Qed.

(** *** The pool *)

(** The operator itself takes the finalizer off only after a confirmation. *)
Definition own_kept (log : list (transition S)) : Prop :=
  ∀ l1 s e s' l2 k uid, log = l1 ++ (s, Operator e, s') :: l2 →
  protected s k uid → protected s' k uid ∨ released l1 k uid.

Definition pool_inv {X} (ts : list (program X)) (wo : world S) : Prop :=
  Forall (λ p, ∃ h, history_true h wo ∧ safe update_guard h p) ts ∧
  (∃ s0, chain s0 (wo_log wo) (wo_state wo)) ∧ own_kept (wo_log wo).

Lemma released_app log log' k uid : released log k uid → released (log ++ log') k uid.
Proof. intros (s & e & s' & w & ? & ?). exists s, e, s', w. rewrite elem_of_app. naive_solver. Qed.

(** Moves of others say nothing about the operator. *)
Lemma own_kept_others log ms :
  Forall (λ t, t.1.2 = Others) ms → own_kept log → own_kept (log ++ ms).
Proof.
  intros Hms Hlog l1 s e s' l2 k uid Heq. apply app_eq_app in Heq as (l & [[-> Ht]|[-> Ht]]).
  - destruct l as [|t l]; simplify_eq/=; [|by eapply Hlog].
    apply Forall_cons in Hms as [[=] _].
  - rewrite Ht, Forall_app, Forall_cons in Hms. by destruct Hms as (_ & [=] & _).
Qed.

Lemma own_kept_snoc log s e s' :
  own_kept log → (∀ k uid, protected s k uid → protected s' k uid ∨ released log k uid) →
  own_kept (log ++ [(s, Operator e, s')]).
Proof.
  intros Hlog Hnew l1 s1 e1 s1' l2 k uid Heq. destruct l2 as [|t l2 _] using rev_ind.
  - apply app_inj_tail in Heq as [-> [= -> -> ->]]. apply Hnew.
  - rewrite app_comm_cons, app_assoc in Heq. apply app_inj_tail in Heq as [-> _]. by eapply Hlog.
Qed.

Lemma pool_inv_step {X} (ts ts' : list (program X)) wo wo' :
  pool_step world_srv (ts, wo) (ts', wo') → pool_inv ts wo → pool_inv ts' wo'.
Proof.
  inversion 1 as [ts1 c k ts2 wo0 r wo1 Hsrv]; simplify_eq. intros (Hts & [s0 Hchain] & Hown).
  apply Forall_app in Hts as [Hts1 [(h & Hh & Hg & Hk) Hts2]%Forall_cons].
  assert (∀ l : list (program X), Forall (λ p, ∃ h, history_true h wo ∧ safe update_guard h p) l →
    Forall (λ p, ∃ h, history_true h wo' ∧ safe update_guard h p) l) as Hother.
  { intros l Hl. eapply Forall_impl; [exact Hl|]. intros p (h' & ? & ?). eauto using history_srv. }
  split_and!.
  - apply Forall_app; split; [auto|]. apply Forall_cons; split; [|auto].
    exists (h ++ [existT c r]). split; [by eapply history_own|apply Hk].
  - destruct (srv_chain _ _ _ _ Hsrv) as (l & -> & Hc). exists s0. by eapply chain_app.
  - destruct Hsrv as (s1 & ms & Hm & Hms & Hstep & ->). rewrite app_assoc.
    apply own_kept_snoc; [by apply own_kept_others|]. intros k0 uid Hp.
    destruct (guarded_step h c s1 r (wo_state wo') wo k0 uid) as [|Hr]; auto.
    + intros a x b Hin. etrans; [by eapply chain_elem|by eapply chain_later].
    + by eapply chain_later.
    + right. by apply released_app.
Qed.

(** What an object may have come to by the end of a chain. *)
Lemma chain_protected s l s' k uid (R : Prop) :
  chain s l s' →
  (∀ a e b, (a, Operator e, b) ∈ l → protected a k uid → protected b k uid ∨ R) →
  protected s k uid → protected s' k uid ∨ R ∨ taken_off l k uid.
Proof.
  induction 1 as [s|s s1 s2 l Hm _ IH|s s1 s2 l c r Hs _ IH]; intros Hl Hp; [by left|..].
  - destruct (decide (protected s1 k uid)) as [Hp1|Hn].
    + destruct IH as [?|[?|(a & b & ? & ?)]]; [by intros; eapply Hl; [right|]|done|by left|by right; left|].
      right; right. exists a, b. by split; [right|].
    + right; right. exists s, s1. by split; [left|].
  - destruct (Hl s (existT c r) s1) as [Hp1|?]; [left|done| |by right; left].
    destruct IH as [?|[?|(a & b & ? & ?)]]; [by intros; eapply Hl; [right|]|done|by left|by right; left|].
    right; right. exists a, b. by split; [right|].
Qed.

Lemma pool_inv_steps {X} (ts ts' : list (program X)) wo wo' :
  rtc (pool_step world_srv) (ts, wo) (ts', wo') → pool_inv ts wo → pool_inv ts' wo'.
Proof.
  intros Hsteps. remember (ts, wo) as p eqn:Hp. remember (ts', wo') as p' eqn:Hp'.
  revert ts wo Hp. induction Hsteps as [|p [ts1 wo1] p' Hstep _ IH]; intros ts wo ->; [by simplify_eq|].
  intros Hi. eapply IH; [done|done|]. by eapply pool_inv_step.
Qed.

End Invariant.

(** ** The tasks of the operator *)

Section Tasks.
Context `{!GoStd, !GoNet, !KubeLib, !KubeLibLaws, !GatewayCodec, !PageTemplate}.

Inductive task :=
| TReconcile (req : NamespacedName)
| TServe (s : Server) (r : Request)
| THeartbeat (r : Runnable) (n : nat)
| TReport (orders : nat → list (string * gmap podKey string) → list (string * gmap podKey string))
    (r : Reporter) (n : nat).

Definition task_program (t : task) : program unit :=
  match t with
  | TReconcile req => Reconcile {| wr_ConvexClient := true |} req ;; Ret tt
  | TServe s r => ServeHTTP s r ;; Ret tt
  | THeartbeat r n => Start r n ;; Ret tt
  | TReport orders r n => Reporter_Start orders r n ;; Ret tt
  end.

(** Calls that need no justification. *)
Definition plain (c : call) : Prop :=
  match c with KUpdateWorkload _ | KCreateOrUpdateWorkload _ _ => False | _ => True end.

Lemma plain_guarded {X} h (p : program X) : safe (λ _, plain) h p → safe update_guard h p.
Proof. apply safe_mono. by intros ? []. Qed.

(** An update right after the read, or after one more call. *)
Lemma update_read h1 key w0 h2 w :
  same_version w w0 →
  (finalized w0 → finalized w ∨
     om_DeletionTimestamp (w_Meta w0) ≠ None ∧ ∃ e, e ∈ h2 ∧ removal_confirmed (w_Key w0) e) →
  update_guard (h1 ++ existT (KGetWorkload key) (Ok w0) :: h2) (KUpdateWorkload w).
Proof. intros. by exists h1, key, w0, h2. Qed.

Lemma finalizers_version w m fs :
  m = meta_with_finalizers (w_Meta w) fs → same_version (w_with_meta w m) w.
Proof. by intros ->. Qed.

Lemma Reconcile_updates req h : safe update_guard h (Reconcile {| wr_ConvexClient := true |} req).
Proof.
  assert (∀ h w, safe update_guard h (reconcileLive {| wr_ConvexClient := true |} req w)) as Hlive.
  { intros h' w. apply plain_guarded. eapply safe_mono; [|apply reconcileLive_calls].
    intros ? []; unfold live_call; simpl; tauto. }
  unfold Reconcile, reconcileDelete, ensureFinalizer, notifyRemoved. prog_run; auto; try done.
  - destruct (remove_finalizer_meta (w_Meta a) workloadFinalizer) as [fs Hfs].
    rewrite <- app_assoc. eapply update_read; [by eapply finalizers_version|].
    intros _. right. split; [congruence|]. eexists. split; [left|done].
  - destruct (add_finalizer_meta (w_Meta a) workloadFinalizer) as [fs Hfs].
    eapply update_read; [by eapply finalizers_version|]. intros _. left. unfold finalized. simpl.
    pose proof (contains_add (w_Meta a) workloadFinalizer) as Hc.
    by rewrite contains_finalizer, bool_decide_eq_true in Hc.
Qed.

Lemma Redeploy_updates wc name config h : safe update_guard h (Redeploy wc name config).
Proof.
  unfold Redeploy. prog_run; try done. rewrite <- app_assoc. by eapply update_read; auto.
Qed.

Lemma SetSuspended_updates wc name b h : safe update_guard h (SetSuspended wc name b).
Proof. unfold SetSuspended. prog_run; try done. by eapply update_read; auto. Qed.

(** The programs that write no existing Workload. *)
Lemma claims_plain r wc tok items snap h : safe (λ _, plain) h (claim_items r wc tok snap items).
Proof.
  revert snap h. induction items; intros; simpl; unfold claim_item, create_claimed, Create; prog_calls.
Qed.

#[local] Hint Resolve claims_plain : effects.

Lemma operation_updates r tok op h : safe update_guard h (run_operation r tok op).
Proof.
  unfold run_operation, report_failure, Destroy.
  prog_calls; auto using Redeploy_updates, SetSuspended_updates, plain_guarded with effects.
Qed.

#[local] Hint Resolve operation_updates plain_guarded : effects.

Lemma operations_updates r tok items h : safe update_guard h (run_operations r tok items).
Proof. revert h. induction items; intros; simpl; prog_calls. Qed.

#[local] Hint Resolve operations_updates : effects.

Lemma heartbeat_updates r h : safe update_guard h (heartbeatOnce r).
Proof.
  unfold heartbeatOnce, processClaimable, processPendingOperations.
  prog_calls.
Qed.

#[local] Hint Resolve heartbeat_updates : effects.

Lemma Start_updates r n h : safe update_guard h (Start r n).
Proof.
  assert (∀ r h, safe update_guard h (ticks r n)) as Hticks.
  { induction n; intros; simpl; prog_calls. }
  unfold Start. prog_calls.
Qed.

Lemma collect_plain now nodes samples h : safe (λ _, plain) h (collect_nodes now nodes samples).
Proof. revert samples h. induction nodes as [|[]]; intros; simpl; unfold fetchNodeSummary; prog_calls. Qed.

#[local] Hint Resolve collect_plain : effects.

Lemma Reporter_updates orders r n h : safe update_guard h (Reporter_Start orders r n).
Proof.
  assert (∀ h, safe (λ _, plain) h (report_ticks orders r n)) as Hticks.
  { induction n; intros; simpl; [done|]. unfold reportOnce, Collect. prog_calls. }
  unfold Reporter_Start. prog_calls.
Qed.

Lemma ServeHTTP_updates s r h : safe update_guard h (ServeHTTP s r).
Proof.
  unfold ServeHTTP. destruct (mux_match _ _) as [route|]; [|done].
  destruct route; simpl; [done|..];
    unfold requireDeployToken, requireGatewayToken, handleDeploy, handleGet, handleDelete, handleRunFunction,
      deploy_template, deploy_image, get_workload, Create, Destroy, run_function, FindPod, proxy_Handler, relay,
      Verify; prog_calls.
  - by intros w w' [= <-].
  - eapply safe_mono; [|eapply operations_calls; [eapply Get_templates|]; eauto]. by intros ? [].
Qed.

Lemma task_updates t h : safe update_guard h (task_program t).
Proof.
  destruct t; cbn [task_program]; (apply safe_bind; split; [|by apply wp_trivial]);
    auto using Reconcile_updates, ServeHTTP_updates, Start_updates, Reporter_updates.
Qed.

(** C1. The finalizer protects Workloads under every interleaving: whatever tasks an
    operator wired to Convex runs at once (reconciliations, requests to its API,
    heartbeat loops with the operations they claim, metrics reports), however their calls
    interleave with each other and with other clients, which may do anything, and however
    stale the versions are that they read.  A call of the operator itself never takes the
    finalizer off an object, nor removes an object that carries it, unless Convex had
    confirmed the removal before, at a moment when this very object was stored and under
    deletion.  So an object that carried the finalizer at any point is still in the
    cluster and carries it, or Convex confirmed its removal, or it was another client
    that since then took the finalizer off. *)
Theorem finalizer_survives_interleaving {S : Type} `{!KubeApi S, !KubeApiLaws S} (ts : list task) (s0 : S)
    ts' wo l1 s a s' l2 k uid :
  rtc (pool_step world_srv) (task_program <$> ts, {| wo_state := s0; wo_log := [] |}) (ts', wo) →
  wo_log wo = l1 ++ (s, a, s') :: l2 → protected s k uid →
  (a ≠ Others → protected s' k uid ∨ released l1 k uid) ∧
  (protected (wo_state wo) k uid ∨ released (wo_log wo) k uid ∨ taken_off ((s, a, s') :: l2) k uid).
Proof.
  intros Hsteps Hlog Hp. eapply pool_inv_steps in Hsteps as (_ & [s1 Hchain] & Hown).
  - split.
    { intros Ha. destruct a as [e|]; [|done]. by eapply Hown. }
    rewrite Hlog in Hchain |- *. eapply chain_protected; [|..|exact Hp].
    + by eapply chain_suffix.
    + intros x e y (m1 & m2 & Heq)%list_elem_of_split Hx. rewrite Heq in Hlog.
      rewrite app_assoc in Hlog. destruct (Hown _ _ _ _ _ k uid Hlog Hx) as [|Hr]; [by left|right].
      rewrite Heq, app_assoc. by apply released_app.
  - split_and!; [|by exists s0; constructor|].
    + apply Forall_fmap, Forall_true. intros t. exists []. split; [|apply task_updates].
      intros h1 key w0 h2 Heq. by destruct h1.
    + intros m1 ? ? ? ? ? ? Heq. by destruct m1.
Qed.

End Tasks.
