(* ===== verification/Operator.v ===== *)
(** * Operator: the reconciler linked with the Convex client

    The reconciler talks to Convex through the interface [WorkloadNotifier]; the
    operator wires in [convexclient.Runnable], which implements it by HTTP posts
    with the current heartbeat token.  [link] puts the two together, and the
    guarantees of the reconciler become guarantees about what Convex answered on
    the wire. *)

From S2P Require Import Prelude.
From S2P Require Import Effects.
From S2P Require Import Go.
From S2P Require Import Json.
From S2P Require Import Api.
From S2P Require Import Calls.
From S2P Require Import Catalog.
From S2P Require Import CatalogTemplates.
From S2P Require Import Controller.
From S2P Require Import ControllerFacts.
From S2P Require Import ControllerObjects.
From S2P Require Import Capacity.
From S2P Require Import Provisioning.
From S2P Require Import TokenStore.
From S2P Require Import Metrics.
From S2P Require Import ConvexClient.
From S2P Require Import Runnable.
From S2P Require Import RunnableFacts.

(** [UpsertWorkload], [RemoveWorkload], [ReportLifecycle], [ReportMetrics] and
    [VerifyGatewayToken] of [Runnable]: the client's method with the heartbeat token
    in memory, and [CurrentDeployToken].  Every other call goes to the cluster as it is. *)
Definition runnable_impl `{!GoStd, !GoNet} (r : Runnable) (c : call) : program (answer c) :=
  let token := HeartbeatToken (rn_tokens r) in
  match c with
  | UpsertWorkload info => client_UpsertWorkload (rn_client r) token info
  | RemoveWorkload name ns => client_RemoveWorkload (rn_client r) token name ns
  | ReportLifecycle name id phase reason retryable =>
      client_ReportLifecycle (rn_client r) token name id phase reason retryable
  | VerifyGatewayToken t ns name => client_VerifyGatewayToken (rn_client r) token t ns name
  | ReportMetrics samples => client_ReportMetrics (rn_client r) token samples
  | CurrentToken => Ret (CurrentDeployToken r)
  | c => perform c
  end.

Definition remove_path : string := "/operators/workloads/remove".

(** Convex answered 200 to this post. *)
Definition accepted (r : Runnable) (path : string) (body : json) (e : event answer) : Prop :=
  match e with
  | existT (HttpDo rq) (Ok resp) =>
      rq = authorized_post (rn_client r) path (HeartbeatToken (rn_tokens r)) body ∧
      rs_Status resp = StatusOK
  | _ => False
  end.

Definition remove_body (key : NamespacedName) : json :=
  JObject [("name", JString (nn_Name key)); ("namespace", JString (nn_Namespace key))].

(** What the linked operator may do to a Workload, given what Convex accepted. *)
Definition operator_guard `{!KubeLib} (r : Runnable) (h : trace) (c : call) : Prop :=
  match c with
  | KUpdateWorkload w =>
      ContainsFinalizer (w_Meta w) workloadFinalizer = false →
      ∃ e, e ∈ h ∧ accepted r remove_path (remove_body (w_Key w)) e
  | KDeleteWorkload key =>
      ∃ e id reason, e ∈ h ∧
        accepted r lifecycle_path (reportLifecycleRequest (nn_Name key) id lifecyclePhaseFailed reason true) e
  | _ => True
  end.

(** What an acknowledged notification stands for on the wire. *)
Definition realised (r : Runnable) (h : trace) (e : event answer) : Prop :=
  match e with
  | existT (RemoveWorkload name ns) None =>
      ∃ e', e' ∈ h ∧ accepted r remove_path (remove_body {| nn_Namespace := ns; nn_Name := name |}) e'
  | existT (ReportLifecycle name id phase reason retryable) None =>
      ∃ e', e' ∈ h ∧ accepted r lifecycle_path (reportLifecycleRequest name id phase reason retryable) e'
  | _ => True
  end.

Definition wire_sim (r : Runnable) (h h' : trace) : Prop := ∀ e, e ∈ h → realised r h' e.

Section Linked.
Context `{!GoStd, !GoNet, !KubeLib, !KubeLibLaws}.

Lemma realised_app r h ext e : realised r h e → realised r (h ++ ext) e.
Proof.
  destruct e as [[] []]; simpl; auto; setoid_rewrite elem_of_app; naive_solver.
Qed.

Lemma wire_sim_snoc r h h' ext e :
  wire_sim r h h' → realised r (h' ++ ext) e → wire_sim r (h ++ [e]) (h' ++ ext).
Proof.
  intros Hs He x [Hx| ->%list_elem_of_singleton]%elem_of_app; [|done]. by apply realised_app, Hs.
Qed.

(** A post that came back is in the history, with what it was answered. *)
Lemma post_wire r path what body h :
  wp h (post (rn_client r) path what [content_type; bearer (HeartbeatToken (rn_tokens r))] body)
    (λ h' res, ∀ resp, res = Ok resp → rs_Status resp = StatusOK →
       ∃ e, e ∈ h' ∧ accepted r path body e).
Proof.
  unfold post, json_Marshal. prog_run; simpl; intros resp Hr Hs; simplify_eq.
  eexists. split; [apply elem_of_app; right; left|]. simpl. unfold authorized_post.
  destruct (json_finite body); simplify_eq. done.
Qed.

Definition is_http (c : call) : Prop := match c with HttpDo _ => True | _ => False end.

Lemma post_calls c path what headers body h : safe (λ _, is_http) h (post c path what headers body).
Proof. unfold post. prog_run; done. Qed.

Lemma post_ok_wire r path what body h :
  wp h (post_ok (rn_client r) path what (HeartbeatToken (rn_tokens r)) body) (λ h' res,
    res = None → ∃ e, e ∈ h' ∧ accepted r path body e).
Proof.
  unfold post_ok. rewrite wp_bind. eapply wp_mono; [|apply post_wire]. intros h' res Hp.
  prog_run; try done. intros _. eapply Hp; [done|]. apply negb_false_iff in Heqb. lia.
Qed.

Lemma lifecycle_wire r name id phase reason retryable h :
  wp h (client_ReportLifecycle (rn_client r) (HeartbeatToken (rn_tokens r)) name id phase reason retryable)
    (λ h' res, res = None →
       ∃ e, e ∈ h' ∧ accepted r lifecycle_path (reportLifecycleRequest name id phase reason retryable) e).
Proof.
  unfold client_ReportLifecycle. rewrite wp_bind. eapply wp_mono; [|apply post_wire]. intros h' res Hp.
  prog_run; try done. intros _. eapply Hp; [done|]. apply negb_false_iff in Heqb0. lia.
Qed.

Lemma impl_calls r c h :
  safe (λ _ c', is_http c' ∨ c' = c) h (runnable_impl r c).
Proof.
  assert (∀ X (p : program X) h, safe (λ _, is_http) h p → safe (λ _ c', is_http c' ∨ c' = c) h p) as Hmono.
  { intros X p h0. apply safe_mono. auto. }
  assert (∀ path what tok body h, safe (λ _, is_http) h (post_ok (rn_client r) path what tok body)) as Hok.
  { intros. unfold post_ok. prog_run; [apply post_calls|]. apply wp_trivial. intros. prog_run. }
  destruct c; simpl; auto; try (apply Hmono).
  - apply Hok.
  - apply Hok.
  - unfold client_ReportLifecycle. prog_run; [apply post_calls|]. apply wp_trivial. intros. prog_run.
  - unfold client_VerifyGatewayToken. prog_run; [apply post_calls|]. apply wp_trivial. intros. prog_run.
  - destruct samples; [done|]. apply Hok.
Qed.

Lemma impl_realises r c h :
  wp h (runnable_impl r c) (λ h' a, realised r h' (existT c a)).
Proof.
  destruct c; try (apply wp_trivial; done); simpl.
  - eapply wp_mono; [|apply post_ok_wire]. intros h' [e|] Hx; [done|]. by apply Hx.
  - eapply wp_mono; [|apply lifecycle_wire]. intros h' [e|] Hx; [done|]. by apply Hx.
Qed.

Lemma impl_sim r c h h' :
  wire_sim r h h' →
  wp h' (runnable_impl r c) (λ h'' a, wire_sim r (h ++ [existT c a]) h'').
Proof.
  intros Hs. eapply wp_mono; [|apply wp_and; [apply wp_history|apply impl_realises]].
  intros h'' a [[ext ->] Hr]. by apply wire_sim_snoc.
Qed.

(** What the abstract guards allow, the wire guard allows. *)
Lemma guards_transfer r h h' c :
  wire_sim r h h' → finalizer_guard h c →
  delete_guard {| wr_ConvexClient := true |} h c → operator_guard r h' c.
Proof.
  intros Hs Hf Hd. destruct c; simpl in *; try done.
  - intros Hc. destruct (Hf Hc) as (e & Hin & He). apply Hs in Hin.
    destruct e as [[] []]; simpl in *; try done. destruct He as [-> ->]. exact Hin.
  - destruct Hd as [Hrel _]. destruct (Hrel eq_refl) as (e & Hin & He). apply Hs in Hin.
    destruct e as [[] a]; simpl in *; try done. destruct retryable, a; try done.
    destruct He as [-> ->]. destruct Hin as (e' & ? & ?). eauto.
Qed.

(** C4. The operator as it is wired: in every run of [Reconcile] linked with the
    HTTP client, the finalizer leaves a Workload only after Convex answered 200 to
    the post that reports its removal, and a Workload is deleted only after Convex
    answered 200 to the post that hands its claim back as retryable, both sent with
    the operator's heartbeat token. *)
Theorem linked_reconcile_guarded r req tr res :
  exec (link (runnable_impl r) (Reconcile {| wr_ConvexClient := true |} req)) tr res →
  guarded (operator_guard r) [] tr.
Proof.
  apply safe_guarded.
  apply (link_safe _ (λ h c, finalizer_guard h c ∧ delete_guard {| wr_ConvexClient := true |} h c) _ (wire_sim r) _ []).
  - intros h h' c Hs [Hf Hd]. split; [|by apply impl_sim].
    destruct c; try (split; [by eapply guards_transfer|intros; exact I]);
      (eapply safe_mono; [|apply (impl_calls r)]; (intros ? c' [Hc'| ->]; [by destruct c'|done])).
  - by intros e ?%elem_of_nil.
  - apply safe_and; [by apply Reconcile_finalizer_safe|apply Reconcile_delete_safe].
Qed.

End Linked.
