(* ===== verification/Fleet.v ===== *)
(** * Fleet: several operators and one Convex

    Any number of operators, each with its own cluster, take requests from one Convex:
    their heartbeat loops claim, their reconcilers and API servers run beside them.  A
    request is to be provisioned once in the whole fleet.  Convex is a parameter with
    the contract that docs and comments give it: a request is granted only while it is
    open, a grant closes it, and it opens again when an operator reports a retryable
    failure of it or when Convex itself gives up on the lease.  On the operators' side
    the accounts of [Claims] say what a grant is used for. *)

From S2P Require Import Prelude.
From S2P Require Import Effects.
From S2P Require Import Go.
From S2P Require Import Json.
From S2P Require Import Api.
From S2P Require Import Calls.
From S2P Require Import Catalog.
From S2P Require Import CatalogTemplates.
From S2P Require Import Controller.
From S2P Require Import ControllerFacts.
From S2P Require Import ControllerObjects.
From S2P Require Import Capacity.
From S2P Require Import Provisioning.
From S2P Require Import TokenStore.
From S2P Require Import Metrics.
From S2P Require Import ConvexClient.
From S2P Require Import Runnable.
From S2P Require Import RunnableCalls.
From S2P Require Import RunnableFacts.
From S2P Require Import Claims.
From S2P Require Import Gateway.
From S2P Require Import Proxy.
From S2P Require Import PodExec.
From S2P Require Import Server.
From S2P Require Import ServerFacts.
From S2P Require Import Operator.

Local Open Scope prog_scope.

(** ** What the events of the fleet mean *)

(** A retryable failure reported to the Convex at [base]: the name and the request id. *)
Definition retry_report (base : string) (e : event answer) : option (string * string) :=
  match e with
  | existT (HttpDo rq) _ =>
      if decide (rq_URL rq = base +:+ lifecycle_path) then retry_about (rq_Body rq) else None
  | _ => None
  end.

(** A report that may open the request again: it names the request, or, without a
    request id, a workload that may be its. Whether an answer came back does not matter. *)
Definition reopens (base id : string) (e : event answer) : bool :=
  match retry_report base e with
  | Some (name, i) => bool_decide (i = id) || (bool_decide (i = "") && bool_decide (name ≠ ""))
  | None => false
  end.

(** A claim given back by the loop that made it: a report by request id alone. *)
Definition handed_back (base : string) (e : event answer) : option string :=
  match retry_report base e with
  | Some (name, i) => if decide (name = "" ∧ i ≠ "") then Some i else None
  | None => None
  end.

(** A creation the API server confirmed. *)
Definition confirmed (e : event answer) : option string :=
  match e with
  | existT (KCreateWorkload w) (Ok _) => w_Labels w !! WorkloadID
  | _ => None
  end.

Definition spent (base : string) (e : event answer) : option string :=
  match confirmed e with Some id => Some id | None => handed_back base e end.

(** ** The operators *)

Inductive fleet_task :=
| FLoop (r : Runnable) (n : nat)
| FReconcile (r : Runnable) (req : NamespacedName)
| FServe (r : Runnable) (s : Server) (req : Request)
| FReport (r : Runnable) (orders : nat → list (string * gmap podKey string) → list (string * gmap podKey string))
    (rep : Reporter) (n : nat).

Definition is_loop (t : fleet_task) : bool := match t with FLoop _ _ => true | _ => false end.

Definition task_base (t : fleet_task) : string :=
  match t with
  | FLoop r _ | FReconcile r _ | FServe r _ _ | FReport r _ _ _ => cf_BaseURL (rn_client r)
  end.

(** A report that is not a loop's giving back of what it claimed itself. *)
Definition reopens_otherwise (base : string) (t : fleet_task) (id : string) (e : event answer) : bool :=
  reopens base id e && negb (is_loop t && bool_decide (handed_back base e = Some id)).

Definition tally (P : event answer → bool) (h : trace) : nat := length (filter (λ e, P e = true) h).

Lemma tally_snoc P h e : tally P (h ++ [e]) = tally P h + if P e then 1 else 0.
Proof. unfold tally. rewrite filter_app, length_app, filter_cons. by destruct (P e). Qed.

Record member := { fm_task : fleet_task; fm_log : trace; fm_prog : program unit }.

(** ** Convex *)

Class Leases (W : Type) := {
  (* the request can be claimed *)
  lease_open : W → string → Prop;
  (* how often Convex opened it on its own account *)
  lease_expired : W → string → nat;
  (* what happens between the calls of the fleet *)
  lease_moves : relation W;
  lease_srv : ∀ c, W → answer c → W → Prop;
}.

Class LeaseLaws (base : string) (W : Type) `{!Leases W} : Prop := {
  (* an open request is granted, and closed by that *)
  grant_closes c (w w' : W) a id :
    lease_srv c w a w' → granted base (existT c a) = Some id → lease_open w id ∧ ¬ lease_open w' id;
  call_opens c (w w' : W) a id :
    lease_srv c w a w' → lease_open w' id → lease_open w id ∨ reopens base id (existT c a) = true;
  call_expires c (w w' : W) a id : lease_srv c w a w' → lease_expired w' id = lease_expired w id;
  moves_expire (w w' : W) id : lease_moves w w' → lease_expired w id ≤ lease_expired w' id;
  moves_open (w w' : W) id :
    lease_moves w w' → lease_open w' id → lease_open w id ∨ lease_expired w id < lease_expired w' id;
}.

Record fleet (W : Type) := { fl_members : list member; fl_world : W }.
Arguments fl_members {W}.
Arguments fl_world {W}.

(** The sum of a figure over the members. *)
Definition fleet_total {W} (f : member → nat) (fl : fleet W) : nat := sum_list_with f (fl_members fl).

Section Fleet.
Context `{!GoStd, !GoNet, !KubeLib, !KubeLibLaws, !GatewayCodec, !PageTemplate}.
Context (base : string) {W : Type} `{!Leases W, !LeaseLaws base W}.

Definition fleet_program (t : fleet_task) : program unit :=
  match t with
  | FLoop r n => Start r n ;; Ret tt
  | FReconcile r req => link (runnable_impl r) (Reconcile {| wr_ConvexClient := true |} req ;; Ret tt)
  | FServe r s req => link (runnable_impl r) (ServeHTTP s req ;; Ret tt)
  | FReport r orders rep n => link (runnable_impl r) (Reporter_Start orders rep n ;; Ret tt)
  end.

Definition fleet_start (ts : list fleet_task) (w : W) : fleet W := {|
  fl_members := (λ t, {| fm_task := t; fm_log := []; fm_prog := fleet_program t |}) <$> ts;
  fl_world := w |}.

Inductive fleet_step : relation (fleet W) :=
| fleet_call ms1 t h c k ms2 w a w' :
    lease_srv c w a w' →
    fleet_step {| fl_members := ms1 ++ {| fm_task := t; fm_log := h; fm_prog := Vis c k |} :: ms2; fl_world := w |}
      {| fl_members := ms1 ++ {| fm_task := t; fm_log := h ++ [existT c a]; fm_prog := k a |} :: ms2; fl_world := w' |}
| fleet_idle ms w w' :
    lease_moves w w' → fleet_step {| fl_members := ms; fl_world := w |} {| fl_members := ms; fl_world := w' |}.

(** *** The account of a loop *)

Lemma spent_http rq a : spent base (existT (HttpDo rq) a) = handed_back base (existT (HttpDo rq) a).
Proof. done. Qed.

Lemma spends_nothing_covers : covers (debits_nothing (spent base)).
Proof.
  intros [] Hc; try done. intros a. rewrite spent_http. unfold handed_back, retry_report. simpl in Hc.
  rewrite Hc. by case_decide.
Qed.

#[local] Hint Resolve spends_nothing_covers : effects.
#[local] Hint Extern 1 (debits_nothing (spent base) _) => (by intros []) : effects.

(** A report with a name, or without a request id, uses no claim up. *)
Lemma report_spends_nothing c tok name id phase reason b h :
  (b = true → name ≠ "" ∨ id = "") →
  safe (λ _, debits_nothing (spent base)) h (client_ReportLifecycle c tok name id phase reason b).
Proof.
  intros Hn. unfold client_ReportLifecycle. rewrite safe_bind. split; [|apply wp_trivial; intros; prog_run].
  apply post_calls_body. intros rq Hrq a. rewrite spent_http. unfold handed_back, retry_report. rewrite Hrq, report_about.
  destruct b; case_decide; try done. rewrite decide_False; [done|]. naive_solver.
Qed.

#[local] Hint Extern 1 (safe (λ _, debits_nothing (spent base)) _ (client_ReportLifecycle _ _ _ "" _ _ _)) =>
  (apply report_spends_nothing; by right) : effects.

Lemma run_operations_spend_nothing r tok items h :
  safe (λ _, debits_nothing (spent base)) h (run_operations r tok items).
Proof.
  revert h. induction items as [|item items IH]; intros h; [done|]. cbn [run_operations].
  unfold run_operation, report_failure, Destroy, Redeploy, SetSuspended. prog_calls; intros; prog_calls.
Qed.

(** Giving a claim back uses it up. *)
Lemma hand_back r tok id reason h (snap : option Snapshot) :
  unused base (spent base) id h →
  safe (account_guard base (spent base)) h
    (client_ReportLifecycle (rn_client r) tok "" id phaseFailed reason true ;; Ret snap) ∧
  wp h (client_ReportLifecycle (rn_client r) tok "" id phaseFailed reason true ;; Ret snap)
    (λ h' _, balanced base (spent base) h').
Proof.
  intros Hu. assert (retry_about (reportLifecycleRequest "" id phaseFailed reason true) = Some ("", id)) as Hab
    by apply report_about.
  unfold client_ReportLifecycle, post. destruct (json_Marshal _) as [j|] eqn:Hm; [|by destruct Hu].
  apply marshal_same in Hm as ->. destruct (http_NewRequest _); [by destruct Hu|].
  set (rq := {| rq_Body := reportLifecycleRequest "" id phaseFailed reason true |}).
  assert (∀ a id', spent base (existT (HttpDo rq) a) = Some id' → id' = id) as Hid.
  { intros a id'. rewrite spent_http. unfold handed_back, retry_report. subst rq. cbn [rq_Body]. rewrite Hab.
    repeat case_decide; naive_solver. }
  cbn [prog_bind perform safe wp]. split.
  - split; [|intros a; prog_run; done]. intros a id' Hs. rewrite (Hid _ _ Hs). by destruct Hu.
  - intros a. assert (balanced base (spent base) (h ++ [existT (HttpDo rq) a])) as Hb'.
    { destruct (spent base (existT (HttpDo rq) a)) as [id'|] eqn:Hs.
      - eapply unused_debit; [exact Hs|]. by rewrite (Hid _ _ Hs).
      - apply balanced_snoc; [|by destruct Hu]. intros a'. exact Hs. }
    prog_run; done.
Qed.

Lemma create_claimed_spends r wc tok snap claimed h :
  at_base base r → unused base (spent base) (cd_WorkloadID claimed) h →
  safe (account_guard base (spent base)) h (create_claimed r wc tok snap claimed) ∧
  wp h (create_claimed r wc tok snap claimed) (λ h' _, balanced base (spent base) h').
Proof.
  intros Hr Hu. unfold create_claimed.
  assert (∀ reason,
    safe (account_guard base (spent base)) h
      (client_ReportLifecycle (rn_client r) tok "" (cd_WorkloadID claimed) phaseFailed reason false ;; Ret snap) ∧
    wp h (client_ReportLifecycle (rn_client r) tok "" (cd_WorkloadID claimed) phaseFailed reason false ;; Ret snap)
      (λ h' _, balanced base (spent base) h')) as Hmismatch.
  { intros reason. destruct (keeps_calls base (spent base)
      (client_ReportLifecycle (rn_client r) tok "" (cd_WorkloadID claimed) phaseFailed reason false ;; Ret snap))
      with (h := h) as [Hs Hw]; [|by destruct Hu|].
    - intros h'. rewrite safe_bind. split; [|by apply wp_trivial]. by apply report_spends_nothing.
    - split; [done|]. eapply wp_mono; [|exact Hw]. by intros ? ? []. }
  destruct (Get _); [|done]. destruct (decide _); [|done]. clear Hmismatch.
  unfold Create. destruct (checked_config _ _) as [raw|err]; [|by apply hand_back].
  set (c := KCreateWorkload _).
  assert (∀ a id', spent base (existT c a) = Some id' → id' = cd_WorkloadID claimed) as Hid.
  { intros [w|err] id' Hs; [|done]. unfold spent in Hs. cbn [confirmed c] in Hs.
    destruct (w_Labels _ !! _) eqn:Hl; [|done]. apply label_of in Hl as [-> _]. by injection Hs. }
  assert (∀ err, unused base (spent base) (cd_WorkloadID claimed) (h ++ [existT c (Err err)])) as Herr
    by (intros err; by apply unused_event).
  cbn [prog_bind perform safe wp]. split.
  - split; [intros a id' Hs; rewrite (Hid _ _ Hs); by destruct Hu|]. intros [w|err]; [done|]. by apply hand_back.
  - intros [w|err]; [|by apply hand_back]. cbn [prog_bind wp].
    destruct (spent base (existT c (Ok w))) as [id'|] eqn:Hs.
    + eapply unused_debit; [exact Hs|]. by rewrite (Hid _ _ Hs).
    + by eapply unused_event.
Qed.

Lemma loop_spends r n :
  at_base base r → safe (account_guard base (spent base)) [] (Start r n ;; Ret tt).
Proof.
  intros Hr. rewrite safe_bind. split; [|by apply wp_trivial].
  eapply (Start_keeps base (spent base));
    eauto using spends_nothing_covers, run_operations_spend_nothing, create_claimed_spends.
  by intros id.
Qed.
(** *** The other tasks create no Workload for a request *)

Definition labels_nothing (c : call) : Prop :=
  match c with KCreateWorkload w => w_Labels w !! WorkloadID = None | _ => True end.

Lemma impl_labels_nothing r c h : labels_nothing c → safe (λ _, labels_nothing) h (runnable_impl r c).
Proof.
  destruct c; simpl; intros Hc; try (by repeat split); unfold client_UpsertWorkload, client_RemoveWorkload,
    client_VerifyGatewayToken, client_ReportMetrics, post_ok, post; prog_calls.
Qed.

Lemma link_labels_nothing {X} r (p : program X) h :
  safe (λ _, labels_nothing) h p → safe (λ _, labels_nothing) h (link (runnable_impl r) p).
Proof.
  apply (link_safe _ (λ _, labels_nothing) _ (λ _ _, True)); [|done].
  intros h1 h2 c _ Hc. split; [by apply impl_labels_nothing|by apply wp_trivial].
Qed.

Lemma Reconcile_labels_nothing r req h : safe (λ _, labels_nothing) h (Reconcile r req).
Proof.
  assert (∀ h w, safe (λ _, labels_nothing) h (reconcileLive r req w)) as Hlive.
  { intros h' w. eapply safe_mono; [|apply reconcileLive_calls]. intros ? []; unfold live_call; simpl; tauto. }
  unfold Reconcile, reconcileDelete, ensureFinalizer, notifyRemoved. prog_calls.
Qed.

Lemma collect_labels_nothing now nodes samples h :
  safe (λ _, labels_nothing) h (collect_nodes now nodes samples).
Proof. revert samples h. induction nodes as [|[]]; intros; simpl; unfold fetchNodeSummary; prog_calls. Qed.

#[local] Hint Resolve collect_labels_nothing : effects.

Lemma Reporter_labels_nothing orders rep n h : safe (λ _, labels_nothing) h (Reporter_Start orders rep n).
Proof.
  assert (∀ h, safe (λ _, labels_nothing) h (report_ticks orders rep n)) as Hticks.
  { induction n; intros; simpl; [done|]. unfold reportOnce, Collect. prog_calls. }
  unfold Reporter_Start. prog_calls.
Qed.

Lemma ServeHTTP_labels_nothing s req h : safe (λ _, labels_nothing) h (ServeHTTP s req).
Proof.
  unfold ServeHTTP. destruct (mux_match _ _) as [route|]; [|done].
  destruct route; simpl; [done|..];
    unfold requireDeployToken, requireGatewayToken, handleDeploy, handleGet, handleDelete, handleRunFunction,
      deploy_template, deploy_image, get_workload, Create, Destroy, run_function, FindPod, proxy_Handler, relay,
      Verify; prog_calls.
  eapply safe_mono; [|eapply operations_calls; [eapply Get_templates|]; eauto]. by intros ? [].
Qed.

(** *** Members *)

Definition member_inv (m : member) : Prop :=
  if is_loop (fm_task m)
  then safe (account_guard base (spent base)) (fm_log m) (fm_prog m) ∧ balanced base (spent base) (fm_log m)
  else safe (λ _, labels_nothing) (fm_log m) (fm_prog m) ∧ ∀ id, count confirmed id (fm_log m) = 0.

Lemma member_inv_start t :
  task_base t = base → member_inv {| fm_task := t; fm_log := []; fm_prog := fleet_program t |}.
Proof.
  intros Hb. destruct t; (split; [|by intros id]); cbn [fm_log fm_prog fleet_program].
  1: by apply loop_spends.
  all: apply link_labels_nothing, safe_bind; split; [|by apply wp_trivial];
    auto using Reconcile_labels_nothing, ServeHTTP_labels_nothing, Reporter_labels_nothing.
Qed.

Lemma member_inv_call t h c k a :
  member_inv {| fm_task := t; fm_log := h; fm_prog := Vis c k |} →
  member_inv {| fm_task := t; fm_log := h ++ [existT c a]; fm_prog := k a |}.
Proof.
  unfold member_inv. cbn [fm_task fm_log fm_prog]. destruct (is_loop t); intros [[Hc Hk] Hinv]; (split; [done|]).
  - by apply guarded_balanced.
  - intros id. rewrite count_app, count_one, Hinv, decide_False; [done|]. destruct c; try done.
    destruct a; [|done]. simpl in *. by rewrite Hc.
Qed.

Lemma count_spent id h : count (spent base) id h = count confirmed id h + count (handed_back base) id h.
Proof.
  induction h as [|e h IH] using rev_ind; [done|]. rewrite !count_app, IH, !count_one.
  enough ((if decide (spent base e = Some id) then 1 else 0) =
    (if decide (confirmed e = Some id) then 1 else 0) + if decide (handed_back base e = Some id) then 1 else 0) by lia.
  unfold spent. destruct (confirmed e) as [i|] eqn:Hc; [|by case_decide].
  rewrite (decide_False (P := handed_back base e = _)); [lia|]. by destruct e as [[] []].
Qed.

Lemma count_reopens id t h :
  is_loop t = true →
  tally (reopens base id) h ≤ count (handed_back base) id h + tally (reopens_otherwise base t id) h.
Proof.
  intros Ht. induction h as [|e h IH] using rev_ind; [done|]. rewrite !tally_snoc, count_app, count_one.
  enough ((if reopens base id e then 1 else 0) ≤ (if decide (handed_back base e = Some id) then 1 else 0) +
    if reopens_otherwise base t id e then 1 else 0) by lia.
  unfold reopens_otherwise. rewrite Ht. case_bool_decide as Hh; [rewrite decide_True by done|rewrite decide_False by done];
    destruct (reopens base id e); simpl; lia.
Qed.

Lemma tally_others id t h :
  is_loop t = false → tally (reopens_otherwise base t id) h = tally (reopens base id) h.
Proof.
  intros Ht. induction h as [|e h IH] using rev_ind; [done|]. rewrite !tally_snoc, IH. unfold reopens_otherwise.
  by rewrite Ht, andb_true_r.
Qed.

(** What a member created and gave back is covered by what it was granted. *)
Lemma member_account id m :
  member_inv m →
  count confirmed id (fm_log m) + tally (reopens base id) (fm_log m) ≤
  count (granted base) id (fm_log m) + tally (reopens_otherwise base (fm_task m) id) (fm_log m).
Proof.
  unfold member_inv. destruct (is_loop _) eqn:Ht; intros [_ Hinv].
  - specialize (Hinv id). rewrite count_spent in Hinv. pose proof (count_reopens id _ (fm_log m) Ht). lia.
  - rewrite Hinv, tally_others by done. lia.
Qed.

(** *** Totals *)

Definition grants (id : string) : fleet W → nat := fleet_total (λ m, count (granted base) id (fm_log m)).
Definition reopenings (id : string) : fleet W → nat := fleet_total (λ m, tally (reopens base id) (fm_log m)).
Definition provisioned (id : string) : fleet W → nat := fleet_total (λ m, count confirmed id (fm_log m)).
Definition other_reopenings (id : string) : fleet W → nat :=
  fleet_total (λ m, tally (reopens_otherwise base (fm_task m) id) (fm_log m)).

Lemma fleet_account id (fl : fleet W) :
  Forall member_inv (fl_members fl) →
  provisioned id fl + reopenings id fl ≤ grants id fl + other_reopenings id fl.
Proof.
  unfold provisioned, reopenings, grants, other_reopenings, fleet_total.
  induction 1 as [|m ms Hm _ IH]; [done|]. simpl. pose proof (member_account id m Hm). lia.
Qed.

Lemma grants_start id ts w : grants id (fleet_start ts w) = 0.
Proof. unfold grants, fleet_total. simpl. by induction ts. Qed.

(** Convex grants an open request, and opens it again no more often than it is told. *)
Definition convex_inv (id : string) (w0 : W) (fl : fleet W) : Prop :=
  (lease_open (fl_world fl) id →
   grants id fl + lease_expired w0 id ≤ reopenings id fl + lease_expired (fl_world fl) id) ∧
  grants id fl + lease_expired w0 id ≤ 1 + reopenings id fl + lease_expired (fl_world fl) id.

Definition fleet_inv (w0 : W) (fl : fleet W) : Prop :=
  Forall member_inv (fl_members fl) ∧ ∀ id, convex_inv id w0 fl.

Lemma fleet_inv_step w0 fl fl' : fleet_step fl fl' → fleet_inv w0 fl → fleet_inv w0 fl'.
Proof.
  intros Hstep [Hm Hc]. destruct Hstep as [ms1 t h c k ms2 w a w' Hsrv|ms w w' Hmv]; split; try done.
  - cbn [fl_members] in *. apply Forall_app in Hm as [Hms1 [Hmid Hms2]%Forall_cons].
    apply Forall_app. split; [done|]. constructor; [by apply member_inv_call|done].
  - intros id. destruct (Hc id) as [Ho Hn]. unfold convex_inv, grants, reopenings, fleet_total in *.
    cbn [fl_members fl_world fm_log] in *. rewrite !sum_list_with_app in *. cbn [sum_list_with fm_log] in *.
    rewrite count_app, count_one, tally_snoc, (call_expires (base := base) c w w' a id Hsrv).
    destruct (decide (granted base (existT c a) = Some id)) as [Hg|_].
    + destruct (grant_closes c w w' a id Hsrv Hg) as [Hopen Hclosed]. specialize (Ho Hopen). split; [done|lia].
    + split; [|lia]. intros [Hopen|Hr]%(call_opens c w w' a id Hsrv); [specialize (Ho Hopen); lia|rewrite Hr; lia].
  - intros id. destruct (Hc id) as [Ho Hn]. unfold convex_inv, grants, reopenings, fleet_total in *.
    cbn [fl_members fl_world] in *. pose proof (moves_expire (base := base) w w' id Hmv). split; [|lia].
    intros [Hopen|]%(moves_open (base := base) w w' id Hmv); [specialize (Ho Hopen)|]; lia.
Qed.

(** C11. A request is provisioned once in the fleet: however the loops, reconciliations,
    requests and reports of any number of operators interleave in front of one Convex,
    the Workloads that were created for a request are at most one more than the times
    the request was opened again for a reason other than a loop giving back a claim it
    could not use: a retryable failure reported by a reconciler or of a claimed operation, or a
    lease that ran out.  Without those, at most one cluster ever gets the Workload. *)
Theorem fleet_provisions_once ts w0 fl id :
  Forall (λ t, task_base t = base) ts → rtc fleet_step (fleet_start ts w0) fl →
  provisioned id fl + lease_expired w0 id ≤ 1 + other_reopenings id fl + lease_expired (fl_world fl) id.
Proof.
  intros Hts Hsteps. assert (fleet_inv w0 fl) as [Hm Hc].
  { assert (fleet_inv w0 (fleet_start ts w0)) as Hinit.
    { split.
      - apply Forall_fmap. eapply Forall_impl; [exact Hts|]. intros t. apply member_inv_start.
      - intros id'. pose proof (grants_start id' ts w0) as Hg.
        unfold convex_inv. cbn [fleet_start fl_world] in *. rewrite Hg. lia. }
    revert Hinit. clear Hts. induction Hsteps; eauto using fleet_inv_step. }
  destruct (Hc id) as [_ Hn]. pose proof (fleet_account id fl Hm). lia.
Qed.
End Fleet.
