(* ===== verification/EndToEnd.v ===== *)
(** * EndToEnd: from a claim to a running workload

    The heartbeat loop turns a claim into a Workload, the reconciler turns the Workload
    into a Deployment and tells Convex, and the two know of each other only through the
    object: the request id travels in a label, the configuration in the specification.
    This file follows one request all the way. *)

From S2P Require Import Prelude.
From S2P Require Import Effects.
From S2P Require Import Go.
From S2P Require Import Json.
From S2P Require Import Api.
From S2P Require Import Calls.
From S2P Require Import Catalog.
From S2P Require Import CatalogTemplates.
From S2P Require Import Controller.
From S2P Require Import ControllerFacts.
From S2P Require Import ControllerStatus.
From S2P Require Import ControllerRest.
From S2P Require Import ControllerLiveness.
From S2P Require Import Capacity.
From S2P Require Import Provisioning.
From S2P Require Import TokenStore.
From S2P Require Import Metrics.
From S2P Require Import ConvexClient.
From S2P Require Import Runnable.
From S2P Require Import RunnableCalls.
From S2P Require Import RunnableFacts.

(** What Convex is told about the owner of a Workload. *)
Definition ownership (w : Workload) : WorkloadInfo := {|
  wi_Name := w_Name w; wi_Namespace := w_Namespace w; wi_Subdomain := ws_Subdomain (w_Spec w);
  wi_TemplateName := ws_TemplateName (w_Spec w); wi_UserID := ws_UserID (w_Spec w);
  wi_WorkloadID := default "" (w_Labels w !! WorkloadID) |}.

(** The same Workload, as far as Convex and the cluster see it. *)
Definition alike (w w' : Workload) : Prop :=
  w_Spec w' = w_Spec w ∧ w_Labels w' = w_Labels w ∧ w_Name w' = w_Name w ∧
  w_Namespace w' = w_Namespace w ∧ w_Status w' = w_Status w.

(** A cluster that has just stored [w], and answers well. *)
Definition first_run (w : Workload) (e : event answer) : Prop :=
  cooperative (w_Spec w) e ∧
  match e with
  | existT (KGetWorkload _) (Ok w') => w' = w
  | existT (KUpdateWorkload x) (Ok x') => alike x x'
  | _ => True
  end.

(** The API server has stored [w0] as [w]: named it, given it a replica count if it has
    defaults for that, and no controller has seen it yet. *)
Definition stored_new `{!KubeLib} (w0 w : Workload) : Prop :=
  w_Labels w = w_Labels w0 ∧ w_Namespace w = w_Namespace w0 ∧
  ws_TemplateName (w_Spec w) = ws_TemplateName (w_Spec w0) ∧ ws_Config (w_Spec w) = ws_Config (w_Spec w0) ∧
  ws_UserID (w_Spec w) = ws_UserID (w_Spec w0) ∧ ws_Subdomain (w_Spec w) = ws_Subdomain (w_Spec w0) ∧
  ws_Suspended (w_Spec w) = ws_Suspended (w_Spec w0) ∧ (0 < desiredReplicaCount w)%Z ∧
  ∀ t, FindStatusCondition (wst_Conditions (w_Status w)) t = None.

(** The creation that may happen to a claim. *)
Lemma create_claimed_creates `{!GoStd, !GoNet, !KubeLib} r wc tok snap claimed tr snap' w0 w :
  exec (create_claimed r wc tok snap claimed) tr snap' → ev (KCreateWorkload w0) (Ok w) ∈ tr →
  ∃ raw, checked_config (cd_TemplateID claimed) (cd_Config claimed) = Ok raw ∧
    w0 = new_workload wc (cd_WorkloadID claimed) (cd_TemplateID claimed) (cd_UserID claimed) (cd_Subdomain claimed) raw.
Proof.
  intros He Hin. unfold create_claimed in He.
  assert (∀ reason b tr, exec (prog_bind (client_ReportLifecycle (rn_client r) tok "" (cd_WorkloadID claimed)
    phaseFailed reason b) (λ _, Ret snap)) tr snap' → ev (KCreateWorkload w0) (Ok w) ∈ tr → False) as Hreport.
  { intros reason b tr0 Hx Hin0.
    assert (Forall (λ e, projT1 e ≠ KCreateWorkload w0) tr0) as HF.
    { eapply (safe_exec (λ c, c ≠ KCreateWorkload w0)); [|exact Hx].
      rewrite safe_bind. split; [|by apply wp_trivial]. by apply report_safe. }
    rewrite Forall_forall in HF. by apply (HF _ Hin0). }
  destruct (Get _) as [tmpl|]; [|by edestruct Hreport]. destruct (decide _); [|by edestruct Hreport].
  apply exec_bind in He as (t1 & t2 & x & -> & Hc & He). unfold Create in Hc.
  destruct (checked_config _ _) as [raw|err]; [|destruct Hc as [-> ->]; by edestruct Hreport].
  exists raw. split; [done|]. destruct Hc as (a & t3 & -> & Hc). apply elem_of_app in Hin as [[Heq|Hin]%elem_of_cons|Hin].
  - by inversion Heq.
  - destruct a; destruct Hc as [-> _]; by apply elem_of_nil in Hin.
  - destruct a as [w'|err]; destruct Hc as [-> ->]; [|by edestruct Hreport].
    destruct He as [-> _]. by apply elem_of_nil in Hin.
Qed.

Section EndToEnd.
Context `{!GoStd, !GoNet, !KubeLib, !KubeLibLaws}.
Context (w : Workload).
Hypothesis w_new : ∀ t, FindStatusCondition (wst_Conditions (w_Status w)) t = None.
Hypothesis w_live : ws_Suspended (w_Spec w) = false.
Hypothesis w_wanted : (0 < desiredReplicaCount w)%Z.

Abbreviation reconciler := {| wr_ConvexClient := true |}.

Definition told_owner (h : trace) : Prop := ev (UpsertWorkload (ownership w)) None ∈ h.

Definition told_active (h : trace) : Prop :=
  ev (ReportLifecycle (w_Name w) (default "" (w_Labels w !! WorkloadID)) lifecyclePhaseActive "" false) None ∈ h.

Definition tells (h : trace) (_ : ReconcileResult) : Prop :=
  Forall (first_run w) h → told_owner h ∧ told_active h.

Lemma spoiled (p : program ReconcileResult) h e : (first_run w e → False) → wp (h ++ [e]) p tells.
Proof. intros Hn. apply wp_spoiled. by intros ?%Forall_last. Qed.

Lemma spoiled_end h e res : (first_run w e → False) → tells (h ++ [e]) res.
Proof. intros Hn. exact (spoiled (Ret res) h e Hn). Qed.

Lemma new_unsynced w1 t : alike w w1 → already_synced w1 t = false.
Proof. intros (_ & _ & _ & _ & Hs). unfold already_synced. by rewrite Hs, w_new. Qed.

Lemma alike_ownership w1 : alike w w1 → ownership w1 = ownership w.
Proof. intros (Hs & Hl & Hn & Hns & _). unfold ownership. by rewrite Hs, Hl, Hn, Hns. Qed.

Lemma syncConvex_tells w1 h :
  alike w w1 →
  wp h (syncConvex reconciler w1) (λ h' res, Forall (first_run w) h' →
    told_owner h' ∧ already_synced res.2 conditionTypeConvexLifecycleSynced = false ∧
    w_Meta res.2 = w_Meta w1 ∧ w_Spec res.2 = w_Spec w1).
Proof.
  intros Ha. unfold syncConvex. rewrite (new_unsynced w1) by done. unfold notifyUpserted. simpl.
  change {| wi_Name := w_Name w1 |} with (ownership w1). rewrite (alike_ownership w1 Ha).
  intros [e|]; simpl.
  - intros [[] _]%Forall_last.
  - intros _. split; [apply elem_of_app; right; left|]. split; [|done].
    rewrite already_synced_set_other by done. by apply new_unsynced.
Qed.

Lemma updateStatus_tells w1 d h :
  w_Spec w1 = w_Spec w → w_Labels w1 = w_Labels w → w_Name w1 = w_Name w →
  already_synced w1 conditionTypeConvexLifecycleSynced = false →
  d_ReadyReplicas d = spec_replicas (w_Spec w) →
  wp h (updateStatus reconciler w1 d) (λ h' _, Forall (first_run w) h' → told_active h').
Proof.
  intros Hs Hl Hn Ha Hd. unfold updateStatus.
  assert (desiredReplicaCount w1 = desiredReplicaCount w) as Hdes by (unfold desiredReplicaCount; by rewrite Hs).
  assert (spec_replicas (w_Spec w) = desiredReplicaCount w) as Hrep by done.
  rewrite Hs, w_live, Hdes, Hd, Hrep. cbn [andb].
  rewrite (proj2 (Z.ltb_lt _ _) w_wanted), Z.leb_refl. cbn [andb]. rewrite wp_bind.
  unfold syncConvexLifecyclePhase. change (already_synced (status_observed w1 _ _) _) with
    (already_synced w1 conditionTypeConvexLifecycleSynced). rewrite Ha.
  unfold notifyLifecycle. simpl. intros [e|]; simpl.
  - destruct (errors_Is e ErrLifecycleStale); intros [[] _]%Forall_last.
  - intros _. unfold told_active. change (w_Labels (status_observed w1 _ _)) with (w_Labels w1).
    change (w_Name (status_observed w1 _ _)) with (w_Name w1). rewrite Hl, Hn. apply elem_of_app; right; left.
Qed.

Lemma observe_tells req w1 h : alike w w1 → wp h (observe reconciler req w1) tells.
Proof.
  intros Ha. unfold observe. rewrite wp_bind.
  eapply wp_mono; [|apply wp_and; [by apply (syncConvex_tells w1)|apply wp_history]].
  intros h1 [cs w2] [Hsync [ext1 ->]]. cbn [wp prog_bind perform]. intros [d|err]; [|by apply spoiled_end; intros []].
  apply wp_so_far. intros Hall. pose proof (Forall_last _ _ _ Hall) as [Hd _]. cbn in Hd.
  apply Forall_app in Hall as [Hall _]. destruct (Hsync Hall) as (Hown & Hun & Hm & Hs).
  destruct Ha as (Hs1 & Hl1 & Hn1 & _). rewrite wp_bind. cbn [fst snd] in *.
  eapply wp_mono; [|apply wp_and; [apply (updateStatus_tells w2 d)|apply wp_history]]; try done.
  - intros h2 [ls w3] [Hact [ext2 ->]]. cbn [wp prog_bind perform].
    assert (∀ e, Forall (first_run w) (((h ++ ext1) ++ [ev (KGetDeployment req) (Ok d)]) ++ ext2 ++ [e]) →
      told_owner (((h ++ ext1) ++ [ev (KGetDeployment req) (Ok d)]) ++ ext2 ++ [e]) ∧
      told_active (((h ++ ext1) ++ [ev (KGetDeployment req) (Ok d)]) ++ ext2 ++ [e])) as Hend.
    { intros e. rewrite app_assoc. intros [Hall' _]%Forall_app. specialize (Hact Hall').
      unfold told_owner, told_active in *. rewrite !elem_of_app in *. tauto. }
    intros [w4|err]; [|rewrite <- app_assoc; exact (Hend _)]. destruct (negb _ || _ || _); rewrite <- app_assoc; exact (Hend _).
  - congruence.
  - unfold w_Labels in *. congruence.
  - unfold w_Name in *. congruence.
Qed.

Lemma reconcileLive_tells req w1 rd h : render w1 = Ok rd → alike w w1 → wp h (reconcileLive reconciler req w1) tells.
Proof.
  intros Hr Ha. unfold reconcileLive. rewrite Hr. unfold apply, reconcileDeployment, reconcileService, setFailed.
  prog_run; try (by apply spoiled; intros []); try (by apply spoiled_end; intros []).
  eapply wp_mono; [|apply (checkUnschedulable_coop (w_Spec w))]. intros h' [] Hb; [|by apply observe_tells].
  intros Hall. enough (true = false) by done. apply Hb. eapply Forall_impl; [exact Hall|]. by intros e [].
Qed.

(** The first reconciliation tells Convex everything about a new Workload. *)
Lemma first_reconcile_tells rd req tr res :
  render w = Ok rd → exec (Reconcile reconciler req) tr res → Forall (first_run w) tr →
  told_owner tr ∧ told_active tr.
Proof.
  intros Hr He. change (tells tr res). revert He. apply wp_sound.
  unfold Reconcile, ensureFinalizer. cbn [wp prog_bind perform]. intros [w0|err]; [|by apply (spoiled _ []); intros []].
  apply wp_so_far. intros [[_ Hdel] ->]%(Forall_last _ []). rewrite Hdel.
  destruct (ContainsFinalizer _ _); cbn [wp prog_bind perform].
  { by eapply reconcileLive_tells. }
  intros [w1|err]; [|by apply spoiled; intros []]. apply wp_so_far. intros [Hs1 Ha]%Forall_last. simpl in Hs1, Ha.
  destruct (add_finalizer_meta (w_Meta w) workloadFinalizer) as [fs Hfs].
  assert (alike w w1) as Ha1.
  { destruct Ha as (? & Hl & Hn & Hns & Hst). unfold w_Labels, w_Name, w_Namespace in *. simpl in *.
    rewrite Hfs in *. simpl in *. repeat split; done. }
  eapply reconcileLive_tells; [|done]. rewrite <- Hr. by apply render_spec.
Qed.
End EndToEnd.

(** C12. A claimed request ends up as a running workload that Convex knows under the
    request's id: when the loop created a Workload for a claim, and the API server stored
    it, the first undisturbed reconciliation of it succeeds, asks for no further one,
    and tells Convex the owner of the Workload with the template, the user and the request id of the claim,
    and that this request is active. *)
Theorem claimed_request_becomes_active `{!GoStd, !GoNet, !KubeLib, !KubeLibLaws}
    r wc tok snap claimed tr1 snap' w0 w tr2 res :
  cd_WorkloadID claimed ≠ "" → request_config (cd_Config claimed) →
  exec (create_claimed r wc tok snap claimed) tr1 snap' →
  ev (KCreateWorkload w0) (Ok w) ∈ tr1 → stored_new w0 w →
  exec (Reconcile {| wr_ConvexClient := true |} (w_Key w)) tr2 res → Forall (first_run w) tr2 →
  res = done_result ∧
  ev (UpsertWorkload {| wi_Name := w_Name w; wi_Namespace := wc_namespace wc;
       wi_TemplateName := cd_TemplateID claimed; wi_UserID := cd_UserID claimed;
       wi_Subdomain := cd_Subdomain claimed; wi_WorkloadID := cd_WorkloadID claimed |}) None ∈ tr2 ∧
  ev (ReportLifecycle (w_Name w) (cd_WorkloadID claimed) lifecyclePhaseActive "" false) None ∈ tr2.
Proof.
  intros Hid Hcfg He1 Hin Hnew He2 Hall.
  destruct (create_claimed_creates r wc tok snap claimed tr1 snap' w0 w He1 Hin) as (raw & Hc & ->).
  destruct Hnew as (Hl & Hns & Ht & Hcf & Hu & Hsd & Hsus & Hrep & Hfind). cbn [new_workload w_Spec] in *.
  simpl in Ht, Hcf, Hu, Hsd, Hsus, Hns.
  assert (is_ok (render w) = true) as Hr by (eapply checked_config_renders; eauto using checked_config_nonempty).
  destruct (render w) as [rd|] eqn:Hrd; [|done].
  destruct (first_reconcile_tells w Hfind Hsus Hrep rd _ _ _ Hrd He2 Hall) as [Hown Hact].
  assert (w_Labels w !! WorkloadID = Some (cd_WorkloadID claimed)) as Hlab.
  { rewrite Hl. unfold w_Labels. simpl. rewrite decide_False by done. by simplify_map_eq. }
  split_and!.
  - rewrite (Reconcile_coop (w_Spec w) _ _ w rd tr2 res eq_refl Hrd He2).
    + unfold settled_result. rewrite Hsus. change (spec_replicas (w_Spec w)) with (desiredReplicaCount w).
      by rewrite (proj2 (Z.ltb_lt _ _) Hrep).
    + eapply Forall_impl; [exact Hall|]. by intros e [].
  - unfold told_owner, ownership in Hown. by rewrite Hlab, Hns, Hsd, Ht, Hu in Hown.
  - unfold told_active in Hact. by rewrite Hlab in Hact.
Qed.
