(* ===== verification/Main.v ===== *)
(** * Main: the operator's start-up

    [cmd/main.go]: the options of the manager and its servers, [setupConvexIntegration],
    which builds the components from the environment variables and adds them to the
    manager, and [main], which returns the exit code of the process.  Parsing the
    command line ([flag.Parse]), building the manager and running what was added to it
    are the libraries': the flags are an argument, the rest are [Setup] steps whose
    answers are arbitrary. *)

From S2P Require Import Prelude.
From S2P Require Import Effects.
From S2P Require Import Go.
From S2P Require Import Duration.
From S2P Require Import Json.
From S2P Require Import Api.
From S2P Require Import Manager.
From S2P Require Import Calls.
From S2P Require Import Controller.
From S2P Require Import Capacity.
From S2P Require Import Provisioning.
From S2P Require Import TokenStore.
From S2P Require Import Metrics.
From S2P Require Import ConvexClient.
From S2P Require Import Runnable.
From S2P Require Import Proxy.
From S2P Require Import PodExec.
From S2P Require Import Server.

Local Open Scope prog_scope.

(** ** The options of the manager *)

Record Flags := {
  fl_metricsAddr : string;
  fl_probeAddr : string;
  fl_enableLeaderElection : bool;
  fl_secureMetrics : bool;
  fl_webhookCertPath : string;
  fl_webhookCertName : string;
  fl_webhookCertKey : string;
  fl_metricsCertPath : string;
  fl_metricsCertName : string;
  fl_metricsCertKey : string;
  fl_enableHTTP2 : bool;
}.

(** The values of the flags that are not given. *)
Definition default_flags : Flags := {|
  fl_metricsAddr := "0"; fl_probeAddr := ":8081"; fl_enableLeaderElection := false;
  fl_secureMetrics := true;
  fl_webhookCertPath := ""; fl_webhookCertName := "tls.crt"; fl_webhookCertKey := "tls.key";
  fl_metricsCertPath := ""; fl_metricsCertName := "tls.crt"; fl_metricsCertKey := "tls.key";
  fl_enableHTTP2 := false |}.

Definition disableHTTP2 (c : TLSConfig) : TLSConfig := {| tls_NextProtos := ["http/1.1"] |}.

Definition tlsOpts (f : Flags) : list (TLSConfig → TLSConfig) :=
  if fl_enableHTTP2 f then [] else [disableHTTP2].

Definition webhookServerOptions (f : Flags) : WebhookOptions :=
  if decide (fl_webhookCertPath f ≠ "") then {|
    wo_TLSOpts := tlsOpts f; wo_CertDir := fl_webhookCertPath f;
    wo_CertName := fl_webhookCertName f; wo_KeyName := fl_webhookCertKey f |}
  else {| wo_TLSOpts := tlsOpts f; wo_CertDir := ""; wo_CertName := ""; wo_KeyName := "" |}.

Definition metricsServerOptions (f : Flags) : MetricsOptions :=
  let certs := bool_decide (fl_metricsCertPath f ≠ "") in {|
    mo_BindAddress := fl_metricsAddr f;
    mo_SecureServing := fl_secureMetrics f;
    mo_TLSOpts := tlsOpts f;
    mo_FilterProvider := fl_secureMetrics f;
    mo_CertDir := if certs then fl_metricsCertPath f else "";
    mo_CertName := if certs then fl_metricsCertName f else "";
    mo_KeyName := if certs then fl_metricsCertKey f else "" |}.

Definition manager_options (f : Flags) : ManagerOptions := {|
  op_CacheDisableFor := ["Secret"];
  op_Metrics := metricsServerOptions f;
  op_WebhookServer := webhookServerOptions f;
  op_HealthProbeBindAddress := fl_probeAddr f;
  op_LeaderElection := fl_enableLeaderElection f;
  op_LeaderElectionID := "75dfcc5e.aicloud.dev" |}.

(** ** setupConvexIntegration *)

Definition environ : Type := gmap string string.

Definition Getenv (env : environ) (k : string) : string := default "" (env !! k).
Definition LookupEnv (env : environ) (k : string) : option string := env !! k.

Definition required_env : list string :=
  ["CONVEX_BASE_URL"; "OPERATOR_NAME"; "OPERATOR_EXTERNAL_URL"; "POD_NAMESPACE"; "WORKLOAD_NAMESPACE"].

Definition missingRequiredEnv (env : environ) : bool :=
  existsb (λ k, bool_decide (Getenv env k = "")) required_env.

(** What the manager runs, next to the reconciler. *)
Record Wiring := {
  wire_tracker : Tracker;
  wire_runnable : Runnable;
  wire_reporter : Reporter;
  wire_server : Server;
}.

(** Early return of [fmt.Errorf("...: %w", err)], or of the error itself. *)
Definition or_return {A B} (wrap : goerr → goerr) (p : program (result goerr A))
    (k : A → program (result goerr B)) : program (result goerr B) :=
  x <- p ;;
  match x with Err err => Ret (Err (wrap err)) | Ok a => k a end.

Definition or_return_err {B} (wrap : goerr → goerr) (p : program (option goerr))
    (k : program (result goerr B)) : program (result goerr B) :=
  x <- p ;;
  match x with Some err => Ret (Err (wrap err)) | None => k end.

Section Main.
Context `{!GoStd, !GoNet, !KubeLib}.

Definition env_duration (env : environ) (k : string) (otherwise : Z) : result goerr Z :=
  let raw := Getenv env k in
  if decide (raw = "") then Ok otherwise else
  match ParseDuration raw with
  | Err err => Err (ENew ("invalid " +:+ k +:+ ": " +:+ Error err))
  | Ok d => Ok d
  end.

Definition defaultHeartbeatInterval : Z := 30 * 1000000000.
Definition defaultMetricsReportInterval : Z := 5 * 60 * 1000000000.

Definition apiListenAddr (env : environ) : string :=
  let addr := Getenv env "API_LISTEN_ADDR" in
  if decide (addr = "") then ":8443" else addr.

Definition client_config (env : environ) (enrollmentSecret : string) : Config := {|
  cf_BaseURL := Getenv env "CONVEX_BASE_URL";
  cf_EnrollmentSecret := enrollmentSecret;
  cf_OperatorName := Getenv env "OPERATOR_NAME";
  cf_ExternalURL := Getenv env "OPERATOR_EXTERNAL_URL";
  cf_Metadata := ∅;
  cf_Version := Getenv env "OPERATOR_VERSION";
  cf_Tags := operatorTags (LookupEnv env "OPERATOR_TAGS") |}.

Definition new_runnable (env : environ) (enrollmentSecret : string) (heartbeatInterval : Z)
    (workloadCreator : WorkloadCreator) (workloadDestroyer : WorkloadDestroyer)
    (capacityTracker : Tracker) (metricsCollector : Collector) : Runnable := NewRunnable {|
  rcf_Client := client_config env enrollmentSecret;
  rcf_Store := NewStore (Getenv env "POD_NAMESPACE");
  rcf_Enrollment := NewEnrollmentSecretWatcher "";
  rcf_HeartbeatInterval := heartbeatInterval;
  rcf_Creator := Some workloadCreator;
  rcf_Destroyer := Some workloadDestroyer;
  rcf_Capacity := Some capacityTracker;
  rcf_Usage := Some metricsCollector |}.

Definition new_server (env : environ) (gatewaySigningSecret : string) (proxy : ServiceProxy)
    (workloadCreator : WorkloadCreator) (workloadDestroyer : WorkloadDestroyer) : Server := NewServer {|
  scf_ListenAddr := apiListenAddr env;
  scf_GatewaySecret := gatewaySigningSecret;
  scf_Proxy := proxy;
  scf_Creator := workloadCreator;
  scf_Destroyer := workloadDestroyer;
  scf_Namespace := Getenv env "WORKLOAD_NAMESPACE" |}.

Definition missing_env_error : goerr := ENew
  ("CONVEX_BASE_URL, OPERATOR_NAME, OPERATOR_EXTERNAL_URL, " +:+
   "POD_NAMESPACE, and WORKLOAD_NAMESPACE must all be set").

(** The enrollment secret, the signing key and the namespace. *)
Definition prepare (env : environ) : program (result goerr (string * string)) :=
  if missingRequiredEnv env then Ret (Err missing_env_error) else
  or_return (wrapf "reading initial enrollment secret: ") (Current (NewEnrollmentSecretWatcher "")) (λ enrollmentSecret,
  if decide (enrollmentSecret = "") then Ret (Err (ENew "enrollment secret file is empty")) else
  or_return (wrapf "loading or generating gateway signing key: ")
    (LoadOrGenerate (NewKeyStore (Getenv env "POD_NAMESPACE"))) (λ gatewaySigningSecret,
  or_return_err (wrapf "ensuring workload namespace: ") (EnsureNamespace (Getenv env "WORKLOAD_NAMESPACE"))
    (Ret (Ok (enrollmentSecret, gatewaySigningSecret))))).

(** [host] is the address of the API server in [mgr.GetConfig()]. *)
Definition setupConvexIntegration (env : environ) (host : string) : program (result goerr Wiring) :=
  let namespace := Getenv env "WORKLOAD_NAMESPACE" in
  or_return id (prepare env) (λ '(enrollmentSecret, gatewaySigningSecret),
  or_return id (Ret (env_duration env "HEARTBEAT_INTERVAL" defaultHeartbeatInterval)) (λ heartbeatInterval,
  let workloadCreator := NewWorkloadCreator namespace in
  let workloadDestroyer := NewWorkloadDestroyer namespace in
  let capacityTracker := NewTracker namespace in
  or_return_err id (perform (Setup (MgrAdd CapacityTracker))) (
  or_return (wrapf "building metrics collector: ") (NewCollector namespace) (λ metricsCollector,
  let convexRunnable := new_runnable env enrollmentSecret heartbeatInterval workloadCreator workloadDestroyer
                          capacityTracker metricsCollector in
  or_return_err id (perform (Setup (MgrAdd ConvexRunnable))) (
  or_return id (Ret (env_duration env "METRICS_REPORT_INTERVAL" defaultMetricsReportInterval)) (λ metricsReportInterval,
  let metricsReporter := NewReporter metricsCollector metricsReportInterval in
  or_return_err id (perform (Setup (MgrAdd MetricsReporter))) (
  or_return (wrapf "building gateway service proxy: ") (NewServiceProxy host namespace) (λ proxy,
  or_return_err (wrapf "building pod executor: ") NewExecutor (
  let apiServer := new_server env gatewaySigningSecret proxy workloadCreator workloadDestroyer in
  or_return_err id (perform (Setup (MgrAdd ApiServer)))
    (Ret (Ok {| wire_tracker := capacityTracker; wire_runnable := convexRunnable;
                wire_reporter := metricsReporter; wire_server := apiServer |}))))))))))).

(** ** main *)

Definition maxConcurrentReconciles : Z := 5.

Definition controller_spec : ControllerSpec := {|
  cs_Name := "workload"; cs_For := "Workload"; cs_Owns := ["Deployment"; "Service"];
  cs_MaxConcurrentReconciles := maxConcurrentReconciles |}.

Definition SetupWithManager : program (option goerr) := perform (Setup (CompleteController controller_spec)).

(** [os.Exit(1)] when a step fails. *)
Definition or_exit (p : program (option goerr)) (k : program Z) : program Z :=
  x <- p ;;
  match x with Some _ => Ret 1%Z | None => k end.

Definition main (flags : Flags) (env : environ) (host : string) : program Z :=
  or_exit (perform (Setup GetConfigOrDie)) (
  or_exit (perform (Setup (NewManager (manager_options flags)))) (
  wired <- setupConvexIntegration env host ;;
  match wired with
  | Err _ => Ret 1%Z
  | Ok _ =>
      or_exit SetupWithManager (
      or_exit (perform (Setup (AddHealthzCheck "healthz"))) (
      or_exit (perform (Setup (AddReadyzCheck "readyz"))) (
      or_exit (perform (Setup MgrStart)) (Ret 0%Z))))
  end)).

End Main.
