(* ===== verification/MainFacts.v ===== *)
(** * MainFacts: what a started operator consists of *)

From S2P Require Import Prelude.
From S2P Require Import Effects.
From S2P Require Import Go.
From S2P Require Import Duration.
From S2P Require Import Json.
From S2P Require Import Api.
From S2P Require Import Manager.
From S2P Require Import Calls.
From S2P Require Import Capacity.
From S2P Require Import Provisioning.
From S2P Require Import TokenStore.
From S2P Require Import Metrics.
From S2P Require Import ConvexClient.
From S2P Require Import Runnable.
From S2P Require Import Proxy.
From S2P Require Import PodExec.
From S2P Require Import Server.
From S2P Require Import Main.

(** The kind of object a call of the client reads, from the cache of the manager
    unless the kind is excluded from it. *)
Definition read_kind (c : call) : option string :=
  match c with
  | KGetWorkload _ | KCreateOrUpdateWorkload _ _ => Some "Workload"
  | KCreateOrUpdateDeployment _ _ | KGetDeployment _ | KListDeployments _ _ => Some "Deployment"
  | KCreateOrUpdateService _ _ | KGetService _ => Some "Service"
  | KListPods _ _ => Some "Pod"
  | KListNodes => Some "Node"
  | KGetSecret _ => Some "Secret"
  | _ => None
  end.

Definition reads_cache (opts : ManagerOptions) (c : call) : Prop :=
  match read_kind c with Some kind => kind ∉ op_CacheDisableFor opts | None => False end.

(** The registrations with the manager that succeeded, in order. *)
Definition registration (e : event answer) : list setup_step :=
  match e with
  | existT (Setup (MgrAdd c)) None => [MgrAdd c]
  | existT (Setup (CompleteController spec)) None => [CompleteController spec]
  | existT (Setup (AddHealthzCheck name)) None => [AddHealthzCheck name]
  | existT (Setup (AddReadyzCheck name)) None => [AddReadyzCheck name]
  | _ => []
  end.

Definition registrations (h : trace) : list setup_step := flat_map registration h.

Definition components : list setup_step :=
  [MgrAdd CapacityTracker; MgrAdd ConvexRunnable; MgrAdd MetricsReporter; MgrAdd ApiServer].

Definition all_registered : list setup_step :=
  components ++ [CompleteController controller_spec; AddHealthzCheck "healthz"; AddReadyzCheck "readyz"].

(** A call that gives the signing key: the Secret of the key store was read with it, or
    created with it. *)
Definition provides_key (ks : KeyStore) (key : string) (e : event answer) : Prop :=
  match e with
  | existT (KGetSecret ref) (Ok sec) => ref = signing_key_ref ks ∧ secret_data sec keySigningKey = key
  | existT (KCreateSecret sec) (Ok _) => sec = key_secret ks key
  | _ => False
  end.

Definition reads_enrollment (secret : string) (e : event answer) : Prop :=
  match e with
  | existT (ReadFile path) (Ok data) => path = EnrollmentSecretPath ∧ strings_TrimSpace data = secret
  | _ => False
  end.

(** Every part that touches workloads is confined to the namespace [ns]. *)
Definition confined_to (ns : string) (w : Wiring) : Prop :=
  wire_tracker w = {| tr_namespace := ns |} ∧
  rn_creator (wire_runnable w) = Some {| wc_namespace := ns |} ∧
  rn_destroyer (wire_runnable w) = Some {| wd_namespace := ns |} ∧
  rn_capacity (wire_runnable w) = Some {| tr_namespace := ns |} ∧
  rn_usage (wire_runnable w) = Some {| cl_namespace := ns |} ∧
  rp_collector (wire_reporter w) = {| cl_namespace := ns |} ∧
  sv_creator (wire_server w) = {| wc_namespace := ns |} ∧
  sv_destroyer (wire_server w) = {| wd_namespace := ns |} ∧
  sp_namespace (sv_proxy (wire_server w)) = ns ∧
  sv_namespace (wire_server w) = ns.

Section MainFacts.
Context `{!GoStd, !GoNet, !KubeLib}.

(** What is ready before the components are built. *)
Definition prepared (env : environ) (secret key : string) (h : trace) : Prop :=
  Forall (λ k, Getenv env k ≠ "") required_env ∧ secret ≠ "" ∧
  (∃ e, e ∈ h ∧ reads_enrollment secret e) ∧
  (∃ e, e ∈ h ∧ provides_key (NewKeyStore (Getenv env "POD_NAMESPACE")) key e) ∧
  (∃ e, e ∈ h ∧ labels_namespace (Getenv env "WORKLOAD_NAMESPACE") e).

Lemma registrations_app h1 h2 : registrations (h1 ++ h2) = registrations h1 ++ registrations h2.
Proof. apply flat_map_app. Qed.

Lemma Exists_app_l {A} (P : A → Prop) h ext : (∃ e, e ∈ h ∧ P e) → ∃ e, e ∈ h ++ ext ∧ P e.
Proof. setoid_rewrite elem_of_app. naive_solver. Qed.

Lemma Exists_snoc {A} (P : A → Prop) h e : P e → ∃ e', e' ∈ h ++ [e] ∧ P e'.
Proof. intros. exists e. split; [apply elem_of_app; right; left|done]. Qed.

Lemma prepared_app env secret key h ext : prepared env secret key h → prepared env secret key (h ++ ext).
Proof. intros (? & ? & ? & ? & ?). split_and!; auto using Exists_app_l. Qed.

Lemma required_present env : missingRequiredEnv env = false → Forall (λ k, Getenv env k ≠ "") required_env.
Proof.
  unfold missingRequiredEnv. induction required_env as [|k ks IH]; simpl; [done|].
  rewrite orb_false_iff. intros [Hk Hks]. constructor; [|auto]. by apply bool_decide_eq_false in Hk.
Qed.

Lemma LoadOrGenerate_provides ks h :
  wp h (LoadOrGenerate ks) (λ h' res, ∀ key, res = Ok key → ∃ e, e ∈ h' ∧ provides_key ks key e).
Proof.
  unfold LoadOrGenerate, generate. prog_run; intros key Hk; simplify_eq; try (by apply Exists_snoc);
    by apply Exists_app_l, Exists_snoc.
Qed.

Lemma EnsureNamespace_labels name h :
  wp h (EnsureNamespace name) (λ h' res, res = None → ∃ e, e ∈ h' ∧ labels_namespace name e).
Proof. unfold EnsureNamespace. prog_run; try done; intros _; by apply Exists_snoc. Qed.

Lemma Current_reads h :
  wp h (Current (NewEnrollmentSecretWatcher "")) (λ h' res, ∀ s, res = Ok s → ∃ e, e ∈ h' ∧ reads_enrollment s e).
Proof. unfold Current. prog_run; intros s Hs; simplify_eq. by apply Exists_snoc. Qed.

(** Running on, with the history extended and what the first part promises. *)
Lemma wp_then {X Y} h (p : program X) (f : X → program Y) (P : trace → X → Prop) Q :
  wp h p P → (∀ ext x, P (h ++ ext) x → wp (h ++ ext) (f x) Q) → wp h (prog_bind p f) Q.
Proof.
  intros Hp Hf. rewrite wp_bind. eapply wp_mono; [|apply wp_and; [apply wp_history|exact Hp]].
  intros h' x [[ext ->] Hx]. by apply Hf.
Qed.

Lemma prepare_wp env h :
  wp h (prepare env) (λ h' res, ∀ secret key, res = Ok (secret, key) → prepared env secret key h').
Proof.
  unfold prepare, or_return, or_return_err.
  destruct (missingRequiredEnv env) eqn:Hm; [done|]. apply required_present in Hm.
  eapply wp_then; [apply Current_reads|]. intros ext1 [secret|err] Hread; [|done].
  destruct (decide _) as [|Hs]; [done|].
  eapply wp_then; [apply LoadOrGenerate_provides|]. intros ext2 [key|err] Hkey; [|done].
  eapply wp_then; [apply EnsureNamespace_labels|]. intros ext3 [err|] Hns; [done|].
  intros secret' key' [= <- <-]. split_and!; auto using Exists_app_l.
Qed.

Definition wired (env : environ) (tr : trace) (w : Wiring) : Prop :=
  confined_to (Getenv env "WORKLOAD_NAMESPACE") w ∧
  rn_store (wire_runnable w) = {| st_namespace := Getenv env "POD_NAMESPACE" |} ∧
  rn_tokens (wire_runnable w) = no_tokens ∧
  prepared env (cf_EnrollmentSecret (rn_client (wire_runnable w))) (sv_gatewaySecret (wire_server w)) tr.

Lemma setup_wp env host :
  wp [] (setupConvexIntegration env host) (λ h res, ∀ w, res = Ok w → wired env h w ∧
    Ok (rn_heartbeatInterval (wire_runnable w)) = env_duration env "HEARTBEAT_INTERVAL" defaultHeartbeatInterval ∧
    Ok (rp_interval (wire_reporter w)) = env_duration env "METRICS_REPORT_INTERVAL" defaultMetricsReportInterval).
Proof.
  unfold setupConvexIntegration, or_return at 1.
  eapply wp_then; [apply prepare_wp|]. intros ext [[secret key]|err] Hp; [|done].
  specialize (Hp _ _ eq_refl). simpl in Hp.
  unfold or_return, or_return_err, NewCollector, NewServiceProxy, NewExecutor.
  prog_run; intros w Hw; simplify_eq; (split; [split_and!|by split]); try done; repeat apply prepared_app; done.
Qed.

(** C23. When [setupConvexIntegration] succeeds, every required variable is set, the
    enrollment secret is the non-empty content of the mounted file, the session
    cookies of the API server are signed with the key of the Secret in the operator's
    own namespace, the namespace of the workloads carries the pod security labels, the
    tokens are kept in the operator's own namespace, and the capacity tracker, the
    Convex runnable, the metrics reporter, the gateway proxy and the API server are all
    confined to that one namespace of the workloads. *)
Theorem setup_wires_operator env host tr w :
  exec (setupConvexIntegration env host) tr (Ok w) → wired env tr w.
Proof. intros He. by apply (wp_sound _ _ _ _ (setup_wp env host) He). Qed.

(** Registration does not touch the interval. *)
Lemma loadOrRegister_interval r h :
  wp h (loadOrRegister r) (λ _ res, rn_heartbeatInterval res.2 = rn_heartbeatInterval r).
Proof.
  assert (∀ h, wp h (register r) (λ _ res, rn_heartbeatInterval res.2 = rn_heartbeatInterval r)) as Hreg.
  { intros h'. unfold register. rewrite wp_bind. apply wp_trivial. intros h'' [t|err]; [|done].
    rewrite wp_bind. apply wp_trivial. by intros ? [err|]. }
  unfold loadOrRegister. rewrite wp_bind. apply wp_trivial. intros h1 [[t []]|err]; try apply Hreg.
  rewrite wp_bind. apply wp_trivial. intros h2 [hb|err]; [|apply Hreg].
  destruct (fingerprints_match _ _); [done|apply Hreg].
Qed.

Lemma Start_needs_interval r n tr res r' :
  (rn_heartbeatInterval r ≤ 0)%Z → exec (Start r n) tr (res, r') → res ≠ None.
Proof.
  intros Hi He. apply (wp_sound (Start r n) (λ _ x, x.1 ≠ None) tr (res, r')); [|done].
  unfold Start. rewrite wp_bind. eapply wp_mono; [|apply loadOrRegister_interval].
  intros h [[err|] r1] Hr; simpl in *; [done|]. destruct (_ <=? 0)%Z eqn:Hle; [done|].
  apply Z.leb_gt in Hle. lia.
Qed.

(** *** Before the manager runs *)

(** What the start-up asks for: nothing of the kinds in the cache. *)
Definition starting_call (c : call) : Prop :=
  match c with
  | ReadFile _ | RandRead _ | KGetSecret _ | KCreateSecret _ | KCreateNamespace _ | KPatchNamespace _
  | Setup _ | ParseHost _ => True
  | _ => False
  end.

(** ... and of the preparations nothing is a step of the manager. *)
Definition preparing_call (c : call) : Prop :=
  starting_call c ∧ match c with Setup _ => False | _ => True end.

Lemma prepare_calls env h : safe (λ _, preparing_call) h (prepare env).
Proof.
  unfold prepare, or_return, or_return_err, Current, LoadOrGenerate, generate, EnsureNamespace, preparing_call.
  prog_calls.
Qed.

Lemma preparing_registers_nothing ext :
  Forall (λ e : event answer, preparing_call (projT1 e)) ext → registrations ext = [].
Proof.
  induction 1 as [|[[] a] ext He _ IH]; simpl; [done|..]; try done; by destruct He.
Qed.

Definition step_call (c : call) : Prop :=
  match c with Setup MgrStart => False | _ => starting_call c end.

Lemma setup_calls env host h : safe (λ _, step_call) h (setupConvexIntegration env host).
Proof.
  unfold setupConvexIntegration, or_return at 1. rewrite safe_bind. split.
  - eapply safe_mono; [|apply prepare_calls]. intros _ c [Hc Hs]. by destruct c.
  - apply wp_trivial. intros h' [[secret key]|err]; [|done].
    unfold or_return, or_return_err, NewCollector, NewServiceProxy, NewExecutor. prog_calls.
Qed.

Lemma setup_registers env host h :
  wp h (setupConvexIntegration env host) (λ h' res, ∀ w, res = Ok w → registrations h' = registrations h ++ components).
Proof.
  unfold setupConvexIntegration, or_return at 1.
  eapply wp_then; [apply wp_extends, prepare_calls|].
  intros ext [[secret key]|err] (ext' & Heq & HF); [|done]. apply app_inv_head in Heq as <-.
  unfold or_return, or_return_err, NewCollector, NewServiceProxy, NewExecutor.
  prog_run; intros w Hw; simplify_eq; rewrite !registrations_app, (preparing_registers_nothing ext) by done;
    simpl; rewrite ?app_nil_r, <- ?app_assoc; done.
Qed.

Lemma main_calls flags env host h : safe (λ _, starting_call) h (main flags env host).
Proof.
  unfold main, or_exit, SetupWithManager. prog_run; try done; [|apply wp_trivial; intros; prog_run; done].
  eapply safe_mono; [|apply setup_calls]. intros ? c Hc. by destruct c.
Qed.

Lemma starting_uncached flags c : starting_call c → ¬ reads_cache (manager_options flags) c.
Proof. destruct c; unfold reads_cache; simpl; try done; auto. intros _ Hn. apply Hn. left. Qed.

(** C25. The manager of the operator serves cached reads only once it runs, and the
    start-up respects that: no call [main] makes before or while starting it, in any
    run, reads a kind of object that the options of the manager leave in the cache. *)
Theorem startup_reads_uncached flags env host tr code :
  exec (main flags env host) tr code →
  Forall (λ e, ¬ reads_cache (manager_options flags) (projT1 e)) tr.
Proof.
  intros He. eapply Forall_impl; [eapply safe_exec; [|exact He]|].
  - apply (main_calls flags env host []).
  - intros e. apply starting_uncached.
Qed.

(** The manager is started with everything registered. *)
Definition start_guard (h : trace) (c : call) : Prop :=
  match c with Setup MgrStart => registrations h = all_registered | _ => True end.

(** The manager ran to its end without an error. *)
Definition ran (e : event answer) : Prop :=
  match e with existT (Setup MgrStart) None => True | _ => False end.

Definition exit_code_spec (h : trace) (code : Z) : Prop :=
  code = 0%Z ∧ (∃ e, last h = Some e ∧ ran e) ∨ code = 1%Z ∧ ¬ ∃ e, last h = Some e ∧ ran e.

Lemma exit_failed h c a : ¬ ran (existT c a) → exit_code_spec (h ++ [existT c a]) 1.
Proof. intros Hn. right. split; [done|]. intros (e & Hl & He). rewrite last_snoc in Hl. by simplify_eq. Qed.

Lemma main_start_safe flags env host : safe start_guard [] (main flags env host).
Proof.
  unfold main, or_exit, SetupWithManager. prog_run; try done.
  - eapply safe_mono; [|apply setup_calls]. intros ? c Hc. destruct c; try done. by destruct step.
  - eapply wp_mono; [|apply setup_registers]. intros h [w|err] Hr; [|done].
    specialize (Hr w eq_refl). prog_run; try done. simpl.
    rewrite !registrations_app, Hr. done.
Qed.

Lemma main_exit_code flags env host h : wp h (main flags env host) exit_code_spec.
Proof.
  unfold main, or_exit, SetupWithManager. prog_run; try (apply exit_failed; by intros []).
  eapply wp_mono; [|apply wp_extends, setup_calls]. intros h' [w|err] (ext & -> & HF); simpl.
  - prog_run; try (apply exit_failed; by intros []). left. split; [done|]. rewrite last_snoc. by eexists.
  - destruct ext as [|[c a] ext _] using rev_ind; [rewrite app_nil_r; apply exit_failed; by intros []|].
    rewrite app_assoc. apply exit_failed. apply Forall_app in HF as [_ HF]. inversion HF as [|? ? Hc]; subst.
    destruct c; try by intros []. destruct step; simpl in *; tauto.
Qed.

(** C24. [main] starts the manager only when the capacity tracker, the Convex runnable,
    the metrics reporter and the API server were added to it, the controller was
    completed and both probes were set up, in this order and each without an error; and
    it ends with exit code 0 exactly when the last thing it did was to run the manager
    to its end without an error, with exit code 1 otherwise. *)
Theorem manager_started_when_ready flags env host tr code :
  exec (main flags env host) tr code →
  guarded start_guard [] tr ∧  exit_code_spec tr code.
Proof.
  intros He. split; [by eapply safe_guarded, He; apply main_start_safe|].
  by apply (wp_sound _ _ _ _ (main_exit_code flags env host [])).
Qed.

(** *** Another interval *)

Definition set_interval (raw : string) (env : environ) : environ := <["HEARTBEAT_INTERVAL" := raw]> env.

Lemma Getenv_other raw env k : k ≠ "HEARTBEAT_INTERVAL" → Getenv (set_interval raw env) k = Getenv env k.
Proof. intros Hk. unfold Getenv, set_interval, environ in *. by rewrite (lookup_insert_ne (M := gmap string)). Qed.

Lemma prepare_interval raw env : prepare (set_interval raw env) = prepare env.
Proof. unfold prepare, missingRequiredEnv. simpl. by rewrite !Getenv_other. Qed.

Lemma interval_set raw env d :
  ParseDuration raw = Ok d → raw ≠ "" →
  env_duration (set_interval raw env) "HEARTBEAT_INTERVAL" defaultHeartbeatInterval = Ok d.
Proof.
  intros Hd Hne. unfold env_duration, Getenv, set_interval, environ. rewrite (lookup_insert_eq (M := gmap string)). simpl.
  by rewrite decide_False, Hd.
Qed.

Lemma interval_kept raw env otherwise :
  env_duration (set_interval raw env) "METRICS_REPORT_INTERVAL" otherwise =
  env_duration env "METRICS_REPORT_INTERVAL" otherwise.
Proof. unfold env_duration. by rewrite Getenv_other. Qed.

(** A step of a successful run answered without an error. *)
Ltac step_ok He := destruct He as ([?|] & ? & -> & He); [by destruct He|]; cbn in He.

(** The set-up succeeds with one interval when it succeeds with another. *)
Lemma setup_interval env host raw d tr w :
  ParseDuration raw = Ok d → raw ≠ "" → exec (setupConvexIntegration env host) tr (Ok w) →
  ∃ w', exec (setupConvexIntegration (set_interval raw env) host) tr (Ok w') ∧
    rn_heartbeatInterval (wire_runnable w') = d.
Proof.
  intros Hd Hne He. unfold setupConvexIntegration in *. rewrite prepare_interval.
  apply exec_bind in He as (t1 & t2 & [[secret key]|err] & -> & Hp & He); [|by destruct He].
  unfold or_return, or_return_err, NewCollector, NewServiceProxy, NewExecutor in *. cbn in He.
  destruct (env_duration env "HEARTBEAT_INTERVAL" _) as [d0|]; [|by destruct He].
  do 3 step_ok He.
  destruct (env_duration env "METRICS_REPORT_INTERVAL" _) as [d1|] eqn:Hd1; [|by destruct He].
  do 2 step_ok He. destruct He as ([[scheme h]|e] & ? & -> & He); [|by destruct He]. cbn in He.
  do 2 step_ok He. destruct He as [-> _]. eexists. split.
  - apply exec_bind. eexists t1, _, (Ok (secret, key)). split; [reflexivity|]. split; [exact Hp|].
    cbn. rewrite (interval_set _ _ d) by done. cbn.
    repeat (eexists _, _; split; [reflexivity|]; cbn; rewrite ?interval_kept, ?Hd1). done.
  - done.
Qed.

(** C32. An interval that is not positive is accepted and then fatal.  Whenever
    [setupConvexIntegration] succeeds, it succeeds just the same, with the same calls and
    answers, when HEARTBEAT_INTERVAL is changed to any duration that is not positive: it
    only checks that the text is a duration.  But the heartbeat loop built with it never
    comes up: no run of its [Start] ends without an error, since [time.NewTicker] panics
    once the registration succeeded. *)
Theorem nonpositive_interval_fatal env host raw d tr w :
  ParseDuration raw = Ok d → raw ≠ "" → (d ≤ 0)%Z →
  exec (setupConvexIntegration env host) tr (Ok w) →
  ∃ w', exec (setupConvexIntegration (set_interval raw env) host) tr (Ok w') ∧
    rn_heartbeatInterval (wire_runnable w') = d ∧
    ∀ n tr' res r', exec (Start (wire_runnable w') n) tr' (res, r') → res ≠ None.
Proof.
  intros Hd Hne Hle He. destruct (setup_interval env host raw d tr w Hd Hne He) as (w' & Hw' & Hi).
  exists w'. split_and!; [done|done|]. intros n tr' res r'. apply Start_needs_interval. lia.
Qed.

End MainFacts.
