(* ===== verification/WorkQueue.v ===== *)
(** * WorkQueue: the reconciler under its controller

    controller-runtime runs [Reconcile] for the keys of a work queue, into which it puts
    a key whenever its informers show a change of an object the controller watches
    ([SetupWithManager]: Workloads, and the Deployments and Services they control), and
    again after a call that failed or asked for a delay.  This file puts the reconciler
    under such a queue and shows that no change is lost: when nothing is left in the
    queue for a Workload, its objects are in their desired state.

    The informers and the queue are parameters: [Informers] are the caches the client
    reads from, [InformerLaws] what is documented of them and of reads and writes through
    the client; [WorkQueue] is the queue of client-go with its documented operations.
    Other clients may do anything to any object.  The one thing asked of them is not a
    law but a condition on the run, for the one Workload a theorem is about: a Deployment
    or a Service under that Workload's name is its own ([reserved]). *)

From S2P Require Import Prelude.
From S2P Require Import Effects.
From S2P Require Import Go.
From S2P Require Import Json.
From S2P Require Import Api.
From S2P Require Import Manager.
From S2P Require Import Calls.
From S2P Require Import Catalog.
From S2P Require Import CatalogTemplates.
From S2P Require Import Controller.
From S2P Require Import ControllerFacts.
From S2P Require Import ControllerStatus.
From S2P Require Import ControllerRest.
From S2P Require Import Cluster.
From S2P Require Import Main.

(** ** The caches *)

Class Informers (S : Type) `{!KubeApi S} := {
  view_workload : S → NamespacedName → option Workload;
  view_deployment : S → NamespacedName → option Deployment;
  view_service : S → NamespacedName → option Service;
  (* what the API server has *)
  api_deployment : S → NamespacedName → option Deployment;
  api_service : S → NamespacedName → option Service;
  (* all events on the objects under a name have been delivered *)
  up_to_date : S → NamespacedName → Prop;
}.

(** The three caches show the same of [k]. *)
Definition same_views {S : Type} `{!KubeApi S, !Informers S} (s s' : S) (k : NamespacedName) : Prop :=
  view_workload s k = view_workload s' k ∧ view_deployment s k = view_deployment s' k ∧
  view_service s k = view_service s' k.

(** The object is controlled by the Workload [k]: the key [Owns] maps it to. *)
Definition controlled_by (m : ObjectMeta) (k : NamespacedName) : Prop :=
  ∃ ref, ref ∈ om_OwnerReferences m ∧ or_Controller ref = true ∧ or_Kind ref = "Workload" ∧
    k = {| nn_Namespace := om_Namespace m; nn_Name := or_Name ref |}.

Class InformerLaws (S : Type) `{!KubeApi S, !Informers S} : Prop := {
  (* a cache to which everything was delivered shows what the API server has *)
  up_to_date_views (s : S) k :
    up_to_date s k → view_workload s k = api_stored s k ∧ view_deployment s k = api_deployment s k ∧
      view_service s k = api_service s k;
  (* a watch delivers the events one by one, and each shows in the cache: one that is
     behind does not catch up without changing *)
  behind_until_shown (s s' : S) k :
    api_advance s s' → same_views s s' k → up_to_date s' k → up_to_date s k;
  (* the client reads from the cache *)
  read_workload (s s' : S) k w : api_step (KGetWorkload k) s (Ok w) s' → view_workload s k = Some w;
  read_absent (s s' : S) k e :
    api_step (KGetWorkload k) s (Err e) s' → IsNotFound e = true → view_workload s k = None;
  read_deployment (s s' : S) k d :
    api_step (KGetDeployment k) s (Ok d) s' → view_deployment s k = Some d;
  (* a write that succeeded took effect *)
  wrote_workload (s s' : S) w w' x :
    api_step (KUpdateWorkload w) s (Ok w') s' → api_stored s' (w_Key w) = Some x →
    om_Finalizers (w_Meta x) = om_Finalizers (w_Meta w);
  wrote_status (s s' : S) w w' :
    api_step (KStatusUpdateWorkload w) s (Ok w') s' → w_Status w' = w_Status w ∧
    ∀ x, api_stored s' (w_Key w) = Some x → w_Status x = w_Status w;
  wrote_delete (s s' : S) k u x :
    api_step (KDeleteWorkload k) s (Ok u) s' → api_stored s' k = Some x →
    om_DeletionTimestamp (w_Meta x) ≠ None;
  delete_absent (s s' : S) k e :
    api_step (KDeleteWorkload k) s (Err e) s' → IsNotFound e = true → api_stored s' k = None;
  (* CreateOrUpdate creates what the cache does not show; otherwise it writes a new
     version unless the closure leaves the cached object as it is *)
  wrote_deployment (s s' : S) d mutate d' :
    api_step (KCreateOrUpdateDeployment d mutate) s (Ok d') s' →
    match view_deployment s (meta_key (d_Meta d)) with
    | None => api_deployment s' (meta_key (d_Meta d)) ≠ None
    | Some old => mutate old = Ok old ∨ api_deployment s' (meta_key (d_Meta d)) ≠ Some old
    end;
  wrote_service (s s' : S) sv mutate sv' :
    api_step (KCreateOrUpdateService sv mutate) s (Ok sv') s' →
    match view_service s (meta_key (s_Meta sv)) with
    | None => api_service s' (meta_key (s_Meta sv)) ≠ None
    | Some old => mutate old = Ok old ∨ api_service s' (meta_key (s_Meta sv)) ≠ Some old
    end;
}.

(** ** The queue *)

Inductive wq_op :=
| QAdd (k : NamespacedName)
| QGet (k : NamespacedName)
| QDone (k : NamespacedName) (res : ReconcileResult)
| QTick.

Class WorkQueue (Q : Type) := {
  (* queued, delayed, or to be queued again when its worker is done *)
  wq_pending : Q → NamespacedName → Prop;
  wq_busy : Q → NamespacedName → Prop;
  wq_step : wq_op → Q → Q → Prop;
}.

(** The key an operation takes out of the queue. *)
Definition takes (op : wq_op) (k : NamespacedName) : Prop :=
  match op with QGet k' => k = k' | _ => False end.

Definition finishes (op : wq_op) (k : NamespacedName) : Prop :=
  match op with QDone k' _ => k = k' | _ => False end.

Class WorkQueueLaws (Q : Type) `{!WorkQueue Q} : Prop := {
  pending_kept (op : wq_op) (q q' : Q) k :
    wq_step op q q' → wq_pending q k → takes op k ∨ wq_pending q' k;
  busy_kept (op : wq_op) (q q' : Q) k :
    wq_step op q q' → wq_busy q k → finishes op k ∨ wq_busy q' k;
  add_pending (q q' : Q) k : wq_step (QAdd k) q q' → wq_pending q' k;
  (* a key is never with two workers *)
  get_busy (q q' : Q) k : wq_step (QGet k) q q' → ¬ wq_busy q k ∧ wq_busy q' k;
  (* an error or a requested delay brings the key back *)
  done_pending (q q' : Q) k res :
    wq_step (QDone k res) q q' → rc_Err res ≠ None ∨ (0 < rc_RequeueAfter res)%Z → wq_pending q' k;
}.

(** ** The system *)

Section System.
Context `{!GoStd, !KubeLib, !KubeLibLaws}.
Context {S : Type} `{!KubeApi S, !KubeApiLaws S, !Informers S, !InformerLaws S}.
Context {Q : Type} `{!WorkQueue Q, !WorkQueueLaws Q}.

(** Nothing the controller watches for [k] has changed: no Workload of that name, and no
    object it controls. *)
Definition owned_same {O} (meta : O → ObjectMeta) (view : S → NamespacedName → option O)
    (s s' : S) (k : NamespacedName) : Prop :=
  ∀ ko x, view s ko = Some x ∨ view s' ko = Some x → controlled_by (meta x) k →
  view s' ko = view s ko.

Definition unnoticed (spec : ControllerSpec) (s s' : S) (k : NamespacedName) : Prop :=
  (cs_For spec = "Workload" → view_workload s' k = view_workload s k) ∧
  ("Deployment" ∈ cs_Owns spec → owned_same d_Meta view_deployment s s' k) ∧
  ("Service" ∈ cs_Owns spec → owned_same s_Meta view_service s s' k).

Definition adds : relation Q := rtc (λ q q', ∃ k, wq_step (QAdd k) q q').

(** The keys of all watched changes of a step are added to the queue. *)
Definition notifies (spec : ControllerSpec) (s s' : S) (q q' : Q) : Prop :=
  adds q q' ∧ ∀ k, unnoticed spec s s' k ∨ wq_pending q' k.

(** A call of a worker, with the states before and after. *)
Definition entry : Type := S * event answer * S.
Definition entry_event (e : entry) : event answer := e.1.2.

Record worker := { wk_key : NamespacedName; wk_log : list entry; wk_prog : program ReconcileResult }.

Record system := { sy_state : S; sy_queue : Q; sy_workers : list worker }.

(** The informers' initial lists put every Workload they show into the queue. *)
Definition listed (s : S) (q : Q) : Prop := ∀ k, view_workload s k = None ∨ wq_pending q k.

Inductive sys_step (r : WorkloadReconciler) (spec : ControllerSpec) : system → system → Prop :=
| sys_move s s' q q' ws :
    api_advance s s' → notifies spec s s' q q' →
    sys_step r spec {| sy_state := s; sy_queue := q; sy_workers := ws |}
      {| sy_state := s'; sy_queue := q'; sy_workers := ws |}
| sys_tick s q q' ws :
    wq_step QTick q q' →
    sys_step r spec {| sy_state := s; sy_queue := q; sy_workers := ws |}
      {| sy_state := s; sy_queue := q'; sy_workers := ws |}
| sys_get s q q' ws k :
    wq_step (QGet k) q q' →
    sys_step r spec {| sy_state := s; sy_queue := q; sy_workers := ws |}
      {| sy_state := s; sy_queue := q';
         sy_workers := {| wk_key := k; wk_log := []; wk_prog := Reconcile r k |} :: ws |}
| sys_call s s' q q' ws1 ws2 k log c kont a :
    api_step c s a s' → notifies spec s s' q q' →
    sys_step r spec
      {| sy_state := s; sy_queue := q;
         sy_workers := ws1 ++ {| wk_key := k; wk_log := log; wk_prog := Vis c kont |} :: ws2 |}
      {| sy_state := s'; sy_queue := q';
         sy_workers := ws1 ++ {| wk_key := k; wk_log := log ++ [(s, existT c a, s')]; wk_prog := kont a |} :: ws2 |}
| sys_done s q q' ws1 ws2 k log res :
    wq_step (QDone k res) q q' →
    sys_step r spec
      {| sy_state := s; sy_queue := q;
         sy_workers := ws1 ++ {| wk_key := k; wk_log := log; wk_prog := Ret res |} :: ws2 |}
      {| sy_state := s; sy_queue := q'; sy_workers := ws1 ++ ws2 |}
(* the operator stops, at any point, and is started again *)
| sys_restart s q ws q' :
    listed s q' →
    sys_step r spec {| sy_state := s; sy_queue := q; sy_workers := ws |}
      {| sy_state := s; sy_queue := q'; sy_workers := [] |}.

Definition sys_initial (sy : system) : Prop :=
  sy_workers sy = [] ∧ listed (sy_state sy) (sy_queue sy).

(** A cached object is the same before and after, or one of the two is controlled by [k]. *)
Definition noticed {O} (meta : O → ObjectMeta) (k : NamespacedName) (o o' : option O) : Prop :=
  o' = o ∨ ∃ x, (o = Some x ∨ o' = Some x) ∧ controlled_by (meta x) k.

(** The name of the Workload [k] is its own: a Deployment or a Service under that name
    appears, changes or goes in the cache only while it is, or becomes, controlled by the
    Workload.  (A foreign object may have been there before: the reconciler adopts it.) *)
Definition reserved (k : NamespacedName) (s s' : S) : Prop :=
  noticed d_Meta k (view_deployment s k) (view_deployment s' k) ∧
  noticed s_Meta k (view_service s k) (view_service s' k).

(** A step of the system that leaves the name of [k] to its Workload. *)
Definition reserving_step (r : WorkloadReconciler) (spec : ControllerSpec) (k : NamespacedName)
    (sy sy' : system) : Prop :=
  sys_step r spec sy sy' ∧ reserved k (sy_state sy) (sy_state sy').

(** ** The desired state *)

(** The Workload's specification renders; its Deployment and its Service are there and
    as the reconciler would make them; its status is final. *)
Definition in_desired_state (s : S) (k : NamespacedName) (w : Workload) : Prop :=
  om_DeletionTimestamp (w_Meta w) = None ∧
  ContainsFinalizer (w_Meta w) workloadFinalizer = true ∧
  ∃ rd d sv, render w = Ok rd ∧
    api_deployment s k = Some d ∧
    mutate_deployment w (selector_labels w) (object_labels w) rd (desiredReplicaCount w) d = Ok d ∧
    api_service s k = Some sv ∧
    mutate_service w (selector_labels w) (object_labels w) rd sv = Ok sv ∧
    final_status w d w.

(** ** Lemmas on the parameters *)

Lemma adds_pending q q' k : adds q q' → wq_pending q k → wq_pending q' k.
Proof.
  induction 1 as [|q q1 q' [k1 Hq] _ IH]; [done|]. intros Hp.
  destruct (pending_kept _ _ _ _ Hq Hp) as [[]|]. auto.
Qed.

Lemma adds_busy q q' k : adds q q' → wq_busy q k → wq_busy q' k.
Proof.
  induction 1 as [|q q1 q' [k1 Hq] _ IH]; [done|]. intros Hp.
  destruct (busy_kept _ _ _ _ Hq Hp) as [[]|]. auto.
Qed.

(** With the watches of [SetupWithManager] a step that concerns none of the objects of
    [k] by those watches leaves what the caches show of [k]. *)
Lemma unnoticed_views s s' k :
  reserved k s s' → unnoticed controller_spec s s' k → same_views s s' k.
Proof.
  intros [Hrd Hrs] (Hw & Hd & Hsv). specialize (Hw eq_refl).
  specialize (Hd ltac:(set_solver)). specialize (Hsv ltac:(set_solver)).
  split_and!; [done| |].
  - destruct Hrd as [|(x & Hx & Hc)]; [done|]. symmetry. by eapply Hd.
  - destruct Hrs as [|(x & Hx & Hc)]; [done|]. symmetry. by eapply Hsv.
Qed.

Lemma same_views_trans s1 s2 s3 k : same_views s1 s2 k → same_views s2 s3 k → same_views s1 s3 k.
Proof. unfold same_views. intuition congruence. Qed.

Lemma notifies_views s s' q q' k :
  reserved k s s' → notifies controller_spec s s' q q' → same_views s s' k ∨ wq_pending q' k.
Proof. intros Hr [_ Hn]. destruct (Hn k) as [Hu|]; [left; by apply unnoticed_views|by right]. Qed.

(** The results of [Reconcile]. *)
Definition known_result (res : ReconcileResult) : Prop :=
  res = done_result ∨ rc_Err res ≠ None ∨ (0 < rc_RequeueAfter res)%Z.

Lemma Reconcile_results r req h : wp h (Reconcile r req) (λ _, known_result).
Proof.
  assert (known_result requeue_result) by (right; right; done).
  assert (∀ e, known_result (error_result e)) by (intros; right; left; done).
  assert (known_result done_result) by (by left).
  unfold Reconcile, reconcileDelete, ensureFinalizer, reconcileLive, apply, reconcileDeployment,
    reconcileService, setFailed, setFailedWithReason, observe.
  repeat (prog_run; auto; try (apply wp_trivial; intros)).
Qed.

(** ** The invariant, for one key *)

(** The cluster moved on without a change of what the caches show of [k]. *)
Definition unchanged (k : NamespacedName) : relation S := rtc (λ s s', api_advance s s' ∧ same_views s s' k).

Lemma unchanged_views k s s' : unchanged k s s' → same_views s s' k.
Proof.
  induction 1 as [|s s1 s' [_ Hv] _ IH]; [by repeat split|]. by eapply same_views_trans.
Qed.

(** What is up to date now, and has not changed, was so all along. *)
Lemma unchanged_up_to_date k s s' : unchanged k s s' → up_to_date s' k → up_to_date s k.
Proof. induction 1 as [|s s1 s' [Ha Hv] _ IH]; [done|]. intros ?. eapply behind_until_shown; eauto. Qed.

Section Key.
Context (k : NamespacedName).

(** The call was made, and the caches have shown the same of [k] ever since before it. *)
Definition entry_current (now : S) (e : entry) : Prop :=
  let '(pre, evt, post) := e in
  api_step (projT1 evt) pre (projT2 evt) post ∧ same_views pre post k ∧ unchanged k post now.

(** A call that was made at all. *)
Definition entry_true (e : entry) : Prop :=
  let '(pre, evt, post) := e in api_step (projT1 evt) pre (projT2 evt) post.

Definition worker_ok (s : S) (q : Q) (wk : worker) : Prop :=
  wp (entry_event <$> wk_log wk) (wk_prog wk) (λ h res, known_result res ∧ rest_post k h res) ∧
  Forall entry_true (wk_log wk) ∧
  (wq_pending q k ∨ Forall (entry_current s) (wk_log wk)).

(** The last reconciliation of [k] went quiet and saw what the caches show now. *)
Definition rested (s : S) : Prop :=
  view_workload s k = None ∨
  ∃ log, rest_case k (entry_event <$> log) ∧ Forall (entry_current s) log.

Definition sys_inv (sy : system) : Prop :=
  NoDup (wk_key <$> sy_workers sy) ∧
  Forall (λ wk, wq_busy (sy_queue sy) (wk_key wk)) (sy_workers sy) ∧
  Forall (λ wk, wk_key wk = k → worker_ok (sy_state sy) (sy_queue sy) wk) (sy_workers sy) ∧
  (wq_pending (sy_queue sy) k ∨ wq_busy (sy_queue sy) k ∨ rested (sy_state sy)).

Lemma entries_current s s' log :
  api_advance s s' → same_views s s' k → Forall (entry_current s) log → Forall (entry_current s') log.
Proof.
  intros Ha Hv Hf. eapply Forall_impl; [exact Hf|]. intros [[pre evt] post] (? & ? & Hu).
  split_and!; [done|done|]. eapply rtc_r; [exact Hu|done].
Qed.

(** A step of the cluster keeps what was known of a worker that does not move. *)
Lemma worker_ok_advance s s' q q' wk :
  api_advance s s' → reserved k s s' → notifies controller_spec s s' q q' →
  worker_ok s q wk → worker_ok s' q' wk.
Proof.
  intros Ha Hr Hn (Hw & Ht & Hc). pose proof Hn as [Hadds _]. split_and!; [done|done|].
  destruct Hc as [Hp|Hc]; [left; by eapply adds_pending|].
  destruct (notifies_views s s' q q' k Hr Hn) as [Hv|]; [right|by left]. by eapply entries_current.
Qed.

Lemma workers_busy_adds q q' ws :
  adds q q' → Forall (λ wk : worker, wq_busy q (wk_key wk)) ws → Forall (λ wk, wq_busy q' (wk_key wk)) ws.
Proof. intros Ha Hf. eapply Forall_impl; [exact Hf|]. intros. by eapply adds_busy. Qed.

Lemma rested_advance s s' : api_advance s s' → same_views s s' k → rested s → rested s'.
Proof.
  intros Ha Hv [Hr|(log & Hr & Hc)]; [left; destruct Hv; congruence|right].
  exists log. split; [done|]. by eapply entries_current.
Qed.

Lemma key_advance s s' q q' :
  api_advance s s' → reserved k s s' → notifies controller_spec s s' q q' →
  wq_pending q k ∨ wq_busy q k ∨ rested s → wq_pending q' k ∨ wq_busy q' k ∨ rested s'.
Proof.
  intros Ha Hr Hn Hk. pose proof Hn as [Hadds _].
  destruct (notifies_views s s' q q' k Hr Hn) as [Hv|]; [|by left].
  destruct Hk as [|[|]]; [left; by eapply adds_pending|right; left; by eapply adds_busy|].
  right; right. by eapply rested_advance.
Qed.

(** An operation of the queue that neither takes nor finishes a key. *)
Lemma busy_other op q q' ws :
  wq_step op q q' → Forall (λ wk : worker, ¬ finishes op (wk_key wk)) ws →
  Forall (λ wk, wq_busy q (wk_key wk)) ws → Forall (λ wk, wq_busy q' (wk_key wk)) ws.
Proof.
  rewrite !Forall_forall. intros Hq Hn Hb wk Hin. destruct (busy_kept _ _ _ _ Hq (Hb wk Hin)); [|done].
  by destruct (Hn wk Hin).
Qed.

Lemma worker_ok_queue op s q q' wk :
  wq_step op q q' → ¬ takes op k → worker_ok s q wk → worker_ok s q' wk.
Proof.
  intros Hq Hnt (Hw & Ht & Hc). split_and!; [done|done|].
  destruct Hc as [Hp|]; [left|by right]. by destruct (pending_kept _ _ _ _ Hq Hp).
Qed.

Lemma queue_key op s q q' :
  wq_step op q q' → ¬ takes op k → ¬ finishes op k →
  wq_pending q k ∨ wq_busy q k ∨ rested s → wq_pending q' k ∨ wq_busy q' k ∨ rested s.
Proof.
  intros Hq Hnt Hnf [Hp|[Hb|]]; [left|right; left|by right; right].
  - by destruct (pending_kept _ _ _ _ Hq Hp).
  - by destruct (busy_kept _ _ _ _ Hq Hb).
Qed.

Lemma worker_ok_call s s' q q' log c kont a :
  api_step c s a s' → reserved k s s' → notifies controller_spec s s' q q' →
  worker_ok s q {| wk_key := k; wk_log := log; wk_prog := Vis c kont |} →
  worker_ok s' q' {| wk_key := k; wk_log := log ++ [(s, existT c a, s')]; wk_prog := kont a |}.
Proof.
  intros Hs Hr Hn Hw. assert (api_advance s s') as Ha by (right; eauto).
  destruct (worker_ok_advance _ _ _ _ _ Ha Hr Hn Hw) as (_ & Ht & Hc).
  destruct Hw as (Hw & _ & _). simpl in *. split_and!; simpl.
  - rewrite fmap_app. apply Hw.
  - apply Forall_app. split; [done|]. by constructor.
  - destruct Hc as [|Hc]; [by left|].
    destruct (notifies_views s s' q q' k Hr Hn) as [Hv|]; [right|by left].
    apply Forall_app. split; [done|]. constructor; [|done]. split_and!; [done|done|]. apply rtc_refl.
Qed.

Lemma log_status_stored log : Forall entry_true log → Forall status_stored (entry_event <$> log).
Proof.
  intros Hf. apply Forall_fmap. eapply Forall_impl; [exact Hf|].
  intros [[pre [c a]] post] Hs. simpl in *. unfold compose, entry_event. simpl.
  destruct c; try done. destruct a; [|done]. by destruct (wrote_status _ _ _ _ Hs).
Qed.

Lemma worker_done s q q' log res :
  wq_step (QDone k res) q q' →
  worker_ok s q {| wk_key := k; wk_log := log; wk_prog := Ret res |} → wq_pending q' k ∨ rested s.
Proof.
  intros Hq ([Hres Hrest] & Ht & Hc). simpl in *.
  destruct Hres as [->|Hres]; [|left; by eapply done_pending].
  destruct Hc as [Hp|Hc]; [left; by destruct (pending_kept _ _ _ _ Hq Hp)|].
  right; right. exists log. split; [|done].
  apply Hrest; [done|by eapply log_status_stored].
Qed.

Lemma sys_inv_initial sy : sys_initial sy → sys_inv sy.
Proof.
  intros [Hw Hk]. split_and!; rewrite ?Hw; [constructor|done|done|].
  destruct (Hk k); [right; right; by left|by left].
Qed.

(** *** Each kind of step *)

Lemma inv_move s s' q q' ws :
  api_advance s s' → reserved k s s' → notifies controller_spec s s' q q' →
  sys_inv {| sy_state := s; sy_queue := q; sy_workers := ws |} →
  sys_inv {| sy_state := s'; sy_queue := q'; sy_workers := ws |}.
Proof.
  intros Ha Hr Hn (Hnd & Hb & Hws & Hk). simpl in *.
  split_and!; simpl; [done|eapply workers_busy_adds; [apply Hn|done]| |by eapply key_advance].
  eapply Forall_impl; [exact Hws|]. intros wk Hwk Heq. eapply worker_ok_advance; eauto.
Qed.

Lemma inv_tick s q q' ws :
  wq_step QTick q q' → sys_inv {| sy_state := s; sy_queue := q; sy_workers := ws |} →
  sys_inv {| sy_state := s; sy_queue := q'; sy_workers := ws |}.
Proof.
  intros Hq (Hnd & Hb & Hws & Hk). split_and!; simpl in *; [done|..].
  - eapply busy_other; [exact Hq| |done]. apply Forall_true. by intros ? [].
  - eapply Forall_impl; [exact Hws|]. intros wk Hwk Heq. eapply worker_ok_queue; [exact Hq|by intros []|auto].
  - eapply queue_key; [exact Hq|by intros []..|done].
Qed.

Lemma inv_get r s q q' ws k' :
  wq_step (QGet k') q q' → sys_inv {| sy_state := s; sy_queue := q; sy_workers := ws |} →
  sys_inv {| sy_state := s; sy_queue := q';
             sy_workers := {| wk_key := k'; wk_log := []; wk_prog := Reconcile r k' |} :: ws |}.
Proof.
  intros Hq (Hnd & Hbusy & Hws & Hk). simpl in *. destruct (get_busy _ _ _ Hq) as [Hnb Hb].
  assert (k' ∉ wk_key <$> ws) as Hfresh.
  { intros (wk & -> & Hin)%list_elem_of_fmap. rewrite Forall_forall in Hbusy. by apply Hnb, Hbusy. }
  split_and!; simpl; [by constructor|..].
  - constructor; [done|]. eapply busy_other; [exact Hq| |done]. apply Forall_true. by intros ? [].
  - constructor.
    + simpl. intros ->. split_and!; [|done|by right].
      apply wp_and; [apply Reconcile_results|apply Reconcile_rest].
    + apply Forall_forall. intros wk Hin Heq. rewrite Forall_forall in Hws.
      eapply worker_ok_queue; [exact Hq| |by apply Hws].
      simpl. intros <-. apply Hfresh. rewrite <- Heq. by apply list_elem_of_fmap_2.
  - destruct (decide (k = k')) as [->|]; [by right; left|].
    eapply queue_key; [exact Hq|done|by intros []|done].
Qed.

Lemma inv_call s s' q q' ws1 ws2 k' log c kont a :
  api_step c s a s' → reserved k s s' → notifies controller_spec s s' q q' →
  sys_inv {| sy_state := s; sy_queue := q;
             sy_workers := ws1 ++ {| wk_key := k'; wk_log := log; wk_prog := Vis c kont |} :: ws2 |} →
  sys_inv {| sy_state := s'; sy_queue := q';
     sy_workers := ws1 ++ {| wk_key := k'; wk_log := log ++ [(s, existT c a, s')]; wk_prog := kont a |} :: ws2 |}.
Proof.
  intros Hs Hr Hn (Hnd & Hbusy & Hws & Hk). simpl in *.
  assert (api_advance s s') as Ha by (right; eauto).
  apply Forall_app in Hws as [Hws1 [Hw Hws2]%Forall_cons].
  split_and!; simpl; [by rewrite fmap_app in *| | |by eapply key_advance].
  - apply (workers_busy_adds q q') in Hbusy; [|apply Hn]. by rewrite Forall_app, Forall_cons in *.
  - apply Forall_app; split; [|constructor; [simpl; intros ->; eapply worker_ok_call; eauto|]];
      (eapply Forall_impl; [eassumption|]; intros wk Hwk Heq; eapply worker_ok_advance; eauto).
Qed.

Lemma inv_done s q q' ws1 ws2 k' log res :
  wq_step (QDone k' res) q q' →
  sys_inv {| sy_state := s; sy_queue := q;
             sy_workers := ws1 ++ {| wk_key := k'; wk_log := log; wk_prog := Ret res |} :: ws2 |} →
  sys_inv {| sy_state := s; sy_queue := q'; sy_workers := ws1 ++ ws2 |}.
Proof.
  intros Hq (Hnd & Hbusy & Hws & Hk). simpl in *.
  apply Forall_app in Hws as [Hws1 [Hw Hws2]%Forall_cons].
  apply Forall_app in Hbusy as [Hb1 [_ Hb2]%Forall_cons].
  rewrite fmap_app in Hnd. simpl in Hnd. apply NoDup_app in Hnd as (Hnd1 & Hdis & [Hk2 Hnd2]%NoDup_cons).
  assert (k' ∉ wk_key <$> ws1) as Hk1 by (intros Hin; destruct (Hdis k' Hin); left).
  assert (∀ ws, k' ∉ wk_key <$> ws → Forall (λ wk : worker, ¬ finishes (QDone k' res) (wk_key wk)) ws) as Hnf.
  { intros ws Hni. apply Forall_forall. simpl. intros wk Hin <-. by apply Hni, list_elem_of_fmap_2. }
  split_and!; simpl.
  - rewrite fmap_app. apply NoDup_app. split_and!; [done| |done]. intros x Hx Hx2. destruct (Hdis x Hx). by right.
  - apply Forall_app; split; (eapply busy_other; [exact Hq|by apply Hnf|done]).
  - apply Forall_app; split; (eapply Forall_impl; [eassumption|]); intros wk Hwk Heq;
      (eapply worker_ok_queue; [exact Hq|by intros []|auto]).
  - destruct (decide (k = k')) as [<-|]; [|eapply queue_key; [exact Hq|by intros []|done|done]].
    destruct (worker_done _ _ _ _ _ Hq (Hw eq_refl)); auto.
Qed.

Lemma sys_inv_step r sy sy' : reserving_step r controller_spec k sy sy' → sys_inv sy → sys_inv sy'.
Proof.
  intros [Hstep Hr]. destruct Hstep; simpl in Hr;
    [by apply inv_move|by apply inv_tick|by apply inv_get|by apply inv_call|by eapply inv_done|].
  intros _. by apply sys_inv_initial.
Qed.

Lemma sys_inv_reachable r sy0 sy :
  sys_initial sy0 → rtc (reserving_step r controller_spec k) sy0 sy → sys_inv sy.
Proof.
  intros Hi Hsteps. apply sys_inv_initial in Hi. induction Hsteps; eauto using sys_inv_step.
Qed.

(** ** At rest *)

(** The entry of an event of the log: with everything delivered, what the API server had
    after the call is what the caches show, then and now. *)
Lemma log_entry s log c (a : answer c) :
  Forall (entry_current s) log → up_to_date s k → ev c a ∈ entry_event <$> log →
  ∃ pre post, api_step c pre a post ∧ same_views pre s k ∧
    api_stored post k = view_workload s k ∧ api_deployment post k = view_deployment s k ∧
    api_service post k = view_service s k.
Proof.
  intros Hc Hup ([[pre evt] post] & Heq & Hin)%list_elem_of_fmap. unfold entry_event in Heq. simpl in Heq.
  subst evt. rewrite Forall_forall in Hc. destruct (Hc _ Hin) as (Hs & Hv & Hu). simpl in Hs.
  exists pre, post. pose proof (unchanged_views _ _ _ Hu) as Hv'.
  destruct (up_to_date_views post k) as (<- & <- & <-); [by eapply unchanged_up_to_date|].
  split_and!; [done|by eapply same_views_trans|apply Hv'..].
Qed.

Lemma superseded_gone s w log evt :
  Forall (entry_current s) log → up_to_date s k → evt ∈ entry_event <$> log →
  view_workload s k = Some w → w_Key w = k → supersedes w evt → False.
Proof.
  intros Hc Hup Hin Hv Hkey. destruct evt as [c a].
  destruct (log_entry _ _ _ _ Hc Hup Hin) as (pre & post & Hs & _ & Hpost & _). rewrite Hv in Hpost.
  destruct c; simpl; try done; destruct a; try done.
  - intros [Hk Hne]. apply Hne. symmetry. eapply wrote_workload; [exact Hs|]. by rewrite Hk, Hkey.
  - intros [-> Hd]. eapply wrote_delete; [exact Hs| |exact Hd]. by rewrite Hkey.
  - intros [-> Hn]. rewrite Hkey, (delete_absent _ _ _ _ Hs Hn) in *. done.
Qed.

Lemma workload_eta w w' :
  w_Meta w' = w_Meta w → w_Spec w' = w_Spec w → w_Status w' = w_Status w → w' = w.
Proof. destruct w, w'. simpl. by intros -> -> ->. Qed.

(** A write of the status that left the stored version as it is wrote what was there. *)
Lemma status_unchanged s w log w2 w3 :
  Forall (entry_current s) log → up_to_date s k → view_workload s k = Some w → w_Key w = k →
  ev (KStatusUpdateWorkload w2) (Ok w3) ∈ entry_event <$> log →
  w_Meta w2 = w_Meta w → w_Spec w2 = w_Spec w → w2 = w.
Proof.
  intros Hc Hup Hv Hkey Hin Hm Hsp.
  destruct (log_entry _ _ _ _ Hc Hup Hin) as (pre & post & Hs & _ & Hpost & _).
  apply workload_eta; [done|done|]. destruct (wrote_status _ _ _ _ Hs) as [_ Hw]. symmetry. apply Hw.
  replace (w_Key w2) with k by (unfold w_Key in *; by rewrite Hm). congruence.
Qed.

(** The objects of a Workload are there, and fixed points of the reconciler's closures. *)
Lemma applied_fixed s w rd d log :
  Forall (entry_current s) log → up_to_date s k → w_Key w = k →
  applied w rd (entry_event <$> log) → view_deployment s k = Some d →
  mutate_deployment w (selector_labels w) (object_labels w) rd (desiredReplicaCount w) d = Ok d ∧
  ∃ sv, view_service s k = Some sv ∧ mutate_service w (selector_labels w) (object_labels w) rd sv = Ok sv.
Proof.
  intros Hc Hup Hkey [[d1 Hd] [s1 Hsv]] Hview. split.
  - destruct (log_entry _ _ _ _ Hc Hup Hd) as (pre & post & Hs & (_ & Hvd & _) & _ & Hpost & _).
    apply wrote_deployment in Hs. change (meta_key _) with (w_Key w) in Hs.
    rewrite Hkey, Hvd, Hview in Hs. destruct Hs as [|Hn]; [done|congruence].
  - destruct (log_entry _ _ _ _ Hc Hup Hsv) as (pre & post & Hs & (_ & _ & Hvs) & _ & _ & Hpost).
    apply wrote_service in Hs. change (meta_key _) with (w_Key w) in Hs. rewrite Hkey, Hvs in Hs.
    destruct (view_service s k) as [sv|]; [|congruence]. exists sv. split; [done|].
    destruct Hs; [done|congruence].
Qed.

Lemma rested_desired s w :
  rested s → up_to_date s k → api_stored s k = Some w →
  om_DeletionTimestamp (w_Meta w) ≠ None ∧ ContainsFinalizer (w_Meta w) workloadFinalizer = false ∨
  in_desired_state s k w.
Proof.
  intros Hr Hup Hst. destruct (up_to_date_views s k Hup) as (Hcw & Hcd & Hcs).
  destruct Hr as [Hnone|(log & Hcase & Hc)]; [congruence|].
  assert (view_workload s k = Some w) as Hv by congruence.
  assert (w_Key w = k) as Hkey by (by eapply stored_seen).
  assert (∀ w0, ev (KGetWorkload k) (Ok w0) ∈ entry_event <$> log → w0 = w) as Hread.
  { intros w0 Hg. destruct (log_entry _ _ _ _ Hc Hup Hg) as (pre & post & Hs & (Hvw & _) & _).
    apply read_workload in Hs. congruence. }
  destruct Hcase as [err Hg Hn|w0 Hg Hd Hf|w0 evt Hg He Hsup|w0 rd d w2 w3 Hg Hd Hf Hrd Ha Hgd Hsu Hfin].
  - destruct (log_entry _ _ _ _ Hc Hup Hg) as (pre & post & Hs & (Hvw & _) & _).
    pose proof (read_absent _ _ _ _ Hs Hn). congruence.
  - left. by rewrite <- (Hread _ Hg).
  - apply Hread in Hg as ->. by destruct (superseded_gone s w log evt).
  - apply Hread in Hg as ->. right. pose proof Hfin as ((Hm & Hsp & _) & _).
    rewrite (status_unchanged s w log w2 w3) in Hfin by done.
    destruct (log_entry _ _ _ _ Hc Hup Hgd) as (pre & post & Hs & (_ & Hvd & _) & _).
    apply read_deployment in Hs. rewrite Hvd in Hs.
    destruct (applied_fixed s w rd d log) as [Hdep (sv & Hsv & Hfix)]; try done.
    split_and!; [done|done|]. exists rd, d, sv. rewrite <- Hcd, <- Hcs. by split_and!.
Qed.

End Key.

(** C2. No change is ever lost: with the watches of [SetupWithManager], however the calls
    of the workers interleave with each other, with other clients and with the
    informers, and wherever the operator is killed and restarted, as long as a Deployment
    or a Service under the Workload's name is the Workload's own: whenever the queue
    holds nothing for a key and no worker has it, and the informers have delivered all
    events on its objects, a Workload stored under that key either is being deleted and
    has been let go by the operator, or is in its desired state: it carries the
    finalizer, its specification renders, the Deployment and the Service are in the
    cluster and exactly what the reconciler would make of them, and its status is that of
    the Deployment, Running or Stopped, acknowledged by Convex at this generation. *)
Theorem at_rest_in_desired_state r sy0 sy k w :
  sys_initial sy0 → rtc (reserving_step r controller_spec k) sy0 sy →
  ¬ wq_pending (sy_queue sy) k → ¬ wq_busy (sy_queue sy) k → up_to_date (sy_state sy) k →
  api_stored (sy_state sy) k = Some w →
  om_DeletionTimestamp (w_Meta w) ≠ None ∧ ContainsFinalizer (w_Meta w) workloadFinalizer = false ∨
  in_desired_state (sy_state sy) k w.
Proof.
  intros Hi Hsteps Hp Hb. destruct (sys_inv_reachable k r sy0 sy Hi Hsteps) as (_ & _ & _ & Hk).
  destruct Hk as [|[|Hr]]; [done|done|]. by apply rested_desired.
Qed.
End System.
