(* ===== verification/Shared.v ===== *)
(** * Shared: the goroutines of the operator and the tokens they share

    [convexclient.Runnable] keeps the operator's tokens in a field that the heartbeat
    loop writes while reconciliations, requests to the API server and the metrics
    reporter read it, under a [sync.RWMutex].  Here the field and the mutex are in
    memory: each method is written with its lock operations, a write of the struct takes
    two steps, and a read in between returns anything.  The sequential functions of
    [Runnable] are what these methods refine ([SharedFacts]). *)

From S2P Require Import Prelude.
From S2P Require Import Effects.
From S2P Require Import Go.
From S2P Require Import Json.
From S2P Require Import Api.
From S2P Require Import Calls.
From S2P Require Import Catalog.
From S2P Require Import CatalogTemplates.
From S2P Require Import Controller.
From S2P Require Import Capacity.
From S2P Require Import Provisioning.
From S2P Require Import TokenStore.
From S2P Require Import Metrics.
From S2P Require Import ConvexClient.
From S2P Require Import Runnable.
From S2P Require Import Gateway.
From S2P Require Import Proxy.
From S2P Require Import Server.

Local Open Scope prog_scope.

(** ** Memory *)

Inductive token_field := FHeartbeatToken | FDeployToken.

Definition field_of (f : token_field) (t : Tokens) : string :=
  match f with FHeartbeatToken => HeartbeatToken t | FDeployToken => DeployToken t end.

(** The operations of a goroutine: calls to the world, the mutex, the field. *)
Inductive mcall :=
| MWorld (c : call)
| MRLock | MRUnlock | MLock | MUnlock
| MGet (f : token_field)
| MBeginSet (t : Tokens)
| MEndSet (t : Tokens).

Definition manswer (c : mcall) : Type :=
  match c with MWorld c => answer c | MGet _ => string | _ => unit end.

Abbreviation goroutine := (prog manswer).

(** [Runnable.tokens] and [Runnable.mu]. *)
Record mem := { m_tokens : Tokens; m_torn : bool; m_readers : nat; m_writer : bool }.

Definition m_with_lock (m : mem) (readers : nat) (writer : bool) : mem :=
  {| m_tokens := m_tokens m; m_torn := m_torn m; m_readers := readers; m_writer := writer |}.

(** [RLock] waits for the writer, [Lock] for everybody; a read during a write may return
    anything. *)
Definition mem_step (c : mcall) (m : mem) : manswer c → mem → Prop :=
  match c with
  | MWorld _ => λ _ m', m' = m
  | MRLock => λ _ m', m_writer m = false ∧ m' = m_with_lock m (S (m_readers m)) false
  | MRUnlock => λ _ m', ∃ n, m_readers m = S n ∧ m' = m_with_lock m n (m_writer m)
  | MLock => λ _ m', m_writer m = false ∧ m_readers m = 0 ∧ m' = m_with_lock m 0 true
  | MUnlock => λ _ m', m_writer m = true ∧ m' = m_with_lock m (m_readers m) false
  | MGet f => λ r m', (m_torn m = false → r = field_of f (m_tokens m)) ∧ m' = m
  | MBeginSet _ => λ _ m',
      m' = {| m_tokens := m_tokens m; m_torn := true; m_readers := m_readers m; m_writer := m_writer m |}
  | MEndSet t => λ _ m',
      m' = {| m_tokens := t; m_torn := false; m_readers := m_readers m; m_writer := m_writer m |}
  end.

(** ** The methods of [Runnable] *)

(** Code that does not touch the tokens. *)
Fixpoint lift {X} (p : program X) : goroutine X :=
  match p with
  | Ret x => Ret x
  | Vis c k => Vis (MWorld c) (λ a, lift (k a))
  end.

(** [r.mu.RLock(); token := r.tokens.F; r.mu.RUnlock()] *)
Definition read_token (f : token_field) : goroutine string :=
  perform MRLock ;;
  token <- perform (MGet f) ;;
  perform MRUnlock ;;
  Ret token.

Definition shared_CurrentDeployToken : goroutine string := read_token FDeployToken.

Definition shared_setTokens (tokens : Tokens) : goroutine unit :=
  perform MLock ;;
  perform (MBeginSet tokens) ;;
  perform (MEndSet tokens) ;;
  perform MUnlock ;;
  Ret tt.

Section Methods.
Context `{!GoStd, !GoNet, !KubeLib}.

Definition shared_UpsertWorkload (c : Config) (info : WorkloadInfo) : goroutine (option goerr) :=
  token <- read_token FHeartbeatToken ;;
  lift (client_UpsertWorkload c token info).

Definition shared_RemoveWorkload (c : Config) (name namespace : string) : goroutine (option goerr) :=
  token <- read_token FHeartbeatToken ;;
  lift (client_RemoveWorkload c token name namespace).

Definition shared_ReportLifecycle (c : Config) (name workloadID phase reason : string) (retryable : bool)
    : goroutine (option goerr) :=
  token <- read_token FHeartbeatToken ;;
  lift (client_ReportLifecycle c token name workloadID phase reason retryable).

Definition shared_ReportMetrics (c : Config) (samples : list Sample) : goroutine (option goerr) :=
  token <- read_token FHeartbeatToken ;;
  lift (client_ReportMetrics c token samples).

Definition shared_VerifyGatewayToken (c : Config) (token namespace name : string)
    : goroutine (result goerr string) :=
  heartbeatToken <- read_token FHeartbeatToken ;;
  lift (client_VerifyGatewayToken c heartbeatToken token namespace name).

(** *** The heartbeat loop; [rn_tokens] of its argument is not looked at *)

Definition shared_register (r : Runnable) : goroutine (option goerr) :=
  tokens <- lift (Register (rn_client r)) ;;
  match tokens with
  | Err err => Ret (Some err)
  | Ok tokens =>
      let tokens := stamp_tokens (rn_client r) tokens in
      saved <- lift (Save (rn_store r) tokens) ;;
      match saved with
      | Some err => Ret (Some err)
      | None => shared_setTokens tokens ;; Ret None
      end
  end.

Definition shared_loadOrRegister (r : Runnable) : goroutine (option goerr) :=
  loaded <- lift (Load (rn_store r)) ;;
  match loaded with
  | Ok (tokens, true) =>
      hb <- lift (Heartbeat (rn_client r) (HeartbeatToken tokens) None None) ;;
      match hb with
      | Ok _ =>
          if fingerprints_match (rn_client r) tokens then shared_setTokens tokens ;; Ret None
          else shared_register r
      | Err _ => shared_register r
      end
  | _ => shared_register r
  end.

Definition shared_checkEnrollmentSecret (r : Runnable) : goroutine Runnable :=
  current <- lift (Current (rn_enrollment r)) ;;
  match current with
  | Err _ => Ret r
  | Ok current =>
      if decide (current = "" ∨ current = cf_EnrollmentSecret (rn_client r)) then Ret r else
      let r := set_client r (SetEnrollmentSecret (rn_client r) current) in
      shared_register r ;;
      Ret r
  end.

Definition shared_heartbeatOnce (r : Runnable) : goroutine unit :=
  heartbeatToken <- read_token FHeartbeatToken ;;
  snap <- lift (measure (rn_capacity r) take_snapshot) ;;
  live <- lift (measure (rn_usage r) CollectUsage) ;;
  hb <- lift (Heartbeat (rn_client r) heartbeatToken snap live) ;;
  match hb with
  | Err err =>
      if decide (err = ESentinel ErrUnauthorized) then shared_register r ;; Ret tt else Ret tt
  | Ok (claimable, pendingOps) =>
      lift (processClaimable r heartbeatToken claimable snap) ;;
      lift (processPendingOperations r heartbeatToken pendingOps) ;;
      Ret tt
  end.

Fixpoint shared_ticks (r : Runnable) (n : nat) : goroutine Runnable :=
  match n with
  | O => Ret r
  | S n =>
      shared_heartbeatOnce r ;;
      r <- shared_checkEnrollmentSecret r ;;
      shared_ticks r n
  end.

Definition shared_Start (r : Runnable) (n : nat) : goroutine (option goerr * Runnable) :=
  res <- shared_loadOrRegister r ;;
  match res with
  | Some err => Ret (Some err, r)
  | None =>
      if (rn_heartbeatInterval r <=? 0)%Z then Ret (Some EPanic, r)
      else r <- shared_ticks r n ;; Ret (None, r)
  end.

(** *** The other goroutines: the interfaces they are wired with are these methods *)

Definition shared_impl (c : Config) (cl : call) : goroutine (answer cl) :=
  match cl with
  | UpsertWorkload info => shared_UpsertWorkload c info
  | RemoveWorkload name ns => shared_RemoveWorkload c name ns
  | ReportLifecycle name id phase reason retryable =>
      shared_ReportLifecycle c name id phase reason retryable
  | VerifyGatewayToken t ns name => shared_VerifyGatewayToken c t ns name
  | ReportMetrics samples => shared_ReportMetrics c samples
  | CurrentToken => shared_CurrentDeployToken
  | cl => lift (perform cl)
  end.

Fixpoint shared_link {X} (c : Config) (p : program X) : goroutine X :=
  match p with
  | Ret x => Ret x
  | Vis cl k => a <- shared_impl c cl ;; shared_link c (k a)
  end.
End Methods.

(** ** The operator's goroutines *)

(** What a goroutine ends with. *)
Inductive outcome :=
| GLoop (res : option goerr * Runnable)
| GReconciled (res : ReconcileResult)
| GServed (req : Request) (resp : Response)
| GReported.

Section Goroutines.
Context `{!GoStd, !GoNet, !KubeLib, !GatewayCodec, !PageTemplate}.

Inductive job :=
| JReconcile (req : NamespacedName)
| JServe (s : Server) (r : Request)
| JReport (orders : nat → list (string * gmap podKey string) → list (string * gmap podKey string))
    (r : Reporter) (n : nat).

Definition job_program (j : job) : program outcome :=
  match j with
  | JReconcile req => res <- Reconcile {| wr_ConvexClient := true |} req ;; Ret (GReconciled res)
  | JServe s r => resp <- ServeHTTP s r ;; Ret (GServed r resp)
  | JReport orders r n => Reporter_Start orders r n ;; Ret GReported
  end.

Definition loop_goroutine (r : Runnable) (n : nat) : goroutine outcome :=
  res <- shared_Start r n ;; Ret (GLoop res).

(** The manager's goroutines: the heartbeat loop, and whatever else runs. *)
Definition operator_goroutines (r : Runnable) (n : nat) (jobs : list job) : list (goroutine outcome) :=
  loop_goroutine r n :: (shared_link (rn_client r) ∘ job_program <$> jobs).
End Goroutines.

(** ** Running them *)

Section Running.
Context {W : Type} (wsrv : ∀ c : call, W → answer c → W → Prop).

(** The memory, the rest of the world, and the calls it has answered. *)
Record shared := { sh_mem : mem; sh_world : W; sh_log : trace }.

Definition world_step (c : mcall) (s : shared) : manswer c → shared → Prop :=
  match c with
  | MWorld c => λ a s', wsrv c (sh_world s) a (sh_world s') ∧ sh_log s' = sh_log s ++ [existT c a]
  | _ => λ _ s', sh_world s' = sh_world s ∧ sh_log s' = sh_log s
  end.

Definition shared_srv (c : mcall) (s : shared) (a : manswer c) (s' : shared) : Prop :=
  mem_step c (sh_mem s) a (sh_mem s') ∧ world_step c s a s'.

(** A [Runnable] as [NewRunnable] makes it: no tokens, the mutex free. *)
Definition shared_start (w : W) : shared := {|
  sh_mem := {| m_tokens := no_tokens; m_torn := false; m_readers := 0; m_writer := false |};
  sh_world := w; sh_log := [] |}.
End Running.

Arguments shared W : clear implicits.
