(* ===== verification/SharedFacts.v ===== *)
(** * SharedFacts: the mutex does its work

    The goroutines of [Shared] under every interleaving: the lock discipline, which rules
    out torn reads and deadlocks; the tokens anyone reads, which come from a Secret the
    operator read or wrote; and the heartbeat loop, which behaves as the sequential
    [Start] whatever else runs. *)

From S2P Require Import Prelude.
From S2P Require Import Effects.
From S2P Require Import Go.
From S2P Require Import Json.
From S2P Require Import Api.
From S2P Require Import Calls.
From S2P Require Import Controller.
From S2P Require Import TokenStore.
From S2P Require Import Metrics.
From S2P Require Import ConvexClient.
From S2P Require Import Runnable.
From S2P Require Import RunnableFacts.
From S2P Require Import Gateway.
From S2P Require Import Proxy.
From S2P Require Import Server.
From S2P Require Import ServerFacts.
From S2P Require Import Shared.

(** ** The lock discipline *)

(** What a goroutine holds: nothing, the lock for reading, the lock, the lock in the
    middle of a write. *)
Inductive mode := HNone | HRead | HWrite | HTorn.

#[export] Instance mode_eq_dec : EqDecision mode.
Proof. solve_decision. Defined.

(** The operations allowed in a mode, and the mode after them.  No call to the world is
    made with the lock held. *)
Definition mode_next (c : mcall) (md : mode) : option mode :=
  match c, md with
  | MWorld _, HNone => Some HNone
  | MRLock, HNone => Some HRead
  | MGet _, HRead => Some HRead
  | MRUnlock, HRead => Some HNone
  | MLock, HNone => Some HWrite
  | MBeginSet _, HWrite => Some HTorn
  | MEndSet _, HTorn => Some HWrite
  | MUnlock, HWrite => Some HNone
  | _, _ => None
  end.

Fixpoint disciplined {X} (md : mode) (p : goroutine X) : Prop :=
  match p with
  | Ret _ => md = HNone
  | Vis c k => ∃ md', mode_next c md = Some md' ∧ ∀ a, disciplined md' (k a)
  end.

Lemma disciplined_bind {X Y} md (p : goroutine X) (f : X → goroutine Y) :
  disciplined md p → (∀ x, disciplined HNone (f x)) → disciplined md (prog_bind p f).
Proof.
  intros Hp Hf. revert md Hp. induction p as [x|c k IH]; intros md; simpl; [by intros ->|].
  intros (md' & Hm & Hk). eauto.
Qed.

Lemma disciplined_lift {X} (p : program X) : disciplined HNone (lift p).
Proof. induction p; simpl; eauto. Qed.

Lemma disciplined_ret {X} (x : X) : disciplined HNone (Ret x).
Proof. done. Qed.

Lemma disciplined_read f : disciplined HNone (read_token f).
Proof. simpl. repeat (eexists; split; [done|intros ?]). done. Qed.

Lemma disciplined_set t : disciplined HNone (shared_setTokens t).
Proof. simpl. repeat (eexists; split; [done|intros ?]). done. Qed.

Create HintDb locks.
#[export] Hint Resolve disciplined_bind disciplined_lift disciplined_ret disciplined_read disciplined_set : locks.

Ltac discipline :=
  repeat first [solve [eauto with locks] | apply disciplined_bind; intros | case_match].

Section Discipline.
Context `{!GoStd, !GoNet, !KubeLib, !GatewayCodec, !PageTemplate}.

Lemma register_disciplined r : disciplined HNone (shared_register r).
Proof. unfold shared_register. discipline. Qed.

#[local] Hint Resolve register_disciplined : locks.

Lemma heartbeatOnce_disciplined r : disciplined HNone (shared_heartbeatOnce r).
Proof. unfold shared_heartbeatOnce. discipline. Qed.

Lemma checkEnrollmentSecret_disciplined r : disciplined HNone (shared_checkEnrollmentSecret r).
Proof. unfold shared_checkEnrollmentSecret. discipline. Qed.

#[local] Hint Resolve heartbeatOnce_disciplined checkEnrollmentSecret_disciplined : locks.

Lemma ticks_disciplined r n : disciplined HNone (shared_ticks r n).
Proof. revert r. induction n; intros; cbn [shared_ticks]; discipline. Qed.

#[local] Hint Resolve ticks_disciplined : locks.

Lemma Start_disciplined r n : disciplined HNone (shared_Start r n).
Proof. unfold shared_Start, shared_loadOrRegister. discipline. Qed.

Lemma impl_disciplined c cl : disciplined HNone (shared_impl c cl).
Proof.
  destruct cl; cbn [shared_impl]; try apply disciplined_lift; try apply disciplined_read;
    (apply disciplined_bind; [apply disciplined_read|intros; apply disciplined_lift]).
Qed.

Lemma link_disciplined {X} c (p : program X) : disciplined HNone (shared_link c p).
Proof. induction p; simpl; [done|]. apply disciplined_bind; [apply impl_disciplined|done]. Qed.

Lemma goroutines_disciplined r n jobs : Forall (disciplined HNone) (operator_goroutines r n jobs).
Proof.
  constructor; [apply disciplined_bind; [apply Start_disciplined|done]|].
  apply Forall_fmap, Forall_true. intros j. apply link_disciplined.
Qed.

(** What the other goroutines read of the client's configuration is never written: the
    enrollment secret, which the loop replaces, is not part of it. *)
Lemma methods_ignore_secret c secret : shared_impl (SetEnrollmentSecret c secret) = shared_impl c.
Proof. done. Qed.
End Discipline.

(** ** Mutual exclusion *)

Definition reads (md : mode) : nat := match md with HRead => 1 | _ => 0 end.
Definition writes (md : mode) : nat := match md with HWrite | HTorn => 1 | _ => 0 end.
Definition tears (md : mode) : nat := match md with HTorn => 1 | _ => 0 end.

Definition b2n (b : bool) : nat := if b then 1 else 0.

Definition lock_inv (mds : list mode) (m : mem) : Prop :=
  m_readers m = sum_list_with reads mds ∧ b2n (m_writer m) = sum_list_with writes mds ∧
  b2n (m_torn m) = sum_list_with tears mds ∧ (m_writer m = true → m_readers m = 0).

Lemma lock_inv_start {A} (ts : list A) t :
  lock_inv (replicate (length ts) HNone)
    {| m_tokens := t; m_torn := false; m_readers := 0; m_writer := false |}.
Proof. split_and!; simpl; try done; induction ts; simpl; auto. Qed.

Lemma tears_writes mds : sum_list_with tears mds ≤ sum_list_with writes mds.
Proof. induction mds as [|[] mds IH]; simpl; lia. Qed.

(** A goroutine in its read section sees no write. *)
Lemma read_whole mds1 mds2 m : lock_inv (mds1 ++ HRead :: mds2) m → m_torn m = false.
Proof.
  intros (Hr & Hw & Ht & Hx). pose proof (tears_writes (mds1 ++ HRead :: mds2)) as Hle.
  rewrite sum_list_with_app in Hr. simpl in Hr.
  destruct (m_torn m), (m_writer m); simpl in *; try done; try lia; specialize (Hx eq_refl); lia.
Qed.

(** Every operation a disciplined goroutine performs keeps the lock's books. *)
Lemma lock_inv_step mds1 mds2 md md' c a m m' :
  mode_next c md = Some md' → mem_step c m a m' →
  lock_inv (mds1 ++ md :: mds2) m → lock_inv (mds1 ++ md' :: mds2) m'.
Proof.
  unfold lock_inv. rewrite !sum_list_with_app. intros Hn Hs (Hr & Hw & Ht & Hx).
  pose proof (tears_writes mds1). pose proof (tears_writes mds2).
  assert (∀ b, b2n b ≤ 1) as Hb by (by intros []; simpl; lia).
  pose proof (Hb (m_writer m)). pose proof (Hb (m_torn m)). destruct m as [t tn rd wr].
  destruct c, md; simplify_eq/=; try (destruct Hs as (n & Hn & ->)); destruct_and?; simplify_eq/=;
    split_and!; try done; try lia; intros Hwr; specialize (Hx Hwr); lia.
Qed.

Lemma sum_none f mds : f HNone = 0 → Forall (λ md, md = HNone) mds → sum_list_with f mds = 0.
Proof. intros Hf. induction 1 as [|md mds -> _ IH]; simpl; [done|]. by rewrite Hf, IH. Qed.

(** The next operation of a goroutine that holds the lock can be performed at once, and
    when nobody holds it any operation can. *)
Lemma enabled_step {W} (wsrv : ∀ c : call, W → answer c → W → Prop) mds1 mds2 md md' c s :
  (∀ c w, ∃ a w', wsrv c w a w') →
  mode_next c md = Some md' → lock_inv (mds1 ++ md :: mds2) (sh_mem s) →
  md ≠ HNone ∨ Forall (λ md, md = HNone) (mds1 ++ md :: mds2) →
  ∃ a s', shared_srv wsrv c s a s'.
Proof.
  intros Htot Hn Hinv Hcase. destruct Hinv as (Hr & Hw & Ht & Hx).
  assert (Forall (λ md, md = HNone) (mds1 ++ md :: mds2) →
    m_writer (sh_mem s) = false ∧ m_readers (sh_mem s) = 0) as Hfree.
  { intros Hall. rewrite Hr, (sum_none reads) by done. rewrite (sum_none writes) in Hw by done.
    by destruct (m_writer (sh_mem s)). }
  rewrite sum_list_with_app in Hr, Hw. simpl in Hr, Hw.
  unfold shared_srv. destruct s as [m w log]. simpl in *.
  destruct c as [c| | | | |f|t|t], md; simplify_eq/=; try (destruct Hcase as [|Hall]; [done|];
    specialize (Hfree Hall) as [Hfw Hfr]).
  - destruct (Htot c w) as (a & w' & Hs). exists a. by eexists {| sh_mem := m; sh_world := w'; sh_log := _ |}.
  - exists tt. by eexists {| sh_mem := _; sh_world := w; sh_log := log |}.
  - exists tt. destruct (m_readers m) as [|n] eqn:Hn; [lia|].
    eexists {| sh_mem := _; sh_world := w; sh_log := log |}. simpl. split; [by exists n|done].
  - exists tt. by eexists {| sh_mem := _; sh_world := w; sh_log := log |}.
  - exists tt. destruct (m_writer m) eqn:Hm; [|simpl in Hw; lia].
    by eexists {| sh_mem := _; sh_world := w; sh_log := log |}.
  - exists (field_of f (m_tokens m)). by eexists {| sh_mem := _; sh_world := w; sh_log := log |}.
  - exists tt. by eexists {| sh_mem := _; sh_world := w; sh_log := log |}.
  - exists tt. by eexists {| sh_mem := _; sh_world := w; sh_log := log |}.
Qed.

(** ** The pool *)

Section Pool.
Context `{!GoStd, !GoNet, !KubeLib, !GatewayCodec, !PageTemplate}.
Context {W : Type} (wsrv : ∀ c : call, W → answer c → W → Prop).

Abbreviation step := (pool_step (X := outcome) (shared_srv wsrv)).

Definition pool_locked (ts : list (goroutine outcome)) (s : shared W) : Prop :=
  ∃ mds, Forall2 disciplined mds ts ∧ lock_inv mds (sh_mem s).

(** The goroutine that moves, with its mode. *)
Lemma locked_split ts1 c k ts2 s :
  pool_locked (ts1 ++ Vis c k :: ts2) s →
  ∃ mds1 md mds2 md', lock_inv (mds1 ++ md :: mds2) (sh_mem s) ∧ mode_next c md = Some md' ∧
    Forall2 disciplined mds1 ts1 ∧ Forall2 disciplined mds2 ts2 ∧ ∀ a, disciplined md' (k a).
Proof.
  intros (mds & Hf & Hinv). apply Forall2_app_inv_r in Hf as (mds1 & mds' & H1' & Hf & ->).
  apply Forall2_cons_inv_r in Hf as (md & mds2 & (md' & Hn & Hk) & H2' & ->).
  by exists mds1, md, mds2, md'.
Qed.

Lemma pool_locked_step ts s ts' s' : step (ts, s) (ts', s') → pool_locked ts s → pool_locked ts' s'.
Proof.
  inversion 1 as [ts1 c k ts2 s0 a s1 Hsrv]; subst.
  intros (mds1 & md & mds2 & md' & Hinv & Hn & Hf1 & Hf2 & Hk)%locked_split.
  exists (mds1 ++ md' :: mds2). split.
  - apply Forall2_app; [done|]. constructor; [apply Hk|done].
  - destruct Hsrv as [Hm _]. by eapply lock_inv_step.
Qed.

Lemma pool_locked_start ts w : Forall (disciplined HNone) ts → pool_locked ts (shared_start w).
Proof.
  intros Hf. exists (replicate (length ts) HNone). split; [|apply lock_inv_start].
  by apply Forall2_replicate_l.
Qed.

(** An invariant that every step keeps. *)
Lemma pool_steps_keep (P : list (goroutine outcome) → shared W → Prop) ts s ts' s' :
  (∀ ts s ts' s', step (ts, s) (ts', s') → P ts s → P ts' s') →
  rtc step (ts, s) (ts', s') → P ts s → P ts' s'.
Proof.
  intros Hstep Hsteps. remember (ts, s) as x eqn:Hx. remember (ts', s') as y eqn:Hy.
  revert ts s Hx. induction Hsteps as [|x [ts1 s1] y Hs _ IH]; intros ts s ->; [by simplify_eq|].
  intros HP. eapply IH; [done|done|]. by eapply Hstep.
Qed.

Definition finished (t : goroutine outcome) : Prop := match t with Ret _ => True | Vis _ _ => False end.

Lemma locked_progress ts s :
  (∀ c w, ∃ a w', wsrv c w a w') → pool_locked ts s →
  Forall finished ts ∨ ∃ ts' s', step (ts, s) (ts', s').
Proof.
  intros Htot (mds & Hf & Hinv).
  assert (∀ mds1 md mds2 ts1 t ts2, mds = mds1 ++ md :: mds2 → ts = ts1 ++ t :: ts2 → disciplined md t →
    ¬ finished t → md ≠ HNone ∨ Forall (λ md, md = HNone) mds → ∃ ts' s', step (ts, s) (ts', s')) as Hmove.
  { intros mds1 md mds2 ts1 [x|c k] ts2 -> -> Hd Hnf Hcase; [by destruct Hnf|]. destruct Hd as (md' & Hn & _).
    destruct (enabled_step wsrv mds1 mds2 md md' c s Htot Hn Hinv Hcase) as (a & s' & Hs).
    eexists _, s'. by constructor. }
  destruct (decide (Forall (λ md, md = HNone) mds)) as [Hnone|Hsome].
  - assert (Forall finished ts ∨ ∃ ts1 t ts2, ts = ts1 ++ t :: ts2 ∧ ¬ finished t) as [|(ts1 & t & ts2 & Ht & Hnf)].
    { clear. induction ts as [|[x|c k] ts [IH|(ts1 & t & ts2 & -> & Hn)]]; auto.
      - left. by constructor.
      - right. by exists (Ret x :: ts1), t, ts2.
      - right. exists [], (Vis c k), ts. split; [done|by intros []].
      - right. by exists (Vis c k :: ts1), t, ts2. }
    { by left. }
    right. pose proof Hf as Hf'. rewrite Ht in Hf'. apply Forall2_app_inv_r in Hf' as (mds1 & mds' & _ & Hf' & Hm).
    apply Forall2_cons_inv_r in Hf' as (md & mds2 & Hd & _ & ->). eapply Hmove; eauto.
  - apply not_Forall_Exists, Exists_exists in Hsome as (md & Hin & Hmd); [|apply _].
    apply list_elem_of_split in Hin as (mds1 & mds2 & Hm). pose proof Hf as Hf'. rewrite Hm in Hf'.
    apply Forall2_app_inv_l in Hf' as (ts1 & ts' & _ & Hf' & Ht).
    apply Forall2_cons_inv_l in Hf' as (t & ts2 & Hd & _ & ->). right. eapply Hmove; eauto.
    destruct t; [|by intros []]. by simpl in Hd.
Qed.

(** C7. The operator's goroutines never hang: whatever the heartbeat loop, the
    reconciliations, the requests to the API server and the metrics reporter do at once
    and however their operations interleave, as long as the calls they make to the world
    return, no run goes on for ever (the loop being cancelled after its ticks) and a run
    stops only when all of them have returned: the mutex around the tokens neither
    deadlocks nor is left locked. *)
Theorem goroutines_never_hang r n jobs w ts s :
  (∀ c w, ∃ a w', wsrv c w a w') →
  rtc step (operator_goroutines r n jobs, shared_start w) (ts, s) →
  Acc (pool_descent (shared_srv wsrv)) ts ∧
  ((∀ ts' s', ¬ step (ts, s) (ts', s')) →
   Forall finished ts ∧ m_readers (sh_mem s) = 0 ∧ m_writer (sh_mem s) = false).
Proof.
  intros Htot Hsteps. split; [apply pool_terminates|].
  assert (pool_locked ts s) as Hl.
  { eapply pool_steps_keep; [apply pool_locked_step|exact Hsteps|].
    apply pool_locked_start, goroutines_disciplined. }
  intros Hstuck. destruct (locked_progress ts s Htot Hl) as [Hfin|(ts' & s' & Hs)]; [|by destruct (Hstuck ts' s')].
  split; [done|]. destruct Hl as (mds & Hf & Hr & Hw & _).
  assert (Forall (λ md, md = HNone) mds) as Hnone.
  { clear -Hf Hfin. induction Hf as [|md t mds ts Hd _ IH]; constructor; inversion Hfin; subst; [by destruct t|auto]. }
  rewrite (sum_none reads) in Hr by done. rewrite (sum_none writes) in Hw by done.
  split; [done|]. by destruct (m_writer (sh_mem s)).
Qed.

(** ** The tokens that are read *)

(** The calls to the world in the history of a goroutine. *)
Definition world_event (e : event manswer) : option (event answer) :=
  match e with existT (MWorld c) a => Some (existT c a) | _ => None end.

Definition world_events (h : list (event manswer)) : trace := omap world_event h.

(** Tokens of a Secret that was read or written in the history. *)
Definition set_guard (h : list (event manswer)) (c : mcall) : Prop :=
  match c with MEndSet t => tokens_seen (world_events h) t | _ => True end.

Definition quiet_call (c : mcall) : Prop :=
  match c with MBeginSet _ | MEndSet _ => False | _ => True end.

Lemma quiet_guarded {X} h (p : goroutine X) : safe (λ _, quiet_call) h p → safe set_guard h p.
Proof. apply safe_mono. by intros ? []. Qed.

Lemma lift_quiet {X} h (p : program X) : safe (λ _, quiet_call) h (lift p).
Proof. revert h. induction p; simpl; auto. Qed.

Lemma lift_wp {X} h (p : program X) Q :
  wp (world_events h) p (λ h' x, ∀ hm, world_events hm = h' → Q hm x) → wp h (lift p) Q.
Proof.
  revert h. induction p as [x|c k IH]; intros h; simpl; [auto|]. intros Hp a. apply IH.
  unfold world_events in *. rewrite omap_app. apply Hp.
Qed.

Lemma read_quiet h f : safe (λ _, quiet_call) h (read_token f).
Proof. simpl. by repeat (split; [done|intros ?]). Qed.

Lemma setTokens_guarded h t : tokens_seen (world_events h) t → safe set_guard h (shared_setTokens t).
Proof.
  intros Ht. simpl. repeat (split; [try done|intros ?]); [|done].
  unfold world_events. rewrite !omap_app. simpl. by rewrite !app_nil_r.
Qed.

Lemma guarded_bind {X Y} h (p : goroutine X) (f : X → goroutine Y) :
  safe set_guard h p → (∀ h x, safe set_guard h (f x)) → safe set_guard h (prog_bind p f).
Proof. intros Hp Hf. apply safe_bind. split; [done|]. apply wp_trivial. auto. Qed.

Lemma lift_guarded {X} h (p : program X) : safe set_guard h (lift p).
Proof. apply quiet_guarded, lift_quiet. Qed.

Lemma register_guarded r h : safe set_guard h (shared_register r).
Proof.
  unfold shared_register. apply guarded_bind; [apply lift_guarded|]. intros h1 [t|e]; [|done].
  apply safe_bind. split; [apply lift_guarded|]. apply lift_wp. eapply wp_mono; [|apply Save_seen].
  intros h2 [e|] Hs hm Hhm; [done|]. apply guarded_bind; [|done].
  apply setTokens_guarded. rewrite Hhm. by apply Hs.
Qed.

Lemma loadOrRegister_guarded r h : safe set_guard h (shared_loadOrRegister r).
Proof.
  unfold shared_loadOrRegister. apply safe_bind. split; [apply lift_guarded|]. apply lift_wp.
  eapply wp_mono; [|apply Load_seen]. intros h1 [[t []]|e] Hs hm Hhm; try apply register_guarded.
  apply safe_bind. split; [apply lift_guarded|]. apply lift_wp. eapply wp_mono; [|apply wp_history].
  intros h2 [hb|e] [ext ->] hm2 Hhm2; [|apply register_guarded].
  destruct (fingerprints_match _ _); [|apply register_guarded]. apply guarded_bind; [|done].
  apply setTokens_guarded. rewrite Hhm2, Hhm. by apply tokens_seen_app, Hs.
Qed.

Lemma Start_guarded r n h : safe set_guard h (shared_Start r n).
Proof.
  assert (∀ r h, safe set_guard h (shared_heartbeatOnce r)) as Hhb.
  { intros r' h'. unfold shared_heartbeatOnce.
    repeat first [apply guarded_bind; [solve [apply lift_guarded|apply register_guarded|
                    apply quiet_guarded, read_quiet]|intros] |case_match|done]. }
  assert (∀ r h, safe set_guard h (shared_checkEnrollmentSecret r)) as Hce.
  { intros r' h'. unfold shared_checkEnrollmentSecret.
    repeat first [apply guarded_bind; [solve [apply lift_guarded|apply register_guarded]|intros] |case_match|done]. }
  assert (∀ r h, safe set_guard h (shared_ticks r n)) as Ht.
  { clear r h. induction n as [|n' IH]; intros r h; cbn [shared_ticks]; [done|].
    apply guarded_bind; [done|]. intros. apply guarded_bind; auto. }
  unfold shared_Start. apply guarded_bind; [apply loadOrRegister_guarded|].
  intros h1 [e|]; [done|]. case_match; [done|]. apply guarded_bind; [apply Ht|done].
Qed.

Lemma impl_quiet c cl h : safe (λ _, quiet_call) h (shared_impl c cl).
Proof.
  destruct cl; cbn [shared_impl]; try apply lift_quiet; try apply read_quiet;
    (apply safe_bind; split; [apply read_quiet|apply wp_trivial; intros; apply lift_quiet]).
Qed.

Lemma link_quiet {X} c (p : program X) h : safe (λ _, quiet_call) h (shared_link c p).
Proof.
  revert h. induction p as [|cl k IH]; intros h; simpl; [done|].
  apply safe_bind. split; [apply impl_quiet|]. by apply wp_trivial.
Qed.

(** Nothing but what [NewRunnable] starts with, or tokens of such a Secret. *)
Definition issued (log : trace) (t : Tokens) : Prop := t = no_tokens ∨ tokens_seen log t.

Lemma issued_app log ext t : issued log t → issued (log ++ ext) t.
Proof. intros [->|Ht]; [by left|right]. by apply tokens_seen_app. Qed.

Lemma tokens_seen_incl h log t : (∀ e, e ∈ h → e ∈ log) → tokens_seen h t → tokens_seen log t.
Proof. intros Hi (e & sec & Hin & ?). exists e, sec. auto. Qed.

Definition goroutine_guarded (s : shared W) (t : goroutine outcome) : Prop :=
  ∃ h, (∀ e, e ∈ world_events h → e ∈ sh_log s) ∧ safe set_guard h t.

Definition pool_issued (ts : list (goroutine outcome)) (s : shared W) : Prop :=
  pool_locked ts s ∧ Forall (goroutine_guarded s) ts ∧ issued (sh_log s) (m_tokens (sh_mem s)).

Lemma mem_tokens c m a m' :
  mem_step c m a m' → m_tokens m' = m_tokens m ∨ ∃ t, c = MEndSet t ∧ m_tokens m' = t.
Proof.
  destruct c; simpl; try (by intros ->; left); try (intros Hm; destruct_and? Hm; subst; by left).
  - by intros (n & _ & ->); left.
  - intros ->. right. eauto.
Qed.

Lemma srv_log c s a s' :
  shared_srv wsrv c s a s' →
  sh_log s' = sh_log s ++ world_events [existT c a].
Proof. intros [_ Hw]. destruct c; simpl in *; destruct Hw as [_ ->]; by rewrite ?app_nil_r. Qed.

Lemma pool_issued_step ts s ts' s' : step (ts, s) (ts', s') → pool_issued ts s → pool_issued ts' s'.
Proof.
  intros Hstep (Hl & Hg & Hi). split; [by eapply pool_locked_step|].
  inversion Hstep as [ts1 c k ts2 s0 a s1 Hsrv]; subst. pose proof (srv_log _ _ _ _ Hsrv) as Hlog.
  apply Forall_app in Hg as [Hg1 [(h & Hh & Hc & Hk) Hg2]%Forall_cons].
  assert (∀ l, Forall (goroutine_guarded s) l → Forall (goroutine_guarded s') l) as Hother.
  { intros l Hf. eapply Forall_impl; [exact Hf|]. intros t (h' & Hh' & ?). exists h'. split; [|done].
    intros e He. rewrite Hlog. apply elem_of_app. auto. }
  split.
  - apply Forall_app. split; [auto|]. constructor; [|auto]. exists (h ++ [existT c a]). split; [|apply Hk].
    intros e. rewrite Hlog. unfold world_events. rewrite omap_app, !elem_of_app. naive_solver.
  - rewrite Hlog. destruct Hsrv as [Hm _]. destruct (mem_tokens _ _ _ _ Hm) as [-> |(t & -> & ->)]; [by apply issued_app|].
    apply issued_app. right. eapply tokens_seen_incl; [exact Hh|exact Hc].
Qed.

Lemma goroutines_issued r n jobs w ts s :
  rtc step (operator_goroutines r n jobs, shared_start w) (ts, s) → pool_issued ts s.
Proof.
  intros Hsteps. eapply pool_steps_keep; [apply pool_issued_step|exact Hsteps|].
  split; [apply pool_locked_start, goroutines_disciplined|]. split; [|by left].
  assert (∀ t, safe set_guard [] t → goroutine_guarded (shared_start w) t) as Hstart.
  { intros t Ht. exists []. split; [by intros e ?%elem_of_nil|done]. }
  constructor.
  - apply Hstart, guarded_bind; [apply Start_guarded|done].
  - apply Forall_fmap, Forall_true. intros j. apply Hstart, quiet_guarded, link_quiet.
Qed.

(** *** Requests *)

(** What the log says about the token a goroutine is given. *)
Definition abstract_srv (c : mcall) (log : trace) : manswer c → trace → Prop :=
  match c with
  | MWorld c => λ a log', log' = log ++ [existT c a]
  | MGet f => λ a log', log' = log ∧ ∃ t, issued log t ∧ a = field_of f t
  | _ => λ _ log', log' = log
  end.

Definition log_le (log log' : trace) : Prop := ∃ ext, log' = log ++ ext.

#[local] Instance log_le_preorder : PreOrder log_le.
Proof.
  split; [intros log; exists []; by rewrite app_nil_r|].
  intros l1 l2 l3 [e1 ->] [e2 ->]. exists (e1 ++ e2). by rewrite app_assoc.
Qed.

Lemma abstract_le c log a log' : abstract_srv c log a log' → log_le log log'.
Proof.
  destruct c; simpl; try (intros ->; reflexivity); [intros ->; by eexists|intros [-> _]; reflexivity].
Qed.

(** With the lock, every read is a read of tokens that were issued. *)
Lemma srv_abstract ts1 c k ts2 s a s' :
  pool_issued (ts1 ++ Vis c k :: ts2) s → shared_srv wsrv c s a s' → abstract_srv c (sh_log s) a (sh_log s').
Proof.
  intros (Hl & _ & Hi) Hsrv. pose proof (srv_log _ _ _ _ Hsrv) as Hlog.
  destruct c as [c| | | | |f|t|t]; simpl in *; rewrite ?app_nil_r in Hlog; try done.
  split; [done|]. exists (m_tokens (sh_mem s)). split; [done|].
  apply locked_split in Hl as (mds1 & md & mds2 & md' & Hinv & Hn & _). destruct md; try done.
  destruct Hsrv as [[Hr _] _]. apply Hr. by eapply read_whole.
Qed.

Lemma step_abstract ts s ts' s' :
  pool_issued ts s → step (ts, s) (ts', s') → pool_step abstract_srv (ts, sh_log s) (ts', sh_log s').
Proof.
  intros Hi Hstep. inversion Hstep as [ts1 c k ts2 s0 a s1 Hsrv]; subst. constructor. by eapply srv_abstract.
Qed.

Lemma steps_abstract r n jobs w ts s :
  rtc step (operator_goroutines r n jobs, shared_start w) (ts, s) →
  rtc (pool_step abstract_srv) (operator_goroutines r n jobs, []) (ts, sh_log s).
Proof.
  intros Hsteps. pose proof (goroutines_issued r n jobs w) as Hi.
  refine (rtc_ind_r (λ y, rtc (pool_step abstract_srv) (operator_goroutines r n jobs, []) (y.1, sh_log y.2))
            _ _ _ (ts, s) Hsteps); [apply rtc_refl|].
  intros [ts1 s1] [ts2 s2] Hs1 Hstep Hrtc. eapply rtc_r; [exact Hrtc|]. apply step_abstract; [by apply Hi|done].
Qed.

(** The answers to [CurrentToken] in a run of the program behind a goroutine. *)
Definition token_answer (log : trace) (e : event answer) : Prop :=
  match e with existT CurrentToken a => ∃ t, issued log t ∧ a = DeployToken t | _ => True end.

Lemma token_answer_le log log' e : log_le log log' → token_answer log e → token_answer log' e.
Proof.
  intros [ext ->]. destruct e as [[] a]; simpl; try done. intros (t & ? & ->). exists t. split; [by apply issued_app|done].
Qed.

Lemma always_trivial {X} (Q : trace → X → Prop) log (p : goroutine X) :
  (∀ log x, Q log x) → always log_le abstract_srv Q log p.
Proof. intros HQ. revert log. induction p; simpl; eauto using abstract_le. Qed.

Lemma impl_answers c cl log :
  always log_le abstract_srv (λ log a, token_answer log (existT cl a)) log (shared_impl c cl).
Proof.
  destruct cl; try (apply always_trivial; done). cbn [shared_impl]. simpl.
  intros l1 _ [] l2 ->. split; [done|]. intros l3 _ a l4 [-> (t & Ht & ->)]. split; [done|].
  intros l5 [e5 ->] [] l6 ->. split; [done|]. intros l7 [e7 ->].
  exists t. split; [|done]. by do 2 apply issued_app.
Qed.

Lemma link_answers {X} c (p : program X) log :
  always log_le abstract_srv (λ log x, ∃ tr, exec p tr x ∧ Forall (token_answer log) tr) log (shared_link c p).
Proof.
  revert log. induction p as [x|cl k IH]; intros log; cbn [shared_link].
  { simpl. intros. by exists []. }
  apply always_bind; [apply _|].
  eapply (always_later _ _ _ _ log); [|reflexivity|apply impl_answers].
  intros l1 a _ Ha. eapply (always_later _ _ _ _ l1); [|reflexivity|apply IH].
  intros l2 x Hle (tr & He & HF). exists (existT cl a :: tr). split; [by exists a, tr|].
  constructor; [by eapply token_answer_le|done].
Qed.

(** What every goroutine ends with: a request to the management API is refused, or
    carries the deploy token of a Secret the operator has read or written. *)
Definition served_authorized (log : trace) (o : outcome) : Prop :=
  match o with
  | GServed req resp =>
      management req = true →
      resp_status resp = Some StatusUnauthorized ∨
      ∃ e sec, e ∈ log ∧ (stored_secret e = Some sec ∨ read_secret e = Some sec) ∧
        DeployToken (secret_tokens sec) ≠ "" ∧
        hr_Authorization req = "Bearer " +:+ DeployToken (secret_tokens sec)
  | _ => True
  end.

Lemma token_read_issued log req tr :
  Forall (token_answer log) tr → deploy_authorized req tr →
  ∃ e sec, e ∈ log ∧ (stored_secret e = Some sec ∨ read_secret e = Some sec) ∧
    DeployToken (secret_tokens sec) ≠ "" ∧
    hr_Authorization req = "Bearer " +:+ DeployToken (secret_tokens sec).
Proof.
  intros HF (t & Ht & Hne & Ha). destruct tr as [|[c a] tr]; [done|]. apply Forall_inv in HF.
  destruct c; simpl in *; try done. injection Ht as ->. destruct HF as (tok & [->|Hseen] & ->); [done|].
  destruct Hseen as (e & sec & Hin & Hsec & <-). by exists e, sec.
Qed.

Lemma job_authorized c j log :
  always log_le abstract_srv served_authorized log (shared_link c (job_program j)).
Proof.
  eapply (always_later _ _ _ _ log); [|reflexivity|apply link_answers].
  intros l x _ (tr & He & HF). destruct j as [req|srv req|orders rep n]; cbn [job_program] in He;
    apply exec_bind in He as (tr1 & tr2 & y & -> & He1 & -> & ->); try exact I.
  intros Hm. rewrite app_nil_r in HF.
  destruct (management_cases srv req tr1 y Hm He1) as [(? & _)|(_ & Hau)]; [by left|right].
  by eapply token_read_issued.
Qed.

Lemma goroutines_authorized r n jobs :
  Forall (always log_le abstract_srv served_authorized []) (operator_goroutines r n jobs).
Proof.
  constructor.
  - apply always_bind; [apply _|]. apply always_trivial. by intros.
  - apply Forall_fmap, Forall_true. intros j. apply job_authorized.
Qed.

(** C5. Who may manage workloads while everything runs at once: for every interleaving of
    the heartbeat loop (which loads, issues, replaces and persists the tokens), of
    reconciliations, requests and reports, a request to the management API that any
    goroutine has answered was refused with 401, or it presented as bearer token the
    deploy token of a token Secret that the operator had read or successfully written
    by then; in particular all are refused before there is one.  No request ever meets
    a half-written token. *)
Theorem management_needs_issued_token_concurrently r n jobs w ts s i req resp :
  rtc step (operator_goroutines r n jobs, shared_start w) (ts, s) →
  ts !! i = Some (Ret (GServed req resp)) → management req = true →
  resp_status resp = Some StatusUnauthorized ∨
  ∃ e sec, e ∈ sh_log s ∧ (stored_secret e = Some sec ∨ read_secret e = Some sec) ∧
    DeployToken (secret_tokens sec) ≠ "" ∧
    hr_Authorization req = "Bearer " +:+ DeployToken (secret_tokens sec).
Proof.
  intros Hsteps%steps_abstract Hi.
  pose proof (pool_always log_le abstract_srv served_authorized _ _ _ _ Hsteps
    (goroutines_authorized r n jobs)) as HF.
  rewrite Forall_lookup in HF. exact (HF i _ Hi (sh_log s) ltac:(reflexivity)).
Qed.

End Pool.
