(* ===== verification/SharedLoop.v ===== *)
(** * SharedLoop: the heartbeat loop among the other goroutines

    The loop of [Shared], with its lock operations, refines the sequential [Start] of
    [Runnable]: each method does the calls of the function of the same name, and no
    other goroutine writes the tokens. *)

From S2P Require Import Prelude.
From S2P Require Import Effects.
From S2P Require Import Go.
From S2P Require Import Json.
From S2P Require Import Api.
From S2P Require Import Calls.
From S2P Require Import Controller.
From S2P Require Import TokenStore.
From S2P Require Import Metrics.
From S2P Require Import ConvexClient.
From S2P Require Import Runnable.
From S2P Require Import RunnableFacts.
From S2P Require Import Gateway.
From S2P Require Import Proxy.
From S2P Require Import Server.
From S2P Require Import ServerFacts.
From S2P Require Import Shared.
From S2P Require Import SharedFacts.

Section Loop.
Context `{!GoStd, !GoNet, !KubeLib, !GatewayCodec, !PageTemplate}.
Context {W : Type} (wsrv : ∀ c : call, W → answer c → W → Prop).

Abbreviation step := (pool_step (X := outcome) (shared_srv wsrv)).

(** ** Refinement *)

(** [solo h t p Q]: with the tokens [t] in memory, the history [h] and nobody else writing
    the tokens, every run of [p] ends in [Q]. *)
Fixpoint solo {X} (h : trace) (t : Tokens) (p : goroutine X) (Q : trace → Tokens → X → Prop) : Prop :=
  match p with
  | Ret x => Q h t x
  | Vis c k =>
      match c return (manswer c → goroutine X) → Prop with
      | MWorld c => λ k, ∀ a, solo (h ++ [existT c a]) t (k a) Q
      | MGet f => λ k, solo h t (k (field_of f t)) Q
      | MEndSet t' => λ k, solo h t' (k tt) Q
      | _ => λ k, solo h t (k tt) Q
      end k
  end.

Lemma solo_bind {X Y} h t (p : goroutine X) (f : X → goroutine Y) Q :
  solo h t p (λ h' t' x, solo h' t' (f x) Q) → solo h t (prog_bind p f) Q.
Proof.
  revert h t. induction p as [x|c k IH]; intros h t; simpl; [done|].
  destruct c; try (apply IH). intros Hk a. by apply IH.
Qed.

Lemma solo_mono {X} h t (p : goroutine X) (Q Q' : trace → Tokens → X → Prop) :
  (∀ h t x, Q h t x → Q' h t x) → solo h t p Q → solo h t p Q'.
Proof.
  intros HQ. revert h t. induction p as [x|c k IH]; intros h t; simpl; [auto|].
  destruct c; try (apply IH). intros Hk a. by apply IH.
Qed.

Lemma solo_lift {X} h t (q : program X) Q : wp h q (λ h' x, Q h' t x) → solo h t (lift q) Q.
Proof. revert h. induction q as [x|c k IH]; intros h; simpl; auto. Qed.

(** [p] behaves as the sequential [q]: same calls, and the results and the tokens are
    related by [R]. *)
Definition refines {X Y} (p : goroutine X) (t : Tokens) (q : program Y) (R : Tokens → X → Y → Prop) : Prop :=
  ∀ h, solo h t p (λ h' t' x, ∃ tr y, h' = h ++ tr ∧ exec q tr y ∧ R t' x y).

Lemma refines_ret {X Y} (x : X) t (y : Y) (R : Tokens → X → Y → Prop) :
  R t x y → refines (Ret x) t (Ret y) R.
Proof. intros HR h. exists [], y. by rewrite app_nil_r. Qed.

Lemma refines_bind {X Y X' Y'} (p : goroutine X) (f : X → goroutine X') t (q : program Y) (g : Y → program Y') R1 R :
  refines p t q R1 → (∀ t' x y, R1 t' x y → refines (f x) t' (g y) R) →
  refines (prog_bind p f) t (prog_bind q g) R.
Proof.
  intros Hp Hf h. apply solo_bind. eapply solo_mono; [|apply Hp].
  intros h1 t1 x (tr1 & y & -> & He1 & HR). eapply solo_mono; [|by eapply (Hf t1 x y)].
  intros h2 t2 x' (tr2 & y' & -> & He2 & HR'). exists (tr1 ++ tr2), y'. split; [by rewrite app_assoc|].
  split; [|done]. apply exec_bind. eauto 10.
Qed.

Lemma refines_lift_exec {X X' Y'} (q q' : program X) (f : X → goroutine X') t (g : X → program Y') R :
  (∀ tr x, exec q tr x → exec q' tr x) → (∀ x, refines (f x) t (g x) R) →
  refines (prog_bind (lift q) f) t (prog_bind q' g) R.
Proof.
  intros Hq Hf. eapply (refines_bind _ _ _ _ _ (λ t' x y, t' = t ∧ x = y)); [|by intros t' x y [-> ->]].
  intros h. apply solo_lift, wp_exec. intros tr x He. exists tr, x. auto.
Qed.

Lemma refines_lift {X X' Y'} (q : program X) (f : X → goroutine X') t (g : X → program Y') R :
  (∀ x, refines (f x) t (g x) R) → refines (prog_bind (lift q) f) t (prog_bind q g) R.
Proof. by apply refines_lift_exec. Qed.

Lemma refines_read {X Y} f (k : string → goroutine X) t (q : program Y) R :
  refines (k (field_of f t)) t q R → refines (prog_bind (read_token f) k) t q R.
Proof. intros Hk h. simpl. apply Hk. Qed.

Lemma refines_set {X Y} t' (k : unit → goroutine X) t (q : program Y) R :
  refines (k tt) t' q R → refines (prog_bind (shared_setTokens t') k) t q R.
Proof. intros Hk h. simpl. apply Hk. Qed.

(** *** The methods of the loop refine the sequential functions *)

Lemma register_refines r t :
  refines (shared_register r) t (register (setTokens r t)) (λ t' e res, res = (e, setTokens r t')).
Proof.
  unfold shared_register, register. apply refines_lift. intros [tok|e]; [|by apply refines_ret].
  apply refines_lift. intros [e|]; [by apply refines_ret|]. by apply refines_set, refines_ret.
Qed.

Lemma loadOrRegister_refines r t :
  refines (shared_loadOrRegister r) t (loadOrRegister (setTokens r t)) (λ t' e res, res = (e, setTokens r t')).
Proof.
  unfold shared_loadOrRegister, loadOrRegister. apply refines_lift.
  intros [[tok []]|e]; try apply register_refines. apply refines_lift. intros [hb|e]; [|apply register_refines].
  cbn [rn_client setTokens]. destruct (fingerprints_match _ _); [|apply register_refines].
  by apply refines_set, refines_ret.
Qed.

(** Claims and operations use the token they are given, not the one in the struct. *)
Lemma claim_items_tokens r t wc tok items snap tr x :
  exec (claim_items r wc tok snap items) tr x → exec (claim_items (setTokens r t) wc tok snap items) tr x.
Proof.
  revert snap tr. induction items as [|item items IH]; intros snap tr; [done|]. cbn [claim_items].
  rewrite !exec_bind. intros (tr1 & tr2 & y & -> & H1' & H2'). exists tr1, tr2, y. auto.
Qed.

Lemma processClaimable_tokens r t tok items snap tr x :
  exec (processClaimable r tok items snap) tr x → exec (processClaimable (setTokens r t) tok items snap) tr x.
Proof.
  unfold processClaimable. cbn [rn_creator setTokens]. destruct (rn_creator r); [|done]. apply claim_items_tokens.
Qed.

Lemma run_operations_tokens r t tok items tr x :
  exec (run_operations r tok items) tr x → exec (run_operations (setTokens r t) tok items) tr x.
Proof.
  revert tr. induction items as [|item items IH]; intros tr; [done|]. cbn [run_operations].
  rewrite !exec_bind. intros (tr1 & tr2 & y & -> & H1' & H2'). exists tr1, tr2, y. split; [done|]. split; [done|].
  destruct y as [[op|]|e]; auto. rewrite !exec_bind in H2' |- *.
  destruct H2' as (tr3 & tr4 & z & -> & H3' & H4'). exists tr3, tr4, z. auto.
Qed.

Lemma processPendingOperations_tokens r t tok items tr x :
  exec (processPendingOperations r tok items) tr x →
  exec (processPendingOperations (setTokens r t) tok items) tr x.
Proof.
  unfold processPendingOperations. cbn [rn_creator rn_destroyer setTokens].
  destruct (rn_creator r), (rn_destroyer r); try done; apply run_operations_tokens.
Qed.

Lemma heartbeatOnce_refines r t :
  refines (shared_heartbeatOnce r) t (heartbeatOnce (setTokens r t)) (λ t' _ r', r' = setTokens r t').
Proof.
  unfold shared_heartbeatOnce, heartbeatOnce. apply refines_read.
  do 3 (apply refines_lift; intros ?). destruct x1 as [[claimable ops]|err].
  - apply refines_lift_exec; [apply processClaimable_tokens|intros ?].
    apply refines_lift_exec; [apply processPendingOperations_tokens|intros ?]. by apply refines_ret.
  - destruct (decide _); [|by apply refines_ret].
    eapply refines_bind; [apply register_refines|]. intros t' e' y ->. by apply refines_ret.
Qed.

Lemma checkEnrollmentSecret_refines r t :
  refines (shared_checkEnrollmentSecret r) t (checkEnrollmentSecret (setTokens r t))
    (λ t' r1 r2, r2 = setTokens r1 t').
Proof.
  unfold shared_checkEnrollmentSecret, checkEnrollmentSecret. apply refines_lift.
  intros [cur|e]; [|by apply refines_ret]. cbn [rn_client setTokens].
  destruct (decide _); [by apply refines_ret|].
  eapply refines_bind; [apply (register_refines (set_client r (SetEnrollmentSecret (rn_client r) cur)))|].
  intros t' x y ->. by apply refines_ret.
Qed.

Lemma ticks_refine r t n :
  refines (shared_ticks r n) t (ticks (setTokens r t) n) (λ t' r1 r2, r2 = setTokens r1 t').
Proof.
  revert r t. induction n as [|n IH]; intros r t; cbn [shared_ticks ticks]; [by apply refines_ret|].
  eapply refines_bind; [apply heartbeatOnce_refines|]. intros t1 x y ->.
  eapply refines_bind; [apply checkEnrollmentSecret_refines|]. intros t2 r1 r2 ->. apply IH.
Qed.

Lemma Start_refines r t n :
  refines (shared_Start r n) t (Start (setTokens r t) n)
    (λ t' res res', res' = (res.1, setTokens res.2 t')).
Proof.
  unfold shared_Start, Start. eapply refines_bind; [apply loadOrRegister_refines|].
  intros t1 [e|] res ->; [by apply refines_ret|]. cbn [rn_heartbeatInterval setTokens].
  destruct (_ <=? _)%Z; [by apply refines_ret|].
  eapply refines_bind; [apply ticks_refine|]. intros t2 r1 r2 ->. by apply refines_ret.
Qed.

(** *** ... also with everybody else running *)

(** One operation of a goroutine that has the tokens for itself. *)
Lemma solo_step {X} c (k : manswer c → goroutine X) (h : trace) (s s' : shared W) a Q :
  shared_srv wsrv c s a s' → (∀ f, c = MGet f → m_torn (sh_mem s) = false) →
  solo h (m_tokens (sh_mem s)) (Vis c k) Q →
  solo (h ++ world_events [existT c a]) (m_tokens (sh_mem s')) (k a) Q.
Proof.
  intros [Hm _] Hwhole. destruct c as [c| | | | |f|t|t]; simpl in *; rewrite ?app_nil_r.
  - rewrite Hm. intros Hk. apply Hk.
  - destruct Hm as [_ ->]. by destruct a.
  - destruct Hm as (n & _ & ->). by destruct a.
  - destruct Hm as (_ & _ & ->). by destruct a.
  - destruct Hm as [_ ->]. by destruct a.
  - destruct Hm as [Hr ->]. by rewrite (Hr (Hwhole f eq_refl)).
  - rewrite Hm. by destruct a.
  - rewrite Hm. by destruct a.
Qed.

(** Only the loop writes the tokens. *)
Definition loop_inv (Q : trace → Tokens → outcome → Prop) (ts : list (goroutine outcome)) (s : shared W) : Prop :=
  pool_locked ts s ∧
  ∃ p others h, ts = p :: others ∧ h `sublist_of` sh_log s ∧ solo h (m_tokens (sh_mem s)) p Q ∧
    Forall (λ p, ∃ h, safe (λ _, quiet_call) h p) others.

Lemma quiet_tokens c m a m' : quiet_call c → mem_step c m a m' → m_tokens m' = m_tokens m.
Proof. intros Hq Hm. destruct (mem_tokens _ _ _ _ Hm) as [|(t & -> & _)]; done. Qed.

Lemma loop_inv_step Q ts s ts' s' : step (ts, s) (ts', s') → loop_inv Q ts s → loop_inv Q ts' s'.
Proof.
  intros Hstep [Hl (p & others & h & -> & Hsub & Hsolo & Hq)]. split; [by eapply (pool_locked_step wsrv)|].
  inversion Hstep as [ts1 c k ts2 s0 a s1 Hsrv Heq Heq2]; subst. pose proof (srv_log wsrv _ _ _ _ Hsrv) as Hlog.
  destruct ts1 as [|p1 ts1]; simpl in *; injection Heq as Hp Ho; subst.
  - exists (k a), others, (h ++ world_events [existT c a]). split_and!; [done| | |done].
    + rewrite Hlog. by apply sublist_app.
    + eapply solo_step; [exact Hsrv| |exact Hsolo]. intros f ->.
      apply (locked_split []) in Hl as (mds1 & md & mds2 & md' & Hinv & Hn & _). destruct md; try done.
      by eapply read_whole.
  - exists p, (ts1 ++ k a :: ts2), h. apply Forall_app in Hq as [Hq1 [(hq & Hc & Hk) Hq2]%Forall_cons].
    split_and!; [done| | |].
    + rewrite Hlog. by apply sublist_inserts_r.
    + destruct Hsrv as [Hm _]. by rewrite (quiet_tokens _ _ _ _ Hc Hm).
    + apply Forall_app. split; [done|]. constructor; [|done]. eexists. apply Hk.
Qed.

(** C8. The heartbeat loop is not disturbed by the goroutines around it: whatever
    reconciliations, requests and reports read the tokens while it runs, when the loop
    returns, it has done exactly what the sequential function [Start] does in some run
    with the same calls and answers, returned the same result, and the tokens it left
    in memory are those of that run.  So what is proved of [Start] holds of the loop as
    it runs inside the operator. *)
Theorem loop_refines_Start r n jobs w ts s e r' :
  rtc step (operator_goroutines r n jobs, shared_start w) (ts, s) →
  ts !! 0 = Some (Ret (GLoop (e, r'))) →
  ∃ tr r'', tr `sublist_of` sh_log s ∧ exec (Start (setTokens r no_tokens) n) tr (e, r'') ∧
    r'' = setTokens r' (m_tokens (sh_mem s)).
Proof.
  set (Q := λ (h : trace) (t : Tokens) (o : outcome), ∀ e r', o = GLoop (e, r') →
    exec (Start (setTokens r no_tokens) n) h (e, setTokens r' t)).
  intros Hsteps Hret. assert (loop_inv Q ts s) as [_ (p & others & h & -> & Hsub & Hsolo & _)].
  { eapply pool_steps_keep; [apply loop_inv_step|exact Hsteps|].
    split; [apply pool_locked_start, goroutines_disciplined|]. eexists _, _, []. split_and!; [done|done| |].
    - apply solo_bind. eapply solo_mono; [|apply (Start_refines r no_tokens n)].
      intros h t res (tr & y & -> & He & ->) e0 r0 [= ->]. simpl in He. exact He.
    - apply Forall_fmap, Forall_true. intros j. exists []. apply link_quiet. }
  injection Hret as ->. exists h, (setTokens r' (m_tokens (sh_mem s))). split_and!; [done| |done].
  by apply Hsolo.
Qed.
End Loop.
