(* ===== verification/Access.v ===== *)
(** * Access: who may manage workloads on a started operator

    The API server as [main] wires it, with the Convex runnable behind its [TokenGetter],
    before and after the registration. *)

From S2P Require Import Prelude.
From S2P Require Import Effects.
From S2P Require Import Go.
From S2P Require Import Json.
From S2P Require Import Api.
From S2P Require Import Calls.
From S2P Require Import TokenStore.
From S2P Require Import Runnable.
From S2P Require Import RunnableFacts.
From S2P Require Import Gateway.
From S2P Require Import Proxy.
From S2P Require Import ConvexClient.
From S2P Require Import Server.
From S2P Require Import ServerFacts.
From S2P Require Import Operator.
From S2P Require Import Main.
From S2P Require Import MainFacts.

Section Access.
Context `{!GoStd, !GoNet, !KubeLib, !GatewayCodec, !PageTemplate}.

(** A request served while the runnable is in the state [r]. *)
Definition serve_linked (r : Runnable) (s : Server) (req : Request) : program Response :=
  link (runnable_impl r) (ServeHTTP s req).

(** The only token that opens the management API is the one in memory. *)
Lemma linked_management r s req tr resp :
  management req = true → exec (serve_linked r s req) tr resp →
  resp_status resp = Some StatusUnauthorized ∨
  (CurrentDeployToken r ≠ "" ∧ hr_Authorization req = "Bearer " +:+ CurrentDeployToken r).
Proof.
  intros Hm (tr' & He & HF)%link_exec.
  destruct (management_cases s req tr' resp Hm He) as [(? & _)|(_ & t & Ht & Hne & Ha)]; [by left|right].
  destruct tr' as [|[c a] tr']; [done|]. inversion HF as [|? ? [sub Hsub]]; subst. simpl in *.
  destruct c; simpl in *; try done. destruct Hsub as [_ ->]. by simplify_eq.
Qed.

(** Who may manage workloads, end to end: before the operator has registered, every
    request to the management API is refused; after [Start] has run for any number of
    ticks, a request is let through only with the deploy token of a token Secret that
    this very run read or wrote, presented as bearer token. *)
Theorem management_needs_issued_token env host tr0 w n tr1 r req tr resp :
  exec (setupConvexIntegration env host) tr0 (Ok w) → management req = true →
  (exec (serve_linked (wire_runnable w) (wire_server w) req) tr resp →
   resp_status resp = Some StatusUnauthorized) ∧
  (exec (Start (wire_runnable w) n) tr1 (None, r) →
   exec (serve_linked r (wire_server w) req) tr resp →
   resp_status resp ≠ Some StatusUnauthorized →
   ∃ e sec, e ∈ tr1 ∧ (stored_secret e = Some sec ∨ read_secret e = Some sec) ∧
     DeployToken (secret_tokens sec) ≠ "" ∧
     hr_Authorization req = "Bearer " +:+ DeployToken (secret_tokens sec)).
Proof.
  intros Hsetup Hm. split.
  - intros He. destruct (wp_sound _ _ _ _ (setup_wp env host) Hsetup w eq_refl) as [(_ & _ & Ht & _) _].
    destruct (linked_management _ _ _ _ _ Hm He) as [|[Hne _]]; [done|].
    unfold CurrentDeployToken in Hne. by rewrite Ht in Hne.
  - intros Hs He Hok. destruct (wp_sound _ _ _ _ (Start_current (wire_runnable w) n) Hs eq_refl)
      as [_ (e & sec & Hin & Hsec & Htok)].
    destruct (linked_management _ _ _ _ _ Hm He) as [|[Hne Ha]]; [done|].
    exists e, sec. unfold CurrentDeployToken in *. simpl in Htok. by rewrite Htok.
Qed.

End Access.
