(* ===== verification/Etcd.v ===== *)
(** * Etcd: a concrete API server for the interleaving theorem

    The store as a log of revisions, newest first, the resource version of an object
    being the number of the revision that wrote it.  It implements [KubeApi] and
    satisfies [KubeApiLaws]: reads may return any version of the log, writes obey
    optimistic concurrency and may fail, and other clients may write and remove what they
    want, finalizers included. *)

From S2P Require Import Prelude.
From S2P Require Import Effects.
From S2P Require Import Go.
From S2P Require Import Json.
From S2P Require Import Api.
From S2P Require Import Calls.
From S2P Require Import Controller.
From S2P Require Import ControllerFacts.
From S2P Require Import Cluster.

Inductive revision := Put (w : Workload) | Del (key : NamespacedName).

Definition revision_key (rev : revision) : NamespacedName :=
  match rev with Put w => w_Key w | Del key => key end.

Definition meta_system (m : ObjectMeta) (uid version : string) (deletion : option Z) : ObjectMeta := {|
  om_Name := om_Name m; om_GenerateName := om_GenerateName m; om_Namespace := om_Namespace m;
  om_UID := uid; om_ResourceVersion := version; om_Generation := om_Generation m;
  om_Labels := om_Labels m; om_Annotations := om_Annotations m; om_Finalizers := om_Finalizers m;
  om_OwnerReferences := om_OwnerReferences m; om_DeletionTimestamp := deletion |}.

Definition stamp (n : nat) (w : Workload) : Workload :=
  w_with_meta w (meta_system (w_Meta w) (om_UID (w_Meta w)) (pretty n) (om_DeletionTimestamp (w_Meta w))).

Fixpoint stored_in (log : list revision) (k : NamespacedName) : option Workload :=
  match log with
  | [] => None
  | Put w :: log => if decide (w_Key w = k) then Some (stamp (length log) w) else stored_in log k
  | Del key :: log => if decide (key = k) then None else stored_in log k
  end.

Fixpoint seen_in (log : list revision) (w : Workload) : Prop :=
  match log with
  | [] => False
  | Put w' :: log => w = stamp (length log) w' ∨ seen_in log w
  | Del _ :: log => seen_in log w
  end.

(** ** Writes *)

(** [w] in place of [old]: identity and deletion mark stay, and an object under deletion
    whose last finalizer is gone goes. *)
Definition replacing (old w : Workload) : revision :=
  if decide (om_DeletionTimestamp (w_Meta old) ≠ None ∧ om_Finalizers (w_Meta w) = [])
  then Del (w_Key old)
  else Put (w_with_meta w (meta_system (w_Meta w) (om_UID (w_Meta old)) "" (om_DeletionTimestamp (w_Meta old)))).

Definition deleting (old : Workload) : revision :=
  if decide (om_Finalizers (w_Meta old) = []) then Del (w_Key old)
  else Put (w_with_meta old (meta_system (w_Meta old) (om_UID (w_Meta old)) "" (Some 0%Z))).

Definition creating (log : list revision) (w : Workload) : revision :=
  Put (w_with_meta w (meta_system (w_Meta w) ("uid-" +:+ pretty (length log)) "" None)).

(** A create-or-update cannot move the object. *)
Definition w_at (w : Workload) (k : NamespacedName) : Workload :=
  let m := w_Meta w in w_with_meta w {|
    om_Name := nn_Name k; om_GenerateName := om_GenerateName m; om_Namespace := nn_Namespace k;
    om_UID := om_UID m; om_ResourceVersion := om_ResourceVersion m; om_Generation := om_Generation m;
    om_Labels := om_Labels m; om_Annotations := om_Annotations m; om_Finalizers := om_Finalizers m;
    om_OwnerReferences := om_OwnerReferences m; om_DeletionTimestamp := om_DeletionTimestamp m |}.

#[export] Instance same_version_dec w w' : Decision (same_version w w').
Proof. apply _. Defined.

Definition write_revision (c : call) (log : list revision) : option revision :=
  match c with
  | KUpdateWorkload w =>
      old ← stored_in log (w_Key w);
      if decide (same_version w old) then Some (replacing old w) else None
  | KStatusUpdateWorkload w =>
      old ← stored_in log (w_Key w);
      if decide (same_version w old)
      then Some (replacing old {| w_Meta := w_Meta old; w_Spec := w_Spec old; w_Status := w_Status w |})
      else None
  | KDeleteWorkload key => deleting <$> stored_in log key
  | KCreateWorkload w =>
      match stored_in log (w_Key w) with None => Some (creating log w) | Some _ => None end
  | KCreateOrUpdateWorkload w mutate =>
      match stored_in log (w_Key w) with
      | None => match mutate w with Ok w' => Some (creating log (w_at w' (w_Key w))) | Err _ => None end
      | Some old => match mutate old with Ok w' => Some (replacing old (w_at w' (w_Key w))) | Err _ => None end
      end
  | _ => None
  end.

Definition etcd_get (c : call) (log : list revision) : answer c → Prop :=
  match c with
  | KGetWorkload key => λ r, match r with Ok w => seen_in log w | Err _ => True end
  | _ => λ _, True
  end.

#[export] Instance etcd : KubeApi (list revision) := {|
  api_stored := stored_in;
  api_seen := seen_in;
  api_moves := λ log log', ∃ rev, log' = rev :: log;
  api_step := λ c log r log', etcd_get c log r ∧
    (log' = log ∨ ∃ rev, write_revision c log = Some rev ∧ log' = rev :: log);
|}.

(** ** The laws *)

Lemma stored_in_seen log k w : stored_in log k = Some w → seen_in log w ∧ w_Key w = k.
Proof.
  induction log as [|[w'|key] log IH]; simpl; [done|case_decide as Hk..]; [|naive_solver|done|naive_solver].
  intros [= <-]. split; [by left|done].
Qed.

Lemma seen_in_version log w :
  seen_in log w → ∃ n, n < length log ∧ om_ResourceVersion (w_Meta w) = pretty n.
Proof.
  induction log as [|[w'|key] log IH]; simpl; [done|..].
  - intros [->|(n & ? & ?)%IH]; [exists (length log)|exists n]; (split; [lia|done]).
  - intros (n & ? & ?)%IH. exists n. split; [lia|done].
Qed.

(** A version written later than the log is not in it. *)
Lemma unseen log w : om_ResourceVersion (w_Meta w) = pretty (length log) → ¬ seen_in log w.
Proof. intros Hv (n & Hn & Hv')%seen_in_version. rewrite Hv in Hv'. apply (inj pretty) in Hv'. lia. Qed.

Lemma seen_in_unique log w w' : seen_in log w → seen_in log w' → same_version w w' → w = w'.
Proof.
  induction log as [|[w0|key] log IH]; simpl; [done| |done].
  intros [->|Hw] [->|Hw'] (Hk & Hu & Hv); [done|..].
  - by destruct (unseen log w').
  - by destruct (unseen log w).
  - by apply IH.
Qed.

Lemma revision_stored rev log k w :
  stored_in (rev :: log) k = Some w → stored_in log k = Some w ∨ ¬ seen_in log w.
Proof.
  destruct rev as [w'|key]; simpl; case_decide; [|auto|done|auto]. intros [= <-]. right. by apply unseen.
Qed.

Lemma stored_other rev log k : revision_key rev ≠ k → stored_in (rev :: log) k = stored_in log k.
Proof. destruct rev; simpl; intros; by rewrite decide_False. Qed.

Lemma replacing_key old w : w_Key w = w_Key old → revision_key (replacing old w) = w_Key old.
Proof. intros Hk. unfold replacing. by case_decide. Qed.

Lemma replacing_replaced old w log :
  w_Key w = w_Key old → replaced old w (stored_in (replacing old w :: log) (w_Key old)).
Proof.
  intros Hk. unfold replacing. case_decide as Hd; simpl; rewrite decide_True by done.
  - right. naive_solver.
  - left. by eexists.
Qed.

Lemma deleting_effect old log :
  om_Finalizers (w_Meta old) = [] ∧ stored_in (deleting old :: log) (w_Key old) = None ∨
  replaced old old (stored_in (deleting old :: log) (w_Key old)).
Proof.
  unfold deleting. case_decide as Hd; simpl; rewrite decide_True by done; [by left|].
  right. left. by eexists.
Qed.

Lemma deleting_key old : revision_key (deleting old) = w_Key old.
Proof. unfold deleting. by case_decide. Qed.

(** The revision a call appends, where it touches [k], is an effect the laws allow. *)
Lemma replacing_effect log k w old :
  stored_in log k = Some old → w_Key w = k →
  revision_key (replacing old w) = k ∧ replaced old w (stored_in (replacing old w :: log) k).
Proof.
  intros [_ Hk]%stored_in_seen Hw. rewrite <- Hk in Hw |- *.
  split; [by apply replacing_key|by apply replacing_replaced].
Qed.

Lemma revision_effect c log rev k :
  write_revision c log = Some rev →
  stored_in (rev :: log) k = stored_in log k ∨ write_effect c k (stored_in log k) (stored_in (rev :: log) k).
Proof.
  intros Hw. destruct (decide (revision_key rev = k)) as [<-|Hk]; [right|left; by apply stored_other].
  destruct c; simpl in Hw; try done.
  - destruct (stored_in log (w_Key w)) eqn:Hs; [done|]. by simplify_eq.
  - destruct (stored_in log (w_Key w)) as [old|] eqn:Hs; simpl in Hw; [|done]. case_decide as Hv; simplify_eq.
    destruct (replacing_effect log _ w old Hs) as [-> Hr]; [done|]. by exists old.
  - destruct (stored_in log (w_Key w)) as [old|] eqn:Hs; simpl in Hw; [|done]. case_decide as Hv; simplify_eq.
    destruct (stored_in_seen _ _ _ Hs) as [_ Hk].
    destruct (replacing_effect log _ {| w_Meta := w_Meta old; w_Spec := w_Spec old; w_Status := w_Status w |}
      old Hs) as [-> Hr]; [done|]. by exists old.
  - destruct (stored_in log key) as [old|] eqn:Hs; simplify_eq/=.
    destruct (stored_in_seen _ _ _ Hs) as [_ Hk]. pose proof (deleting_effect old log) as Hd.
    rewrite deleting_key. rewrite Hk in *. split; [done|]. by exists old.
  - destruct (stored_in log (w_Key w)) as [old|] eqn:Hs; destruct (mutate _) as [w'|] eqn:Hm; simplify_eq/=;
      [right|by left].
    destruct (replacing_effect log _ (w_at w' (w_Key w)) old Hs) as [-> Hr]; [by destruct (w_Key w)|].
    by exists old, w'.
Qed.

#[export] Instance etcd_laws : KubeApiLaws (list revision).
Proof.
  assert (∀ log log' : list revision, api_advance log log' → log' = log ∨ ∃ rev, log' = rev :: log) as Hadv.
  { intros log log' [(rev & ->)|(c & r & _ & [->|(rev & _ & ->)])]; eauto. }
  split; simpl.
  - apply stored_in_seen.
  - apply seen_in_unique.
  - intros log log' w [->|[rev ->]]%Hadv; [done|]. destruct rev; simpl; auto.
  - intros log log' k w [->|[rev ->]]%Hadv; [by left|]. apply revision_stored.
  - intros log log' key w [Hs _]. exact Hs.
  - intros log log' c r k [_ [->|(rev & Hw & ->)]]; [by left|]. by apply revision_effect.
Qed.
