(* ===== verification/Concrete.v ===== *)
(** * Concrete: an executable environment

    Concrete instances of the interfaces the development is parameterised by, with
    proofs of the laws, and an environment ([Env], [respond]) that answers every
    call.  They make every model executable and show that the hypotheses of the
    theorems can be met.  The instances are small stand-ins: the codecs are
    injective encodings rather than JSON and base64, the hash is not SHA-256. *)

From S2P Require Import Prelude.
From S2P Require Import Effects.
From S2P Require Import Regex.
From S2P Require Import Go.
From S2P Require Import Json.
From S2P Require Import Api.
From S2P Require Import Calls.
From S2P Require Import Catalog.
From S2P Require Import CatalogTemplates.
From S2P Require Import Controller.
From S2P Require Import Capacity.
From S2P Require Import TokenStore.
From S2P Require Import Metrics.
From S2P Require Import ConvexClient.
From S2P Require Import Gateway.

(** ** Injective encodings of countable types as strings of bits *)
Definition bit0 : Ascii.ascii := Ascii.ascii_of_nat 48.
Definition bit1 : Ascii.ascii := Ascii.ascii_of_nat 49.

Fixpoint bits_of_pos (p : positive) : string :=
  match p with
  | xH => String bit1 ""
  | xO p => String bit0 (bits_of_pos p)
  | xI p => String bit1 (bits_of_pos p)
  end.

Fixpoint pos_of_bits (s : string) : option positive :=
  match s with
  | EmptyString => None
  | String a s' =>
      match s' with
      | EmptyString => Some xH
      | _ => p ← pos_of_bits s'; Some (if decide (a = bit0) then xO p else xI p)
      end
  end.

Lemma pos_of_bits_of_pos p : pos_of_bits (bits_of_pos p) = Some p.
Proof.
  induction p as [p IH|p IH|]; [| |done]; simpl; rewrite IH; by destruct p.
Qed.

Definition bits_encode `{Countable A} (x : A) : string := bits_of_pos (encode x).
Definition bits_decode `{Countable A} (s : string) : option A := p ← pos_of_bits s; decode p.

Lemma bits_roundtrip `{Countable A} (x : A) : bits_decode (bits_encode x) = Some x.
Proof. unfold bits_decode, bits_encode. rewrite pos_of_bits_of_pos. simpl. apply decode_encode. Qed.

(** ** The standard library *)
Definition any_string (a : any) : option string :=
  match a with AString s => Some s | _ => None end.

(** Configurations whose values are all strings. *)
Definition string_config (m : gmap string any) : option (gmap string string) :=
  let l := map_to_list m in
  list_to_map <$> mapM (λ kv, s ← any_string kv.2; Some (kv.1, s)) l.

Definition no_encoding : goerr := ENew "json: unsupported value".

#[export] Instance demo_std : GoStd := {|
  fmt_g := λ _, "%g";
  fmt_q := λ s, "'" +:+ s +:+ "'";
  rfc3339 := λ t, pretty t;
  rfc3339nano := λ t, pretty t;
  json_marshal_config := λ m,
    match string_config m with Some m => Ok (bits_encode m) | None => Err no_encoding end;
  json_unmarshal_config := λ s,
    match bits_decode (A := gmap string string) s with
    | Some m => Ok (AString <$> m)
    | None => Err (ENew "invalid character")
    end;
  regexp_MatchString := λ _ _, Ok true;
  float64_to_int32_oob := λ _, 0%Z |}.

#[export] Instance demo_std_laws : GoStdLaws.
Proof.
  split; simpl.
  - intros raw e s. destruct (bits_decode raw); [done|]. by intros [= <-].
  - done.
Qed.

(** URLs: no control characters, and each percent sign starts an escape. *)
Definition hex_digit (a : Ascii.ascii) : bool :=
  let n := Ascii.nat_of_ascii a in
  (48 <=? n) && (n <=? 57) || (65 <=? n) && (n <=? 70) || (97 <=? n) && (n <=? 102).

Fixpoint url_chars (s : string) : bool :=
  match s with
  | EmptyString => true
  | String a s =>
      let n := Ascii.nat_of_ascii a in
      (32 <=? n) && negb (n =? 127) &&
      (if n =? 37 then match s with String b (String c _) => hex_digit b && hex_digit c | _ => false end else true) &&
      url_chars s
  end.

#[export] Instance demo_net : GoNet := {|
  http_NewRequest := λ url, if url_chars url then None else Some (ENew ("parse " +:+ url +:+ ": invalid URL"));
  json_sha256_hex := λ _, "c0ffee" |}.

(** ** apimachinery and controller-runtime *)

(** Quantities: a decimal number with one of the suffixes the catalog uses. *)
Fixpoint parse_number (s : string) (acc : Z) : Z * string :=
  match s with
  | EmptyString => (acc, "")
  | String a s' =>
      let n := Ascii.nat_of_ascii a in
      if (48 <=? n) && (n <=? 57) then parse_number s' (acc * 10 + Z.of_nat (n - 48))
      else (acc, s)
  end.

Definition quantity_milli (q : string) : Z :=
  let '(n, suffix) := parse_number q 0 in
  if decide (suffix = "m") then n
  else if decide (suffix = "Mi") then (n * 2 ^ 20 * 1000)%Z
  else if decide (suffix = "Gi") then (n * 2 ^ 30 * 1000)%Z
  else (n * 1000)%Z.

(** The transition time is kept while the status is. *)
Definition merge_condition (old c : Condition) : Condition := {|
  co_Type := co_Type c; co_Status := co_Status c; co_ObservedGeneration := co_ObservedGeneration c;
  co_LastTransitionTime :=
    if decide (co_Status old = co_Status c) then co_LastTransitionTime old else co_LastTransitionTime c;
  co_Reason := co_Reason c; co_Message := co_Message c |}.

Fixpoint set_condition_in (cs : list Condition) (c : Condition) : list Condition :=
  match cs with
  | [] => [c]
  | c' :: cs =>
      if decide (co_Type c' = co_Type c) then merge_condition c' c :: cs
      else c' :: set_condition_in cs c
  end.

Fixpoint find_condition_in (cs : list Condition) (t : string) : option Condition :=
  match cs with
  | [] => None
  | c :: cs => if decide (co_Type c = t) then Some c else find_condition_in cs t
  end.

Definition demo_owner (w : Workload) (m : ObjectMeta) : ObjectMeta := {|
  om_Name := om_Name m; om_GenerateName := om_GenerateName m; om_Namespace := om_Namespace m;
  om_UID := om_UID m; om_ResourceVersion := om_ResourceVersion m; om_Generation := om_Generation m;
  om_Labels := om_Labels m; om_Annotations := om_Annotations m; om_Finalizers := om_Finalizers m;
  om_OwnerReferences := [{| or_Kind := "Workload"; or_Name := w_Name w; or_UID := w_UID w;
                            or_Controller := true |}];
  om_DeletionTimestamp := om_DeletionTimestamp m |}.

#[export] Instance demo_kube : KubeLib := {|
  FindStatusCondition := find_condition_in;
  SetStatusCondition := set_condition_in;
  ContainsFinalizer := λ m f, bool_decide (f ∈ om_Finalizers m);
  AddFinalizer := λ m f, meta_with_finalizers m (f :: om_Finalizers m);
  RemoveFinalizer := λ m f, meta_with_finalizers m (filter (.≠ f) (om_Finalizers m));
  SetControllerReference := λ w m, Ok (demo_owner w m);
  IsDNS1123Label := λ s, if decide (s = "") then ["must not be empty"] else [];
  MilliValue := quantity_milli;
  Value := λ q, (quantity_milli q / 1000)%Z;
  decode_EnvVar := decode_struct [
    decode_field "name" ev_Name (λ v e, {| ev_Name := v; ev_Value := ev_Value e; ev_ValueFrom := None |})
      decode_string;
    decode_field "value" ev_Value (λ v e, env_var (ev_Name e) v) decode_string ] |}.

#[export] Instance demo_kube_laws : KubeLibLaws.
Proof.
  split; simpl.
  - intros cs c. induction cs as [|c' cs IH]; simpl; [exists c; by rewrite decide_True|].
    case_decide; simpl; [rewrite decide_True by done; by eexists|by rewrite decide_False].
  - intros cs c t Ht. induction cs as [|c' cs IH]; simpl; [by rewrite decide_False|].
    case_decide as Hc; simpl; repeat case_decide; congruence.
  - intros cs c c'. induction cs as [|c0 cs IH]; simpl; [intros ->%list_elem_of_singleton; by right|].
    case_decide; rewrite !elem_of_cons; naive_solver.
  - intros cs c. induction cs as [|c0 cs IH]; simpl; [intros _; apply NoDup_singleton|].
    rewrite NoDup_cons. intros [Hn Hd]. case_decide as Hc; simpl; rewrite NoDup_cons; [by rewrite <- Hc|].
    split; [|auto]. clear IH Hd. induction cs as [|c1 cs IH]; simpl in *; [rewrite list_elem_of_singleton; done|].
    rewrite elem_of_cons in Hn. case_decide; simpl; rewrite elem_of_cons; naive_solver.
  - intros cs c c0. induction cs as [|c1 cs IH]; simpl; [done|]. case_decide as Hc.
    + intros [= ->] Hs Hr Hm Hg. f_equal. unfold merge_condition. rewrite decide_True by done.
      destruct c0, c. simpl in *. congruence.
    + intros. f_equal. auto.
  - intros m f. apply bool_decide_true. left.
  - intros m f. apply bool_decide_false. simpl. rewrite list_elem_of_filter. naive_solver.
  - eauto.
  - eauto.
  - intros w m m' [= <-]. by destruct m.
  - done.
Qed.

(** ** The gateway codecs *)
Definition nibble (n : nat) : Ascii.ascii := Ascii.ascii_of_nat (65 + n).

Fixpoint letters_encode (s : string) : string :=
  match s with
  | EmptyString => ""
  | String a s =>
      let n := Ascii.nat_of_ascii a in
      String (nibble (n / 16)) (String (nibble (n mod 16)) (letters_encode s))
  end.

Fixpoint letters_decode (s : string) : option string :=
  match s with
  | EmptyString => Some ""
  | String a (String b s) =>
      r ← letters_decode s;
      Some (String (Ascii.ascii_of_nat
        ((Ascii.nat_of_ascii a - 65) * 16 + (Ascii.nat_of_ascii b - 65))) r)
  | _ => None
  end.

Lemma nibble_nat n : n < 16 → Ascii.nat_of_ascii (nibble n) = 65 + n.
Proof. intros Hn. unfold nibble. apply Ascii.nat_ascii_embedding. lia. Qed.

Lemma ascii_halves a :
  Ascii.nat_of_ascii a / 16 < 16 ∧ Ascii.nat_of_ascii a mod 16 < 16 ∧
  Ascii.nat_of_ascii a / 16 * 16 + Ascii.nat_of_ascii a mod 16 = Ascii.nat_of_ascii a.
Proof.
  pose proof (Ascii.nat_ascii_bounded a). split_and!.
  - apply Nat.Div0.div_lt_upper_bound. lia.
  - apply Nat.mod_upper_bound. lia.
  - rewrite (Nat.div_mod_eq (Ascii.nat_of_ascii a) 16) at 3. lia.
Qed.

Lemma letters_roundtrip s : letters_decode (letters_encode s) = Some s.
Proof.
  induction s as [|a s IH]; [done|]. destruct (ascii_halves a) as (H1 & H2 & H3).
  cbn -[Nat.div Nat.modulo nibble]. rewrite IH. cbn -[Nat.div Nat.modulo nibble].
  rewrite !nibble_nat by done.
  replace (65 + Ascii.nat_of_ascii a / 16 - 65) with (Ascii.nat_of_ascii a / 16) by lia.
  replace (65 + Ascii.nat_of_ascii a mod 16 - 65) with (Ascii.nat_of_ascii a mod 16) by lia.
  by rewrite H3, Ascii.ascii_nat_embedding.
Qed.

Lemma letters_no_dot s : dot ∉ String.list_ascii_of_string (letters_encode s).
Proof.
  induction s as [|a s IH]; cbn -[Nat.div Nat.modulo nibble]; [set_solver|].
  destruct (ascii_halves a) as (H1 & H2 & _).
  assert (∀ n, n < 16 → dot ≠ nibble n) as Hd.
  { intros n Hn Heq. apply (f_equal Ascii.nat_of_ascii) in Heq. rewrite nibble_nat in Heq by done.
    change (Ascii.nat_of_ascii dot) with 46 in Heq. lia. }
  rewrite !not_elem_of_cons. auto.
Qed.

#[export] Instance demo_codec : GatewayCodec := {|
  hmac_sha256 := λ secret msg, secret +:+ ":" +:+ msg;
  base64url_encode := letters_encode;
  base64url_decode := λ s,
    match letters_decode s with Some r => Ok r | None => Err (ENew "illegal base64 data") end;
  payload_marshal := λ p, Ok (bits_encode (pl_Namespace p, pl_Name p, pl_UserID p, pl_Exp p));
  payload_unmarshal := λ s,
    match bits_decode (A := string * string * string * Z) s with
    | Some (ns, n, u, e) => Ok {| pl_Namespace := ns; pl_Name := n; pl_UserID := u; pl_Exp := e |}
    | None => Err (ENew "invalid character")
    end |}.

#[export] Instance demo_codec_laws : GatewayCodecLaws.
Proof.
  split; simpl.
  - intros s. by rewrite letters_roundtrip.
  - apply letters_no_dot.
  - intros [ns n u e] _. eexists. split; [done|]. simpl. by rewrite bits_roundtrip.
Qed.

(** ** The environment *)

(** What each part of the world answers. *)
Record Env := {
  env_workload : result goerr Workload;
  env_update : option goerr;
  env_apply : option goerr;
  env_deployment : result goerr Deployment;
  env_pods : result goerr (list Pod);
  env_delete : result goerr unit;
  env_notify : option goerr;
  env_http : HttpRequest → result goerr HttpResponse;
  env_secret : result goerr Secret;
  env_nodes : result goerr (list Node);
  env_deployments : result goerr (list Deployment);
  env_summary : string → result goerr (option json);
  env_file : result goerr string;
  env_now : Z;
}.

Definition with_failure {A} (o : option goerr) (r : result goerr A) : result goerr A :=
  match o with Some e => Err e | None => r end.

(** Writes are stored as they are, unless the environment fails them. *)
Definition respond (env : Env) (c : call) : answer c :=
  match c with
  | KGetWorkload _ => env_workload env
  | KCreateWorkload w => with_failure (env_update env) (Ok w)
  | KUpdateWorkload w => with_failure (env_update env) (Ok w)
  | KStatusUpdateWorkload w => with_failure (env_update env) (Ok w)
  | KDeleteWorkload _ => env_delete env
  | KCreateOrUpdateWorkload w f => with_failure (env_update env) (f w)
  | KCreateOrUpdateDeployment d f => with_failure (env_apply env) (f d)
  | KCreateOrUpdateService s f => with_failure (env_apply env) (f s)
  | KGetDeployment _ => env_deployment env
  | KGetService key => Ok {|
      s_Meta := named_meta (nn_Namespace key) (nn_Name key); s_Type := "ClusterIP"; s_Selector := ∅;
      s_Ports := [{| sp_Name := "http"; sp_Port := 80; sp_TargetPort := 80 |}] |}
  | KListPods _ _ => env_pods env
  | KListNodes => env_nodes env
  | KListDeployments _ _ => env_deployments env
  | KGetSecret _ => env_secret env
  | KCreateSecret s => with_failure (env_update env) (Ok s)
  | KUpdateSecret s => with_failure (env_update env) (Ok s)
  | KCreateNamespace _ => Ok tt
  | KPatchNamespace _ => Ok tt
  | UpsertWorkload _ => env_notify env
  | RemoveWorkload _ _ => env_notify env
  | ReportLifecycle _ _ _ _ _ => env_notify env
  | VerifyGatewayToken _ _ _ => Ok "user"
  | ReportMetrics _ => env_notify env
  | CurrentToken => "deploy-token"
  | KNodeSummary n => env_summary env n
  | HttpDo rq => env_http env rq
  | ProxyDo _ => Ok (200%Z, "hello")
  | PodExec _ _ _ _ => ("", "", None)
  | NewSPDYExecutor _ => None
  | SPDYStream _ => ("", "", None)
  | Setup _ => None
  | ParseHost _ => Ok ("https", "10.0.0.1")
  | ReadFile _ => env_file env
  | RandRead n => Ok (String.string_of_list_ascii (replicate n bit1))
  | Now => env_now env
  end.

(** Running a program in an environment. *)
Definition play {X} (env : Env) (p : program X) : X * unit * trace :=
  run (λ c s, (respond env c, s)) p tt.

Definition result_of {X} (env : Env) (p : program X) : X := (play env p).1.1.
Definition trace_of {X} (env : Env) (p : program X) : trace := (play env p).2.

Lemma play_exec {X} (env : Env) (p : program X) : exec p (trace_of env p) (result_of env p).
Proof.
  unfold trace_of, result_of. destruct (play env p) as [[x []] tr] eqn:Hp. simpl.
  by eapply run_exec.
Qed.

(** Every event of such a run carries the answer of the environment. *)
Lemma trace_responds {X} (env : Env) (p : program X) e :
  e ∈ trace_of env p → ∃ c, e = existT c (respond env c).
Proof.
  unfold trace_of, play. revert e. induction p as [x|c k IH]; intros e; simpl; [by intros ?%elem_of_nil|].
  specialize (IH (respond env c)).
  destruct (run _ (k (respond env c)) tt) as [[x s'] tr]. intros [->|Hin]%elem_of_cons; eauto.
Qed.
