(* ===== verification/Witnesses.v ===== *)
(** * Witnesses: the theorems at concrete inputs

    Every theorem that has hypotheses is applied here to a run in the environment of
    [Concrete], with the hypotheses discharged by computation. *)

From S2P Require Import Prelude.
From S2P Require Import Effects.
From S2P Require Import Regex.
From S2P Require Import Go.
From S2P Require Import Json.
From S2P Require Import Api.
From S2P Require Import Calls.
From S2P Require Import Catalog.
From S2P Require Import CatalogTemplates.
From S2P Require Import Controller.
From S2P Require Import ControllerFacts.
From S2P Require Import ControllerStatus.
From S2P Require Import ControllerLiveness.
From S2P Require Import ControllerObjects.
From S2P Require Import Capacity.
From S2P Require Import Provisioning.
From S2P Require Import TokenStore.
From S2P Require Import Metrics.
From S2P Require Import ConvexClient.
From S2P Require Import Runnable.
From S2P Require Import RunnableFacts.
From S2P Require Import Operator.
From S2P Require Import TestUtils.
From S2P Require Import Concrete.

(** ** A small world *)
Definition demo_meta (finalizers : list string) (deleted : option Z) : ObjectMeta := {|
  om_Name := "web"; om_GenerateName := "nginx-"; om_Namespace := "apps"; om_UID := "uid-1";
  om_ResourceVersion := "7"; om_Generation := 3; om_Labels := {[ WorkloadID := "row-1" ]};
  om_Annotations := ∅; om_Finalizers := finalizers; om_OwnerReferences := [];
  om_DeletionTimestamp := deleted |}.

Definition demo_spec (template : string) (suspended : bool) : WorkloadSpec := {|
  ws_TemplateName := template; ws_Image := ""; ws_Replicas := None; ws_ContainerPort := 0;
  ws_Env := []; ws_Subdomain := "web"; ws_UserID := "alice"; ws_Config := None;
  ws_Suspended := suspended; ws_LastRedeployedAt := "" |}.

Definition demo_workload (template : string) (finalizers : list string) (deleted : option Z) : Workload :=
  {| w_Meta := demo_meta finalizers deleted; w_Spec := demo_spec template false; w_Status := empty_status |}.

Definition live_workload : Workload := demo_workload templateIDNginx [workloadFinalizer] None.

Definition demo_deployment (ready : Z) : Deployment := {|
  d_Meta := named_meta "apps" "web"; d_Replicas := Some 1%Z; d_Selector := ∅; d_TemplateLabels := ∅;
  d_TemplateAnnotations := ∅;
  d_Containers := [{| c_Name := "web"; c_Image := "nginx"; c_Command := []; c_Env := []; c_Ports := [];
    c_LivenessProbe := None; c_ReadinessProbe := None;
    c_Resources := {| rr_Limits := ∅; rr_Requests := {[ "cpu" := "250m"; "memory" := "64Mi" ]} |};
    c_VolumeMounts := [] |}];
  d_InitContainers := []; d_Volumes := []; d_ReadyReplicas := ready |}.

Definition demo_pod (labels : gmap string string) (conds : list PodCondition) : Pod := {|
  p_Meta := meta_with_labels (named_meta "apps" "web-0") labels; p_NodeName := "node-1";
  p_Phase := "Pending"; p_Conditions := conds |}.

Definition stuck_condition : PodCondition := {|
  pc_Type := PodScheduled; pc_Status := ConditionFalse; pc_LastTransitionTime := 0;
  pc_Reason := PodReasonUnschedulable; pc_Message := "0/3 nodes are available" |}.

Definition not_found : goerr := EStatus SNotFound "not found".
Definition conflict : goerr := EStatus SConflict "the object has been modified".

(** Convex answers every post with 200 and this document. *)
Definition convex_reply (j : json) : HttpRequest → result goerr HttpResponse :=
  λ _, Ok {| rs_Status := StatusOK; rs_Body := Some j |}.

Definition demo_env : Env := {|
  env_workload := Ok live_workload; env_update := None; env_apply := None;
  env_deployment := Ok (demo_deployment 1); env_pods := Ok []; env_delete := Ok tt;
  env_notify := None; env_http := convex_reply (JObject []); env_secret := Err not_found;
  env_nodes := Ok [{| n_Name := "node-1"; n_Allocatable := {[ "cpu" := "4"; "memory" := "8Gi" ]} |}];
  env_deployments := Ok [demo_deployment 1]; env_summary := λ _, Err (ENew "unreachable");
  env_file := Ok "secret"; env_now := 1000 * second |}.

Definition env_with_workload (w : result goerr Workload) : Env := {|
  env_workload := w; env_update := None; env_apply := None;
  env_deployment := env_deployment demo_env; env_pods := env_pods demo_env; env_delete := Ok tt;
  env_notify := None; env_http := env_http demo_env; env_secret := env_secret demo_env;
  env_nodes := env_nodes demo_env; env_deployments := env_deployments demo_env;
  env_summary := env_summary demo_env; env_file := env_file demo_env; env_now := env_now demo_env |}.

Definition reconciler : WorkloadReconciler := {| wr_ConvexClient := true |}.
Definition demo_key : NamespacedName := {| nn_Namespace := "apps"; nn_Name := "web" |}.
Definition demo_reconcile : program ReconcileResult := Reconcile reconciler demo_key.

(** ** The catalog *)
Definition demo_config : gmap string any := {[ "logLevel" := AString "warn" ]}.

Lemma catalog_never_panics_witness :
  Nginx ∈ templates ∧ ResolveParams (t_Parameters Nginx) demo_config ≠ Err EPanic.
Proof. split; [left|]. exact (proj1 (catalog_never_panics Nginx demo_config ltac:(left))). Defined.

Lemma templates_build_wf_witness :
  ∃ r, t_Build Firefox demo_config = Ok r ∧ rendered_wf Firefox r = true.
Proof. apply (templates_build_wf Firefox demo_config). right; left. Defined.

Definition nginx_rendered (params : gmap string any) : Rendered :=
  match t_Build Nginx params with Ok r => r | Err _ => empty_rendered end.

Definition firefox_rendered (params : gmap string any) : Rendered :=
  match t_Build Firefox params with Ok r => r | Err _ => empty_rendered end.

Lemma build_commands_parameter_free_witness :
  c_Command <$> re_InitContainers (firefox_rendered ∅) ≠ [[]] ∧
  c_Command <$> (re_Containers (firefox_rendered ∅) ++ re_InitContainers (firefox_rendered ∅)) =
  c_Command <$> (re_Containers (firefox_rendered demo_config) ++ re_InitContainers (firefox_rendered demo_config)).
Proof.
  split; [vm_compute; discriminate|].
  apply (build_commands_parameter_free Firefox ∅ demo_config); [right; left|reflexivity|reflexivity].
Defined.

(** Two containers, one of them with limits above its requests. *)
Definition two_containers : Template :=
  let c := λ cpu mem, {| c_Name := "c"; c_Image := "i"; c_Ports := []; c_Env := []; c_LivenessProbe := None; c_ReadinessProbe := None;
    c_Resources := browserResources cpu mem "9Gi"; c_VolumeMounts := []; c_Command := [] |} in
  {| t_ID := "two"; t_Name := ""; t_Description := ""; t_Icon := ""; t_Version := ""; t_Parameters := [];
     t_Entrypoints := []; t_Operations := [];
     t_Build := λ _, Ok {| re_Containers := [c "250m" "64Mi"; c "1" "128Mi"]; re_InitContainers := [];
                           re_ServicePorts := []; re_Volumes := [] |} |}.

Lemma EstimatedResources_exact_witness :
  EstimatedResources two_containers = (1250, 192 * 2 ^ 20)%Z ∧
  EstimatedResources Nginx =
    (int64 (cpu_requested (nginx_rendered demo_config)), int64 (memory_requested (nginx_rendered demo_config))).
Proof.
  split; [etrans; [by eapply (proj1 (EstimatedResources_exact two_containers))|vm_compute; reflexivity]|].
  by apply (proj2 (proj2 (EstimatedResources_exact Nginx)) (list_elem_of_here _ _) demo_config).
Defined.

Definition restore_config : gmap string any :=
  {[ paramKeyRestoreProfile := ABool true; paramKeyProfileName := AString "work" ]}.

Definition resolved (ps : list TemplateParameter) (raw : gmap string any) : gmap string any :=
  match ResolveParams ps raw with Ok m => m | Err _ => ∅ end.

Lemma restore_needs_profile_witness :
  ∃ v, resolved (browserParameters profileSourceKeyFirefox) restore_config !! paramKeyProfileName = Some v ∧
    v ≠ ANil ∧ v ≠ AString "".
Proof.
  apply (restore_needs_profile profileSourceKeyFirefox restore_config); vm_compute; reflexivity.
Defined.

Lemma demo_config_json : json_map demo_config.
Proof.
  unfold demo_config. intros k v Hk. apply lookup_singleton_Some in Hk as [<- <-]. split; vm_compute; reflexivity.
Qed.

Lemma nginx_workers_in_range_witness :
  (0 ≤ paramInt32 (resolved (t_Parameters Nginx) demo_config) "workerConnections" 1024 ≤ 65536)%Z.
Proof.
  apply (nginx_workers_in_range demo_config); [apply demo_config_json|vm_compute; reflexivity].
Defined.

Definition demo_backup : program (result goerr OperationResult) :=
  backup_Run "/config" "firefox" {| pf_Namespace := "apps"; pf_PodName := "web-0" |}
    {[ paramKeyUploadURL := AString "https://bucket/key" ]}.

Lemma backup_Run_spec_witness : is_ok (result_of demo_env demo_backup) = true ∧
  ∃ out err e tr', trace_of demo_env demo_backup =
    existT (PodExec "apps" "web-0" "firefox" (backup_command "/config" "https://bucket/key")) (out, err, e) :: tr'.
Proof.
  split; [vm_compute; reflexivity|].
  destruct (backup_Run_spec _ _ _ _ _ _ (play_exec demo_env demo_backup)) as [(Hu & _)|(_ & out & err & e & tr' & Ht & _)].
  - vm_compute in Hu. discriminate Hu.
  - exists out, err, e, tr'. exact Ht.
Defined.

(** ** The reconciler *)
Definition deleted_env : Env :=
  env_with_workload (Ok (demo_workload templateIDNginx [workloadFinalizer] (Some 5%Z))).

Lemma finalizer_released_after_removal_witness :
  length (trace_of deleted_env demo_reconcile) = 3 ∧
  guarded finalizer_guard [] (trace_of deleted_env demo_reconcile).
Proof.
  split; [vm_compute; reflexivity|].
  apply (finalizer_released_after_removal reconciler demo_key _ _ eq_refl (play_exec _ _)).
Defined.

Definition conflict_env : Env := {|
  env_workload := Ok live_workload; env_update := None; env_apply := Some conflict;
  env_deployment := env_deployment demo_env; env_pods := env_pods demo_env; env_delete := Ok tt;
  env_notify := None; env_http := env_http demo_env; env_secret := env_secret demo_env;
  env_nodes := env_nodes demo_env; env_deployments := env_deployments demo_env;
  env_summary := env_summary demo_env; env_file := env_file demo_env; env_now := env_now demo_env |}.

Lemma conflict_is_retried_quietly_witness :
  (∃ err, IsConflict err = true ∧ result_of conflict_env demo_reconcile = error_result err) ∧
  Forall (λ e, outcome_call (projT1 e) = false) (trace_of conflict_env demo_reconcile).
Proof.
  apply (conflict_is_retried_quietly reconciler demo_key); [apply play_exec|vm_compute; reflexivity].
Defined.

(** A Workload of a template the catalog does not have. *)
Definition unknown_env : Env := env_with_workload (Ok (demo_workload "gone" [workloadFinalizer] None)).

Lemma failed_report_has_cause_witness :
  length (trace_of unknown_env demo_reconcile) = 3 ∧
  guarded failure_guard [] (trace_of unknown_env demo_reconcile).
Proof.
  split; [vm_compute; reflexivity|].
  apply (failed_report_has_cause reconciler demo_key _ _ (play_exec _ _)).
Defined.

Definition stuck_env : Env := {|
  env_workload := Ok live_workload; env_update := None; env_apply := None;
  env_deployment := Ok (demo_deployment 0); env_pods := Ok [demo_pod ∅ [stuck_condition]];
  env_delete := Ok tt; env_notify := None; env_http := env_http demo_env;
  env_secret := env_secret demo_env; env_nodes := env_nodes demo_env;
  env_deployments := env_deployments demo_env; env_summary := env_summary demo_env;
  env_file := env_file demo_env; env_now := env_now demo_env |}.

Lemma unschedulable_released_first_witness :
  length (trace_of stuck_env demo_reconcile) = 7 ∧
  guarded (delete_guard reconciler) [] (trace_of stuck_env demo_reconcile).
Proof.
  split; [vm_compute; reflexivity|].
  apply (unschedulable_released_first reconciler demo_key _ _ (play_exec _ _)).
Defined.

(** ** Notifications and status *)
Definition failing_env : Env := {|
  env_workload := Ok live_workload; env_update := None; env_apply := None;
  env_deployment := env_deployment demo_env; env_pods := env_pods demo_env; env_delete := Ok tt;
  env_notify := Some (ENew "unavailable"); env_http := env_http demo_env;
  env_secret := env_secret demo_env; env_nodes := env_nodes demo_env;
  env_deployments := env_deployments demo_env; env_summary := env_summary demo_env;
  env_file := env_file demo_env; env_now := env_now demo_env |}.

Definition first_sync : bool * Workload := result_of failing_env (syncConvex reconciler live_workload).

Lemma syncConvex_retried_until_acknowledged_witness :
  ∃ info a a',
    trace_of failing_env (syncConvex reconciler live_workload) = [existT (UpsertWorkload info) (Some a)] ∧
    trace_of demo_env (syncConvex reconciler first_sync.2) = [existT (UpsertWorkload info) a'].
Proof.
  apply (syncConvex_retried_until_acknowledged reconciler live_workload
           (trace_of failing_env (syncConvex reconciler live_workload)) false first_sync.2
           (trace_of demo_env (syncConvex reconciler first_sync.2))
           (result_of demo_env (syncConvex reconciler first_sync.2)));
    [reflexivity|apply play_exec|apply play_exec].
Defined.

Definition first_report : bool * Workload :=
  result_of failing_env (syncConvexLifecyclePhase reconciler live_workload lifecyclePhaseActive).

Lemma lifecycle_retried_until_acknowledged_witness :
  ∃ n i e a', errors_Is e ErrLifecycleStale = false ∧
    trace_of failing_env (syncConvexLifecyclePhase reconciler live_workload lifecyclePhaseActive) =
      [existT (ReportLifecycle n i lifecyclePhaseActive "" false) (Some e)] ∧
    trace_of demo_env (syncConvexLifecyclePhase reconciler first_report.2 lifecyclePhaseActive) =
      [existT (ReportLifecycle n i lifecyclePhaseActive "" false) a'].
Proof.
  apply (lifecycle_retried_until_acknowledged reconciler live_workload lifecyclePhaseActive
           (trace_of failing_env (syncConvexLifecyclePhase reconciler live_workload lifecyclePhaseActive))
           false first_report.2
           (trace_of demo_env (syncConvexLifecyclePhase reconciler first_report.2 lifecyclePhaseActive))
           (result_of demo_env (syncConvexLifecyclePhase reconciler first_report.2 lifecyclePhaseActive)));
    [reflexivity|apply play_exec|apply play_exec].
Defined.

Definition demo_update : program (bool * Workload) :=
  updateStatus reconciler live_workload (demo_deployment 1).

Lemma updateStatus_spec_witness :
  wst_Phase (w_Status (result_of demo_env demo_update).2) = PhaseRunning ∧
  status_means live_workload (demo_deployment 1) (result_of demo_env demo_update).2.
Proof.
  split; [vm_compute; reflexivity|].
  refine (proj1 (updateStatus_spec reconciler live_workload (demo_deployment 1)
            (trace_of demo_env demo_update) (result_of demo_env demo_update).1 _ _)).
  rewrite <- surjective_pairing. apply play_exec.
Defined.

Lemma quiet_means_settled_witness :
  ∃ e, e ∈ trace_of demo_env demo_reconcile ∧ quiet_reason demo_key (trace_of demo_env demo_reconcile) e.
Proof.
  apply (quiet_means_settled reconciler demo_key).
  - replace done_result with (result_of demo_env demo_reconcile) by (vm_compute; reflexivity).
    apply play_exec.
  - unfold trace_of, play, demo_reconcile. simpl. repeat constructor.
Defined.

(** ** Rendered objects *)
Definition demo_rendered : Rendered :=
  match render live_workload with Ok r => r | Err _ => empty_rendered end.

(** A new Workload, without finalizer and status. *)
Definition new_env : Env := env_with_workload (Ok (demo_workload templateIDNginx [] None)).

Lemma undisturbed_reconcile_settles_witness :
  length (trace_of new_env demo_reconcile) = 9 ∧ result_of new_env demo_reconcile = done_result.
Proof.
  split; [vm_compute; reflexivity|].
  refine (undisturbed_reconcile_settles (w_Spec live_workload) reconciler demo_key live_workload demo_rendered
    (trace_of new_env demo_reconcile) _ _ _ (play_exec _ _) _); [reflexivity|vm_compute; reflexivity|].
  unfold trace_of, play, demo_reconcile. simpl. repeat constructor.
Defined.

Definition ok_or {A} (default : A) (r : result goerr A) : A :=
  match r with Ok a => a | Err _ => default end.

Definition applied_deployment : Deployment :=
  ok_or (demo_deployment 0) (mutate_deployment live_workload (selector_labels live_workload)
    (object_labels live_workload) demo_rendered (desiredReplicaCount live_workload) (demo_deployment 1)).

Definition demo_service : Service := empty_service (named_meta "apps" "web").

Definition applied_service : Service :=
  ok_or demo_service (mutate_service live_workload (selector_labels live_workload)
    (object_labels live_workload) demo_rendered demo_service).

Lemma applied_objects_consistent_witness :
  d_Selector applied_deployment ⊆ d_TemplateLabels applied_deployment ∧
  s_Selector applied_service = d_Selector applied_deployment.
Proof.
  destruct (applied_objects_consistent live_workload demo_rendered (demo_deployment 1) applied_deployment
    demo_service applied_service) as [(H1 & H2 & _) _]; [vm_compute; reflexivity..|].
  split; assumption.
Defined.

Lemma render_reason_spec_witness :
  render_reason (ok_or EPanic (match render (demo_workload "gone" [] None) with Err e => Ok e | Ok _ => Err EPanic end))
    = reasonUnknownTemplate.
Proof.
  apply (render_reason_spec (demo_workload "gone" [] None)); [reflexivity|].
  split; [discriminate|reflexivity].
Defined.

(** ** Capacity and metrics *)
Definition demo_tracker : Tracker := {| tr_namespace := "apps" |}.

Definition demo_snapshot : Snapshot :=
  ok_or empty_snapshot (result_of demo_env (take_snapshot demo_tracker)).

Lemma take_snapshot_exact_witness :
  UsedMilliCPU demo_snapshot = 250%Z ∧
  ∃ nodes ds, snapshot_is demo_snapshot (zsum node_cpu nodes) (zsum node_memory nodes)
    (zsum deployment_cpu ds) (zsum deployment_memory ds).
Proof.
  split; [vm_compute; reflexivity|].
  destruct (take_snapshot_exact demo_tracker (trace_of demo_env (take_snapshot demo_tracker)) demo_snapshot)
    as (nodes & ds & _ & Hs).
  - apply (play_exec demo_env (take_snapshot demo_tracker)).
  - exists nodes, ds. exact Hs.
Defined.

Definition demo_collector : Collector := {| cl_namespace := "apps" |}.

Definition demo_summary : json := JObject [
  ("node", JObject [("cpu", JObject [("usageNanoCores", JInt 2500000)]);
                    ("memory", JObject [("workingSetBytes", JInt 4096)])]);
  ("pods", JArray [JObject [
    ("podRef", JObject [("name", JString "web-0"); ("namespace", JString "apps")]);
    ("cpu", JObject [("usageNanoCores", JInt 1500000)]);
    ("network", JObject [("rxBytes", JInt 17)])]])].

Definition metrics_env : Env := {|
  env_workload := Ok live_workload; env_update := None; env_apply := None;
  env_deployment := env_deployment demo_env;
  env_pods := Ok [demo_pod {[ workloadNameLabel := "web" ]} []]; env_delete := Ok tt;
  env_notify := None; env_http := env_http demo_env; env_secret := env_secret demo_env;
  env_nodes := env_nodes demo_env; env_deployments := env_deployments demo_env;
  env_summary := λ _, Ok (Some demo_summary); env_file := env_file demo_env; env_now := env_now demo_env |}.

Definition no_usage : UsageSnapshot := {|
  ClusterUsedMilliCPU := 0; ClusterUsedMemoryBytes := 0; ManagedUsedMilliCPU := 0;
  ManagedUsedMemoryBytes := 0; NodesReporting := 0; NodesTotal := 0 |}.

Definition demo_usage : UsageSnapshot := ok_or no_usage (result_of metrics_env (CollectUsage demo_collector)).

Lemma CollectUsage_exact_witness :
  (ManagedUsedMilliCPU demo_usage, NodesReporting demo_usage) = (1%Z, 1%Z) ∧
  ∃ nodes pods answers, length answers = length nodes ∧
    trace_of metrics_env (CollectUsage demo_collector) =
      existT KListNodes (Ok nodes) ::
      existT (KListPods "apps" {[ ManagedBy := ManagedByValue ]}) (Ok pods) ::
      zip_with summary_event nodes answers.
Proof.
  split; [vm_compute; reflexivity|].
  destruct (CollectUsage_exact demo_collector (trace_of metrics_env (CollectUsage demo_collector)) demo_usage)
    as (nodes & pods & answers & Hl & Ht & _).
  - replace (Ok demo_usage) with (result_of metrics_env (CollectUsage demo_collector)) by (vm_compute; reflexivity).
    apply play_exec.
  - exists nodes, pods, answers. split; assumption.
Defined.

Definition demo_sample : Sample := {|
  sa_Name := "web"; sa_Metric := MetricNetworkRxBytes; sa_Value := float64_of_Z 17;
  sa_SampledAt := env_now metrics_env |}.

Lemma Collect_sound_witness :
  ∃ pods now tr',
    trace_of metrics_env (Collect id demo_collector) =
      existT (KListPods "apps" {[ ManagedBy := ManagedByValue ]}) (Ok pods) :: existT Now now :: tr' ∧
    sample_justified pods tr' now demo_sample.
Proof.
  apply (Collect_sound id demo_collector _ [demo_sample]).
  - intros l. reflexivity.
  - replace (Ok [demo_sample]) with (result_of metrics_env (Collect id demo_collector)) by (vm_compute; reflexivity).
    apply play_exec.
  - left.
Defined.

(** ** Provisioning *)
Definition creator : WorkloadCreator := {| wc_namespace := "apps" |}.
Definition destroyer : WorkloadDestroyer := {| wd_namespace := "apps" |}.

Lemma demo_config_roundtrips : json_roundtrips demo_config.
Proof.
  exists (ok_or "" (json_marshal_config demo_config)). split; [vm_compute; reflexivity|].
  split; [intros Hx; vm_compute in Hx; discriminate Hx|vm_compute; reflexivity].
Qed.

Definition demo_create : program (result goerr Workload) :=
  Create creator "row-1" templateIDNginx "alice" "web" (Some demo_config).

Definition created_demo : Workload := ok_or live_workload (result_of demo_env demo_create).

Lemma created_workload_renders_witness :
  ws_TemplateName (w_Spec created_demo) = templateIDNginx ∧ is_ok (render created_demo) = true.
Proof.
  split; [vm_compute; reflexivity|].
  apply (created_workload_renders creator "row-1" templateIDNginx "alice" "web" (Some demo_config)
    (trace_of demo_env demo_create) created_demo).
  - apply demo_config_roundtrips.
  - replace (Ok created_demo) with (result_of demo_env demo_create) by (vm_compute; reflexivity).
    apply play_exec.
  - unfold trace_of, play. simpl. repeat constructor.
Defined.

Definition bad_create : program (result goerr Workload) := Create creator "row-1" "gone" "alice" "" None.

Lemma Create_error_spec_witness : ∃ err,
  result_of demo_env bad_create = Err err ∧
  ((trace_of demo_env bad_create = [] ∧ Get "gone" = None ∧ errors_Is err ErrUnknownTemplate = true) ∨
   (trace_of demo_env bad_create = [] ∧ is_Some (Get "gone") ∧ errors_Is err ErrInvalidConfig = true) ∨
   (∃ w0 e, trace_of demo_env bad_create = [existT (KCreateWorkload w0) (Err e)] ∧
      err = wrapf "creating workload: " e ∧ is_ok (checked_config "gone" None) = true)).
Proof.
  exists (unknown_template "gone"). split; [vm_compute; reflexivity|].
  apply (Create_error_spec creator "row-1" "gone" "alice" "" None).
  replace (Err (unknown_template "gone")) with (result_of demo_env bad_create) by (vm_compute; reflexivity).
  apply play_exec.
Defined.

Definition demo_redeploy : program (option goerr) := Redeploy creator "web" (Some demo_config).

Lemma Redeploy_spec_witness : ∃ w w' now a,
  trace_of demo_env demo_redeploy =
    [existT (KGetWorkload demo_key) (Ok w); existT Now now; existT (KUpdateWorkload w') a] ∧
  w_Meta w' = w_Meta w ∧ same_but_config (w_Spec w) (w_Spec w') ∧ is_ok (render w') = true.
Proof.
  destruct (Redeploy_spec creator "web" (Some demo_config) _ _ demo_config_roundtrips
              (play_exec demo_env demo_redeploy))
    as [[Hr _]|(w & w' & now & a & Ht & _ & Hm & _ & Hs & Hrd & _)].
  - destruct Hr. vm_compute. reflexivity.
  - exists w, w', now, a. auto.
Defined.

Definition demo_stop : program (option goerr) := SetSuspended creator "web" true.

Lemma SetSuspended_spec_witness : ∃ w w' a,
  trace_of demo_env demo_stop = [existT (KGetWorkload demo_key) (Ok w); existT (KUpdateWorkload w') a] ∧
  (desiredReplicaCount w' = 0%Z ↔ true = true ∨ ws_Replicas (w_Spec w) = Some 0%Z).
Proof.
  destruct (SetSuspended_spec creator "web" true _ _ (play_exec demo_env demo_stop))
    as [[Hr _]|(w & w' & a & Ht & _ & _ & _ & _ & Hd & _)].
  - destruct Hr. vm_compute. reflexivity.
  - exists w, w', a. auto.
Defined.

(** ** Stored credentials *)
Definition demo_store : Store := {| st_namespace := "system" |}.
Definition demo_tokens : Tokens := {|
  HeartbeatToken := "hb"; DeployToken := "dt"; CatalogHash := "h"; OperatorVersion := "v1";
  TagsFingerprintOf := "unset" |}.

Lemma Save_Load_roundtrip_witness : ∃ e0 e1 secret,
  trace_of demo_env (Save demo_store demo_tokens) = [e0; e1] ∧ stored_secret e1 = Some secret ∧
  exec (Load demo_store) [existT (KGetSecret (token_key demo_store)) (Ok secret)] (Ok (demo_tokens, true)).
Proof.
  destruct (Save_Load_roundtrip demo_store demo_tokens (trace_of demo_env (Save demo_store demo_tokens)))
    as (e0 & e1 & secret & Ht & Hs & Hl & _ & _); [apply play_exec|].
  exists e0, e1, secret. split_and!; [done|done|]. apply Hl. by split.
Defined.

Definition demo_keystore : KeyStore := {| ks_namespace := "system" |}.
Definition demo_signing_key : string := String.string_of_list_ascii (replicate 32 bit1).
Definition stored_key : Secret := key_secret demo_keystore demo_signing_key.

(** An API server with a list of Secrets, whose creates may fail with or without having
    taken effect. *)
Definition find_secret (l : list Secret) (key : NamespacedName) : option Secret :=
  list_find (λ sec, meta_key (sec_Meta sec) = key) l ≫= λ p, Some p.2.

#[export] Instance secret_list : SecretApi (list Secret) := {|
  secret_at := find_secret;
  secret_moves l l' := ∃ sec, find_secret l (meta_key (sec_Meta sec)) = None ∧ l' = sec :: l;
  secret_step c := match c with
    | KGetSecret key => λ l r l', l' = l ∧ match r with Ok sec => find_secret l key = Some sec | Err _ => True end
    | KCreateSecret sec => λ l r l',
        l' = sec :: l ∧ find_secret l (meta_key (sec_Meta sec)) = None ∨ l' = l ∧ is_ok r = false
    | KUpdateSecret _ => λ l r l', l' = l ∧ is_ok r = false
    | _ => λ l _ l', l' = l
    end |}.

Lemma find_cons sec l key :
  find_secret (sec :: l) key = if decide (meta_key (sec_Meta sec) = key) then Some sec else find_secret l key.
Proof. unfold find_secret. simpl. case_decide; [done|]. by destruct (list_find _ l) as [[]|]. Qed.

#[export] Instance secret_list_laws : SecretApiLaws (list Secret).
Proof.
  split; simpl.
  - by intros s s' key sec [_ ?].
  - intros s s' sec sec' [[-> _]|[_ [=]]]. exists sec. by rewrite find_cons, decide_True.
  - intros s s' c r key Hs. destruct c; simpl in *; try (left; naive_solver).
    destruct Hs as [[-> Hn]|[-> _]]; [|by left]. rewrite find_cons. case_decide; subst; auto.
Qed.

(** The create of the first replica is stored, but times out; the other two find it. *)
Definition timed_out : goerr := EStatus SOther "timeout".

Definition after_get (ks : KeyStore) (got : result goerr Secret) : program (result goerr string) :=
  match got with
  | Ok secret => if decide (secret_data secret keySigningKey = "") then generate ks
                 else Ret (Ok (secret_data secret keySigningKey))
  | Err err => if IsNotFound err then generate ks else Ret (Err (wrapf "getting gateway key secret: " err))
  end.

Lemma replica_now (ks : KeyStore) c (s s' : list Secret) r : secret_step c s r s' → replica_srv ks c s r s'.
Proof. intros Hs. exists s. split; [apply rtc_refl|done]. Qed.

Lemma three_replicas : ∃ err,
  rtc (pool_step (replica_srv demo_keystore)) (replicate 3 (LoadOrGenerate demo_keystore), [])
    ([Ret (Err err); Ret (Ok demo_signing_key); Ret (Ok demo_signing_key)], [stored_key]).
Proof.
  set (lg := LoadOrGenerate demo_keystore). set (ks := demo_keystore). eexists. eapply rtc_l.
  { apply (pool_step_at (replica_srv ks) [] (KGetSecret (signing_key_ref ks)) (after_get ks) [lg; lg] []
      (Err not_found) []), replica_now. by split. }
  eapply rtc_l.
  { apply (pool_step_at (replica_srv ks) [] (RandRead signingKeyBytes) _ [lg; lg] [] (Ok demo_signing_key) []),
      replica_now. done. }
  eapply rtc_l.
  { apply (pool_step_at (replica_srv ks) [] (KCreateSecret stored_key) _ [lg; lg] [] (Err timed_out) [stored_key]),
      replica_now. by left. }
  eapply rtc_l.
  { apply (pool_step_at (replica_srv ks) [_] (KGetSecret (signing_key_ref ks)) (after_get ks) [lg] [stored_key]
      (Ok stored_key) [stored_key]), replica_now. by split. }
  eapply rtc_l; [|apply rtc_refl].
  apply (pool_step_at (replica_srv ks) [_; _] (KGetSecret (signing_key_ref ks)) (after_get ks) [] [stored_key]
    (Ok stored_key) [stored_key]), replica_now. by split.
Qed.

Lemma replicas_agree_on_key_witness :
  demo_signing_key = demo_signing_key ∧
  ∃ sec, secret_at [stored_key] (signing_key_ref demo_keystore) = Some sec ∧
    secret_data sec keySigningKey = demo_signing_key.
Proof.
  destruct three_replicas as [err Hsteps].
  apply (replicas_agree_on_key demo_keystore 3 [] _ _ _ _ Hsteps); [right; left|right; right; left].
Defined.

(** ** The Convex client *)
Definition demo_client (tags : option (list string)) : Config := {|
  cf_BaseURL := "https://convex.example"; cf_EnrollmentSecret := "old"; cf_OperatorName := "op-1";
  cf_ExternalURL := "https://op.example"; cf_Metadata := ∅; cf_Version := "v1"; cf_Tags := tags |}.

Lemma TagsFingerprint_faithful_witness :
  TagsFingerprint (demo_client None) = TagsFingerprint (demo_client (Some [])) ↔ @None (list string) = Some [].
Proof.
  apply (TagsFingerprint_faithful (demo_client None) (demo_client (Some [])) None (Some "")); reflexivity.
Defined.

(** Convex answers every post with this status. *)
Definition status_env (code : Z) (j : json) : Env := {|
  env_workload := Ok live_workload; env_update := None; env_apply := None;
  env_deployment := env_deployment demo_env; env_pods := env_pods demo_env; env_delete := Ok tt;
  env_notify := None; env_http := λ _, Ok {| rs_Status := code; rs_Body := Some j |};
  env_secret := env_secret demo_env; env_nodes := env_nodes demo_env;
  env_deployments := env_deployments demo_env; env_summary := env_summary demo_env;
  env_file := env_file demo_env; env_now := env_now demo_env |}.

Definition demo_heartbeat : program (result goerr (list ClaimableWorkload * list PendingOperation)) :=
  Heartbeat (demo_client None) "hb" (Some empty_snapshot) None.

Lemma Heartbeat_unauthorized_iff_witness :
  result_of (status_env 410 JNull) demo_heartbeat = Err (ESentinel ErrUnauthorized) ↔
  ∃ rq resp, trace_of (status_env 410 JNull) demo_heartbeat = [existT (HttpDo rq) (Ok resp)] ∧
    rs_Status resp ∈ [StatusUnauthorized; StatusGone].
Proof.
  exact (proj2 (Heartbeat_unauthorized_iff _ _ _ _ _ _ (play_exec (status_env 410 JNull) demo_heartbeat))).
Defined.

(** ** The claim loop *)
Definition demo_runnable : Runnable := {|
  rn_client := demo_client None; rn_store := demo_store; rn_enrollment := "/etc/enrollment";
  rn_creator := Some creator; rn_destroyer := Some destroyer; rn_capacity := Some demo_tracker;
  rn_heartbeatInterval := 30 * second; rn_usage := None; rn_tokens := no_tokens |}.

Definition register_env : Env :=
  status_env 200 (JObject [("heartbeatToken", JString "hb"); ("deployToken", JString "dt")]).

Definition started : option goerr * Runnable := result_of register_env (Start demo_runnable 1).

Lemma Start_tokens_current_witness :
  HeartbeatToken (rn_tokens started.2) = "hb" ∧
  tokens_current (trace_of register_env (Start demo_runnable 1)) started.2.
Proof.
  split; [vm_compute; reflexivity|].
  apply (Start_tokens_current demo_runnable 1).
  replace (None, started.2) with (result_of register_env (Start demo_runnable 1)) by (vm_compute; reflexivity).
  apply play_exec.
Defined.

(** The registration with the rotated secret fails, and is not tried again. *)
Definition after_rotation : Runnable := result_of (status_env 500 JNull) (checkEnrollmentSecret demo_runnable).

Lemma enrollment_attempted_once_witness :
  length (trace_of (status_env 500 JNull) (checkEnrollmentSecret demo_runnable)) = 2 ∧
  length (trace_of register_env (checkEnrollmentSecret after_rotation)) = 1.
Proof.
  split; [vm_compute; reflexivity|].
  refine (proj1 (enrollment_attempted_once demo_runnable _ after_rotation _ _ "secret"
    (play_exec (status_env 500 JNull) (checkEnrollmentSecret demo_runnable)) _
    (play_exec register_env (checkEnrollmentSecret after_rotation)) _)); vm_compute; reflexivity.
Defined.

Lemma demo_reachable : reports_reachable (rn_client demo_runnable).
Proof. vm_compute. reflexivity. Qed.

Definition offers : list ClaimableWorkload :=
  replicate 7 {| cw_WorkloadID := "row-1"; cw_TemplateID := templateIDNginx |}.

Definition claim_reply : json := JObject [
  ("workloadId", JString "row-1"); ("templateId", JString templateIDNginx);
  ("templateVersion", JString (t_Version Nginx)); ("userId", JString "alice")].

Definition claim_env : Env := status_env 200 claim_reply.
Definition demo_claims : program (option Snapshot) :=
  processClaimable demo_runnable "hb" offers (Some demo_snapshot).

Lemma claims_never_dropped_witness :
  length (trace_of claim_env demo_claims) = 10 ∧ claims_settled (rn_client demo_runnable) (trace_of claim_env demo_claims).
Proof.
  split; [vm_compute; reflexivity|].
  apply (claims_never_dropped demo_runnable "hb" offers (Some demo_snapshot) _ _ demo_reachable (play_exec _ _)).
Defined.

Lemma demo_estimates : estimates_nonneg.
Proof. intros t. revert t. apply templates_cases; vm_compute; split; discriminate. Qed.

Definition claimed_snapshot : Snapshot :=
  match result_of claim_env demo_claims with Some s => s | None => empty_snapshot end.

Lemma demo_echoes : Forall (claim_echoes (rn_client demo_runnable) offers) (trace_of claim_env demo_claims).
Proof.
  assert (∀ rq, claim_echoes (rn_client demo_runnable) offers
                  (existT (HttpDo rq) (Ok {| rs_Status := 200; rs_Body := Some claim_reply |}))) as Hrq.
  { intros rq item claimed Hitem _ _ Ha. vm_compute in Ha. injection Ha as <-.
    apply elem_of_replicate in Hitem as [-> _]. reflexivity. }
  apply Forall_forall. intros e (c & ->)%trace_responds. destruct c; try exact I. apply Hrq.
Qed.

Lemma claims_within_capacity_witness :
  UsedMilliCPU claimed_snapshot = (250 + 5 * (EstimatedResources Nginx).1)%Z ∧
  charged demo_snapshot claimed_snapshot (trace_of claim_env demo_claims) ∧ within_capacity claimed_snapshot.
Proof.
  split; [vm_compute; reflexivity|].
  apply (claims_within_capacity demo_runnable "hb" offers demo_snapshot _ _ demo_estimates).
  - vm_compute. repeat split; discriminate.
  - apply demo_echoes.
  - replace (Some claimed_snapshot) with (result_of claim_env demo_claims) by (vm_compute; reflexivity).
    apply play_exec.
Defined.

Lemma claims_bounded_per_tick_witness :
  (zsum (claim_posted (rn_client demo_runnable)) (trace_of claim_env demo_claims) ≤ Z.of_nat maxClaimsPerTick ∧
   zsum created (trace_of claim_env demo_claims) ≤ Z.of_nat maxClaimsPerTick)%Z.
Proof.
  apply (claims_bounded_per_tick demo_runnable "hb" offers (Some demo_snapshot) _ _ (play_exec _ _)).
Defined.

Definition destroy_op : ClaimedOperation := {|
  co_Operation := operationDestroy; co_Name := "web"; co_Namespace := "apps"; co_Config := None;
  co_TemplateID := ""; co_TemplateVersion := "" |}.

Lemma run_operation_confined_witness :
  length (trace_of demo_env (run_operation demo_runnable "hb" destroy_op)) = 1 ∧
  guarded (operation_guard demo_runnable "hb" destroy_op) []
    (trace_of demo_env (run_operation demo_runnable "hb" destroy_op)).
Proof.
  split; [vm_compute; reflexivity|].
  apply (run_operation_confined demo_runnable "hb" destroy_op _ _ (play_exec _ _)).
Defined.

(** ** The linked operator *)
Definition linked : program ReconcileResult := link (runnable_impl demo_runnable) demo_reconcile.

Lemma linked_reconcile_guarded_witness :
  length (trace_of deleted_env linked) = 3 ∧ guarded (operator_guard demo_runnable) [] (trace_of deleted_env linked).
Proof.
  split; [vm_compute; reflexivity|].
  apply (linked_reconcile_guarded demo_runnable demo_key _ _ (play_exec _ _)).
Defined.

(** ** The helpers of the tests *)

Definition nl : string := String newline "".
Definition scaffold_lines : list string := ["- ../webhook"; "- ../certmanager"].
Definition scaffold_target : string := strings_Join (commented "#" scaffold_lines) nl.
Definition scaffold : string := ("resources:" +:+ nl) +:+ scaffold_target +:+ (nl +:+ "patches:").

Definition shell (c : ucall) (s : unit) : uanswer c * unit :=
  (match c return uanswer c with
   | UGetwd => ("/src/test/e2e", None)
   | UCombinedOutput _ _ _ => ("", None)
   | UChdir _ | UWriteFile _ _ => None
   | UEnviron => []
   | ULookupEnv _ => None
   | UReadFile _ => Ok scaffold
   end, s).

Definition demo_uncomment : option goerr * unit * list (event uanswer) :=
  run shell (UncommentCode "kustomization.yaml" scaffold_target "#") tt.

Lemma UncommentCode_roundtrip_witness :
  ∃ a : option goerr, demo_uncomment.2 =
    [existT (UReadFile "kustomization.yaml") (Ok scaffold);
     existT (UWriteFile "kustomization.yaml"
       (("resources:" +:+ nl) +:+ strings_Join scaffold_lines nl +:+ (nl +:+ "patches:"))) a] ∧
    (demo_uncomment.1.1 = None ↔ a = None).
Proof.
  refine (UncommentCode_roundtrip "kustomization.yaml" "#" scaffold_lines ("resources:" +:+ nl) (nl +:+ "patches:")
    demo_uncomment.2 demo_uncomment.1.1 _ _ _ _ _ _).
  - discriminate.
  - discriminate.
  - repeat constructor; try reflexivity; intros Hin; vm_compute in Hin; set_solver.
  - intros j Hj. do 11 (destruct j as [|j]; [vm_compute; reflexivity|]). vm_compute in Hj. lia.
  - apply (run_exec shell _ tt _ tt). vm_compute. reflexivity.
  - vm_compute. reflexivity.
Defined.
