(* ===== verification/ServerWitnesses.v ===== *)
(** * ServerWitnesses: the theorems about the HTTP API at concrete requests

    As [Witnesses], for [Server] and the gateway: requests against the environment of
    [Concrete], with the hypotheses discharged by computation. *)

From S2P Require Import Prelude.
From S2P Require Import Effects.
From S2P Require Import Go.
From S2P Require Import Json.
From S2P Require Import Api.
From S2P Require Import Calls.
From S2P Require Import Catalog.
From S2P Require Import CatalogTemplates.
From S2P Require Import Controller.
From S2P Require Import Provisioning.
From S2P Require Import Metrics.
From S2P Require Import ConvexClient.
From S2P Require Import Gateway.
From S2P Require Import Proxy.
From S2P Require Import Server.
From S2P Require Import ServerFacts.
From S2P Require Import Concrete.
From S2P Require Import Witnesses.

#[export] Instance demo_pages : PageTemplate := {| pageTmpl_Execute := λ d, Ok (pd_Name d) |}.

Definition demo_server : Server := {|
  sv_listenAddr := ":8443"; sv_gatewaySecret := "key";
  sv_proxy := {| sp_Scheme := "https"; sp_Host := "10.0.0.1"; sp_namespace := "apps" |};
  sv_creator := {| wc_namespace := "apps" |}; sv_destroyer := {| wd_namespace := "apps" |};
  sv_namespace := "apps" |}.

Definition demo_request (method : string) (path : list string) (token : option string)
    (auth : string) (cookies : list (string * string)) (body : option json) : Request := {|
  hr_Method := method; hr_Path := path;
  hr_Query := match token with Some t => {[ "token" := [t]; "q" := ["1"] ]} | None => {[ "q" := ["1"] ]} end;
  hr_Authorization := auth; hr_Cookies := cookies; hr_Body := body |}.

(** The patterns of the mux. *)
Example mux_gateway :
  mux_match "GET" ["gw"; "web"; "http"; "static"; "app.js"] = Some (RouteGateway "web" "http" "static/app.js").
Proof. reflexivity. Qed.

Example mux_gateway_root : mux_match "HEAD" ["gw"; "web"; "http"; ""] = Some (RouteGateway "web" "http" "").
Proof. reflexivity. Qed.

Example mux_gateway_post : mux_match "POST" ["gw"; "web"; "http"; ""] = None.
Proof. reflexivity. Qed.

Example mux_function :
  mux_match "POST" ["workloads"; "web"; "functions"; "backup_state"] = Some (RouteFunction "web" "backup_state").
Proof. reflexivity. Qed.

(** ** The management API *)
Definition stolen_request : Request :=
  demo_request "DELETE" ["workloads"; "web"] None "Bearer guess" [] None.

Lemma management_authorized_witness :
  resp_status (result_of demo_env (ServeHTTP demo_server stolen_request)) = Some StatusUnauthorized ∧
  ¬ deploy_authorized stolen_request (trace_of demo_env (ServeHTTP demo_server stolen_request)).
Proof.
  split; [vm_compute; reflexivity|].
  apply (management_authorized demo_server stolen_request _ _ eq_refl (play_exec demo_env _)).
  vm_compute. reflexivity.
Defined.

Definition deploy_request : Request :=
  demo_request "POST" ["workloads"] None "Bearer deploy-token" []
    (Some (JObject [("templateName", JString "nginx"); ("userId", JString "alice")])).

Lemma handleDeploy_spec_witness :
  ∃ req w, decode_request no_deployRequest decode_deployRequest deploy_request = Ok req ∧
    deployed_template demo_server req (trace_of demo_env (handleDeploy demo_server deploy_request)) w.
Proof.
  destruct (handleDeploy_spec demo_server deploy_request _ _ (play_exec demo_env _))
    as [[_ Hr]|[(e & _ & _ & Hr)|(req & w & Hd & _ & Hw)]].
  - vm_compute in Hr. discriminate Hr.
  - exfalso. revert Hr. apply (bool_decide_unpack (_ ∉ _)). vm_compute. exact I.
  - exists req, w. split; [exact Hd|]. assert (dr_TemplateName req = "nginx") as Hn.
    { vm_compute in Hd. injection Hd as <-. reflexivity. }
    rewrite Hn in Hw. exact Hw.
Defined.

Definition running_pod_env : Env := {|
  env_workload := Ok (demo_workload templateIDFirefox [workloadFinalizer] None);
  env_update := None; env_apply := None; env_deployment := env_deployment demo_env;
  env_pods := Ok [{| p_Meta := named_meta "apps" "web-0"; p_NodeName := "node-1";
                     p_Phase := "Running"; p_Conditions := [] |}];
  env_delete := Ok tt; env_notify := None; env_http := env_http demo_env; env_secret := env_secret demo_env;
  env_nodes := env_nodes demo_env; env_deployments := env_deployments demo_env;
  env_summary := env_summary demo_env; env_file := env_file demo_env; env_now := env_now demo_env |}.

Definition backup_request : Request :=
  demo_request "POST" ["workloads"; "web"; "functions"; "backup_state"] None "Bearer deploy-token" []
    (Some (JObject [("params", JObject [("uploadUrl", JString "https://r2/backup")])])).

Lemma commands_confined_witness :
  length (trace_of running_pod_env (ServeHTTP demo_server backup_request)) = 5 ∧
  guarded (exec_guard demo_server backup_request) []
    (trace_of running_pod_env (ServeHTTP demo_server backup_request)).
Proof.
  split; [vm_compute; reflexivity|].
  apply (commands_confined demo_server backup_request _ _ (play_exec _ _)).
Defined.

(** ** The gateway *)
Definition demo_payload : Payload := {|
  pl_Namespace := "apps"; pl_Name := "web"; pl_UserID := "alice"; pl_Exp := 2000 |}.
Definition demo_cookie : string := ok_or "" (Sign "key" demo_payload).

Definition running_env : Env := env_with_workload (Ok (w_with_status live_workload {|
  wst_Phase := PhaseRunning; wst_ReadyReplicas := 1; wst_ObservedGeneration := 3; wst_Conditions := [] |})).

Definition session_request : Request :=
  demo_request "GET" ["gw"; "web"; "http"; "index.html"] None "" [("gw_auth", demo_cookie)] None.

Definition demo_target : ProxyRequest :=
  director (sv_proxy demo_server) "/api/v1/namespaces/apps/services/web:80/proxy/index.html"
    (hr_Query session_request).

Lemma gateway_access_authorized_witness :
  ∃ now tr', trace_of running_env (ServeHTTP demo_server session_request) = existT Now now :: tr' ∧
    relay_run (sv_proxy demo_server) session_request "web" "http" "index.html" tr' demo_target.
Proof.
  destruct (gateway_access_authorized demo_server session_request _ _
    (existT (ProxyDo demo_target) (Ok (200%Z, "hello"))) demo_target (play_exec running_env _))
    as (name & ep & sub & now & tr' & Hm & Ht & _ & Hr).
  - apply (list_elem_of_lookup_2 _ 3). vm_compute. reflexivity.
  - reflexivity.
  - vm_compute in Hm. injection Hm as <- <- <-. exists now, tr'. split; assumption.
Defined.

Definition token_request : Request :=
  demo_request "GET" ["gw"; "web"; "http"; "index.html"] (Some "one-time") "" [("gw_auth", demo_cookie)] None.

Lemma token_exchange_witness :
  ∃ a tr', trace_of demo_env (ServeHTTP demo_server token_request) =
    existT (VerifyGatewayToken "one-time" "apps" "web") a :: tr'.
Proof.
  destruct (token_exchange demo_server token_request "web" "http" "index.html" _ _ eq_refl
    ltac:(vm_compute; discriminate) (play_exec demo_env _)) as (a & tr' & Ht & _).
  exists a, tr'. exact Ht.
Defined.
