(* ===== verification/SharedWitnesses.v ===== *)
(** * SharedWitnesses: the goroutines at work

    A scheduler for the goroutines of [Shared], which runs them turn by turn against the
    environment of [Concrete], and the theorems about them at a run in which a request
    comes before and another after the registration. *)

From S2P Require Import Prelude.
From S2P Require Import Effects.
From S2P Require Import Go.
From S2P Require Import Json.
From S2P Require Import Api.
From S2P Require Import Calls.
From S2P Require Import Controller.
From S2P Require Import TokenStore.
From S2P Require Import ConvexClient.
From S2P Require Import Runnable.
From S2P Require Import RunnableFacts.
From S2P Require Import Gateway.
From S2P Require Import Proxy.
From S2P Require Import Server.
From S2P Require Import ServerFacts.
From S2P Require Import Shared.
From S2P Require Import SharedFacts.
From S2P Require Import SharedLoop.
From S2P Require Import Concrete.
From S2P Require Import Witnesses.
From S2P Require Import ServerWitnesses.

(** A world that answers as the environment does. *)
Definition env_srv (env : Env) (c : call) (_ : unit) (a : answer c) (_ : unit) : Prop := a = respond env c.

(** An operation on the memory, when it is not blocked. *)
Definition mem_try (c : mcall) (m : mem) : option mem :=
  match c with
  | MWorld _ | MGet _ => Some m
  | MRLock => if m_writer m then None else Some (m_with_lock m (S (m_readers m)) false)
  | MRUnlock => match m_readers m with S n => Some (m_with_lock m n (m_writer m)) | O => None end
  | MLock => if m_writer m || negb (m_readers m =? 0) then None else Some (m_with_lock m 0 true)
  | MUnlock => if m_writer m then Some (m_with_lock m (m_readers m) false) else None
  | MBeginSet _ => Some {| m_tokens := m_tokens m; m_torn := true; m_readers := m_readers m; m_writer := m_writer m |}
  | MEndSet t => Some {| m_tokens := t; m_torn := false; m_readers := m_readers m; m_writer := m_writer m |}
  end.

Definition mem_answer (env : Env) (c : mcall) (m : mem) : manswer c :=
  match c with
  | MWorld c => respond env c
  | MGet f => field_of f (m_tokens m)
  | _ => tt
  end.

Definition log_event (c : mcall) (log : trace) : manswer c → trace :=
  match c with MWorld c => λ a, log ++ [existT c a] | _ => λ _, log end.

Definition try_step (env : Env) (c : mcall) (s : shared unit) : option (manswer c * shared unit) :=
  m' ← mem_try c (sh_mem s);
  let a := mem_answer env c (sh_mem s) in
  Some (a, {| sh_mem := m'; sh_world := tt; sh_log := log_event c (sh_log s) a |}).

Lemma try_step_srv env c s a s' : try_step env c s = Some (a, s') → shared_srv (env_srv env) c s a s'.
Proof.
  unfold try_step. destruct (mem_try c (sh_mem s)) as [m'|] eqn:Hm; simpl; [|done]. intros [= <- <-].
  destruct s as [m [] log]. simpl in *. unfold shared_srv. simpl.
  destruct c; simpl in *; simplify_eq; try done.
  - by destruct (m_writer m) eqn:Hw; simplify_eq.
  - destruct (m_readers m) as [|n] eqn:Hr; simplify_eq. split; [by exists n|done].
  - destruct (m_writer m) eqn:Hw, (m_readers m) eqn:Hr; simplify_eq/=. done.
  - destruct (m_writer m) eqn:Hw; simplify_eq. done.
Qed.

Abbreviation pool := (list (goroutine outcome) * shared unit)%type (only parsing).

Fixpoint schedule (env : Env) (sched : list nat) (ts : list (goroutine outcome)) (s : shared unit) : pool :=
  match sched with
  | [] => (ts, s)
  | i :: sched =>
      match ts !! i with
      | Some (Vis c k) =>
          match try_step env c s with
          | Some (a, s') => schedule env sched (<[i := k a]> ts) s'
          | None => schedule env sched ts s
          end
      | _ => schedule env sched ts s
      end
  end.

Lemma schedule_steps env sched ts s :
  rtc (pool_step (shared_srv (env_srv env))) (ts, s) (schedule env sched ts s).
Proof.
  revert ts s. induction sched as [|i sched IH]; intros ts s; simpl; [apply rtc_refl|].
  destruct (ts !! i) as [[x|c k]|] eqn:Hi; [apply IH| |apply IH].
  destruct (try_step env c s) as [[a s']|] eqn:Hs; [|apply IH].
  eapply rtc_l; [|apply IH]. rewrite <- (take_drop_middle ts i _ Hi) at 1.
  rewrite insert_take_drop by (by eapply lookup_lt_Some). constructor. by apply try_step_srv.
Qed.

(** The operator starts while two requests with the right token arrive, the first of them
    before the registration has come through. *)
Definition list_request : Request := demo_request "DELETE" ["workloads"; "web"] None "Bearer dt" [] None.

Definition demo_jobs : list job :=
  [JServe demo_server list_request; JReconcile demo_key; JServe demo_server list_request].

Definition turns : list nat :=
  replicate 20 1 ++ concat (replicate 40 [0; 2]) ++ replicate 30 3.

Definition demo_pool : pool :=
  schedule register_env turns (operator_goroutines demo_runnable 1 demo_jobs) (shared_start tt).

Lemma demo_steps :
  rtc (pool_step (shared_srv (env_srv register_env)))
    (operator_goroutines demo_runnable 1 demo_jobs, shared_start tt) (demo_pool.1, demo_pool.2).
Proof. rewrite <- surjective_pairing. apply schedule_steps. Qed.

Definition served (i : nat) : Response :=
  match demo_pool.1 !! i with Some (Ret (GServed _ resp)) => resp | _ => BareStatus 0 end.

Lemma demo_finished : Forall finished demo_pool.1.
Proof. vm_compute. repeat constructor. Qed.

Lemma finished_stuck env ts s ts' s' :
  Forall finished ts → ¬ pool_step (shared_srv (env_srv env)) (ts, s) (ts', s').
Proof.
  intros Hf Hstep. inversion Hstep as [ts1 c k ts2 s0 a s1 Hsrv]; subst.
  apply Forall_app in Hf as [_ Hf]. apply Forall_inv in Hf. exact Hf.
Qed.

Lemma goroutines_never_hang_witness :
  Acc (pool_descent (shared_srv (env_srv register_env))) demo_pool.1 ∧
  m_readers (sh_mem demo_pool.2) = 0 ∧ m_writer (sh_mem demo_pool.2) = false.
Proof.
  destruct (goroutines_never_hang (env_srv register_env) demo_runnable 1 demo_jobs tt demo_pool.1 demo_pool.2)
    as [Hacc Hstuck].
  - intros c w. by eexists _, tt.
  - exact demo_steps.
  - split; [exact Hacc|]. refine (proj2 (Hstuck _)). intros ts' s'. exact (finished_stuck _ _ _ _ _ demo_finished).
Defined.

(** The early request is refused; the late one is let through with the token that the
    registration has put into the Secret. *)
Lemma management_needs_issued_token_concurrently_witness :
  resp_status (served 1) = Some StatusUnauthorized ∧ resp_status (served 3) = Some StatusNoContent ∧
  ∃ e sec, e ∈ sh_log demo_pool.2 ∧ (stored_secret e = Some sec ∨ read_secret e = Some sec) ∧
    DeployToken (secret_tokens sec) ≠ "" ∧ hr_Authorization list_request = "Bearer " +:+ DeployToken (secret_tokens sec).
Proof.
  split; [vm_compute; reflexivity|]. split; [vm_compute; reflexivity|].
  destruct (management_needs_issued_token_concurrently (env_srv register_env) demo_runnable 1 demo_jobs tt
    demo_pool.1 demo_pool.2 3 list_request (served 3)) as [Hr|Hok].
  - exact demo_steps.
  - vm_compute. reflexivity.
  - reflexivity.
  - vm_compute in Hr. discriminate.
  - exact Hok.
Defined.

Definition loop_result : option goerr * Runnable :=
  match demo_pool.1 !! 0 with Some (Ret (GLoop res)) => res | _ => (None, demo_runnable) end.

Lemma loop_refines_Start_witness :
  ∃ tr r, tr `sublist_of` sh_log demo_pool.2 ∧
    exec (Start (setTokens demo_runnable no_tokens) 1) tr (loop_result.1, r) ∧ DeployToken (rn_tokens r) = "dt".
Proof.
  destruct (loop_refines_Start (env_srv register_env) demo_runnable 1 demo_jobs tt demo_pool.1 demo_pool.2
    loop_result.1 loop_result.2) as (tr & r & Hsub & He & Hr).
  - exact demo_steps.
  - vm_compute. reflexivity.
  - exists tr, r. split; [exact Hsub|]. split; [exact He|]. rewrite Hr. vm_compute. reflexivity.
Defined.
