(* ===== verification/FleetWitness.v ===== *)
(** * FleetWitness: two operators after the same request

    A Convex that keeps the set of its open requests, and a fleet in which two heartbeat
    loops are offered the same request and a reconciler runs beside them.  Then one
    request from its claim to the report that it is active. *)

From S2P Require Import Prelude.
From S2P Require Import Effects.
From S2P Require Import Go.
From S2P Require Import Json.
From S2P Require Import Api.
From S2P Require Import Calls.
From S2P Require Import Catalog.
From S2P Require Import CatalogTemplates.
From S2P Require Import Controller.
From S2P Require Import ConvexClient.
From S2P Require Import Runnable.
From S2P Require Import RunnableCalls.
From S2P Require Import RunnableFacts.
From S2P Require Import Claims.
From S2P Require Import Gateway.
From S2P Require Import Proxy.
From S2P Require Import Server.
From S2P Require Import ServerFacts.
From S2P Require Import Fleet.
From S2P Require Import Capacity.
From S2P Require Import Provisioning.
From S2P Require Import ControllerRest.
From S2P Require Import EndToEnd.
From S2P Require Import Concrete.
From S2P Require Import Witnesses.
From S2P Require Import ServerWitnesses.

Definition demo_base : string := cf_BaseURL (demo_client None).

Definition offer_row1 : json := JObject [("workloadId", JString "row-1"); ("templateId", JString templateIDNginx)].

(** Every other endpoint answers with tokens and two offers of one request. *)
Definition fleet_env : Env := status_env 200 (JObject [
  ("heartbeatToken", JString "hb"); ("deployToken", JString "dt");
  ("claimable", JArray [offer_row1; offer_row1])]).

Definition requested (rq : HttpRequest) : string :=
  match rq_Body rq with JObject kvs => assoc_string "workloadId" kvs | _ => "" end.

Definition grant_reply (id : string) : json := JObject [
  ("workloadId", JString id); ("templateId", JString templateIDNginx);
  ("templateVersion", JString (t_Version Nginx)); ("userId", JString "alice")].

(** The requests that are open, and the answer to a post. *)
Definition convex_post (rq : HttpRequest) (w : gset string) : result goerr HttpResponse * gset string :=
  if decide (rq_URL rq = demo_base +:+ claim_path) then
    if decide (requested rq ∈ w)
    then (Ok {| rs_Status := 200; rs_Body := Some (grant_reply (requested rq)) |}, w ∖ {[requested rq]})
    else (Ok {| rs_Status := 409; rs_Body := None |}, w)
  else
    (respond fleet_env (HttpDo rq),
     match retry_report demo_base (existT (HttpDo rq) (Err EPanic)) with Some (_, id) => w ∪ {[id]} | None => w end).

Definition convex_step (c : call) (w : gset string) : answer c * gset string :=
  match c return answer c * gset string with
  | HttpDo rq => convex_post rq w
  | c => (respond fleet_env c, w)
  end.

#[export] Instance demo_leases : Leases (gset string) := {|
  lease_open := λ w id, id ∈ w;
  lease_expired := λ _ _, 0;
  lease_moves := λ w w', w' = w;
  lease_srv := λ c w a w', (a, w') = convex_step c w |}.

Lemma granted_post rq a id :
  granted demo_base (existT (HttpDo rq) a) = Some id →
  rq_URL rq = demo_base +:+ claim_path ∧ cd_WorkloadID <$> claim_answer a = Some id.
Proof. simpl. case_decide; done. Qed.

Lemma convex_post_grants rq w id :
  granted demo_base (existT (HttpDo rq) (convex_post rq w).1) = Some id →
  id ∈ w ∧ id ∉ (convex_post rq w).2.
Proof.
  intros [Hurl Hc]%granted_post. unfold convex_post in *. rewrite decide_True in * by done.
  destruct (decide (requested rq ∈ w)); [|done]. cbn [fst snd] in *.
  assert (requested rq = id) as <- by (cbv in Hc |- *; congruence). set_solver.
Qed.

Lemma convex_post_opens rq w id :
  id ∈ (convex_post rq w).2 → id ∈ w ∨ reopens demo_base id (existT (HttpDo rq) (convex_post rq w).1) = true.
Proof.
  unfold convex_post. destruct (decide (rq_URL rq = demo_base +:+ claim_path)); [case_decide; set_solver|].
  cbn [snd]. destruct (retry_report _ _) as [[name i]|] eqn:Hr; [|by left].
  intros [?| ->%elem_of_singleton]%elem_of_union; [by left|]. right. unfold reopens.
  change (retry_report demo_base (existT (HttpDo rq) _)) with
    (retry_report demo_base (existT (HttpDo rq) (Err EPanic))). rewrite Hr.
  by rewrite bool_decide_true.
Qed.

#[export] Instance demo_lease_laws : LeaseLaws demo_base (gset string).
Proof.
  split; simpl; try done.
  - intros c w w' a id. destruct c; try done. intros Hs. cbn [convex_step] in Hs.
    destruct (convex_post req w) as [a0 w0] eqn:Hp. injection Hs as -> ->. intros Hg.
    pose proof (convex_post_grants req w id) as Hl. rewrite Hp in Hl. by apply Hl.
  - intros c w w' a id. destruct c; intros Hs; try (injection Hs as _ ->; by left). cbn [convex_step] in Hs.
    destruct (convex_post req w) as [a0 w0] eqn:Hp. injection Hs as -> ->. intros Hin.
    pose proof (convex_post_opens req w id) as Hl. rewrite Hp in Hl. by apply Hl.
  - intros w w' id ->. auto.
Qed.

(** ** Turns *)

Fixpoint fleet_run (sched : list nat) (ms : list member) (w : gset string) : fleet (gset string) :=
  match sched with
  | [] => {| fl_members := ms; fl_world := w |}
  | i :: sched =>
      match ms !! i with
      | Some {| fm_task := t; fm_log := h; fm_prog := Vis c k |} =>
          let aw := convex_step c w in
          fleet_run sched (<[i := {| fm_task := t; fm_log := h ++ [existT c aw.1]; fm_prog := k aw.1 |}]> ms) aw.2
      | _ => fleet_run sched ms w
      end
  end.

Lemma fleet_run_steps sched ms w :
  rtc fleet_step {| fl_members := ms; fl_world := w |} (fleet_run sched ms w).
Proof.
  revert ms w. induction sched as [|i sched IH]; intros ms w; simpl; [done|].
  destruct (ms !! i) as [[t h [x|c k]]|] eqn:Hi; [done| |done].
  eapply rtc_l; [|apply IH]. rewrite <- (take_drop_middle ms i _ Hi) at 1.
  rewrite insert_take_drop by (by eapply lookup_lt_Some). constructor. simpl. by rewrite <- surjective_pairing.
Qed.

Definition demo_fleet : list fleet_task :=
  [FLoop demo_runnable 1; FLoop demo_runnable 1; FReconcile demo_runnable demo_key].

Definition demo_turns : list nat := mjoin (replicate 40 [0; 1; 2]).

Definition open_row1 : gset string := {["row-1"]}.

Definition fleet_end : fleet (gset string) :=
  fleet_run demo_turns (fl_members (fleet_start demo_fleet open_row1)) open_row1.

(** Both loops ask, and one of them creates the Workload. *)
Lemma fleet_provisions_once_witness :
  provisioned "row-1" fleet_end = 1 ∧ grants demo_base "row-1" fleet_end = 1 ∧
  provisioned "row-1" fleet_end + 0 ≤ 1 + other_reopenings demo_base "row-1" fleet_end + 0.
Proof.
  split; [vm_compute; reflexivity|]. split; [vm_compute; reflexivity|].
  exact (fleet_provisions_once demo_base demo_fleet open_row1 fleet_end "row-1"
    ltac:(repeat constructor) (fleet_run_steps demo_turns _ _)).
Defined.

(** ** One request *)

Definition demo_claimed : ClaimedWorkload := {|
  cd_WorkloadID := "row-1"; cd_Config := Some demo_config; cd_Subdomain := "web"; cd_TemplateID := templateIDNginx;
  cd_TemplateVersion := t_Version Nginx; cd_UserID := "alice" |}.

Definition posted_workload : Workload :=
  match checked_config templateIDNginx (Some demo_config) with
  | Ok raw => new_workload creator "row-1" templateIDNginx "alice" "web" raw
  | Err _ => live_workload
  end.

(** The API server names it. *)
Definition stored_workload : Workload := w_with_meta posted_workload {|
  om_Name := "nginx-x7k2p"; om_GenerateName := "nginx-"; om_Namespace := "apps"; om_UID := "u7";
  om_ResourceVersion := "1"; om_Generation := 1; om_Labels := w_Labels posted_workload; om_Annotations := ∅;
  om_Finalizers := []; om_OwnerReferences := []; om_DeletionTimestamp := None |}.

Definition stored_env : Env := env_with_workload (Ok stored_workload).

Definition first_reconcile : program ReconcileResult :=
  Reconcile {| wr_ConvexClient := true |} (w_Key stored_workload).

Lemma demo_creation :
  exec (create_claimed demo_runnable creator "hb" None demo_claimed)
    [existT (KCreateWorkload posted_workload) (Ok stored_workload)] None.
Proof.
  generalize stored_workload. intros w. unfold create_claimed.
  change (Get (cd_TemplateID demo_claimed)) with (Some Nginx). cbv iota beta. rewrite decide_True by done.
  unfold Create, posted_workload. cbn [cd_TemplateID demo_claimed cd_Config cd_WorkloadID cd_UserID cd_Subdomain].
  destruct (checked_config _ _) eqn:Hc; [|vm_compute in Hc; discriminate].
  exists (Ok w), []. split; [reflexivity|]. split; reflexivity.
Qed.

Lemma claimed_request_becomes_active_witness :
  result_of stored_env first_reconcile = done_result ∧
  ev (ReportLifecycle "nginx-x7k2p" "row-1" lifecyclePhaseActive "" false) None ∈ trace_of stored_env first_reconcile.
Proof.
  refine ((λ H, conj (proj1 H) (proj2 (proj2 H))) (claimed_request_becomes_active demo_runnable creator "hb" None demo_claimed _ None
    posted_workload stored_workload (trace_of stored_env first_reconcile) _ _ _ demo_creation _ _ (play_exec _ _) _)).
  - discriminate.
  - vm_compute. eexists. split_and!; [reflexivity|discriminate|reflexivity].
  - left.
  - split_and!; vm_compute; reflexivity.
  - unfold trace_of, play, first_reconcile. simpl. repeat constructor.
Defined.
