(* ===== verification/Informed.v ===== *)
(** * Informed: a concrete cluster with caches, and the controller at work on it

    An executable instance of the parameters of [WorkQueue]: the Workloads of [Etcd] with
    Deployments and Services kept in logs of their own, caches that lag behind the logs
    by a number of entries and catch up one entry at a time, writes that store nothing
    when they change nothing, other clients that write and remove what they want, and a
    queue of keys.  A new Workload is then followed through the whole system, from its
    first reconciliation to rest, next to a Deployment that is somebody else's. *)

From S2P Require Import Prelude.
From S2P Require Import Effects.
From S2P Require Import Go.
From S2P Require Import Json.
From S2P Require Import Api.
From S2P Require Import Manager.
From S2P Require Import Calls.
From S2P Require Import Catalog.
From S2P Require Import CatalogTemplates.
From S2P Require Import Controller.
From S2P Require Import ControllerFacts.
From S2P Require Import ControllerStatus.
From S2P Require Import ControllerRest.
From S2P Require Import ControllerIdempotent.
From S2P Require Import Cluster.
From S2P Require Import Main.
From S2P Require Import WorkQueue.
From S2P Require Import Etcd.
From S2P Require Import Concrete.
From S2P Require Import Witnesses.

(** ** Objects with versions *)

Section Versions.
Context {O : Type} (stampo : nat → O → O) (version : O → string).
Hypothesis version_stamp : ∀ n o, version (stampo n o) = pretty n.

(** The newest entry counts; one without an object is a removal. *)
Fixpoint vget (log : list (NamespacedName * option O)) (k : NamespacedName) : option O :=
  match log with
  | [] => None
  | (k', o) :: log => if decide (k' = k) then stampo (length log) <$> o else vget log k
  end.

Lemma vget_version log k o : vget log k = Some o → ∃ n, n < length log ∧ version o = pretty n.
Proof.
  induction log as [|[k' o'] log IH]; simpl; [done|]. case_decide.
  - intros (x & -> & ->)%fmap_Some. exists (length log). rewrite version_stamp. split; [lia|done].
  - intros (n & ? & ?)%IH. exists n. split; [lia|done].
Qed.

(** A write makes a version that was not there before. *)
Lemma vget_replaced log' log k old o :
  vget log' k = Some old → length log' ≤ length log → vget ((k, Some o) :: log) k ≠ Some old.
Proof.
  intros (n & Hn & Hv)%vget_version Hle. simpl. rewrite decide_True by done. intros [= <-].
  rewrite version_stamp in Hv. apply (inj pretty) in Hv. lia.
Qed.

Lemma vget_elem log k o : vget log k = Some o → k ∈ log.*1.
Proof.
  induction log as [|[k' o'] log IH]; simpl; [done|]. case_decide; [subst; left|]. intros ?%IH. by right.
Qed.
End Versions.

Definition stamp_meta (n : nat) (m : ObjectMeta) : ObjectMeta :=
  meta_system m (om_UID m) (pretty n) (om_DeletionTimestamp m).

Definition d_with (d : Deployment) (m : ObjectMeta) (ready : Z) : Deployment := {|
  d_Meta := m; d_Replicas := d_Replicas d; d_Selector := d_Selector d;
  d_TemplateLabels := d_TemplateLabels d; d_TemplateAnnotations := d_TemplateAnnotations d;
  d_Containers := d_Containers d; d_InitContainers := d_InitContainers d;
  d_Volumes := d_Volumes d; d_ReadyReplicas := ready |}.

Definition stamp_deployment (n : nat) (d : Deployment) : Deployment :=
  d_with d (stamp_meta n (d_Meta d)) (d_ReadyReplicas d).

Definition stamp_service (n : nat) (s : Service) : Service := {|
  s_Meta := stamp_meta n (s_Meta s); s_Type := s_Type s; s_Selector := s_Selector s;
  s_Ports := s_Ports s |}.

(** ** The state *)
Record cstate := {
  ct_workloads : list revision;
  ct_wlag : nat;
  ct_deployments : list (NamespacedName * option Deployment);
  ct_dlag : nat;
  ct_services : list (NamespacedName * option Service);
  ct_slag : nat;
}.

Definition wview (s : cstate) : NamespacedName → option Workload := stored_in (drop (ct_wlag s) (ct_workloads s)).
Definition dview (s : cstate) : NamespacedName → option Deployment :=
  vget stamp_deployment (drop (ct_dlag s) (ct_deployments s)).
Definition sview (s : cstate) : NamespacedName → option Service :=
  vget stamp_service (drop (ct_slag s) (ct_services s)).

Definition put_deployment (s : cstate) (k : NamespacedName) (d : option Deployment) : cstate := {|
  ct_workloads := ct_workloads s; ct_wlag := ct_wlag s;
  ct_deployments := (k, d) :: ct_deployments s; ct_dlag := S (ct_dlag s);
  ct_services := ct_services s; ct_slag := ct_slag s |}.

Definition put_service (s : cstate) (k : NamespacedName) (sv : option Service) : cstate := {|
  ct_workloads := ct_workloads s; ct_wlag := ct_wlag s;
  ct_deployments := ct_deployments s; ct_dlag := ct_dlag s;
  ct_services := (k, sv) :: ct_services s; ct_slag := S (ct_slag s) |}.

Definition unversioned (w : Workload) : Workload :=
  w_with_meta w (meta_system (w_Meta w) (om_UID (w_Meta w)) "" (om_DeletionTimestamp (w_Meta w))).

(** A write that changes nothing. *)
Definition idle (log : list revision) (rev : revision) : bool :=
  match rev with
  | Put w =>
      match stored_in log (w_Key w) with
      | Some old => bool_decide (unversioned old = unversioned w)
      | None => false
      end
  | Del _ => false
  end.

Definition push (s : cstate) (rev : revision) : cstate :=
  if idle (ct_workloads s) rev then s else {|
    ct_workloads := rev :: ct_workloads s; ct_wlag := S (ct_wlag s);
    ct_deployments := ct_deployments s; ct_dlag := ct_dlag s;
    ct_services := ct_services s; ct_slag := ct_slag s |}.

(** An informer delivers the next event. *)
Inductive informer := IWorkloads | IDeployments | IServices.

Definition deliver (i : informer) (s : cstate) : cstate := {|
  ct_workloads := ct_workloads s;
  ct_wlag := match i with IWorkloads => pred (ct_wlag s) | _ => ct_wlag s end;
  ct_deployments := ct_deployments s;
  ct_dlag := match i with IDeployments => pred (ct_dlag s) | _ => ct_dlag s end;
  ct_services := ct_services s;
  ct_slag := match i with IServices => pred (ct_slag s) | _ => ct_slag s end |}.

(** ** The API server behind the client *)

Definition write_conflict : goerr := EStatus SConflict "the object has been modified".

Definition put_workload (s : cstate) (w : Workload) (c : call) : result goerr Workload * cstate :=
  match write_revision c (ct_workloads s) with
  | Some rev =>
      let s' := push s rev in (Ok (default w (stored_in (ct_workloads s') (w_Key w))), s')
  | None => (Err write_conflict, s)
  end.

(** [controllerutil.CreateOrUpdate] through the cache. *)
Definition create_or_update {O} `{!EqDecision O} (cached stored : option O) (o : O)
    (mutate : O → result goerr O) (s : cstate) (put : O → cstate) : result goerr O * cstate :=
  match cached with
  | Some old =>
      match mutate old with
      | Err e => (Err e, s)
      | Ok new =>
          if decide (new = old) then (Ok old, s)
          else if decide (stored = Some old) then (Ok new, put new) else (Err write_conflict, s)
      end
  | None =>
      match mutate o, stored with
      | Ok new, None => (Ok new, put new)
      | Ok _, Some _ => (Err write_conflict, s)
      | Err e, _ => (Err e, s)
      end
  end.

Definition serve (c : call) (s : cstate) : answer c * cstate :=
  match c return answer c * cstate with
  | KGetWorkload k => (match wview s k with Some w => Ok w | None => Err not_found end, s)
  | KGetDeployment k => (match dview s k with Some d => Ok d | None => Err not_found end, s)
  | KCreateWorkload w => put_workload s w (KCreateWorkload w)
  | KUpdateWorkload w => put_workload s w (KUpdateWorkload w)
  | KStatusUpdateWorkload w => put_workload s w (KStatusUpdateWorkload w)
  | KCreateOrUpdateWorkload w m => put_workload s w (KCreateOrUpdateWorkload w m)
  | KDeleteWorkload k =>
      match write_revision (KDeleteWorkload k) (ct_workloads s) with
      | Some rev => (Ok tt, push s rev)
      | None => (Err not_found, s)
      end
  | KCreateOrUpdateDeployment d m =>
      let k := meta_key (d_Meta d) in
      create_or_update (dview s k) (vget stamp_deployment (ct_deployments s) k) d m s (λ new, put_deployment s k (Some new))
  | KCreateOrUpdateService sv m =>
      let k := meta_key (s_Meta sv) in
      create_or_update (sview s k) (vget stamp_service (ct_services s) k) sv m s (λ new, put_service s k (Some new))
  | c => (respond demo_env c, s)
  end.

#[export] Instance informed_api : KubeApi cstate := {|
  api_stored s := stored_in (ct_workloads s);
  api_seen s := seen_in (ct_workloads s);
  api_moves s s' :=
    (∃ i, s' = deliver i s) ∨ (∃ rev, s' = push s rev) ∨
    (∃ k d, s' = put_deployment s k d) ∨ (∃ k sv, s' = put_service s k sv);
  api_step c s r s' := serve c s = (r, s') |}.

(** Whatever is still to be delivered leaves what the cache shows of [k]. *)
Definition delivered {A O} (get : list A → NamespacedName → option O) (log : list A) (lag : nat)
    (k : NamespacedName) : Prop :=
  ∀ n, n ≤ lag → get (drop n log) k = get log k.

#[export] Instance informed_views : Informers cstate := {|
  view_workload := wview; view_deployment := dview; view_service := sview;
  api_deployment s := vget stamp_deployment (ct_deployments s);
  api_service s := vget stamp_service (ct_services s);
  up_to_date s k :=
    delivered stored_in (ct_workloads s) (ct_wlag s) k ∧
    delivered (vget stamp_deployment) (ct_deployments s) (ct_dlag s) k ∧
    delivered (vget stamp_service) (ct_services s) (ct_slag s) k |}.

(** ** The laws *)

(** *** Workloads *)

Lemma push_workloads s rev :
  ct_workloads (push s rev) = ct_workloads s ∨ ct_workloads (push s rev) = rev :: ct_workloads s.
Proof. unfold push. destruct (idle _ _); auto. Qed.

Lemma create_or_update_state {O} `{!EqDecision O} cached stored (o : O) m s put :
  (create_or_update cached stored o m s put).2 = s ∨ ∃ new, (create_or_update cached stored o m s put).2 = put new.
Proof. unfold create_or_update. repeat case_match; simpl; eauto. Qed.

Lemma put_workload_state s w c :
  (put_workload s w c).2 = s ∨
  ∃ rev, write_revision c (ct_workloads s) = Some rev ∧ (put_workload s w c).2 = push s rev.
Proof. unfold put_workload. destruct (write_revision _ _); simpl; eauto. Qed.

(** What a call does to the state. *)
Lemma serve_state c s :
  (serve c s).2 = s ∨
  (∃ rev, write_revision c (ct_workloads s) = Some rev ∧ (serve c s).2 = push s rev) ∨
  (∃ k d, (serve c s).2 = put_deployment s k d) ∨ (∃ k sv, (serve c s).2 = put_service s k sv).
Proof.
  destruct c; cbn [serve]; try (by left);
    try (lazymatch goal with |- context [put_workload s ?w ?c] =>
           destruct (put_workload_state s w c) as [|]; [by left|by right; left] end).
  - destruct (write_revision _ _) as [rev|] eqn:Hw; simpl; [|by left]. right; left. eauto.
  - destruct (create_or_update_state (dview s (meta_key (d_Meta d)))
      (vget stamp_deployment (ct_deployments s) (meta_key (d_Meta d))) d mutate s
      (λ new, put_deployment s (meta_key (d_Meta d)) (Some new))) as [|[new ?]]; [by left|right; right; left; eauto].
  - destruct (create_or_update_state (sview s (meta_key (s_Meta s0)))
      (vget stamp_service (ct_services s) (meta_key (s_Meta s0))) s0 mutate s
      (λ new, put_service s (meta_key (s_Meta s0)) (Some new))) as [|[new ?]]; [by left|right; right; right; eauto].
Qed.

Lemma serve_workloads c s :
  ct_workloads (serve c s).2 = ct_workloads s ∨
  ∃ rev, write_revision c (ct_workloads s) = Some rev ∧ ct_workloads (serve c s).2 = rev :: ct_workloads s.
Proof.
  destruct (serve_state c s) as [->|[(rev & Hw & ->)|[(k & d & ->)|(k & sv & ->)]]]; auto.
  destruct (push_workloads s rev) as [->| ->]; eauto.
Qed.

(** What any step does to the state. *)
Lemma advance_state (s s' : cstate) :
  api_advance s s' →
  s' = s ∨ (∃ i, s' = deliver i s) ∨ (∃ rev, s' = push s rev) ∨
  (∃ k d, s' = put_deployment s k d) ∨ (∃ k sv, s' = put_service s k sv).
Proof.
  intros [Hm|(c & r & Hs)]; [by right|]. simpl in Hs. pose proof (serve_state c s) as Hc. rewrite Hs in Hc.
  simpl in Hc. naive_solver.
Qed.

Lemma advance_workloads (s s' : cstate) :
  api_advance s s' → ct_workloads s' = ct_workloads s ∨ ∃ rev, ct_workloads s' = rev :: ct_workloads s.
Proof.
  intros [->|[[i ->]|[[rev ->]|[(k & d & ->)|(k & sv & ->)]]]]%advance_state; auto.
  destruct (push_workloads s rev); eauto.
Qed.

#[export] Instance informed_laws : KubeApiLaws cstate.
Proof.
  split; simpl.
  - intros s. apply stored_in_seen.
  - intros s. apply seen_in_unique.
  - intros s s' w [->|[rev ->]]%advance_workloads; [done|]. destruct rev; simpl; auto.
  - intros s s' k w [->|[rev ->]]%advance_workloads; [by left|]. apply revision_stored.
  - intros s s' key w [= Hw _]. unfold wview in Hw. destruct (stored_in _ _) as [w0|] eqn:Hs; [|done].
    injection Hw as ->. apply stored_in_seen in Hs as [Hs _]. revert Hs. generalize (ct_wlag s).
    induction (ct_workloads s) as [|rev log IH]; intros [|n]; simpl; try done. destruct rev; naive_solver.
  - intros s s' c r k Hs. pose proof (serve_workloads c s) as Hw. rewrite Hs in Hw. simpl in Hw.
    destruct Hw as [->|(rev & Hw & ->)]; [by left|]. by apply revision_effect.
Qed.

(** *** Reads and writes through the client *)

Lemma push_replacing s k old w x :
  stored_in (ct_workloads s) k = Some old → w_Key w = k →
  stored_in (ct_workloads (push s (replacing old w))) k = Some x →
  w_Status x = w_Status w ∧ om_Finalizers (w_Meta x) = om_Finalizers (w_Meta w).
Proof.
  intros Ho Hk. unfold push. destruct (idle _ _) eqn:Hi.
  - rewrite Ho. intros [= <-]. unfold replacing in Hi. case_decide; [done|]. simpl in Hi.
    change (w_Key (w_with_meta w _)) with (w_Key w) in Hi. rewrite Hk, Ho, bool_decide_eq_true in Hi.
    split; [exact (f_equal w_Status Hi)|exact (f_equal (om_Finalizers ∘ w_Meta) Hi)].
  - unfold replacing in *. destruct (stored_in_seen _ _ _ Ho) as [_ Hko].
    case_decide; simpl; rewrite decide_True by done; [done|]. by intros [= <-].
Qed.

Lemma push_deleting s k old x :
  stored_in (ct_workloads s) k = Some old →
  stored_in (ct_workloads (push s (deleting old))) k = Some x → om_DeletionTimestamp (w_Meta x) ≠ None.
Proof.
  intros Ho. unfold push. destruct (stored_in_seen _ _ _ Ho) as [_ Hk]. destruct (idle _ _) eqn:Hi.
  - rewrite Ho. intros [= <-]. unfold deleting in Hi. case_decide; [done|]. simpl in Hi.
    change (w_Key (w_with_meta old _)) with (w_Key old) in Hi. rewrite Hk, Ho, bool_decide_eq_true in Hi.
    apply (f_equal (om_DeletionTimestamp ∘ w_Meta)) in Hi. simpl in Hi. congruence.
  - unfold deleting in *. case_decide; simpl; rewrite decide_True by done; [done|]. by intros [= <-].
Qed.

(** A log grows behind the cache, or the cache takes one step, or nothing happens. *)
Definition evolves {A} (log log' : list A) (lag lag' : nat) : Prop :=
  (log' = log ∧ lag' = lag) ∨ (∃ x, log' = x :: log ∧ lag' = S lag) ∨ (log' = log ∧ lag' = pred lag).

Lemma delivered_back {A O} (get : list A → NamespacedName → option O) log log' lag lag' k :
  evolves log log' lag lag' → get (drop lag log) k = get (drop lag' log') k →
  delivered get log' lag' k → delivered get log lag k.
Proof.
  intros [[-> ->]|[(x & -> & ->)|[-> ->]]] Hv Hd n Hn; [by apply Hd|..].
  - pose proof (Hd (S n) ltac:(lia)) as Hn'. pose proof (Hd 1 ltac:(lia)) as H1.
    change (drop (S n) (x :: log)) with (drop n log) in Hn'. change (drop 1 (x :: log)) with log in H1. congruence.
  - destruct (decide (n ≤ pred lag)); [by apply Hd|]. replace n with lag by lia. rewrite Hv. by apply Hd.
Qed.

Lemma advance_evolves (s s' : cstate) :
  api_advance s s' →
  evolves (ct_workloads s) (ct_workloads s') (ct_wlag s) (ct_wlag s') ∧
  evolves (ct_deployments s) (ct_deployments s') (ct_dlag s) (ct_dlag s') ∧
  evolves (ct_services s) (ct_services s') (ct_slag s) (ct_slag s').
Proof.
  unfold evolves.
  intros [->|[[i ->]|[[rev ->]|[(k & d & ->)|(k & sv & ->)]]]]%advance_state; simpl; [naive_solver|..].
  - destruct i; naive_solver.
  - unfold push. destruct (idle _ _); simpl; naive_solver.
  - naive_solver.
  - naive_solver.
Qed.

(** A successful [CreateOrUpdate]. *)
Lemma create_or_update_ok {O} `{!EqDecision O} cached stored (o : O) m s put r s' :
  create_or_update cached stored o m s put = (Ok r, s') →
  match cached with
  | Some old => m old = Ok old ∨ ∃ new, s' = put new
  | None => ∃ new, s' = put new
  end.
Proof.
  unfold create_or_update. destruct cached as [old|].
  - destruct (m old) as [new|]; [|done]. repeat case_decide; try done; [subst; by left|].
    intros [= _ <-]. eauto.
  - destruct (m o) as [new|]; [|done]. destruct stored; [done|]. intros [= _ <-]. eauto.
Qed.

#[export] Instance informed_view_laws : InformerLaws cstate.
Proof.
  split; simpl.
  - intros s k (Hw & Hd & Hs). split_and!; [by apply Hw|by apply Hd|by apply Hs].
  - intros s s' k (Ew & Ed & Es)%advance_evolves (Hw & Hd & Hs) (Dw & Dd & Ds). split_and!;
      [by eapply delivered_back, Dw|by eapply delivered_back, Dd|by eapply delivered_back, Ds].
  - intros s s' k w [= Hw _]. destruct (wview s k); congruence.
  - intros s s' k e [= Hw _] Hn. destruct (wview s k); [done|done].
  - intros s s' k d [= Hd _]. destruct (dview s k); congruence.
  - intros s s' w w' x. unfold put_workload. simpl.
    destruct (stored_in _ (w_Key w)) as [old|] eqn:Ho; simpl; [|done]. case_decide; [|done].
    intros [= _ <-] Hx. eapply push_replacing; [exact Ho|done|exact Hx].
  - intros s s' w w'. unfold put_workload. simpl.
    destruct (stored_in (ct_workloads s) (w_Key w)) as [old|] eqn:Ho; simpl; [|done]. case_decide; [|done].
    destruct (stored_in_seen _ _ _ Ho) as [_ Hk].
    set (w1 := {| w_Meta := w_Meta old; w_Spec := w_Spec old; w_Status := w_Status w |}).
    assert (∀ x, stored_in (ct_workloads (push s (replacing old w1))) (w_Key w) = Some x → w_Status x = w_Status w) as Hx.
    { intros x Hx. by destruct (push_replacing s _ old w1 x Ho Hk Hx). }
    intros [= <- <-]. split; [|done].
    destruct (stored_in (ct_workloads (push s (replacing old w1))) (w_Key w)) as [x|]; [exact (Hx x eq_refl)|done].
  - intros s s' k u x. destruct (stored_in _ k) as [old|] eqn:Ho; simpl; [|done].
    intros [= _ <-]. by apply push_deleting.
  - intros s s' k e. destruct (stored_in _ k) as [old|] eqn:Ho; simpl; [done|]. by intros [= <- <-].
  - intros s s' d m d' Hs%create_or_update_ok. fold (dview s (meta_key (d_Meta d))) in Hs |- *.
    destruct (dview s (meta_key (d_Meta d))) as [old|] eqn:Hv.
    + destruct Hs as [|[new ->]]; [by left|right]. simpl.
      eapply (vget_replaced _ (om_ResourceVersion ∘ d_Meta)); [done|exact Hv|]. rewrite length_drop. lia.
    + destruct Hs as [new ->]. simpl. by rewrite decide_True.
  - intros s s' sv m sv' Hs%create_or_update_ok. fold (sview s (meta_key (s_Meta sv))) in Hs |- *.
    destruct (sview s (meta_key (s_Meta sv))) as [old|] eqn:Hv.
    + destruct Hs as [|[new ->]]; [by left|right]. simpl.
      eapply (vget_replaced _ (om_ResourceVersion ∘ s_Meta)); [done|exact Hv|]. rewrite length_drop. lia.
    + destruct Hs as [new ->]. simpl. by rewrite decide_True.
Qed.

(** ** The queue *)

Record cqueue := { cq_pending : list NamespacedName; cq_busy : list NamespacedName }.

Definition again_wanted (res : ReconcileResult) : bool :=
  match rc_Err res with Some _ => true | None => (0 <? rc_RequeueAfter res)%Z end.

Definition cq_add (k : NamespacedName) (q : cqueue) : cqueue :=
  {| cq_pending := k :: filter (.≠ k) (cq_pending q); cq_busy := cq_busy q |}.

Definition cq_apply (op : wq_op) (q : cqueue) : cqueue :=
  match op with
  | QAdd k => cq_add k q
  | QGet k => {| cq_pending := filter (.≠ k) (cq_pending q); cq_busy := k :: cq_busy q |}
  | QDone k res =>
      let q' := {| cq_pending := cq_pending q; cq_busy := filter (.≠ k) (cq_busy q) |} in
      if again_wanted res then cq_add k q' else q'
  | QTick => q
  end.

Definition cq_enabled (op : wq_op) (q : cqueue) : Prop :=
  match op with QGet k => k ∈ cq_pending q ∧ k ∉ cq_busy q | _ => True end.

#[export] Instance cq_enabled_dec op q : Decision (cq_enabled op q).
Proof. destruct op; apply _. Defined.

#[export] Instance demo_queue : WorkQueue cqueue := {|
  wq_pending q k := k ∈ cq_pending q;
  wq_busy q k := k ∈ cq_busy q;
  wq_step op q q' := cq_enabled op q ∧ q' = cq_apply op q |}.

Lemma cq_add_elem k k' q : k ∈ cq_pending (cq_add k' q) ↔ k = k' ∨ k ∈ cq_pending q.
Proof. simpl. rewrite elem_of_cons, list_elem_of_filter. destruct (decide (k = k')); naive_solver. Qed.

#[export] Instance demo_queue_laws : WorkQueueLaws cqueue.
Proof.
  split; simpl.
  - intros op q q' k [_ ->] Hp. destruct op as [k'|k'|k' res|]; cbn [cq_apply takes].
    + right. apply cq_add_elem. auto.
    + simpl. rewrite list_elem_of_filter. destruct (decide (k = k')); auto.
    + right. destruct (again_wanted res); [apply cq_add_elem; auto|done].
    + by right.
  - intros op q q' k [_ ->] Hb. destruct op as [k'|k'|k' res|]; simpl; auto.
    + right. by right.
    + destruct (decide (k = k')); [by left|right].
      destruct (again_wanted res); simpl; by rewrite list_elem_of_filter.
  - intros q q' k [_ ->]. apply cq_add_elem. by left.
  - intros q q' k [[_ ?] ->]. split; [done|left].
  - intros q q' k res [_ ->] Hr. assert (again_wanted res = true) as Ha.
    { unfold again_wanted. destruct (rc_Err res); [done|]. destruct Hr as [|]; [done|]. lia. }
    cbn [cq_apply]. rewrite Ha. apply cq_add_elem. by left.
Qed.

(** ** Running the system *)

Definition configuration : Type := cstate * cqueue.

Definition as_system (c : configuration) : system (S := cstate) (Q := cqueue) :=
  {| sy_state := c.1; sy_queue := c.2; sy_workers := [] |}.

(** A worker takes the key and runs the reconciler to its end. *)
Definition do_reconcile (k : NamespacedName) (c : configuration) : configuration :=
  let '(res, s, _) := run serve (Reconcile reconciler k) c.1 in
  (s, cq_apply (QDone k res) (cq_apply (QGet k) c.2)).

(** The keys of everything the caches show or will show. *)
Definition owner_keys (m : ObjectMeta) : list NamespacedName :=
  (λ ref, {| nn_Namespace := om_Namespace m; nn_Name := or_Name ref |}) <$> om_OwnerReferences m.

Definition shown_keys {O} (meta : O → ObjectMeta) (view : NamespacedName → option O)
    (log : list (NamespacedName * option O)) : list NamespacedName :=
  log.*1 ≫= λ k, match view k with Some x => owner_keys (meta x) | None => [] end.

Definition touched (s s' : cstate) : list NamespacedName :=
  (revision_key <$> ct_workloads s) ++
  shown_keys d_Meta (dview s) (ct_deployments s) ++ shown_keys d_Meta (dview s') (ct_deployments s) ++
  shown_keys s_Meta (sview s) (ct_services s) ++ shown_keys s_Meta (sview s') (ct_services s).

(** An informer delivers [n] events. *)
Definition do_deliver (i : informer) (c : configuration) : configuration :=
  (deliver i c.1, foldr cq_add c.2 (touched c.1 (deliver i c.1))).

Fixpoint do_delivers (i : informer) (n : nat) (c : configuration) : configuration :=
  match n with O => c | S n => do_delivers i n (do_deliver i c) end.

(** All of them deliver all they have. *)
Definition do_sync (c : configuration) : configuration :=
  do_delivers IServices (ct_slag c.1)
    (do_delivers IDeployments (ct_dlag c.1) (do_delivers IWorkloads (ct_wlag c.1) c)).

(** The Deployment controller reports [n] ready replicas. *)
Definition do_rollout (k : NamespacedName) (n : Z) (c : configuration) : configuration :=
  match vget stamp_deployment (ct_deployments c.1) k with
  | Some d => (put_deployment c.1 k (Some (d_with d (d_Meta d) n)), c.2)
  | None => c
  end.

(** Somebody else creates a Deployment. *)
Definition do_foreign (k : NamespacedName) (d : Deployment) (c : configuration) : configuration :=
  (put_deployment c.1 k (Some d), c.2).

Abbreviation steps :=
  (rtc (reserving_step (S := cstate) (Q := cqueue) reconciler controller_spec demo_key)) (only parsing).

Definition views_same (s s' : cstate) : Prop :=
  wview s' = wview s ∧ dview s' = dview s ∧ sview s' = sview s.

Lemma views_notify s s' (q : cqueue) : views_same s s' → notifies controller_spec s s' q q.
Proof.
  intros (Hw & Hd & Hs). split; [apply rtc_refl|]. intros k. left.
  split_and!; intros _; simpl; [by rewrite Hw|intros ???; simpl; by rewrite Hd|intros ???; simpl; by rewrite Hs].
Qed.

Lemma views_reserved s s' : views_same s s' → reserved demo_key s s'.
Proof. intros (Hw & Hd & Hs). split; left; simpl; congruence. Qed.

(** [reserved], decided. *)
Definition controls_b (m : ObjectMeta) (k : NamespacedName) : bool :=
  existsb (λ ref, or_Controller ref && bool_decide (or_Kind ref = "Workload") &&
    bool_decide (k = {| nn_Namespace := om_Namespace m; nn_Name := or_Name ref |})) (om_OwnerReferences m).

Definition noticed_b {O} `{!EqDecision O} (meta : O → ObjectMeta) (k : NamespacedName) (o o' : option O) : bool :=
  bool_decide (o' = o) || from_option (λ x, controls_b (meta x) k) false o ||
  from_option (λ x, controls_b (meta x) k) false o'.

Definition reserved_b (s s' : cstate) : bool :=
  noticed_b d_Meta demo_key (dview s demo_key) (dview s' demo_key) &&
  noticed_b s_Meta demo_key (sview s demo_key) (sview s' demo_key).

Lemma controls_check m k : controls_b m k = true → controlled_by m k.
Proof.
  intros (ref & Hin%list_elem_of_In & Hr)%existsb_exists.
  rewrite !andb_true_iff, !bool_decide_eq_true in Hr. exists ref. tauto.
Qed.

Lemma noticed_check {O} `{!EqDecision O} (meta : O → ObjectMeta) k o o' :
  noticed_b meta k o o' = true → noticed meta k o o'.
Proof.
  unfold noticed_b. rewrite !orb_true_iff, bool_decide_eq_true. intros [[?|Hx]|Hx]; [by left|..]; right.
  - destruct o as [x|]; [|done]. exists x. split; [by left|by apply controls_check].
  - destruct o' as [x|]; [|done]. exists x. split; [by right|by apply controls_check].
Qed.

Lemma reserved_check s s' : reserved_b s s' = true → reserved demo_key s s'.
Proof. intros [?%noticed_check ?%noticed_check]%andb_true_iff. by split. Qed.

(** Writes do not reach the caches at once. *)
Lemma push_views s rev : views_same s (push s rev).
Proof. unfold push. destruct (idle _ _); by repeat split. Qed.

Lemma serve_views c s : views_same s (serve c s).2.
Proof.
  destruct (serve_state c s) as [->|[(rev & _ & ->)|[(k & d & ->)|(k & sv & ->)]]]; try apply push_views; by repeat split.
Qed.

Lemma worker_steps k (p : program ReconcileResult) log s (q : cqueue) :
  let '(res, s', _) := run serve p s in
  ∃ log', steps
    {| sy_state := s; sy_queue := q; sy_workers := [{| wk_key := k; wk_log := log; wk_prog := p |}] |}
    {| sy_state := s'; sy_queue := q; sy_workers := [{| wk_key := k; wk_log := log'; wk_prog := Ret res |}] |}.
Proof.
  revert log s. induction p as [res|c kont IH]; intros log s; simpl; [by exists log|].
  destruct (serve c s) as [a s1] eqn:Hs. specialize (IH a (log ++ [(s, existT c a, s1)]) s1).
  destruct (run serve (kont a) s1) as [[res s'] tr]. destruct IH as [log' IH]. exists log'.
  pose proof (serve_views c s) as Hv. rewrite Hs in Hv. simpl in Hv.
  eapply rtc_l; [|exact IH]. split; [|by apply views_reserved].
  apply (sys_call _ _ s s1 q q [] []); [done|]. by apply views_notify.
Qed.

Lemma reconcile_steps k c :
  cq_enabled (QGet k) c.2 → steps (as_system c) (as_system (do_reconcile k c)).
Proof.
  destruct c as [s q]. intros Hen. unfold do_reconcile. cbn [fst snd].
  pose proof (worker_steps k (Reconcile reconciler k) [] s (cq_apply (QGet k) q)) as Hrun.
  destruct (run serve _ s) as [[res s'] tr]. destruct Hrun as [log Hrun].
  eapply rtc_l.
  { split; [exact (sys_get _ _ s q (cq_apply (QGet k) q) [] k (conj Hen eq_refl))|by apply views_reserved]. }
  etrans; [exact Hrun|]. apply rtc_once. split; [|by apply views_reserved].
  exact (sys_done reconciler controller_spec s' _ (cq_apply (QDone k res) (cq_apply (QGet k) q)) [] [] k log res
           (conj I eq_refl)).
Qed.

Lemma adds_steps ks (q : cqueue) : adds q (foldr cq_add q ks).
Proof.
  induction ks as [|k ks IH]; simpl; [apply rtc_refl|]. eapply rtc_r; [exact IH|].
  exists k. by split.
Qed.

Lemma adds_elem ks (q : cqueue) k : k ∈ ks → k ∈ cq_pending (foldr cq_add q ks).
Proof.
  induction ks as [|k' ks IH]; [by intros ?%elem_of_nil|]. cbn [foldr]. rewrite cq_add_elem, elem_of_cons. naive_solver.
Qed.

Lemma stored_in_key log k w : stored_in log k = Some w → k ∈ revision_key <$> log.
Proof.
  induction log as [|[w'|k'] log IH]; simpl; [done|..]; case_decide; subst; try done;
    rewrite ?elem_of_cons; auto; intros ?%IH; auto.
Qed.

Lemma drop_elem {A} n (l : list A) x : x ∈ drop n l → x ∈ l.
Proof. intros Hx. rewrite <- (take_drop n l), elem_of_app. by right. Qed.

Lemma stored_in_drop n log k : k ∉ revision_key <$> log → stored_in (drop n log) k = None.
Proof.
  intros Hk. destruct (stored_in (drop n log) k) as [w|] eqn:Hs; [|done]. destruct Hk.
  apply stored_in_key in Hs. rewrite fmap_drop in Hs. by eapply drop_elem.
Qed.

(** A key that owns nothing the caches show. *)
Lemma shown_owned {O} (meta : O → ObjectMeta) stampo (log : list (NamespacedName * option O)) n ko x k :
  vget stampo (drop n log) ko = Some x → controlled_by (meta x) k →
  k ∈ shown_keys meta (vget stampo (drop n log)) log.
Proof.
  intros Hx (ref & Hin & _ & _ & ->). apply list_elem_of_bind. exists ko. split.
  - rewrite Hx. by eapply list_elem_of_fmap_2'.
  - apply vget_elem in Hx. rewrite fmap_drop in Hx. by eapply drop_elem.
Qed.

Lemma deliver_steps i c :
  reserved_b c.1 (deliver i c.1) = true → steps (as_system c) (as_system (do_deliver i c)).
Proof.
  destruct c as [s q]. intros Hr. apply rtc_once. split; [|by apply reserved_check].
  apply (sys_move _ _ s (deliver i s) q); [left; left; eauto|].
  split; [apply adds_steps|]. intros k. cbn [fst snd].
  destruct (decide (k ∈ touched s (deliver i s))) as [Hk|Hk]; [right; by apply adds_elem|left].
  unfold touched in Hk. rewrite !not_elem_of_app in Hk. destruct Hk as (Hw & Hd & Hd' & Hs & Hs').
  split_and!; intros _; simpl.
  - unfold wview. simpl. by rewrite !stored_in_drop.
  - intros ko x [Hx|Hx] Hc; [destruct Hd|destruct Hd']; eapply shown_owned; eauto.
  - intros ko x [Hx|Hx] Hc; [destruct Hs|destruct Hs']; eapply shown_owned; eauto.
Qed.

(** The deliveries of a run, checked. *)
Fixpoint reserved_delivers (i : informer) (n : nat) (c : configuration) : bool :=
  match n with
  | O => true
  | S n => reserved_b c.1 (deliver i c.1) && reserved_delivers i n (do_deliver i c)
  end.

Lemma delivers_steps i n c :
  reserved_delivers i n c = true → steps (as_system c) (as_system (do_delivers i n c)).
Proof.
  revert c. induction n as [|n IH]; intros c; [intros _; apply rtc_refl|]. cbn [reserved_delivers do_delivers].
  intros [Hr Hn]%andb_true_iff. etrans; [by apply deliver_steps|by apply IH].
Qed.

Definition reserved_sync (c : configuration) : bool :=
  let c1 := do_delivers IWorkloads (ct_wlag c.1) c in
  let c2 := do_delivers IDeployments (ct_dlag c.1) c1 in
  reserved_delivers IWorkloads (ct_wlag c.1) c && reserved_delivers IDeployments (ct_dlag c.1) c1 &&
  reserved_delivers IServices (ct_slag c.1) c2.

Lemma sync_steps c : reserved_sync c = true → steps (as_system c) (as_system (do_sync c)).
Proof.
  intros [[H1 H2]%andb_true_iff H3]%andb_true_iff. unfold do_sync.
  etrans; [by apply delivers_steps|]. etrans; by apply delivers_steps.
Qed.

Lemma put_steps k d s (q : cqueue) : steps (as_system (s, q)) (as_system (put_deployment s k d, q)).
Proof.
  apply rtc_once. split; [|by apply views_reserved].
  apply (sys_move _ _ s _ q q); [left; right; right; left; eauto|]. apply views_notify. by repeat split.
Qed.

Lemma rollout_steps k n c : steps (as_system c) (as_system (do_rollout k n c)).
Proof.
  destruct c as [s q]. unfold do_rollout. simpl. destruct (vget _ _ k) as [d|]; [apply put_steps|apply rtc_refl].
Qed.

Lemma foreign_steps k d c : steps (as_system c) (as_system (do_foreign k d c)).
Proof. destruct c as [s q]. apply put_steps. Qed.

(** ** A new Workload, from its creation to rest *)

Definition start : configuration :=
  ({| ct_workloads := [creating [] (demo_workload templateIDNginx [] None)]; ct_wlag := 0;
      ct_deployments := []; ct_dlag := 0; ct_services := []; ct_slag := 0 |},
   {| cq_pending := [demo_key]; cq_busy := [] |}).

Definition foreign_key : NamespacedName := {| nn_Namespace := "default"; nn_Name := "other" |}.

(** The first reconciliation adds the finalizer and creates the objects, but finds no
    Deployment in the cache yet, fails and is queued again; meanwhile somebody creates a
    Deployment of their own; after the roll-out the second
    writes the status; the third is woken up by that write and finds nothing to do. *)
Definition created : configuration :=
  do_sync (do_foreign foreign_key (demo_deployment 0) (do_reconcile demo_key start)).
Definition rolled_out : configuration := do_sync (do_rollout demo_key 1 created).
Definition reported : configuration := do_sync (do_reconcile demo_key rolled_out).
Definition resting : configuration := do_reconcile demo_key reported.

Lemma resting_reachable : steps (as_system start) (as_system resting).
Proof.
  etrans; [apply (reconcile_steps demo_key); vm_compute; split; [left|by intros ?%elem_of_nil]|].
  etrans; [apply (foreign_steps foreign_key (demo_deployment 0))|].
  etrans; [apply sync_steps; vm_compute; reflexivity|]. etrans; [apply (rollout_steps demo_key 1)|].
  etrans; [apply sync_steps; vm_compute; reflexivity|].
  etrans; [apply (reconcile_steps demo_key), (bool_decide_unpack _); vm_compute; exact I|].
  etrans; [apply sync_steps; vm_compute; reflexivity|].
  apply (reconcile_steps demo_key), (bool_decide_unpack _). vm_compute. exact I.
Qed.

Definition resting_workload : Workload :=
  default live_workload (stored_in (ct_workloads resting.1) demo_key).

Lemma at_rest_in_desired_state_witness :
  in_desired_state (sy_state (as_system resting)) demo_key resting_workload.
Proof.
  destruct (at_rest_in_desired_state (S := cstate) (Q := cqueue) reconciler (as_system start)
    (as_system resting) demo_key resting_workload) as [[Hd _]|Hrest].
  - split; [done|]. intros k. destruct (decide (k = demo_key)) as [->|Hk]; [right; left|left].
    simpl. unfold wview. simpl. by rewrite decide_False.
  - exact resting_reachable.
  - intros Hp. vm_compute in Hp. by apply elem_of_nil in Hp.
  - intros Hp. vm_compute in Hp. by apply elem_of_nil in Hp.
  - split_and!; intros n Hn; (replace n with 0; [reflexivity|]);
      (assert (n ≤ 0) by (etrans; [exact Hn|vm_compute; constructor])); lia.
  - vm_compute. reflexivity.
  - destruct Hd. vm_compute. reflexivity.
  - exact Hrest.
Defined.

(** ** The second and the third reconciliation *)

Definition outcome (c : configuration) : ReconcileResult * cstate * trace :=
  run serve (Reconcile reconciler demo_key) c.1.

Lemma outcome_exec c : exec (Reconcile reconciler demo_key) (outcome c).2 (outcome c).1.1.
Proof. apply (run_exec serve _ c.1 _ (outcome c).1.2). by rewrite <- !surjective_pairing. Qed.

Definition written_by (c : configuration) : Workload :=
  default live_workload (head (omap status_written (outcome c).2)).
Definition read_by (c : configuration) : Deployment :=
  default (demo_deployment 0) (head (omap deployment_read (outcome c).2)).

Lemma run_events {X} (P : event answer → Prop) (p : program X) s :
  (∀ c s, P (existT c (serve c s).1)) → Forall P (run serve p s).2.
Proof.
  intros HP. revert s. induction p as [x|c k IH]; intros s; simpl; [constructor|].
  specialize (HP c s) as Hc. destruct (serve c s) as [a s1]. simpl in Hc. specialize (IH a s1).
  destruct (run serve (k a) s1) as [[x s'] tr]. by constructor.
Qed.

Lemma outcome_stored c : Forall status_stored (outcome c).2.
Proof.
  apply run_events. intros e s. destruct e; try done. simpl.
  destruct (put_workload s w (KStatusUpdateWorkload w)) as [[w'|err] s'] eqn:Hp; simpl; [|done].
  pose proof (wrote_status (S := cstate) s s' w w') as Hw. simpl in Hw. by destruct (Hw Hp).
Qed.

(** [finds], decided. *)
Definition finds_b (w : Workload) (ready : Z) (e : event answer) : bool :=
  match e with
  | existT (KGetWorkload _) r => match r with Ok w' => bool_decide (w' = w) | Err _ => false end
  | existT (KGetDeployment _) r => match r with Ok d => (d_ReadyReplicas d =? ready)%Z | Err _ => false end
  | existT (KCreateOrUpdateDeployment _ _) r => is_ok r
  | existT (KCreateOrUpdateService _ _) r => is_ok r
  | existT (KStatusUpdateWorkload w') r =>
      match r with Ok w'' => bool_decide (w_Status w'' = w_Status w') | Err _ => false end
  | _ => true
  end.

Lemma finds_check w ready tr : forallb (finds_b w ready) tr = true → Forall (finds w ready) tr.
Proof.
  rewrite forallb_forall, Forall_forall. intros Hb e He%list_elem_of_In. specialize (Hb e He). revert Hb.
  destruct e as [[] r]; simpl; try done; destruct r; try done; rewrite ?bool_decide_eq_true, ?Z.eqb_eq;
    intros; subst; eauto.
Qed.

Lemma reconcile_idempotent_witness :
  Forall (silent resting_workload) (outcome reported).2 ∧ (outcome reported).1.1 = done_result.
Proof.
  apply (reconcile_idempotent reconciler demo_key (outcome rolled_out).2 (written_by rolled_out)
           resting_workload resting_workload (read_by rolled_out)).
  - pose proof (outcome_exec rolled_out) as He.
    assert ((outcome rolled_out).1.1 = done_result) as Hd by (vm_compute; reflexivity).
    rewrite Hd in He. exact He.
  - apply outcome_stored.
  - apply (list_elem_of_lookup_2 _ 7). vm_compute. reflexivity.
  - apply (list_elem_of_lookup_2 _ 5). vm_compute. reflexivity.
  - split_and!; vm_compute; reflexivity.
  - apply outcome_exec.
  - apply finds_check. vm_compute. reflexivity.
Defined.
