(* ===== verification/OperatorWitnesses.v ===== *)
(** * OperatorWitnesses: the theorems about the whole operator at work

    Start-up in a concrete environment, and concurrent tasks on the store of [Etcd]. *)

From S2P Require Import Prelude.
From S2P Require Import Effects.
From S2P Require Import Go.
From S2P Require Import Json.
From S2P Require Import Api.
From S2P Require Import Manager.
From S2P Require Import Calls.
From S2P Require Import Catalog.
From S2P Require Import CatalogTemplates.
From S2P Require Import Controller.
From S2P Require Import ControllerFacts.
From S2P Require Import ControllerSchema.
From S2P Require Import Provisioning.
From S2P Require Import TokenStore.
From S2P Require Import Metrics.
From S2P Require Import ConvexClient.
From S2P Require Import Runnable.
From S2P Require Import Claims.
From S2P Require Import Termination.
From S2P Require Import Gateway.
From S2P Require Import Proxy.
From S2P Require Import Server.
From S2P Require Import ServerFacts.
From S2P Require Import Cluster.
From S2P Require Import Main.
From S2P Require Import MainFacts.
From S2P Require Import Access.
From S2P Require Import Etcd.
From S2P Require Import Concrete.
From S2P Require Import Witnesses.
From S2P Require Import ServerWitnesses.

(** ** Interleavings on one store *)

Definition etcd_answer (env : Env) (c : call) (log : list revision) : answer c :=
  match c with
  | KGetWorkload key =>
      match stored_in log key with Some w => Ok w | None => Err (EStatus SNotFound "not found") end
  | KUpdateWorkload w =>
      match write_revision (KUpdateWorkload w) log with Some _ => Ok w | None => Err conflict end
  | c => respond env c
  end.

Definition etcd_handle (env : Env) (c : call) (wo : world (list revision)) : answer c * world (list revision) :=
  let r := etcd_answer env c (wo_state wo) in
  (r, {| wo_state := match write_revision c (wo_state wo) with
                     | Some rev => rev :: wo_state wo | None => wo_state wo end;
         wo_log := wo_log wo ++ [(wo_state wo, Operator (existT c r),
                     match write_revision c (wo_state wo) with
                     | Some rev => rev :: wo_state wo | None => wo_state wo end)] |}).

Lemma etcd_handle_srv env c wo : world_srv c wo (etcd_handle env c wo).1 (etcd_handle env c wo).2.
Proof.
  exists (wo_state wo), []. split; [constructor|]. split; [done|]. split; [|done]. simpl. split.
  - destruct c; simpl; try done. destruct (stored_in _ _) eqn:Hs; [|done]. by apply stored_in_seen in Hs as [? _].
  - destruct (write_revision _ _); eauto.
Qed.

(** A Workload under deletion that two workers reconcile at once: the second one loses
    the race for the update. *)
Definition terminating : Workload := demo_workload templateIDNginx [workloadFinalizer] (Some 5%Z).

Definition demo_tasks : list task := [TReconcile demo_key; TReconcile demo_key].

Definition demo_schedule : list nat := [0; 1; 0; 1; 0; 1].

Definition demo_start : world (list revision) := {| wo_state := [Put terminating]; wo_log := [] |}.

Definition demo_end : list (program unit) * world (list revision) :=
  pool_run (etcd_handle demo_env) demo_schedule (task_program <$> demo_tasks) demo_start.

Lemma finalizer_survives_interleaving_witness :
  api_stored (wo_state demo_end.2) demo_key = None ∧
  (protected (wo_state demo_end.2) demo_key "uid-1" ∨ released (wo_log demo_end.2) demo_key "uid-1" ∨
   taken_off (wo_log demo_end.2) demo_key "uid-1").
Proof.
  split; [vm_compute; reflexivity|].
  apply (finalizer_survives_interleaving demo_tasks [Put terminating] demo_end.1 demo_end.2 []
    [Put terminating] (Operator (existT (KGetWorkload demo_key) (Ok (stamp 0 terminating)))) [Put terminating]
    (tail (wo_log demo_end.2)) demo_key "uid-1").
  - unfold demo_end. rewrite <- surjective_pairing. apply pool_run_steps, etcd_handle_srv.
  - vm_compute. reflexivity.
  - exists (stamp 0 terminating). split; [vm_compute; reflexivity|]. split; [reflexivity|]. left.
Defined.

(** ** Start-up *)

Definition demo_environ (interval : string) : environ :=
  {[ "CONVEX_BASE_URL" := "https://convex"; "OPERATOR_NAME" := "op"; "OPERATOR_EXTERNAL_URL" := "https://op";
     "POD_NAMESPACE" := "system"; "WORKLOAD_NAMESPACE" := "apps"; "HEARTBEAT_INTERVAL" := interval ]}.

Definition demo_setup (interval : string) : program (result goerr Wiring) :=
  setupConvexIntegration (demo_environ interval) "https://10.0.0.1".

Definition setup_trace (interval : string) : trace := trace_of demo_env (demo_setup interval).

Definition demo_wiring (interval : string) : Wiring :=
  match result_of demo_env (demo_setup interval) with
  | Ok w => w
  | Err _ => {| wire_tracker := demo_tracker; wire_runnable := demo_runnable;
                wire_reporter := {| rp_collector := {| cl_namespace := "" |}; rp_interval := 0 |};
                wire_server := demo_server |}
  end.

Lemma setup_ok_10s : exec (demo_setup "10s") (setup_trace "10s") (Ok (demo_wiring "10s")).
Proof.
  replace (Ok (demo_wiring "10s")) with (result_of demo_env (demo_setup "10s")) by (vm_compute; reflexivity).
  apply play_exec.
Qed.

Lemma setup_wires_operator_witness :
  rn_heartbeatInterval (wire_runnable (demo_wiring "10s")) = (10 * second)%Z ∧
  wired (demo_environ "10s") (setup_trace "10s") (demo_wiring "10s").
Proof.
  split; [vm_compute; reflexivity|].
  exact (setup_wires_operator (demo_environ "10s") "https://10.0.0.1" _ _ setup_ok_10s).
Defined.

(** What works with ten seconds starts up with zero, and panics. *)
Definition doomed_start : option goerr * Runnable :=
  result_of register_env (Start (wire_runnable (demo_wiring "0s")) 3).

Lemma nonpositive_interval_fatal_witness :
  doomed_start.1 = Some EPanic ∧
  ∃ w', exec (setupConvexIntegration (set_interval "0s" (demo_environ "10s")) "https://10.0.0.1")
          (setup_trace "10s") (Ok w') ∧
    rn_heartbeatInterval (wire_runnable w') = 0%Z ∧
    ∀ n tr' res r', exec (Start (wire_runnable w') n) tr' (res, r') → res ≠ None.
Proof.
  split; [vm_compute; reflexivity|].
  apply (nonpositive_interval_fatal (demo_environ "10s") "https://10.0.0.1" "0s" 0%Z
    (setup_trace "10s") (demo_wiring "10s")).
  - vm_compute. reflexivity.
  - discriminate.
  - lia.
  - exact setup_ok_10s.
Defined.

Definition demo_main : program Z := main default_flags (demo_environ "10s") "https://10.0.0.1".

Lemma startup_reads_uncached_witness :
  length (trace_of demo_env demo_main) = 19 ∧
  Forall (λ e, ¬ reads_cache (manager_options default_flags) (projT1 e)) (trace_of demo_env demo_main).
Proof.
  split; [vm_compute; reflexivity|].
  exact (startup_reads_uncached default_flags (demo_environ "10s") "https://10.0.0.1" _ _ (play_exec demo_env demo_main)).
Defined.

Lemma manager_started_when_ready_witness :
  result_of demo_env demo_main = 0%Z ∧
  guarded start_guard [] (trace_of demo_env demo_main) ∧
  exit_code_spec (trace_of demo_env demo_main) (result_of demo_env demo_main).
Proof.
  split; [vm_compute; reflexivity|].
  exact (manager_started_when_ready default_flags (demo_environ "10s") "https://10.0.0.1" _ _ (play_exec demo_env demo_main)).
Defined.

(** ** Access *)

Definition started_operator : option goerr * Runnable :=
  result_of register_env (Start (wire_runnable (demo_wiring "10s")) 1).

Definition manage_request : Request := demo_request "GET" ["workloads"; "web"] None "Bearer dt" [] None.

Definition managed : program Response :=
  serve_linked started_operator.2 (wire_server (demo_wiring "10s")) manage_request.

Lemma management_needs_issued_token_witness :
  resp_status (result_of demo_env managed) = Some StatusOK ∧
  ∃ e sec, e ∈ trace_of register_env (Start (wire_runnable (demo_wiring "10s")) 1) ∧
    (stored_secret e = Some sec ∨ read_secret e = Some sec) ∧
    DeployToken (secret_tokens sec) ≠ "" ∧ "Bearer dt" = "Bearer " +:+ DeployToken (secret_tokens sec).
Proof.
  split; [vm_compute; reflexivity|].
  refine (proj2 (management_needs_issued_token (demo_environ "10s") "https://10.0.0.1" (setup_trace "10s")
    (demo_wiring "10s") 1 (trace_of register_env (Start (wire_runnable (demo_wiring "10s")) 1))
    started_operator.2 manage_request (trace_of demo_env managed) (result_of demo_env managed)
    setup_ok_10s _) _ (play_exec _ _) _).
  - vm_compute. reflexivity.
  - replace (None, started_operator.2) with started_operator by (vm_compute; reflexivity). apply play_exec.
  - vm_compute. discriminate.
Defined.

(** ** Schema and budgets *)

Lemma written_status_valid_witness :
  length (trace_of demo_env demo_reconcile) = 8 ∧ guarded schema_guard [] (trace_of demo_env demo_reconcile).
Proof.
  split; [vm_compute; reflexivity|].
  exact (written_status_valid reconciler demo_key _ _ (play_exec demo_env demo_reconcile)).
Defined.

Lemma heartbeat_calls_bounded_witness :
  length (trace_of register_env (heartbeatOnce demo_runnable)) ≤
    45 + sum_list_with nodes_listed (trace_of register_env (heartbeatOnce demo_runnable)) ∧
  kinds (trace_of register_env (heartbeatOnce demo_runnable)) ⊆+ heartbeat_kinds (rn_client demo_runnable).
Proof. exact (heartbeat_calls_bounded demo_runnable _ _ (play_exec register_env _)). Defined.

Lemma reconcile_calls_bounded_witness :
  length (trace_of demo_env demo_reconcile) ≤ 11 + sum_list_with conditions_listed (trace_of demo_env demo_reconcile).
Proof. exact (reconcile_calls_bounded reconciler demo_key _ _ (play_exec demo_env demo_reconcile)). Defined.

(** ** Claims over a run of the loop *)

(** One answer for all endpoints: tokens, two offers of a request, and the claim. *)
Definition offer : json := JObject [("workloadId", JString "row-1"); ("templateId", JString templateIDNginx)].

Definition loop_env : Env := status_env 200 (JObject [
  ("heartbeatToken", JString "hb"); ("deployToken", JString "dt"); ("claimable", JArray [offer; offer]);
  ("workloadId", JString "row-1"); ("templateId", JString templateIDNginx);
  ("templateVersion", JString (t_Version Nginx)); ("userId", JString "alice")]).

Definition demo_loop : program (option goerr * Runnable) := Start demo_runnable 2.

Lemma one_workload_per_claim_witness :
  count created_for "row-1" (trace_of loop_env demo_loop) = 4 ∧
  guarded (create_guard (cf_BaseURL (rn_client demo_runnable))) [] (trace_of loop_env demo_loop).
Proof.
  split; [vm_compute; reflexivity|].
  exact (one_workload_per_claim demo_runnable 2 _ _ (play_exec loop_env demo_loop)).
Defined.
