(* ===== verification/Memory.v ===== *)
(** * Memory: the deep copies at work

    A concrete layout for the structs of [k8s.io] that a Workload is made of: each has
    at most one pointer, to a map of labels or to some bytes.  With it the generated
    copies run, and their theorem holds of an object with every field set. *)

From S2P Require Import Prelude.
From S2P Require Import Api.
From S2P Require Import DeepCopy.

(** What a pointer of a third-party struct refers to. *)
Inductive payload :=
| PMap (m : gmap string string)
| PBytes (b : string).

(** A struct: its plain fields and its pointer. *)
Abbreviation struct S := (S * option positive)%type (only parsing).

#[export] Instance demo_mem : MemTypes := {|
  MObjectMeta := struct ObjectMeta; MListMeta := struct string; MEnvVar := struct EnvVar;
  MJSON := struct unit; MCondition := struct Condition; MOther := payload |}.

Section layout.
  Context {S V : Type} (build : S → option payload → V) (s0 : S).

Definition struct_rep (x : struct S) (v : V) (h : gmap positive cell) : Prop :=
  match x.2 with
  | None => v = build x.1 None
  | Some p => ∃ o, h !! p = Some (COther o) ∧ v = build x.1 (Some o)
  end.

Definition struct_copy (x : struct S) : heapM (struct S) := λ h,
  match x.2 with
  | None => Some (x, h)
  | Some p =>
      match h !! p with
      | Some c => let q := fresh (dom h) in Some ((x.1, Some q), <[q := c]> h)
      | None => None
      end
  end.

Definition struct_copyable : DeepCopyable (struct S) V :=
  {| rep := struct_rep; zero := (s0, None); DeepCopyInto := struct_copy |}.

Lemma struct_laws : @DeepCopyLaws _ (struct S) V struct_copyable.
Proof.
  constructor.
  - intros [s [p|]] v h h' Hh; [|done]. intros (o & Ho & ->). exists o.
    split; [by eapply lookup_weaken|done].
  - intros [s [p|]] v h Hr; [destruct Hr as (o & Ho & ->)|].
    + exists (s, Some (fresh (dom h))), {[fresh (dom h) := COther o]}.
      assert (h !! fresh (dom h) = None) as Hf by apply not_elem_of_dom, is_fresh.
      split_and!; [|by apply map_disjoint_singleton_l_2|].
      * simpl. unfold struct_copy. simpl in *. by rewrite Ho, insert_union_singleton_l.
      * exists o. simpl. by rewrite lookup_singleton_eq.
    + exists (s, None), ∅. rewrite map_empty_union.
      split_and!; [done|apply map_disjoint_empty_l|done].
Qed.
End layout.

Definition build_meta (m : ObjectMeta) (o : option payload) : ObjectMeta :=
  match o with Some (PMap l) => meta_with_labels m l | _ => m end.
Definition build_env (e : EnvVar) (o : option payload) : EnvVar :=
  match o with
  | Some (PBytes b) => {| ev_Name := ev_Name e; ev_Value := ev_Value e; ev_ValueFrom := Some b |}
  | _ => e
  end.
Definition build_json (_ : unit) (o : option payload) : string :=
  match o with Some (PBytes b) => b | _ => "" end.
Definition build_plain {A} (a : A) (_ : option payload) : A := a.

#[export] Instance demo_types : ResourceTypes := {|
  LM := string;
  copy_ObjectMeta := struct_copyable build_meta (named_meta "" "");
  copy_ListMeta := struct_copyable build_plain "";
  copy_EnvVar := struct_copyable build_env (env_var "" "");
  copy_JSON := struct_copyable build_json tt;
  copy_Condition := struct_copyable build_plain {|
    co_Type := ""; co_Status := ""; co_ObservedGeneration := 0; co_LastTransitionTime := 0;
    co_Reason := ""; co_Message := "" |};
|}.

#[export] Instance demo_laws : ResourceLaws.
Proof. constructor; apply struct_laws. Qed.

(** A Workload with two replicas, an environment, a configuration and labels. *)
Definition demo_struct : MWorkload := {|
  mw_TypeMeta := {| tm_Kind := "Workload"; tm_APIVersion := "apps.aicloud.dev/v1alpha1" |};
  mw_ObjectMeta := (named_meta "team" "web", Some 2%positive);
  mw_Spec := {|
    ms_TemplateName := ""; ms_Image := "nginx"; ms_Replicas := Some 3%positive;
    ms_ContainerPort := 80;
    ms_Env := Some {| sl_array := 4%positive; sl_offset := 1; sl_len := 1 |};
    ms_Subdomain := ""; ms_UserID := "u1"; ms_Config := Some 6%positive;
    ms_Suspended := false; ms_LastRedeployedAt := "" |};
  mw_Status := {| mst_Phase := "Running"; mst_ReadyReplicas := 2; mst_ObservedGeneration := 1;
                  mst_Conditions := None |} |}.

Definition demo_json : @MJSON demo_mem := (tt, Some 7%positive).

Definition demo_heap : gmap positive cell := {[
  1%positive := CWorkload demo_struct;
  2%positive := COther (PMap {[ "app" := "web" ]});
  3%positive := CInt32 2;
  4%positive := CEnvVars [(env_var "A" "1", None); (env_var "B" "", Some 5%positive)];
  5%positive := COther (PBytes "secret/key");
  6%positive := CJSON demo_json;
  7%positive := COther (PBytes "{}") ]}.

Definition demo_value : TypeMeta * Workload :=
  ({| tm_Kind := "Workload"; tm_APIVersion := "apps.aicloud.dev/v1alpha1" |},
   {| w_Meta := meta_with_labels (named_meta "team" "web") {[ "app" := "web" ]};
      w_Spec := {|
        ws_TemplateName := ""; ws_Image := "nginx"; ws_Replicas := Some 2%Z;
        ws_ContainerPort := 80;
        ws_Env := [{| ev_Name := "B"; ev_Value := ""; ev_ValueFrom := Some "secret/key" |}];
        ws_Subdomain := ""; ws_UserID := "u1"; ws_Config := Some "{}";
        ws_Suspended := false; ws_LastRedeployedAt := "" |};
      w_Status := {| wst_Phase := "Running"; wst_ReadyReplicas := 2;
                     wst_ObservedGeneration := 1; wst_Conditions := [] |} |}).

Lemma demo_denotes :
  rep_object (OWorkload (Some 1%positive)) (VWorkload demo_value) demo_heap.
Proof.
  exists (CWorkload demo_struct), demo_struct. split_and!; try reflexivity.
  unfold rep, workload_copy, rep_workload, rep_spec, rep_status. split_and!; try reflexivity.
  - exists (PMap {[ "app" := "web" ]}). split; reflexivity.
  - exists (CInt32 2), 2%Z. split_and!; reflexivity.
  - eexists _, [(env_var "A" "1", None); (env_var "B" "", Some 5%positive)].
    split_and!; [reflexivity|reflexivity| |reflexivity].
    constructor; [|constructor]. exists (PBytes "secret/key"). split; reflexivity.
  - exists (CJSON demo_json), demo_json. split_and!; try reflexivity.
    exists (PBytes "{}"). split; reflexivity.
Qed.

(** The copy is at a new address, and changing the replicas of the copy leaves those of
    the original. *)
Lemma deep_copy_isolated_witness :
  ∃ o' h', DeepCopyObject (OWorkload (Some 1%positive)) demo_heap = Some (Some o', h') ∧
    rep_object o' (VWorkload demo_value) h' ∧ o' ≠ OWorkload (Some 1%positive) ∧
    rep_object o' (VWorkload demo_value) (<[3%positive := CInt32 9]> h').
Proof.
  destruct (deep_copy_isolated (OWorkload (Some 1%positive)) (VWorkload demo_value) demo_heap
              demo_denotes) as (o' & h' & Hrun & Hr & Hcopy & Horig).
  exists o', h'. split_and!; [done|done| |].
  - intros ->. vm_compute in Hrun. discriminate.
  - apply Hcopy. intros p Hp. rewrite lookup_insert_ne; [done|].
    intros <-. apply Hp, elem_of_dom. eexists. reflexivity.
Defined.
